(** * MNQ delta-trend strategy: calculator and trader

    A shallow embedding of [src/strategies/mnq-delta-trend/calculator.ts]
    and [src/strategies/mnq-delta-trend/trader.ts], and the properties of
    the bar aggregator, the signal generator, the stop state machine and
    the execution coordinator that the specification states.

    Conventions of the embedding.
    - A JavaScript [number] is a rational or [NaN].  Arithmetic is exact:
      binary rounding, overflow and the infinities are not represented.
      What is stated over these numbers rests on comparisons, [Math.max],
      [Math.min], [Math.floor], [Math.trunc], control flow and the
      arithmetic of whole-number volumes.  Where a result depends on how
      binary64 rounds a sum, a product or a quotient, the function is
      embedded a second time over binary64 floats (module [F64]) and the
      property is stated there.
    - Wall-clock instants ([Date.now()]) and durations in milliseconds are
      integers; every function that reads the clock takes the reading as an
      argument.
    - Objects mutated in place (the calculator, the market state, the
      trader) are passed in and returned.
    - An [async] method is cut at its [await]s: the part up to the first
      suspension is one function, each resumption another, and the
      coordinator state records what is in flight. *)

From Stdlib Require Import ZArith QArith Qround Qabs Lqa Lia Bool List Ascii String.
From stdpp Require Import gmap strings.
Import ListNotations.

Local Open Scope Z_scope.

(** ** JavaScript numbers *)

Module JS.

Inductive number : Type :=
| Fin (q : Q)
| NaN.

(** [Number.isFinite] *)
Definition isFinite (x : number) : bool :=
  match x with Fin _ => true | NaN => false end.

Definition lift1 (f : Q -> Q) (x : number) : number :=
  match x with Fin a => Fin (f a) | NaN => NaN end.

Definition lift2 (f : Q -> Q -> Q) (x y : number) : number :=
  match x, y with Fin a, Fin b => Fin (f a b) | _, _ => NaN end.

Definition cmp2 (f : Q -> Q -> bool) (x y : number) : bool :=
  match x, y with Fin a, Fin b => f a b | _, _ => false end.

Definition Qlt_bool (a b : Q) : bool := negb (Qle_bool b a).

Definition add := lift2 Qplus.
Definition sub := lift2 Qminus.
Definition mul := lift2 Qmult.
Definition neg := lift1 Qopp.
(** [x / y]; a zero divisor gives a non-finite result. *)
Definition div (x y : number) : number :=
  match x, y with
  | Fin a, Fin b => if Qeq_bool b 0 then NaN else Fin (a / b)
  | _, _ => NaN
  end.

(** Comparisons are [false] as soon as one side is [NaN]. *)
Definition ltb := cmp2 Qlt_bool.
Definition leb := cmp2 Qle_bool.
Definition gtb (x y : number) := ltb y x.
Definition geb (x y : number) := leb y x.
(** [x === y] on numbers *)
Definition eqb := cmp2 Qeq_bool.

Definition Qmax' (a b : Q) : Q := if Qle_bool a b then b else a.
Definition Qmin' (a b : Q) : Q := if Qle_bool a b then a else b.

(** [Math.max], [Math.min], [Math.abs], [Math.trunc], [Math.floor] *)
Definition max := lift2 Qmax'.
Definition min := lift2 Qmin'.
Definition abs := lift1 Qabs.
Definition Qtrunc (a : Q) : Q :=
  inject_Z (if Qle_bool 0 a then Qfloor a else Qceiling a).
Definition trunc := lift1 Qtrunc.
Definition floor := lift1 (fun a => inject_Z (Qfloor a)).

Definition ofZ (z : Z) : number := Fin (inject_Z z).

(** [Number(x) || 0]: [NaN] and [0] both give [0]. *)
Definition orZero (x : number) : number :=
  match x with Fin a => Fin a | NaN => Fin 0 end.

(** Equality of numbers as values: rationals up to [Qeq]. *)
Definition equiv (x y : number) : Prop :=
  match x, y with
  | Fin a, Fin b => a == b
  | NaN, NaN => True
  | _, _ => False
  end.

(** [Math.max(...xs)] over a non-empty argument list ([-Infinity] on the
    empty list is outside the number model). *)
Definition maxList (xs : list number) : number :=
  match xs with
  | [] => NaN
  | x :: r => fold_left max r x
  end.

Definition minList (xs : list number) : number :=
  match xs with
  | [] => NaN
  | x :: r => fold_left min r x
  end.

End JS.

Import JS.

Declare Scope js_scope.
Delimit Scope js_scope with js.
Bind Scope js_scope with number.
Infix "+" := JS.add : js_scope.
Infix "-" := JS.sub : js_scope.
Infix "*" := JS.mul : js_scope.
Infix "/" := JS.div : js_scope.
Infix "<?" := JS.ltb : js_scope.
Infix "<=?" := JS.leb : js_scope.
Infix ">?" := JS.gtb : js_scope.
Infix ">=?" := JS.geb : js_scope.
Infix "=?" := JS.eqb : js_scope.
Infix "≃" := JS.equiv (at level 70) : type_scope.

(** [a ?? d] *)
Definition nullish {A} (o : option A) (d : A) : A :=
  match o with Some a => a | None => d end.
Infix "??" := nullish (at level 45, left associativity).

(** ** Data model ([types.ts] is not part of the sources; the fields are
    the ones the calculator and the trader read and write) *)

Inductive Direction := long | short.
Inductive Trend := bullish | bearish | neutral.
Inductive Signal := buy | sell | hold | exit.

Record BarData := mkBar {
  timestamp : string;
  open : number;
  high : number;
  low : number;
  close : number;
  volume : option number;
  delta : option number
}.

Record MarketState := mkMarketState {
  atr : number;
  higherTimeframeTrend : Trend;
  deltaCumulative : number
}.

(** The [reason] of a signal is a diagnostic message; each message of the
    source is a constructor, with the values its template interpolates. *)
Inductive Reason :=
| WarmUpInProgress
| OutOfSession
| HitStopReason (stop : number)
| SameBarReentryBlocked
| AtrNotAbove (a : number) (threshold : Q)
| DeltaSmaNotReady
| BarCloseFade (currAbs peakAbs : number)
| LtfEmaLongNotPassed
| LtfEmaShortNotPassed
| LongEntry (d : number)
| ShortEntry (d : number)
| NoSignal
| WarmUpIncomplete
| AlreadyInPosition
| OutOfSessionIntra
| AccumBelow (ms : Z)
| NeedConfirms (n : Z)
| Cooldown
| EmaNotReady
| AtrGateFailed
| IntraFade (currAbs peakAbs : number)
| EmaFilter
| IntraLongEntry (d : number)
| IntraShortEntry (d : number)
| NoIntraSignal.

Record TradeSignal := mkSignal {
  signal : Signal;
  reason : Reason;
  confidence : Q
}.

Record StrategyConfig := mkConfig {
  tradingStartTime : option string;
  tradingEndTime : option string;
  deltaSMALength : option Z;
  deltaSpikeThreshold : option Q;
  deltaSurgeMultiplier : option Q;
  breakoutLookbackBars : option Z;
  emaLength : option Z;
  useEmaFilter : bool;
  htfEMALength : option Z;
  higherTimeframe : option Z;
  htfUseForming : bool;
  atrStopLossMultiplier : option Q;
  minAtrToTrade : option Q;
  minBarsBeforeExit : option Z;
  atrCap : option Q;
  useAtrCap : bool;
  tickExitGraceMs : option Z;
  trailActivationATR : option Q;
  trailOffsetATR : option Q;
  deltaFadeRatio : option Q;
  contractQuantity : option Q;
  useIntraBarDetection : bool;
  intraBarCheckIntervalMs : option Z;
  intraBarMinAccumulationMs : option Z;
  intraBarConfirmationChecks : option Z;
  intraBarConfirmationWindowMs : option Z;
  sendWebhook : bool
}.

Record Position := mkPosition {
  entryPrice : number;
  entryTime : Z;
  direction : Direction;
  stopLoss : number;
  atrSeedForStop : number;
  atrSeedForTrail : number
}.

Record IntraDelta := mkIntraDelta {
  idDelta : number;
  idTimestamp : Z
}.

(** The fields of [MNQDeltaTrendCalculator]. *)
Record Calculator := mkCalculator {
  config : StrategyConfig;
  bars3min : list BarData;
  bars15min : list BarData;
  isWarmUpProcessed : bool;
  currentPosition : option Position;
  trailingStopLevel : number;
  trailArmed : bool;
  noTrailBeforeMs : Z;
  lastHTFBucketStartMs : option (option Z);
  intraBarDeltaHistory : list IntraDelta;
  lastIntraBarSignalTime : Z;
  lastEntryBarTimestamp : option string;
  atrAtSignal : number
}.

(** Field updates ([this.f = v]). *)
Definition set_bars3min (v : list BarData) (c : Calculator) : Calculator :=
  mkCalculator (config c) v (bars15min c) (isWarmUpProcessed c)
    (currentPosition c) (trailingStopLevel c) (trailArmed c) (noTrailBeforeMs c)
    (lastHTFBucketStartMs c) (intraBarDeltaHistory c) (lastIntraBarSignalTime c)
    (lastEntryBarTimestamp c) (atrAtSignal c).

Definition set_bars15min (v : list BarData) (c : Calculator) : Calculator :=
  mkCalculator (config c) (bars3min c) v (isWarmUpProcessed c)
    (currentPosition c) (trailingStopLevel c) (trailArmed c) (noTrailBeforeMs c)
    (lastHTFBucketStartMs c) (intraBarDeltaHistory c) (lastIntraBarSignalTime c)
    (lastEntryBarTimestamp c) (atrAtSignal c).

Definition set_isWarmUpProcessed (v : bool) (c : Calculator) : Calculator :=
  mkCalculator (config c) (bars3min c) (bars15min c) v
    (currentPosition c) (trailingStopLevel c) (trailArmed c) (noTrailBeforeMs c)
    (lastHTFBucketStartMs c) (intraBarDeltaHistory c) (lastIntraBarSignalTime c)
    (lastEntryBarTimestamp c) (atrAtSignal c).

Definition set_currentPosition (v : option Position) (c : Calculator) : Calculator :=
  mkCalculator (config c) (bars3min c) (bars15min c) (isWarmUpProcessed c)
    v (trailingStopLevel c) (trailArmed c) (noTrailBeforeMs c)
    (lastHTFBucketStartMs c) (intraBarDeltaHistory c) (lastIntraBarSignalTime c)
    (lastEntryBarTimestamp c) (atrAtSignal c).

Definition set_trailingStopLevel (v : number) (c : Calculator) : Calculator :=
  mkCalculator (config c) (bars3min c) (bars15min c) (isWarmUpProcessed c)
    (currentPosition c) v (trailArmed c) (noTrailBeforeMs c)
    (lastHTFBucketStartMs c) (intraBarDeltaHistory c) (lastIntraBarSignalTime c)
    (lastEntryBarTimestamp c) (atrAtSignal c).

Definition set_trailArmed (v : bool) (c : Calculator) : Calculator :=
  mkCalculator (config c) (bars3min c) (bars15min c) (isWarmUpProcessed c)
    (currentPosition c) (trailingStopLevel c) v (noTrailBeforeMs c)
    (lastHTFBucketStartMs c) (intraBarDeltaHistory c) (lastIntraBarSignalTime c)
    (lastEntryBarTimestamp c) (atrAtSignal c).

Definition set_noTrailBeforeMs (v : Z) (c : Calculator) : Calculator :=
  mkCalculator (config c) (bars3min c) (bars15min c) (isWarmUpProcessed c)
    (currentPosition c) (trailingStopLevel c) (trailArmed c) v
    (lastHTFBucketStartMs c) (intraBarDeltaHistory c) (lastIntraBarSignalTime c)
    (lastEntryBarTimestamp c) (atrAtSignal c).

Definition set_lastHTFBucketStartMs (v : option (option Z)) (c : Calculator) : Calculator :=
  mkCalculator (config c) (bars3min c) (bars15min c) (isWarmUpProcessed c)
    (currentPosition c) (trailingStopLevel c) (trailArmed c) (noTrailBeforeMs c)
    v (intraBarDeltaHistory c) (lastIntraBarSignalTime c)
    (lastEntryBarTimestamp c) (atrAtSignal c).

Definition set_intraBarDeltaHistory (v : list IntraDelta) (c : Calculator) : Calculator :=
  mkCalculator (config c) (bars3min c) (bars15min c) (isWarmUpProcessed c)
    (currentPosition c) (trailingStopLevel c) (trailArmed c) (noTrailBeforeMs c)
    (lastHTFBucketStartMs c) v (lastIntraBarSignalTime c)
    (lastEntryBarTimestamp c) (atrAtSignal c).

Definition set_lastIntraBarSignalTime (v : Z) (c : Calculator) : Calculator :=
  mkCalculator (config c) (bars3min c) (bars15min c) (isWarmUpProcessed c)
    (currentPosition c) (trailingStopLevel c) (trailArmed c) (noTrailBeforeMs c)
    (lastHTFBucketStartMs c) (intraBarDeltaHistory c) v
    (lastEntryBarTimestamp c) (atrAtSignal c).

Definition set_lastEntryBarTimestamp (v : option string) (c : Calculator) : Calculator :=
  mkCalculator (config c) (bars3min c) (bars15min c) (isWarmUpProcessed c)
    (currentPosition c) (trailingStopLevel c) (trailArmed c) (noTrailBeforeMs c)
    (lastHTFBucketStartMs c) (intraBarDeltaHistory c) (lastIntraBarSignalTime c)
    v (atrAtSignal c).

Definition set_atrAtSignal (v : number) (c : Calculator) : Calculator :=
  mkCalculator (config c) (bars3min c) (bars15min c) (isWarmUpProcessed c)
    (currentPosition c) (trailingStopLevel c) (trailArmed c) (noTrailBeforeMs c)
    (lastHTFBucketStartMs c) (intraBarDeltaHistory c) (lastIntraBarSignalTime c)
    (lastEntryBarTimestamp c) v.

(** The calculator as its constructor leaves it. *)
Definition newCalculator (cfg : StrategyConfig) : Calculator :=
  mkCalculator cfg [] [] false None (Fin 0) false 0 None [] 0 None (Fin 0).

(** ** What the calculator takes from outside the repository's sources

    [Date] and [Intl.DateTimeFormat] belong to the host; [calculateEMA] is
    the method of [utils/technical.ts], which is not among the sources. *)
Class Env := {
  (** [new Date(ms).toISOString()] *)
  toISOString : Z -> string;
  (** [new Date(s).getTime()]; [None] is [NaN] (an invalid date) *)
  getTime : string -> option Z;
  (** The [hour:minute] text [Intl.DateTimeFormat] gives for the instant
      [s] in [America/New_York]; [None] when formatting throws. *)
  formatNewYork : string -> option string;
  (** [TechnicalCalculator.calculateEMA(series, length)] *)
  calculateEMA : list number -> Z -> list number
}.

(** ** Array and string helpers *)

(** [arr[arr.length - 1]] *)
Definition lastOf {A} (l : list A) : option A := last l.

(** [arr.push(x)] followed by [if (arr.length > cap) arr.shift()] *)
Definition pushCapped {A} (cap : nat) (l : list A) (x : A) : list A :=
  let l' := l ++ [x] in
  if (cap <? length l')%nat then tl l' else l'.

(** [Array.prototype.slice(s, e)], negative indices counting from the end. *)
Definition sliceIdx (len i : Z) : Z :=
  if i <? 0 then Z.max 0 (len + i) else Z.min i len.

Definition slice {A} (l : list A) (s e : Z) : list A :=
  let len := Z.of_nat (length l) in
  let s' := sliceIdx len s in
  let e' := sliceIdx len e in
  firstn (Z.to_nat (e' - s')) (skipn (Z.to_nat s') l).

(** [arr[i]] for a number [i] *)
Definition at_ {A} (l : list A) (i : Z) : option A :=
  if i <? 0 then None else l !! Z.to_nat i.

(** [s.split(sep)] for a one-character separator *)
Fixpoint splitOn (sep : ascii) (s : string) : list string :=
  match s with
  | EmptyString => [EmptyString]
  | String ch r =>
      if Ascii.eqb ch sep then EmptyString :: splitOn sep r
      else match splitOn sep r with
           | [] => [String ch EmptyString]
           | h :: t => String ch h :: t
           end
  end.

Definition digitOf (ch : ascii) : option Z :=
  let n := Z.of_nat (nat_of_ascii ch) in
  if (48 <=? n) && (n <=? 57) then Some (n - 48) else None.

Fixpoint parseDigits (s : string) (acc : option Z) : option Z :=
  match s with
  | EmptyString => acc
  | String ch r =>
      match digitOf ch with
      | Some d => parseDigits r (Some ((acc ?? 0) * 10 + d))
      | None => acc
      end
  end.

Fixpoint skipSpaces (s : string) : string :=
  match s with
  | String ch r => if Ascii.eqb ch " "%char then skipSpaces r else s
  | EmptyString => s
  end.

(** [parseInt(s, 10)]: optional blanks and sign, then the leading decimal
    digits; [None] is [NaN]. *)
Definition parseInt10 (s : string) : option Z :=
  match skipSpaces s with
  | String "-"%char r => Z.opp <$> parseDigits r None
  | String "+"%char r => parseDigits r None
  | s' => parseDigits s' None
  end.

(** [const [h, m] = s.split(':').map(n => parseInt(n, 10)); h * 60 + m] *)
Definition minutesOfClock (s : string) : option Z :=
  match parseInt10 <$> splitOn ":"%char s with
  | Some h :: Some m :: _ => Some (h * 60 + m)
  | _ => None
  end.

(** ** The calculator ([calculator.ts]) *)

Module Calc.
Section WithEnv.
Context `{Env}.
Local Open Scope js_scope.

Definition pushIntraBarDelta (d : number) (ts : Z) (c : Calculator) : Calculator :=
  set_intraBarDeltaHistory (intraBarDeltaHistory c ++ [mkIntraDelta d ts]) c.

Definition resetState (c : Calculator) : Calculator :=
  set_atrAtSignal (Fin 0)
    (set_trailArmed false
      (set_trailingStopLevel (Fin 0)
        (set_currentPosition None
          (set_lastEntryBarTimestamp None
            (set_lastIntraBarSignalTime 0%Z
              (set_intraBarDeltaHistory []
                (set_lastHTFBucketStartMs None c))))))).

(** [isInTradingSession]: the [catch] branch is the formatter throwing. *)
Definition isInTradingSession (c : Calculator) (ts : string) : bool :=
  match formatNewYork ts with
  | None => false
  | Some hhmm =>
      let currentMinutes := minutesOfClock hhmm in
      let startMinutes := minutesOfClock (tradingStartTime (config c) ?? "09:30"%string) in
      let endMinutes := minutesOfClock (tradingEndTime (config c) ?? "15:55"%string) in
      match currentMinutes, startMinutes, endMinutes with
      | Some cm, Some sm, Some em => ((sm <=? cm) && (cm <=? em))%Z
      | _, _, _ => false
      end
  end.

(** [Number.isFinite(x)] for a field that may be absent. *)
Definition isFiniteOpt (x : option number) : bool :=
  match x with Some v => isFinite v | None => false end.

(** The [delta] both [processWarmUpBar] and [processNewBar] give the bar
    they store: the bar's own finite delta truncated, else the bar's volume
    signed by its close against the previous close. *)
Definition normalizedDelta (prevClose : number) (bar : BarData) : number :=
  let vol := if isFiniteOpt (volume bar) then volume bar ?? Fin 0 else Fin 0 in
  let signedVol :=
    if isFinite prevClose && isFinite (close bar)
    then (if close bar >? prevClose then vol
          else if close bar <? prevClose then neg vol else Fin 0)
    else Fin 0 in
  match delta bar with
  | Some d => if isFinite d then trunc d else trunc signedVol
  | None => trunc signedVol
  end.

Definition withDelta (d : number) (b : BarData) : BarData :=
  mkBar (timestamp b) (open b) (high b) (low b) (close b) (volume b) (Some d).

Inductive Timeframe := TF3min | TFHTF.

Definition processWarmUpBar (bar : BarData) (tf : Timeframe) (c : Calculator) : Calculator :=
  let arr := match tf with TF3min => bars3min c | TFHTF => bars15min c end in
  let prevClose := match lastOf arr with Some b => close b | None => NaN end in
  let normalized := withDelta (normalizedDelta prevClose bar) bar in
  match tf with
  | TF3min => set_bars3min (pushCapped 2000 arr normalized) c
  | TFHTF => set_bars15min (pushCapped 1000 arr normalized) c
  end.

Definition updateHigherTimeframeBars (bar : BarData) (c : Calculator) : Calculator :=
  let htfMin := Z.max 1 (higherTimeframe (config c) ?? 15%Z) in
  let stepMs := (htfMin * 60 * 1000)%Z in
  let tsMs := getTime (timestamp bar) in
  let bucketStartMs := (fun t => (t / stepMs) * stepMs)%Z <$> tsMs in
  let advanced :=
    match lastHTFBucketStartMs c with
    | None => true
    | Some prev =>
        match bucketStartMs, prev with
        | Some b, Some p => (p <? b)%Z
        | _, _ => false
        end
    end in
  match lastOf (bars15min c) with
  | Some last_ =>
      if advanced then
        set_lastHTFBucketStartMs (Some bucketStartMs)
          (set_bars15min (pushCapped 1000 (bars15min c) bar) c)
      else
        let merged :=
          mkBar (timestamp last_) (open last_)
            (max (high last_) (high bar))
            (min (low last_) (low bar))
            (close bar)
            (Some ((volume last_ ?? Fin 0) + (volume bar ?? Fin 0)))
            (match delta bar with
             | Some d => Some ((delta last_ ?? Fin 0) + d)
             | None => delta last_
             end) in
        set_bars15min (removelast (bars15min c) ++ [merged]) c
  | None =>
      set_lastHTFBucketStartMs (Some bucketStartMs)
        (set_bars15min (pushCapped 1000 (bars15min c) bar) c)
  end.

(** *** ATR *)

Definition period : nat := 14.

Definition validOHLC (b : BarData) : bool :=
  isFinite (open b) && isFinite (high b) && isFinite (low b) && isFinite (close b).

(** The first loop of [calculateATR], run over the history from its end:
    keep valid bars until [n] of them are collected. *)
Fixpoint takeValid (n : nat) (newestFirst : list BarData) : list BarData :=
  match n, newestFirst with
  | O, _ => []
  | _, [] => []
  | S k, b :: r => if validOHLC b then b :: takeValid k r else takeValid n r
  end.

Definition trueRange (prev cur : BarData) : number :=
  max (max (high cur - low cur) (abs (high cur - close prev)))
      (abs (low cur - close prev)).

(** [for (i = 1; i < validTail.length; i++) tr.push(...)] *)
Fixpoint trueRangesFrom (prev : BarData) (rest : list BarData) : list number :=
  match rest with
  | [] => []
  | b :: r => trueRange prev b :: trueRangesFrom b r
  end.

Definition trueRanges (bars : list BarData) : list number :=
  match bars with
  | [] => []
  | b :: r => trueRangesFrom b r
  end.

Definition wilder (a t : number) : number :=
  (a * ofZ (Z.of_nat period - 1) + t) / ofZ (Z.of_nat period).

(** The sum and the quotient are exact here; [F64.calculateATR] is the
    function with every operation rounded to binary64. *)
Definition calculateATR (c : Calculator) : number :=
  if (length (bars3min c) <? period + 1)%nat then NaN else
  let validTail := takeValid (period + 1) (rev (bars3min c)) in
  if (length validTail <? period + 1)%nat then NaN else
  let validTail := rev validTail in
  let tr := trueRanges validTail in
  if (length tr <? period)%nat then NaN else
  let seed := fold_left add (firstn period tr) (Fin 0) / ofZ (Z.of_nat period) in
  fold_left wilder (skipn period tr) seed.

(** *** EMA filter, trend, breakout *)

Record EmaFilterResult := mkEma {
  passLong : bool;
  passShort : bool;
  lastClose : number;
  lastEma : number
}.

Definition lastNum (l : list number) : number := lastOf l ?? NaN.

Definition checkLtfEmaFilter (c : Calculator) : EmaFilterResult :=
  if negb (useEmaFilter (config c)) then
    mkEma true true (match lastOf (bars3min c) with Some b => close b | None => NaN end) NaN
  else
    let L := Z.max 1 (emaLength (config c) ?? 21%Z) in
    let closes := close <$> bars3min c in
    if (Z.of_nat (length closes) <? L)%Z then mkEma false false NaN NaN
    else
      let emaSeries := calculateEMA closes L in
      let lc := lastNum closes in
      let le := lastNum emaSeries in
      mkEma (lc >? le) (lc <? le) lc le.

Definition determineTrend (c : Calculator) : Trend :=
  let n := Z.of_nat (length (bars15min c)) in
  if (n <? 2)%Z then neutral else
  let L := Z.max 1 (htfEMALength (config c) ?? 9%Z) in
  let lastIdx := if htfUseForming (config c) then (n - 1)%Z else (n - 2)%Z in
  if (lastIdx <? 0)%Z then neutral else
  let closes := close <$> slice (bars15min c) 0 (lastIdx + 1) in
  if (Z.of_nat (length closes) <? L)%Z then neutral else
  let emaSeries := calculateEMA closes L in
  let px := lastNum closes in
  let ema := lastNum emaSeries in
  if px >? ema then bullish else if px <? ema then bearish else neutral.

Record Breakout := mkBreakout {
  brokeUpCloseTol : bool;
  brokeDownCloseTol : bool
}.

Definition checkBreakoutCloseTol (c : Calculator) : Breakout :=
  let n := Z.max 1 (breakoutLookbackBars (config c) ?? 20%Z) in
  let len := Z.of_nat (length (bars3min c)) in
  if (len <? n + 1)%Z then mkBreakout false false else
  let recent := slice (bars3min c) (- n - 1) (-1) in
  let lc := match lastOf (bars3min c) with Some b => close b | None => NaN end in
  let hi := maxList (high <$> recent) in
  let lo := minList (low <$> recent) in
  mkBreakout (lc >? hi * Fin 0.995) (lc <? lo * Fin 1.005).

Definition checkBreakoutCloseTolForming (c : Calculator) (forming : BarData) : Breakout :=
  let n := Z.max 1 (breakoutLookbackBars (config c) ?? 20%Z) in
  let len := Z.of_nat (length (bars3min c)) in
  if (len <? n)%Z then mkBreakout false false else
  let window := slice (bars3min c) (- n) len in
  let hi := maxList (high <$> window) in
  let lo := minList (low <$> window) in
  mkBreakout (close forming >? hi * Fin 0.995) (close forming <? lo * Fin 1.005).

(** *** Exit at bar close *)

Definition holdSignal (r : Reason) : TradeSignal := mkSignal hold r 0.

Definition afterEntry (entry : Z) (b : BarData) : bool :=
  match getTime (timestamp b) with
  | Some t => (entry <? t)%Z
  | None => false
  end.

(** [this.bars3min.filter(b => new Date(b.timestamp).getTime() > entryTime).length] *)
Definition barsSinceEntry (c : Calculator) (entry : Z) : Z :=
  Z.of_nat (length (List.filter (afterEntry entry) (bars3min c))).

Definition checkExitConditions (c : Calculator) (bar : BarData) : option TradeSignal :=
  match currentPosition c with
  | None => None
  | Some p =>
      let minBars := Z.max 0 (minBarsBeforeExit (config c) ?? 0%Z) in
      if (barsSinceEntry c (entryTime p) <? minBars)%Z then None
      else
        match direction p with
        | long =>
            if low bar <=? stopLoss p
            then Some (mkSignal sell (HitStopReason (stopLoss p)) 1)
            else None
        | short =>
            if high bar >=? stopLoss p
            then Some (mkSignal buy (HitStopReason (stopLoss p)) 1)
            else None
        end
  end.

(** *** Signed-delta average *)

(** [bars[i].delta ?? (bars[i].close - (bars[i - 1]?.close ?? bars[i].open))];
    the loop of [smaSignedDelta] only reads indices inside the array. *)
Definition deltaAt (bars : list BarData) (i : Z) : number :=
  match at_ bars i with
  | Some b =>
      match delta b with
      | Some d => d
      | None =>
          close b - (match at_ bars (i - 1) with
                     | Some p => close p
                     | None => open b
                     end)
      end
  | None => NaN
  end.

(** The sum and the quotient are exact here; [F64.smaSignedDelta] is the
    function in binary64, where a sum of finite deltas can overflow. *)
Definition smaSignedDelta (c : Calculator) (n endIndex : Z) : number :=
  if (endIndex <? 0)%Z then NaN else
  let start := Z.max 0 (endIndex - n + 1) in
  if (endIndex - start + 1 <? n)%Z then NaN else
  let sum :=
    fold_left (fun s i => s + orZero (deltaAt (bars3min c) i))
              (seqZ start (endIndex - start + 1)) (Fin 0) in
  sum / ofZ n.

(** *** Entry signals *)

Record Gates := mkGates {
  gBrokeUp : bool;
  gBrokeDown : bool;
  gPassLong : bool;
  gPassShort : bool
}.

(** [htf === 'bullish'], [htf === 'bearish'] *)
Definition isTrend (t u : Trend) : bool :=
  match t, u with
  | bullish, bullish | bearish, bearish | neutral, neutral => true
  | _, _ => false
  end.

(** [this.lastEntryBarTimestamp === bar.timestamp] *)
Definition sameTimestamp (lastTs : option string) (ts : string) : bool :=
  match lastTs with
  | Some s => String.eqb s ts
  | None => false
  end.

(** [peakAbs === 0 || currAbs >= peakAbs * (deltaFadeRatio ?? 0.7)]; the
    product is exact here, [F64.fadeOk] compares with the rounded one. *)
Definition fadeOk (c : Calculator) (peakAbs currAbs : number) : bool :=
  (peakAbs =? Fin 0) || (currAbs >=? peakAbs * Fin (deltaFadeRatio (config c) ?? 0.7%Q)).

(** "Fade check for bar-close path": the hold it produces, if any. *)
Definition barCloseFade (c : Calculator) (d : number) : option Reason :=
  let nbars := Z.of_nat (length (bars3min c)) in
  if (2 <=? nbars)%Z then
    let prevDelta :=
      match at_ (bars3min c) (nbars - 2) with
      | Some pb => delta pb ?? Fin 0
      | None => Fin 0
      end in
    let peakAbs := max (abs prevDelta) (abs d) in
    let currAbs := abs d in
    if fadeOk c peakAbs currAbs then None
    else Some (BarCloseFade currAbs peakAbs)
  else None.

Definition generateSignal (c : Calculator) (bar : BarData) (ms : MarketState)
    (gates : Gates) : Calculator * TradeSignal :=
  if sameTimestamp (lastEntryBarTimestamp c) (timestamp bar)
  then (c, holdSignal SameBarReentryBlocked) else
  let a := atr ms in
  let atrThreshold := minAtrToTrade (config c) ?? 0%Q in
  if negb (isFinite a && (a >? Fin atrThreshold))
  then (c, holdSignal (AtrNotAbove a atrThreshold)) else
  let spike := deltaSpikeThreshold (config c) ?? 450%Q in
  let d := delta bar ?? Fin 0 in
  let len := Z.max 1 (deltaSMALength (config c) ?? 20%Z) in
  let deltaSMA := smaSignedDelta c len (Z.of_nat (length (bars3min c)) - 1) in
  if negb (isFinite deltaSMA) then (c, holdSignal DeltaSmaNotReady) else
  match barCloseFade c d with
  | Some r => (c, holdSignal r)
  | None =>
      let surgeMult := deltaSurgeMultiplier (config c) ?? 1.8%Q in
      let longThreshold := abs deltaSMA * Fin surgeMult in
      let shortThreshold := neg (abs deltaSMA) * Fin surgeMult in
      let passDeltaLong := (d >? Fin spike) && (d >? longThreshold) in
      let passDeltaShort := (d <? neg (Fin spike)) && (d <? shortThreshold) in
      let htf := higherTimeframeTrend ms in
      if passDeltaLong && isTrend htf bullish && gBrokeUp gates then
        if useEmaFilter (config c) && negb (gPassLong gates)
        then (c, holdSignal LtfEmaLongNotPassed)
        else (set_lastEntryBarTimestamp (Some (timestamp bar)) c,
              mkSignal buy (LongEntry d) 0.9)
      else if passDeltaShort && isTrend htf bearish && gBrokeDown gates then
        if useEmaFilter (config c) && negb (gPassShort gates)
        then (c, holdSignal LtfEmaShortNotPassed)
        else (set_lastEntryBarTimestamp (Some (timestamp bar)) c,
              mkSignal sell (ShortEntry d) 0.9)
      else (c, holdSignal NoSignal)
  end.

Definition generateSignalForFormingBar (c : Calculator) (formingBar : BarData)
    (ms : MarketState) (gates : Gates) : TradeSignal :=
  let a := atr ms in
  let atrThreshold := minAtrToTrade (config c) ?? 0%Q in
  if negb (isFinite a && (a >? Fin atrThreshold)) then holdSignal AtrGateFailed else
  let spike := deltaSpikeThreshold (config c) ?? 450%Q in
  let d := delta formingBar ?? Fin 0 in
  let len := Z.max 1 (deltaSMALength (config c) ?? 20%Z) in
  let deltaSMA := smaSignedDelta c len (Z.of_nat (length (bars3min c)) - 1) in
  if negb (isFinite deltaSMA) then holdSignal DeltaSmaNotReady else
  let surgeMult := deltaSurgeMultiplier (config c) ?? 1.8%Q in
  let longThreshold := abs deltaSMA * Fin surgeMult in
  let shortThreshold := neg (abs deltaSMA) * Fin surgeMult in
  let peakAbs :=
    maxList (((fun e => abs (idDelta e)) <$> intraBarDeltaHistory c) ++ [abs d; Fin 0]) in
  let currAbs := abs d in
  let ok := fadeOk c peakAbs currAbs in
  if negb ok then holdSignal (IntraFade currAbs peakAbs) else
  let passDeltaLong := (d >? Fin spike) && (d >? longThreshold) && ok in
  let passDeltaShort := (d <? neg (Fin spike)) && (d <? shortThreshold) && ok in
  let htf := higherTimeframeTrend ms in
  if passDeltaLong && isTrend htf bullish && gBrokeUp gates then
    if useEmaFilter (config c) && negb (gPassLong gates)
    then holdSignal EmaFilter
    else mkSignal buy (IntraLongEntry d) 0.85
  else if passDeltaShort && isTrend htf bearish && gBrokeDown gates then
    if useEmaFilter (config c) && negb (gPassShort gates)
    then holdSignal EmaFilter
    else mkSignal sell (IntraShortEntry d) 0.85
  else holdSignal NoIntraSignal.

(** *** Position and stops *)

Definition resetIntraBarTracking (c : Calculator) : Calculator :=
  set_intraBarDeltaHistory [] c.

Definition clearCooldowns (c : Calculator) : Calculator :=
  set_lastEntryBarTimestamp None (set_lastIntraBarSignalTime 0%Z c).

Definition clearPosition (c : Calculator) : Calculator :=
  set_trailArmed false (set_trailingStopLevel (Fin 0) (set_currentPosition None c)).

Definition hasPosition (c : Calculator) : bool :=
  match currentPosition c with Some _ => true | None => false end.

Definition getPositionDirection (c : Calculator) : option Direction :=
  direction <$> currentPosition c.

(** The stop distance and the stop are exact here; binary64 rounds both.
    What is stated of the stop is what rounding keeps: the formula, the
    side of the entry it can be on, and the comparisons with it. *)
Definition setPosition (entry : number) (dir : Direction) (atrForTrail : option number)
    (now : Z) (c : Calculator) : Calculator :=
  let liveAtr :=
    match atrForTrail with
    | Some a => if a >? Fin 0 then a else atrAtSignal c
    | None => atrAtSignal c
    end in
  let seedForStop :=
    if useAtrCap (config c) then min liveAtr (Fin (atrCap (config c) ?? 16%Q))
    else liveAtr in
  let seedForTrail := liveAtr in
  let slDist := seedForStop * Fin (atrStopLossMultiplier (config c) ?? 0.75%Q) in
  let stop := match dir with long => entry - slDist | short => entry + slDist end in
  set_noTrailBeforeMs (now + (tickExitGraceMs (config c) ?? 0%Z))%Z
    (set_trailArmed false
      (set_trailingStopLevel stop
        (set_currentPosition
           (Some (mkPosition entry now dir stop seedForStop seedForTrail)) c))).

Definition captureAtrAtSignal (a : number) (c : Calculator) : Calculator :=
  set_atrAtSignal a c.

Inductive StopResult := none | hitStop | hitTrail.

(** [onTickForProtectiveStops(lastPrice, _atrNow)]: the second argument is
    not read and is left out; [now] is the reading of [Date.now()]. *)
Definition onTickForProtectiveStops (lastPrice : number) (now : Z) (c : Calculator)
    : Calculator * StopResult :=
  match currentPosition c with
  | None => (c, none)
  | Some p =>
      if negb (isFinite lastPrice) then (c, none) else
      let stop := stopLoss p in
      let seed := atrSeedForTrail p in
      if match direction p with
         | long => lastPrice <=? stop
         | short => lastPrice >=? stop
         end
      then (c, hitStop)
      else if (now <? noTrailBeforeMs c)%Z then (c, none)
      else if negb (isFinite seed) || (seed <=? Fin 0) then (c, none)
      else
        let act := seed * Fin (trailActivationATR (config c) ?? 0.125%Q) in
        let off := seed * Fin (trailOffsetATR (config c) ?? 0.125%Q) in
        match direction p with
        | long =>
            let c1 :=
              if negb (trailArmed c) && (lastPrice - entryPrice p >=? act)
              then set_trailingStopLevel (max stop (lastPrice - off)) (set_trailArmed true c)
              else c in
            if trailArmed c1 then
              let candidate := max stop (lastPrice - off) in
              let c2 :=
                if candidate >? trailingStopLevel c1
                then set_trailingStopLevel candidate c1 else c1 in
              if lastPrice <=? trailingStopLevel c2 then (c2, hitTrail) else (c2, none)
            else (c1, none)
        | short =>
            let c1 :=
              if negb (trailArmed c) && (entryPrice p - lastPrice >=? act)
              then set_trailingStopLevel (min stop (lastPrice + off)) (set_trailArmed true c)
              else c in
            if trailArmed c1 then
              let candidate := min stop (lastPrice + off) in
              let c2 :=
                if candidate <? trailingStopLevel c1
                then set_trailingStopLevel candidate c1 else c1 in
              if lastPrice >=? trailingStopLevel c2 then (c2, hitTrail) else (c2, none)
            else (c1, none)
        end
  end.

(** [calculatePositionSize(currentPrice, atr, accountBalance)];
    [currentPrice] is not read.  The products and the quotient are exact
    here; binary64 rounds the quotient before [Math.floor].  What is stated
    of the size is what rounding keeps: the bounds 1 and the contract cap. *)
Definition calculatePositionSize (c : Calculator) (currentPrice a accountBalance : number)
    : number :=
  let riskAmount := accountBalance * Fin 0.01 in
  let riskPerContract := a * Fin (atrStopLossMultiplier (config c) ?? 0.75%Q) in
  if negb (isFinite riskPerContract) || (riskPerContract <=? Fin 0) then Fin 1
  else
    let size := floor (riskAmount / riskPerContract) in
    min (max (Fin 1) size) (Fin (contractQuantity (config c) ?? 1%Q)).

(** *** Warm-up and bar close *)

Definition completeWarmUp (c : Calculator) : Calculator :=
  set_isWarmUpProcessed true c.

Definition processNewBar (c : Calculator) (incoming : BarData) (ms : MarketState)
    : Calculator * MarketState * TradeSignal :=
  if negb (isWarmUpProcessed c) then (c, ms, holdSignal WarmUpInProgress) else
  let prevClose3m := match lastOf (bars3min c) with Some b => close b | None => NaN end in
  let bar := withDelta (normalizedDelta prevClose3m incoming) incoming in
  let c1 := set_bars3min (pushCapped 2000 (bars3min c) bar) c in
  let c2 := updateHigherTimeframeBars bar c1 in
  let a := calculateATR c2 in
  let trend := determineTrend c2 in
  let bo := checkBreakoutCloseTol c2 in
  let ema := checkLtfEmaFilter c2 in
  let ms' :=
    mkMarketState (if isFinite a then a else Fin 0) trend
                  (deltaCumulative ms + (delta bar ?? Fin 0)) in
  if negb (isInTradingSession c2 (timestamp incoming))
  then (c2, ms', holdSignal OutOfSession) else
  match checkExitConditions c2 bar with
  | Some exitSignal => (c2, ms', exitSignal)
  | None =>
      let '(c3, s) :=
        generateSignal c2 bar ms'
          (mkGates (brokeUpCloseTol bo) (brokeDownCloseTol bo) (passLong ema) (passShort ema)) in
      (c3, ms', s)
  end.

(** *** Forming-bar evaluation *)

Definition isHold (s : Signal) : bool :=
  match s with hold => true | _ => false end.

Definition evaluateFormingBar (c : Calculator) (formingBar : BarData) (ms : MarketState)
    (accumulationTimeMs : Z) (nowMs : Z) : Calculator * MarketState * TradeSignal :=
  if negb (isWarmUpProcessed c) then (c, ms, holdSignal WarmUpIncomplete) else
  if hasPosition c then (c, ms, holdSignal AlreadyInPosition) else
  if negb (isInTradingSession c (timestamp formingBar))
  then (c, ms, holdSignal OutOfSessionIntra) else
  let minAccumMs := intraBarMinAccumulationMs (config c) ?? 3000%Z in
  if (accumulationTimeMs <? minAccumMs)%Z then (c, ms, holdSignal (AccumBelow minAccumMs)) else
  let confirmWindowMs := intraBarConfirmationWindowMs (config c) ?? 500%Z in
  let recentHistory :=
    List.filter (fun e => (nowMs - idTimestamp e <=? confirmWindowMs)%Z)
                (intraBarDeltaHistory c) in
  let required := intraBarConfirmationChecks (config c) ?? 3%Z in
  if (Z.of_nat (length recentHistory) <? required)%Z
  then (c, ms, holdSignal (NeedConfirms required)) else
  if (nowMs - lastIntraBarSignalTime c <? 2000)%Z then (c, ms, holdSignal Cooldown) else
  let a := calculateATR c in
  let trend := determineTrend c in
  let bo := checkBreakoutCloseTolForming c formingBar in
  let le := lastEma (checkLtfEmaFilter c) in
  if useEmaFilter (config c) && negb (isFinite le) then (c, ms, holdSignal EmaNotReady) else
  let pl := negb (useEmaFilter (config c)) || (close formingBar >? le) in
  let ps := negb (useEmaFilter (config c)) || (close formingBar <? le) in
  let ms' := mkMarketState (if isFinite a then a else Fin 0) trend (deltaCumulative ms) in
  let s :=
    generateSignalForFormingBar c formingBar ms'
      (mkGates (brokeUpCloseTol bo) (brokeDownCloseTol bo) pl ps) in
  let c' := if negb (isHold (signal s)) then set_lastIntraBarSignalTime nowMs c else c in
  (c', ms', s).

End WithEnv.
End Calc.

(** ** The trader ([trader.ts]) *)

Record GatewayQuote := mkQuote {
  quoteContractId : string;
  lastPrice : number;
  quoteVolume : option number
}.

(** The fields of [MNQDeltaTrendTrader]; the heartbeat timer is the
    [Heartbeat] event of the coordinator below. *)
Record Trader := mkTrader {
  traderConfig : StrategyConfig;
  contractId : string;
  symbol : string;
  calculator : Calculator;
  lastPriceByContract : gmap string number;
  lastCumVolByContract : gmap string number;
  signedVolInBarByContract : gmap string number;
  volInBarByContract : gmap string number;
  prevClosedBarClose : option number;
  barOpenPx : option number;
  barHighPx : option number;
  barLowPx : option number;
  barStartMs : option Z;
  liveBarOpen : option number;
  liveBarHigh : option number;
  liveBarLow : option number;
  liveBarStartMs : option Z;
  lastIntraBarCheckMs : Z;
  enteredBarStartMs : option Z;
  isEnteringPosition : bool;
  running : bool;
  isFlattening : bool;
  reconciling : bool;
  marketState : MarketState
}.

Definition set_calculator (v : Calculator) (t : Trader) : Trader :=
  mkTrader (traderConfig t) (contractId t) (symbol t) v (lastPriceByContract t)
    (lastCumVolByContract t) (signedVolInBarByContract t) (volInBarByContract t)
    (prevClosedBarClose t) (barOpenPx t) (barHighPx t) (barLowPx t) (barStartMs t)
    (liveBarOpen t) (liveBarHigh t) (liveBarLow t) (liveBarStartMs t)
    (lastIntraBarCheckMs t) (enteredBarStartMs t) (isEnteringPosition t) (running t)
    (isFlattening t) (reconciling t) (marketState t).

Definition set_lastPriceByContract (v : gmap string number) (t : Trader) : Trader :=
  mkTrader (traderConfig t) (contractId t) (symbol t) (calculator t) v
    (lastCumVolByContract t) (signedVolInBarByContract t) (volInBarByContract t)
    (prevClosedBarClose t) (barOpenPx t) (barHighPx t) (barLowPx t) (barStartMs t)
    (liveBarOpen t) (liveBarHigh t) (liveBarLow t) (liveBarStartMs t)
    (lastIntraBarCheckMs t) (enteredBarStartMs t) (isEnteringPosition t) (running t)
    (isFlattening t) (reconciling t) (marketState t).

Definition set_lastCumVolByContract (v : gmap string number) (t : Trader) : Trader :=
  mkTrader (traderConfig t) (contractId t) (symbol t) (calculator t)
    (lastPriceByContract t) v (signedVolInBarByContract t) (volInBarByContract t)
    (prevClosedBarClose t) (barOpenPx t) (barHighPx t) (barLowPx t) (barStartMs t)
    (liveBarOpen t) (liveBarHigh t) (liveBarLow t) (liveBarStartMs t)
    (lastIntraBarCheckMs t) (enteredBarStartMs t) (isEnteringPosition t) (running t)
    (isFlattening t) (reconciling t) (marketState t).

Definition set_signedVolInBarByContract (v : gmap string number) (t : Trader) : Trader :=
  mkTrader (traderConfig t) (contractId t) (symbol t) (calculator t)
    (lastPriceByContract t) (lastCumVolByContract t) v (volInBarByContract t)
    (prevClosedBarClose t) (barOpenPx t) (barHighPx t) (barLowPx t) (barStartMs t)
    (liveBarOpen t) (liveBarHigh t) (liveBarLow t) (liveBarStartMs t)
    (lastIntraBarCheckMs t) (enteredBarStartMs t) (isEnteringPosition t) (running t)
    (isFlattening t) (reconciling t) (marketState t).

Definition set_volInBarByContract (v : gmap string number) (t : Trader) : Trader :=
  mkTrader (traderConfig t) (contractId t) (symbol t) (calculator t)
    (lastPriceByContract t) (lastCumVolByContract t) (signedVolInBarByContract t) v
    (prevClosedBarClose t) (barOpenPx t) (barHighPx t) (barLowPx t) (barStartMs t)
    (liveBarOpen t) (liveBarHigh t) (liveBarLow t) (liveBarStartMs t)
    (lastIntraBarCheckMs t) (enteredBarStartMs t) (isEnteringPosition t) (running t)
    (isFlattening t) (reconciling t) (marketState t).

Definition set_prevClosedBarClose (v : option number) (t : Trader) : Trader :=
  mkTrader (traderConfig t) (contractId t) (symbol t) (calculator t)
    (lastPriceByContract t) (lastCumVolByContract t) (signedVolInBarByContract t)
    (volInBarByContract t) v (barOpenPx t) (barHighPx t) (barLowPx t) (barStartMs t)
    (liveBarOpen t) (liveBarHigh t) (liveBarLow t) (liveBarStartMs t)
    (lastIntraBarCheckMs t) (enteredBarStartMs t) (isEnteringPosition t) (running t)
    (isFlattening t) (reconciling t) (marketState t).

Definition set_barOpenPx (v : option number) (t : Trader) : Trader :=
  mkTrader (traderConfig t) (contractId t) (symbol t) (calculator t)
    (lastPriceByContract t) (lastCumVolByContract t) (signedVolInBarByContract t)
    (volInBarByContract t) (prevClosedBarClose t) v (barHighPx t) (barLowPx t)
    (barStartMs t) (liveBarOpen t) (liveBarHigh t) (liveBarLow t) (liveBarStartMs t)
    (lastIntraBarCheckMs t) (enteredBarStartMs t) (isEnteringPosition t) (running t)
    (isFlattening t) (reconciling t) (marketState t).

Definition set_barHighPx (v : option number) (t : Trader) : Trader :=
  mkTrader (traderConfig t) (contractId t) (symbol t) (calculator t)
    (lastPriceByContract t) (lastCumVolByContract t) (signedVolInBarByContract t)
    (volInBarByContract t) (prevClosedBarClose t) (barOpenPx t) v (barLowPx t)
    (barStartMs t) (liveBarOpen t) (liveBarHigh t) (liveBarLow t) (liveBarStartMs t)
    (lastIntraBarCheckMs t) (enteredBarStartMs t) (isEnteringPosition t) (running t)
    (isFlattening t) (reconciling t) (marketState t).

Definition set_barLowPx (v : option number) (t : Trader) : Trader :=
  mkTrader (traderConfig t) (contractId t) (symbol t) (calculator t)
    (lastPriceByContract t) (lastCumVolByContract t) (signedVolInBarByContract t)
    (volInBarByContract t) (prevClosedBarClose t) (barOpenPx t) (barHighPx t) v
    (barStartMs t) (liveBarOpen t) (liveBarHigh t) (liveBarLow t) (liveBarStartMs t)
    (lastIntraBarCheckMs t) (enteredBarStartMs t) (isEnteringPosition t) (running t)
    (isFlattening t) (reconciling t) (marketState t).

Definition set_barStartMs (v : option Z) (t : Trader) : Trader :=
  mkTrader (traderConfig t) (contractId t) (symbol t) (calculator t)
    (lastPriceByContract t) (lastCumVolByContract t) (signedVolInBarByContract t)
    (volInBarByContract t) (prevClosedBarClose t) (barOpenPx t) (barHighPx t)
    (barLowPx t) v (liveBarOpen t) (liveBarHigh t) (liveBarLow t) (liveBarStartMs t)
    (lastIntraBarCheckMs t) (enteredBarStartMs t) (isEnteringPosition t) (running t)
    (isFlattening t) (reconciling t) (marketState t).

Definition set_liveBarOpen (v : option number) (t : Trader) : Trader :=
  mkTrader (traderConfig t) (contractId t) (symbol t) (calculator t)
    (lastPriceByContract t) (lastCumVolByContract t) (signedVolInBarByContract t)
    (volInBarByContract t) (prevClosedBarClose t) (barOpenPx t) (barHighPx t)
    (barLowPx t) (barStartMs t) v (liveBarHigh t) (liveBarLow t) (liveBarStartMs t)
    (lastIntraBarCheckMs t) (enteredBarStartMs t) (isEnteringPosition t) (running t)
    (isFlattening t) (reconciling t) (marketState t).

Definition set_liveBarHigh (v : option number) (t : Trader) : Trader :=
  mkTrader (traderConfig t) (contractId t) (symbol t) (calculator t)
    (lastPriceByContract t) (lastCumVolByContract t) (signedVolInBarByContract t)
    (volInBarByContract t) (prevClosedBarClose t) (barOpenPx t) (barHighPx t)
    (barLowPx t) (barStartMs t) (liveBarOpen t) v (liveBarLow t) (liveBarStartMs t)
    (lastIntraBarCheckMs t) (enteredBarStartMs t) (isEnteringPosition t) (running t)
    (isFlattening t) (reconciling t) (marketState t).

Definition set_liveBarLow (v : option number) (t : Trader) : Trader :=
  mkTrader (traderConfig t) (contractId t) (symbol t) (calculator t)
    (lastPriceByContract t) (lastCumVolByContract t) (signedVolInBarByContract t)
    (volInBarByContract t) (prevClosedBarClose t) (barOpenPx t) (barHighPx t)
    (barLowPx t) (barStartMs t) (liveBarOpen t) (liveBarHigh t) v (liveBarStartMs t)
    (lastIntraBarCheckMs t) (enteredBarStartMs t) (isEnteringPosition t) (running t)
    (isFlattening t) (reconciling t) (marketState t).

Definition set_liveBarStartMs (v : option Z) (t : Trader) : Trader :=
  mkTrader (traderConfig t) (contractId t) (symbol t) (calculator t)
    (lastPriceByContract t) (lastCumVolByContract t) (signedVolInBarByContract t)
    (volInBarByContract t) (prevClosedBarClose t) (barOpenPx t) (barHighPx t)
    (barLowPx t) (barStartMs t) (liveBarOpen t) (liveBarHigh t) (liveBarLow t) v
    (lastIntraBarCheckMs t) (enteredBarStartMs t) (isEnteringPosition t) (running t)
    (isFlattening t) (reconciling t) (marketState t).

Definition set_lastIntraBarCheckMs (v : Z) (t : Trader) : Trader :=
  mkTrader (traderConfig t) (contractId t) (symbol t) (calculator t)
    (lastPriceByContract t) (lastCumVolByContract t) (signedVolInBarByContract t)
    (volInBarByContract t) (prevClosedBarClose t) (barOpenPx t) (barHighPx t)
    (barLowPx t) (barStartMs t) (liveBarOpen t) (liveBarHigh t) (liveBarLow t)
    (liveBarStartMs t) v (enteredBarStartMs t) (isEnteringPosition t) (running t)
    (isFlattening t) (reconciling t) (marketState t).

Definition set_enteredBarStartMs (v : option Z) (t : Trader) : Trader :=
  mkTrader (traderConfig t) (contractId t) (symbol t) (calculator t)
    (lastPriceByContract t) (lastCumVolByContract t) (signedVolInBarByContract t)
    (volInBarByContract t) (prevClosedBarClose t) (barOpenPx t) (barHighPx t)
    (barLowPx t) (barStartMs t) (liveBarOpen t) (liveBarHigh t) (liveBarLow t)
    (liveBarStartMs t) (lastIntraBarCheckMs t) v (isEnteringPosition t) (running t)
    (isFlattening t) (reconciling t) (marketState t).

Definition set_isEnteringPosition (v : bool) (t : Trader) : Trader :=
  mkTrader (traderConfig t) (contractId t) (symbol t) (calculator t)
    (lastPriceByContract t) (lastCumVolByContract t) (signedVolInBarByContract t)
    (volInBarByContract t) (prevClosedBarClose t) (barOpenPx t) (barHighPx t)
    (barLowPx t) (barStartMs t) (liveBarOpen t) (liveBarHigh t) (liveBarLow t)
    (liveBarStartMs t) (lastIntraBarCheckMs t) (enteredBarStartMs t) v (running t)
    (isFlattening t) (reconciling t) (marketState t).

Definition set_running (v : bool) (t : Trader) : Trader :=
  mkTrader (traderConfig t) (contractId t) (symbol t) (calculator t)
    (lastPriceByContract t) (lastCumVolByContract t) (signedVolInBarByContract t)
    (volInBarByContract t) (prevClosedBarClose t) (barOpenPx t) (barHighPx t)
    (barLowPx t) (barStartMs t) (liveBarOpen t) (liveBarHigh t) (liveBarLow t)
    (liveBarStartMs t) (lastIntraBarCheckMs t) (enteredBarStartMs t)
    (isEnteringPosition t) v (isFlattening t) (reconciling t) (marketState t).

Definition set_isFlattening (v : bool) (t : Trader) : Trader :=
  mkTrader (traderConfig t) (contractId t) (symbol t) (calculator t)
    (lastPriceByContract t) (lastCumVolByContract t) (signedVolInBarByContract t)
    (volInBarByContract t) (prevClosedBarClose t) (barOpenPx t) (barHighPx t)
    (barLowPx t) (barStartMs t) (liveBarOpen t) (liveBarHigh t) (liveBarLow t)
    (liveBarStartMs t) (lastIntraBarCheckMs t) (enteredBarStartMs t)
    (isEnteringPosition t) (running t) v (reconciling t) (marketState t).

Definition set_reconciling (v : bool) (t : Trader) : Trader :=
  mkTrader (traderConfig t) (contractId t) (symbol t) (calculator t)
    (lastPriceByContract t) (lastCumVolByContract t) (signedVolInBarByContract t)
    (volInBarByContract t) (prevClosedBarClose t) (barOpenPx t) (barHighPx t)
    (barLowPx t) (barStartMs t) (liveBarOpen t) (liveBarHigh t) (liveBarLow t)
    (liveBarStartMs t) (lastIntraBarCheckMs t) (enteredBarStartMs t)
    (isEnteringPosition t) (running t) (isFlattening t) v (marketState t).

Definition set_marketState (v : MarketState) (t : Trader) : Trader :=
  mkTrader (traderConfig t) (contractId t) (symbol t) (calculator t)
    (lastPriceByContract t) (lastCumVolByContract t) (signedVolInBarByContract t)
    (volInBarByContract t) (prevClosedBarClose t) (barOpenPx t) (barHighPx t)
    (barLowPx t) (barStartMs t) (liveBarOpen t) (liveBarHigh t) (liveBarLow t)
    (liveBarStartMs t) (lastIntraBarCheckMs t) (enteredBarStartMs t)
    (isEnteringPosition t) (running t) (isFlattening t) (reconciling t) v.

(** Successive assignments read left to right: [t |> set_a x |> set_b y]. *)
Notation "x |> f" := (f x) (at level 68, left associativity, only parsing).

(** What an entry attempt carries across its [await]s. *)
Record PendingEntry := mkPending {
  peBarId : option Z;
  peSignal : Signal;
  peBar : BarData;
  peAtrSnapshot : number;
  peDirection : Direction
}.

Inductive WebhookAction := BUY | SELL | FLAT.

(** What a run of trader code lets the outside see: the bar it closes, and
    the calls it makes on the broker client and the webhook.  The three
    client calls return promises; their settlement is an event of its own. *)
Inductive Effect :=
| BarClosed (b : BarData)
| GetEquityCalled (p : PendingEntry)
| CreateOrderCalled (p : PendingEntry) (side : Z) (size : number)
| ClosePositionCalled (contract : string)
| WebhookPosted (action : WebhookAction) (qty : option number).

Module Trader.
Section WithEnv.
Context `{Env}.
Local Open Scope js_scope.

Definition barStepMs : Z := 3 * 60 * 1000.

Definition newTrader (cfg : StrategyConfig) (calc : Calculator) (cid sym : string) : Trader :=
  mkTrader cfg cid sym calc ∅ ∅ ∅ ∅ None None None None None None None None None 0
           None false false false false (mkMarketState (Fin 0) neutral (Fin 0)).

Definition resetTraderState (t : Trader) : Trader :=
  mkTrader (traderConfig t) (contractId t) (symbol t) (calculator t)
           ∅ ∅ ∅ ∅ None None None None None None None None None 0
           None false (running t) false false (mkMarketState (Fin 0) neutral (Fin 0)).

(** The synchronous part of [start()]. *)
Definition start (t : Trader) : Trader :=
  resetTraderState t |> set_calculator (Calc.resetState (calculator t)) |> set_running true.

Definition stop (t : Trader) : Trader := set_running false t.

(** [a === b] for two [number | null] fields *)
Definition sameBarId (a b : option Z) : bool :=
  match a, b with
  | Some x, Some y => (x =? y)%Z
  | None, None => true
  | _, _ => false
  end.

(** *** handleSignal, cut at [await getEquity()] and [await createOrder()] *)

Definition handleSignal (t : Trader) (s : TradeSignal) (bar : BarData)
    : Trader * list Effect :=
  match signal s with
  | exit | hold => (t, [])
  | _ =>
      if Calc.hasPosition (calculator t) then (t, []) else
      if isEnteringPosition t || reconciling t then (t, []) else
      if sameBarId (enteredBarStartMs t) (barStartMs t) then (t, []) else
      let minAtr := max (Fin 0) (Fin (minAtrToTrade (traderConfig t) ?? 0%Q)) in
      let atrNow := atr (marketState t) in
      if negb (isFinite atrNow) || (atrNow <? minAtr) then (t, []) else
      let barId := barStartMs t in
      let dir := match signal s with buy => long | _ => short end in
      let atrSnapshot := atrNow in
      let t' :=
        t |> set_enteredBarStartMs barId
          |> set_isEnteringPosition true
          |> set_reconciling true
          |> set_calculator (Calc.captureAtrAtSignal atrSnapshot (calculator t)) in
      (t', [GetEquityCalled (mkPending barId (signal s) bar atrSnapshot dir)])
  end.

(** The [catch] and [finally] blocks. *)
Definition entryFailed (t : Trader) (p : PendingEntry) : Trader :=
  t |> set_enteredBarStartMs
         (if sameBarId (barStartMs t) (peBarId p) then None else enteredBarStartMs t)
    |> set_isEnteringPosition false
    |> set_reconciling false.

(** Resumption after [getEquity()]: [None] is a rejected promise. *)
Definition handleSignal_afterEquity (t : Trader) (p : PendingEntry)
    (acctBal : option number) : Trader * list Effect :=
  match acctBal with
  | Some bal =>
      let qty :=
        max (Fin 1)
            (Calc.calculatePositionSize (calculator t) (close (peBar p))
                                        (peAtrSnapshot p) bal) in
      (t, [CreateOrderCalled p (match peSignal p with buy => 0 | _ => 1 end)%Z qty])
  | None => (entryFailed t p, [])
  end.

(** Resumption after [createOrder()]. *)
Definition handleSignal_afterOrder (t : Trader) (p : PendingEntry) (qty : number)
    (ok : bool) (now : Z) : Trader * list Effect :=
  if ok then
    let calc :=
      Calc.resetIntraBarTracking
        (Calc.setPosition (close (peBar p)) (peDirection p) (Some (peAtrSnapshot p))
                          now (calculator t)) in
    (t |> set_calculator calc |> set_isEnteringPosition false |> set_reconciling false,
     if sendWebhook (traderConfig t)
     then [WebhookPosted (match peSignal p with buy => BUY | _ => SELL end) (Some qty)]
     else [])
  else (entryFailed t p, []).

(** *** closeBarAndProcess *)

Definition closeBarAndProcess (t : Trader) : Trader * list Effect :=
  match barStartMs t, barOpenPx t, barHighPx t, barLowPx t with
  | Some start, Some openPx, Some highPx, Some lowPx =>
      match lastPriceByContract t !! contractId t with
      | Some (Fin cq) =>
          let closePx := Fin cq in
          let vol := max (Fin 0) (floor (volInBarByContract t !! contractId t ?? Fin 0)) in
          let signed := trunc (signedVolInBarByContract t !! contractId t ?? Fin 0) in
          let barEndIso := toISOString (start + barStepMs - 1) in
          let closedBar := mkBar barEndIso openPx highPx lowPx closePx (Some vol) (Some signed) in
          let t1 :=
            t |> set_prevClosedBarClose (Some closePx)
              |> set_volInBarByContract (<[contractId t := Fin 0]> (volInBarByContract t))
              |> set_signedVolInBarByContract
                   (<[contractId t := Fin 0]> (signedVolInBarByContract t)) in
          let calc1 :=
            if negb (isWarmUpProcessed (calculator t1))
               && (20 <=? Z.of_nat (length (bars3min (calculator t1))))%Z
            then Calc.completeWarmUp (calculator t1) else calculator t1 in
          let '(calc2, ms, s) := Calc.processNewBar calc1 closedBar (marketState t1) in
          let t2 := t1 |> set_calculator calc2 |> set_marketState ms in
          let '(t3, fx) :=
            if negb (useIntraBarDetection (traderConfig t2)) && negb (reconciling t2)
            then handleSignal t2 s closedBar else (t2, []) in
          (t3 |> set_barOpenPx (Some closePx)
              |> set_barHighPx (Some closePx)
              |> set_barLowPx (Some closePx),
           BarClosed closedBar :: fx)
      | _ => (t, [])
      end
  | _, _, _, _ => (t, [])
  end.

(** *** checkIntraBarSignal *)

Definition checkIntraBarSignal (t : Trader) (currentPrice : number) (nowMs : Z)
    : Trader * list Effect :=
  match barStartMs t with
  | None => (t, [])
  | Some start =>
      let formingBar :=
        mkBar (toISOString (start + barStepMs - 1))
              (liveBarOpen t ?? NaN) (liveBarHigh t ?? NaN) (liveBarLow t ?? NaN)
              currentPrice
              (Some (volInBarByContract t !! contractId t ?? Fin 0))
              (Some (signedVolInBarByContract t !! contractId t ?? Fin 0)) in
      let accumulationMs :=
        match liveBarStartMs t with
        | Some s => if (s =? 0)%Z then 0%Z else (nowMs - s)%Z
        | None => 0%Z
        end in
      let '(calc, ms, s) :=
        Calc.evaluateFormingBar (calculator t) formingBar (marketState t)
                                accumulationMs nowMs in
      let t1 := t |> set_calculator calc |> set_marketState ms in
      if negb (Calc.isHold (signal s)) then handleSignal t1 s formingBar else (t1, [])
  end.

(** *** onQuote *)

(** [dVol]: the cumulative counter turned into this tick's volume. *)
Definition tickVolume (prevCum : option number) (cumVol : number) : number :=
  match prevCum with
  | Some pc => if cumVol >=? pc then cumVol - pc else cumVol
  | None => cumVol
  end.

(** [px > ref ? v : px < ref ? -v : 0] *)
Definition signedBy (px ref v : number) : number :=
  if px >? ref then v else if px <? ref then neg v else Fin 0.

(** The bucket bookkeeping at the head of [onQuote]. *)
Definition openBucket (bucketStart : Z) (px : number) (nowMs : Z) (t : Trader) : Trader :=
  t |> set_barStartMs (Some bucketStart)
    |> set_barOpenPx (Some px)
    |> set_barHighPx (Some px)
    |> set_barLowPx (Some px)
    |> set_liveBarOpen (Some px)
    |> set_liveBarHigh (Some px)
    |> set_liveBarLow (Some px)
    |> set_liveBarStartMs (Some nowMs).

Definition zeroAccumulators (cid : string) (t : Trader) : Trader :=
  t |> set_volInBarByContract (<[cid := Fin 0]> (volInBarByContract t))
    |> set_signedVolInBarByContract (<[cid := Fin 0]> (signedVolInBarByContract t)).

(** The state a new bucket starts from after the old one was closed. *)
Definition rollOver (bucketStart : Z) (px : number) (nowMs : Z) (cid : string)
    (t : Trader) : Trader :=
  let t1 :=
    openBucket bucketStart px nowMs t
      |> set_lastIntraBarCheckMs 0%Z
      |> set_enteredBarStartMs None in
  zeroAccumulators cid
    (set_calculator (Calc.resetIntraBarTracking (calculator t1)) t1).

(** [onQuote] in the four parts its comments name. *)

(** "3-minute bar bucketing (clock-based)" *)
Definition bucketing (t : Trader) (cid : string) (px : number) (nowMs : Z)
    : Trader * list Effect :=
  let bucketStart := (nowMs / barStepMs * barStepMs)%Z in
  match barStartMs t with
  | None => (zeroAccumulators cid (openBucket bucketStart px nowMs t), [])
  | Some start =>
      if (start <? bucketStart)%Z then
        let '(tc, fx) := closeBarAndProcess t in
        (rollOver bucketStart px nowMs cid tc, fx)
      else
        (t |> set_barHighPx (Some (max (barHighPx t ?? Fin 0) px))
           |> set_barLowPx (Some (min (barLowPx t ?? Fin 0) px))
           |> set_liveBarHigh (Some (max (liveBarHigh t ?? Fin 0) px))
           |> set_liveBarLow (Some (min (liveBarLow t ?? Fin 0) px)),
         [])
  end.

(** "Per-tick delta & volume accumulation (cumulative → delta)" *)
Definition accumulate (t1 : Trader) (cid : string) (px cumVol : number) (nowMs : Z)
    : Trader :=
  let prevPx := lastPriceByContract t1 !! cid in
  let prevCum := lastCumVolByContract t1 !! cid in
  let dVol := tickVolume prevCum cumVol in
  let t2 :=
    match prevCum with
    | Some pc =>
        if cumVol >=? pc then t1
        else set_lastCumVolByContract (<[cid := Fin 0]> (lastCumVolByContract t1)) t1
    | None => t1
    end in
  let t3 :=
    set_volInBarByContract
      (<[cid := (volInBarByContract t2 !! cid ?? Fin 0)
                + (if isFinite dVol then dVol else Fin 0)]> (volInBarByContract t2)) t2 in
  let signed :=
    match prevPx with
    | Some pp => signedBy px pp dVol
    | None => Fin 0
    end in
  let barVol := volInBarByContract t3 !! cid ?? Fin 0 in
  let barDelta :=
    match prevClosedBarClose t3 with
    | Some pc => signedBy px pc barVol
    | None => Fin 0
    end in
  t3 |> set_signedVolInBarByContract (<[cid := barDelta]> (signedVolInBarByContract t3))
     |> (fun u => set_calculator (Calc.pushIntraBarDelta signed nowMs (calculator u)) u)
     |> (fun u => set_lastPriceByContract (<[cid := px]> (lastPriceByContract u)) u)
     |> (fun u => set_lastCumVolByContract (<[cid := cumVol]> (lastCumVolByContract u)) u).

(** "Tick-level protective exits (hard stop / trail)"; [None] is the
    [return] taken while reconciling. *)
Definition protectiveExits (t : Trader) (px : number) (nowMs : Z)
    : option (Trader * list Effect) :=
  if Calc.hasPosition (calculator t) && negb (isFlattening t) then
    if reconciling t then None
    else
      let '(calc, hit) := Calc.onTickForProtectiveStops px nowMs (calculator t) in
      let t1 := set_calculator calc t in
      match hit with
      | Calc.hitStop | Calc.hitTrail =>
          Some (t1 |> set_reconciling true |> set_isFlattening true,
                [ClosePositionCalled (contractId t)])
      | Calc.none => Some (t1, [])
      end
  else Some (t, []).

(** "Intra-bar signal check" *)
Definition intraBarCheck (t : Trader) (px : number) (nowMs : Z) : Trader * list Effect :=
  if useIntraBarDetection (traderConfig t)
     && negb (Calc.hasPosition (calculator t)) && negb (isFlattening t)
  then
    let checkIntervalMs := intraBarCheckIntervalMs (traderConfig t) ?? 100%Z in
    if (checkIntervalMs <=? nowMs - lastIntraBarCheckMs t)%Z
    then checkIntraBarSignal (set_lastIntraBarCheckMs nowMs t) px nowMs
    else (t, [])
  else (t, []).

Definition onQuote (t : Trader) (q : GatewayQuote) (nowMs : Z) : Trader * list Effect :=
  if negb (running t) then (t, []) else
  if negb (String.eqb (quoteContractId q) (contractId t)) then (t, []) else
  let cid := quoteContractId q in
  let px := lastPrice q in
  if negb (isFinite px) then (t, []) else
  let '(t1, fx1) := bucketing t cid px nowMs in
  let cumVol := quoteVolume q ?? Fin 0 in
  let t4 := accumulate t1 cid px cumVol nowMs in
  match protectiveExits t4 px nowMs with
  | None => (t4, fx1)
  | Some (t5, fx2) =>
      let '(t6, fx3) := intraBarCheck t5 px nowMs in
      (t6, fx1 ++ fx2 ++ fx3)
  end.

(** Settlement of [closePosition()]: the [then] and the [catch] handler. *)
Definition flattenSettled (t : Trader) (ok : bool) : Trader * list Effect :=
  if ok then
    (t |> set_calculator (Calc.clearCooldowns (Calc.clearPosition (calculator t)))
       |> set_isFlattening false
       |> set_reconciling false,
     if sendWebhook (traderConfig t) then [WebhookPosted FLAT None] else [])
  else (t |> set_isFlattening false |> set_reconciling false, []).

(** *** The heartbeat *)

Definition maybeCloseBarByClock (t : Trader) (nowMs : Z) : Trader * list Effect :=
  if negb (running t) then (t, []) else
  match barStartMs t with
  | None => (t, [])
  | Some start =>
      let bucketStart := (nowMs / barStepMs * barStepMs)%Z in
      if (start <? bucketStart)%Z then
        match lastPriceByContract t !! contractId t with
        | Some (Fin lq) =>
            let lastPx := Fin lq in
            let '(tc, fx) := closeBarAndProcess t in
            (rollOver bucketStart lastPx nowMs (contractId t) tc, fx)
        | _ => (t, [])
        end
      else (t, [])
  end.

End WithEnv.
End Trader.

(** ** The coordinator as a transition system

    The host runs one callback at a time to its end or to its next [await].
    An event is a quote, a beat of the one-second timer, or the settlement of
    a promise the trader is waiting on; [step] runs the code that the event
    resumes.  The system starts in the state [start()] leaves. *)

Module Coordinator.
Section WithEnv.
Context `{Env}.

Inductive EntryStage :=
| AwaitingEquity (p : PendingEntry)
| AwaitingOrder (p : PendingEntry) (qty : number).

Record System := mkSystem {
  trader : Trader;
  entryInFlight : option EntryStage;
  flattenInFlight : bool
}.

Inductive Event :=
| Quote (q : GatewayQuote) (nowMs : Z)
| Heartbeat (nowMs : Z)
| EquitySettled (bal : option number)
| OrderSettled (ok : bool) (nowMs : Z)
| FlattenSettled (ok : bool).

Definition entryAfter (fx : list Effect) (cur : option EntryStage) : option EntryStage :=
  fold_left
    (fun st e =>
       match e with
       | GetEquityCalled p => Some (AwaitingEquity p)
       | CreateOrderCalled p _ qty => Some (AwaitingOrder p qty)
       | _ => st
       end) fx cur.

Definition isClosePosition (e : Effect) : bool :=
  match e with ClosePositionCalled _ => true | _ => false end.

Definition isCreateOrder (e : Effect) : bool :=
  match e with CreateOrderCalled _ _ _ => true | _ => false end.

Definition isGetEquity (e : Effect) : bool :=
  match e with GetEquityCalled _ => true | _ => false end.

Definition absorb (s : System) (r : Trader * list Effect) (entry : option EntryStage)
    : System * list Effect :=
  (mkSystem (fst r) (entryAfter (snd r) entry)
            (existsb isClosePosition (snd r) || flattenInFlight s), snd r).

Definition step (s : System) (e : Event) : System * list Effect :=
  match e with
  | Quote q nowMs => absorb s (Trader.onQuote (trader s) q nowMs) (entryInFlight s)
  | Heartbeat nowMs => absorb s (Trader.maybeCloseBarByClock (trader s) nowMs) (entryInFlight s)
  | EquitySettled bal =>
      match entryInFlight s with
      | Some (AwaitingEquity p) =>
          absorb s (Trader.handleSignal_afterEquity (trader s) p bal) None
      | _ => (s, [])
      end
  | OrderSettled ok nowMs =>
      match entryInFlight s with
      | Some (AwaitingOrder p qty) =>
          absorb s (Trader.handleSignal_afterOrder (trader s) p qty ok nowMs) None
      | _ => (s, [])
      end
  | FlattenSettled ok =>
      if flattenInFlight s then
        let r := Trader.flattenSettled (trader s) ok in
        (mkSystem (fst r) (entryInFlight s) false, snd r)
      else (s, [])
  end.

(** The states a run goes through, and everything it lets the outside see. *)
Fixpoint run (s : System) (evs : list Event) : System * list Effect :=
  match evs with
  | [] => (s, [])
  | e :: r =>
      let '(s1, fx1) := step s e in
      let '(s2, fx2) := run s1 r in
      (s2, fx1 ++ fx2)
  end.

Fixpoint statesOf (s : System) (evs : list Event) : list System :=
  match evs with
  | [] => []
  | e :: r => let s1 := fst (step s e) in s1 :: statesOf s1 r
  end.

Definition initial (cfg : StrategyConfig) (calc : Calculator) (cid sym : string) : System :=
  mkSystem (Trader.start (Trader.newTrader cfg calc cid sym)) None false.

End WithEnv.
End Coordinator.

(** ** A host for running the model

    [Date] in UTC and the [America/New_York] wall clock under the rule in
    force since 2007 (daylight time from the second Sunday of March, 07:00
    UTC, to the first Sunday of November, 06:00 UTC), for years 0 to 9999. *)

Module Host.

Definition daysFromCivil (y m d : Z) : Z :=
  let y := if m <=? 2 then y - 1 else y in
  let era := y / 400 in
  let yoe := y - era * 400 in
  let doy := (153 * (if 2 <? m then m - 3 else m + 9) + 2) / 5 + d - 1 in
  let doe := yoe * 365 + yoe / 4 - yoe / 100 + doy in
  era * 146097 + doe - 719468.

Definition civilFromDays (z : Z) : Z * Z * Z :=
  let z := z + 719468 in
  let era := z / 146097 in
  let doe := z - era * 146097 in
  let yoe := (doe - doe / 1460 + doe / 36524 - doe / 146096) / 365 in
  let y := yoe + era * 400 in
  let doy := doe - (365 * yoe + yoe / 4 - yoe / 100) in
  let mp := (5 * doy + 2) / 153 in
  let d := doy - (153 * mp + 2) / 5 + 1 in
  let m := if mp <? 10 then mp + 3 else mp - 9 in
  (if m <=? 2 then y + 1 else y, m, d).

Definition digitChar (d : Z) : ascii := ascii_of_nat (Z.to_nat (48 + d mod 10)).

Fixpoint padded (width : nat) (n : Z) (acc : string) : string :=
  match width with
  | O => acc
  | S w => padded w (n / 10) (String (digitChar n) acc)
  end.

Definition msPerDay : Z := 86400000.

Definition toISOString (ms : Z) : string :=
  let days := ms / msPerDay in
  let rest := ms mod msPerDay in
  let '(y, m, d) := civilFromDays days in
  (padded 4 y "" ++ "-" ++ padded 2 m "" ++ "-" ++ padded 2 d "" ++ "T"
   ++ padded 2 (rest / 3600000) "" ++ ":" ++ padded 2 (rest / 60000 mod 60) "" ++ ":"
   ++ padded 2 (rest / 1000 mod 60) "" ++ "." ++ padded 3 (rest mod 1000) "" ++ "Z")%string.

(** Exactly [n] decimal digits at the head of [s]. *)
Fixpoint digits (n : nat) (s : string) (acc : Z) : option (Z * string) :=
  match n with
  | O => Some (acc, s)
  | S k =>
      match s with
      | String ch r =>
          match digitOf ch with
          | Some d => digits k r (acc * 10 + d)
          | None => None
          end
      | EmptyString => None
      end
  end.

Definition expect (ch : ascii) (s : string) : option string :=
  match s with
  | String c0 r => if Ascii.eqb c0 ch then Some r else None
  | EmptyString => None
  end.

(** [new Date(s).getTime()] for the text [toISOString] writes. *)
Definition getTime (s : string) : option Z :=
  '(y, s) ← digits 4 s 0; s ← expect "-" s;
  '(m, s) ← digits 2 s 0; s ← expect "-" s;
  '(d, s) ← digits 2 s 0; s ← expect "T" s;
  '(hh, s) ← digits 2 s 0; s ← expect ":" s;
  '(mi, s) ← digits 2 s 0; s ← expect ":" s;
  '(ss, s) ← digits 2 s 0; s ← expect "." s;
  '(mmm, s) ← digits 3 s 0; s ← expect "Z" s;
  match s with
  | EmptyString =>
      if (1 <=? m) && (m <=? 12) && (1 <=? d) && (d <=? 31)
         && (hh <? 24) && (mi <? 60) && (ss <? 60)
      then Some (daysFromCivil y m d * msPerDay
                 + hh * 3600000 + mi * 60000 + ss * 1000 + mmm)
      else None
  | _ => None
  end.

(** The first Sunday on or after day [d] of month [m]. *)
Definition sundayFrom (y m d : Z) : Z :=
  let d0 := daysFromCivil y m d in
  d0 + (7 - (d0 + 4) mod 7) mod 7.

Definition newYorkOffsetMs (ms : Z) : Z :=
  let '(y, _, _) := civilFromDays (ms / msPerDay) in
  let dstStart := sundayFrom y 3 8 * msPerDay + 7 * 3600000 in
  let dstEnd := sundayFrom y 11 1 * msPerDay + 6 * 3600000 in
  if (dstStart <=? ms) && (ms <? dstEnd) then 4 * 3600000 else 5 * 3600000.

Definition formatNewYork (s : string) : option string :=
  ms ← getTime s;
  let rest := (ms - newYorkOffsetMs ms) mod msPerDay in
  Some (padded 2 (rest / 3600000) "" ++ ":" ++ padded 2 (rest / 60000 mod 60) "")%string.

(** Modelled from the spec: [EMA(series, length)] of [utils/technical.ts],
    "standard exponential moving average": smoothing factor
    [2 / (length + 1)], started at the first value of the series. *)
Fixpoint emaFrom (k prev : number) (rest : list number) : list number :=
  match rest with
  | [] => []
  | x :: r =>
      let e := (x * k + prev * (Fin 1 - k))%js in
      e :: emaFrom k e r
  end.

Definition calculateEMA (series : list number) (len : Z) : list number :=
  match series with
  | [] => []
  | x :: r => x :: emaFrom (Fin 2 / ofZ (len + 1))%js x r
  end.

Definition env : Env :=
  Build_Env toISOString getTime formatNewYork calculateEMA.

End Host.

#[global] Existing Instance Host.env.

(** ** Runs of the calculator while one position is open

    The calls the trader makes on the calculator between [setPosition] and
    [clearPosition]. *)

Module Lifetime.
Section WithEnv.
Context `{Env}.

Inductive Op :=
| Tick (lastPrice : number) (now : Z)
| NewBar (incoming : BarData) (ms : MarketState)
| EvaluateForming (formingBar : BarData) (ms : MarketState) (accumulationTimeMs nowMs : Z)
| PushIntraBarDelta (d : number) (ts : Z)
| ResetIntraBarTracking
| ClearCooldowns
| CaptureAtrAtSignal (a : number)
| WarmUpBar (bar : BarData) (tf : Calc.Timeframe)
| CompleteWarmUp.

Definition apply (c : Calculator) (op : Op) : Calculator :=
  match op with
  | Tick px now => fst (Calc.onTickForProtectiveStops px now c)
  | NewBar incoming ms => fst (fst (Calc.processNewBar c incoming ms))
  | EvaluateForming b ms acc now => fst (fst (Calc.evaluateFormingBar c b ms acc now))
  | PushIntraBarDelta d ts => Calc.pushIntraBarDelta d ts c
  | ResetIntraBarTracking => Calc.resetIntraBarTracking c
  | ClearCooldowns => Calc.clearCooldowns c
  | CaptureAtrAtSignal a => Calc.captureAtrAtSignal a c
  | WarmUpBar bar tf => Calc.processWarmUpBar bar tf c
  | CompleteWarmUp => Calc.completeWarmUp c
  end.

Definition applyAll (c : Calculator) (ops : list Op) : Calculator :=
  fold_left apply ops c.

End WithEnv.
End Lifetime.

(** ** Vocabulary of the statements *)

(** What the protective stops read and write. *)
Definition stopState (c : Calculator) : option Position * number * bool :=
  (currentPosition c, trailingStopLevel c, trailArmed c).

(** [tighter dir l l']: the level [l'] protects at least as much as [l]. *)
Definition tighter (dir : Direction) (l l' : Q) : Prop :=
  match dir with long => (l <= l')%Q | short => (l' <= l)%Q end.

(** [peakAbs] of the closed-bar path, [pb] being the previous stored bar. *)
Definition closedBarPeak (c : Calculator) (bar pb : BarData) : number :=
  JS.max (JS.abs (delta pb ?? Fin 0)) (JS.abs (delta bar ?? Fin 0)).

(** The pairs of neighbours of a sequence, oldest first. *)
Fixpoint adjacentPairs {A} (l : list A) : list (A * A) :=
  match l with
  | a :: r => match r with b :: _ => (a, b) :: adjacentPairs r | [] => [] end
  | [] => []
  end.

(** The bar aggregator's part of the trader: prices and counters per
    contract, the last closed close, the open bar and the live bar. *)
Record Aggregator := mkAggregator {
  aLastPrice : gmap string number;
  aLastCumVol : gmap string number;
  aSignedVolInBar : gmap string number;
  aVolInBar : gmap string number;
  aPrevClosedBarClose : option number;
  aBar : option number * option number * option number;
  aBarStartMs : option Z;
  aLiveBar : option number * option number * option number;
  aLiveBarStartMs : option Z
}.

Definition aggregator (t : Trader) : Aggregator :=
  mkAggregator (lastPriceByContract t) (lastCumVolByContract t)
    (signedVolInBarByContract t) (volInBarByContract t) (prevClosedBarClose t)
    (barOpenPx t, barHighPx t, barLowPx t) (barStartMs t)
    (liveBarOpen t, liveBarHigh t, liveBarLow t) (liveBarStartMs t).

(** What never changes after construction. *)
Definition identity (t : Trader) : StrategyConfig * string * string * bool :=
  (traderConfig t, contractId t, symbol t, running t).

(** A counter value that is absent or a number not below zero. *)
Definition nonNegative (x : option number) : Prop :=
  match x with
  | Some (Fin v) => (0 <= v)%Q
  | Some NaN => False
  | None => True
  end.

(** A quote whose cumulative volume, when it is a number, is not negative. *)
Definition volumeIsCounter (q : GatewayQuote) : Prop :=
  match quoteVolume q with
  | Some (Fin v) => (0 <= v)%Q
  | _ => True
  end.

Section Scenarios.
Context `{Env}.

(** The closed-bar scenario of the specification: delta 500, a delta average
    of 200 over the stored bars, spike threshold 450, surge multiplier 1.8,
    bullish higher timeframe, breakout up, EMA filter off, ATR 10 above the
    minimum 9. *)
Definition spikeScenario (c : Calculator) (bar : BarData) (ms : MarketState)
    (g : Calc.Gates) : Prop :=
  delta bar = Some (Fin 500)
  /\ Calc.smaSignedDelta c (Z.max 1 (deltaSMALength (config c) ?? 20))
                         (Z.of_nat (length (bars3min c)) - 1) ≃ Fin 200
  /\ deltaSpikeThreshold (config c) = Some 450%Q
  /\ deltaSurgeMultiplier (config c) = Some 1.8%Q
  /\ higherTimeframeTrend ms = bullish
  /\ Calc.gBrokeUp g = true
  /\ useEmaFilter (config c) = false
  /\ atr ms = Fin 10
  /\ minAtrToTrade (config c) = Some 9%Q.

(** What the scenario is to produce: buy at 0.9, the timestamp recorded, and
    hold for every later closed bar carrying that timestamp. *)
Definition buyThenBlocked (c : Calculator) (bar : BarData) (ms : MarketState)
    (g : Calc.Gates) : Prop :=
  let r := Calc.generateSignal c bar ms g in
  signal (snd r) = buy
  /\ (confidence (snd r) == 0.9)%Q
  /\ lastEntryBarTimestamp (fst r) = Some (timestamp bar)
  /\ forall bar' ms' g',
       timestamp bar' = timestamp bar ->
       signal (snd (Calc.generateSignal (fst r) bar' ms' g')) = hold.

(** The fade filter of the closed-bar path lets the bar through. *)
Definition closedBarFadePasses (c : Calculator) (bar : BarData) : Prop :=
  forall pb,
    at_ (bars3min c) (Z.of_nat (length (bars3min c)) - 2) = Some pb ->
    Calc.fadeOk c (closedBarPeak c bar pb) (JS.abs (delta bar ?? Fin 0)) = true.

(** The stop of [p] is crossed by the closed bar. *)
Definition stopCrossed (p : Position) (bar : BarData) : bool :=
  match direction p with
  | long => (low bar <=? stopLoss p)%js
  | short => (high bar >=? stopLoss p)%js
  end.

Definition exitSignalFor (p : Position) : TradeSignal :=
  mkSignal (match direction p with long => sell | short => buy end)
           (HitStopReason (stopLoss p)) 1.

(** After warm-up, with a position open, the minimum number of bars since
    entry elapsed (the bar just closed counted, as the code counts it) and
    the stop crossed. *)
Definition stopExitDue (c : Calculator) (incoming : BarData) (ms : MarketState)
    (p : Position) : Prop :=
  isWarmUpProcessed c = true
  /\ currentPosition c = Some p
  /\ (Z.max 0 (minBarsBeforeExit (config c) ?? 0)
      <= Calc.barsSinceEntry (fst (fst (Calc.processNewBar c incoming ms))) (entryTime p))
  /\ stopCrossed p incoming = true.

(** What closing a bar does to the aggregator: nothing when there is no
    open bar or no price; else the closed bar goes out first, its close is
    remembered, the two accumulators are zero and the open bar collapses
    onto the close. *)
Definition afterClose (t : Trader) (closePx : number) : Aggregator :=
  mkAggregator (lastPriceByContract t) (lastCumVolByContract t)
    (<[contractId t := Fin 0]> (signedVolInBarByContract t))
    (<[contractId t := Fin 0]> (volInBarByContract t))
    (Some closePx) (Some closePx, Some closePx, Some closePx) (barStartMs t)
    (liveBarOpen t, liveBarHigh t, liveBarLow t) (liveBarStartMs t).

Definition closedBarOf (t : Trader) (start : Z) (o h l closePx : number) : BarData :=
  mkBar (toISOString (start + Trader.barStepMs - 1)) o h l closePx
    (Some (JS.max (Fin 0) (JS.floor (volInBarByContract t !! contractId t ?? Fin 0))))
    (Some (JS.trunc (signedVolInBarByContract t !! contractId t ?? Fin 0))).

(** The whole-bar signed delta the forming bucket holds for a tick price
    [px]: the in-bar volume signed by [px] against the last closed close,
    zero while no bar has closed. *)
Definition wholeBarDelta (t : Trader) (px : number) : number :=
  match prevClosedBarClose t with
  | Some pc => Trader.signedBy px pc (volInBarByContract t !! contractId t ?? Fin 0)
  | None => Fin 0
  end.

(** A quote the trader processes: it is running, the quote is for its
    contract and carries a price. *)
Definition accepted (t : Trader) (q : GatewayQuote) : Prop :=
  running t = true /\ quoteContractId q = contractId t /\ isFinite (lastPrice q) = true.

(** [dVol] of the tick [q] arriving in state [t]. *)
Definition tickVolumeOf (t : Trader) (q : GatewayQuote) : number :=
  Trader.tickVolume (lastCumVolByContract t !! quoteContractId q) (quoteVolume q ?? Fin 0).

(** The per-tick volumes of the quotes of a run, in order. *)
Fixpoint tickVolumesAlong (s : Coordinator.System) (evs : list Coordinator.Event)
    : list number :=
  match evs with
  | [] => []
  | e :: r =>
      let rest := tickVolumesAlong (fst (Coordinator.step s e)) r in
      match e with
      | Coordinator.Quote q _ => tickVolumeOf (Coordinator.trader s) q :: rest
      | _ => rest
      end
  end.

(** The in-bar volume after each event of a run. *)
Fixpoint volumesAlong (cid : string) (s : Coordinator.System) (evs : list Coordinator.Event)
    : list (option number) :=
  match evs with
  | [] => []
  | e :: r =>
      let s1 := fst (Coordinator.step s e) in
      volInBarByContract (Coordinator.trader s1) !! cid :: volumesAlong cid s1 r
  end.

(** Every in-bar volume total is a number not below zero. *)
Definition volumesNonNegative (t : Trader) : Prop :=
  forall k, nonNegative (volInBarByContract t !! k).

Definition quotesAreCounters (evs : list Coordinator.Event) : Prop :=
  Forall (fun e => match e with
                   | Coordinator.Quote q _ => volumeIsCounter q
                   | _ => True
                   end) evs.

(** After a run of trader code that closed the bar [b]: the two
    accumulators are zero and the new bucket opens at the close of [b]. *)
Definition opensAtClosedPrice (r : Trader * list Effect) : Prop :=
  forall b rest,
    snd r = BarClosed b :: rest ->
    let t' := fst r in
    volInBarByContract t' !! contractId t' = Some (Fin 0)
    /\ signedVolInBarByContract t' !! contractId t' = Some (Fin 0)
    /\ barOpenPx t' = Some (close b)
    /\ liveBarOpen t' = Some (close b).

(** After a tick that closed the bar [b]: the accumulators were zeroed and
    hold this tick's own volume, the close of [b] is the reference for the
    delta sign, and the new bucket opens at the tick's price. *)
Definition opensAtTickPrice (t : Trader) (q : GatewayQuote) (r : Trader * list Effect)
    : Prop :=
  forall b rest,
    snd r = BarClosed b :: rest ->
    let t' := fst r in
    let dVol := tickVolumeOf t q in
    let total := (Fin 0 + (if isFinite dVol then dVol else Fin 0))%js in
    volInBarByContract t' !! contractId t' = Some total
    /\ prevClosedBarClose t' = Some (close b)
    /\ signedVolInBarByContract t' !! contractId t'
       = Some (Trader.signedBy (lastPrice q) (close b) total)
    /\ barOpenPx t' = Some (lastPrice q)
    /\ liveBarOpen t' = Some (lastPrice q).

(** The entry marker holds the current bucket start and no entry attempt
    is in flight: an entry was recorded for this bucket and has settled. *)
Definition entryRecorded (s : Coordinator.System) : Prop :=
  Coordinator.entryInFlight s = None
  /\ enteredBarStartMs (Coordinator.trader s) = barStartMs (Coordinator.trader s).

(** Through the run [evs] from [s] the bucket start stays what it is in [s]. *)
Definition sameBucket (s : Coordinator.System) (evs : list Coordinator.Event) : Prop :=
  Forall (fun s' => barStartMs (Coordinator.trader s') = barStartMs (Coordinator.trader s))
         (Coordinator.statesOf s evs).

(** Neither [getEquity] nor [createOrder] is called. *)
Definition noEntryCall (fx : list Effect) : Prop :=
  Forall (fun e => Coordinator.isCreateOrder e = false /\ Coordinator.isGetEquity e = false) fx.

(** The lock discipline of a run of trader code from [t] to [t'] with
    effects [fx]: [getEquity] is called only with the entering flag down,
    and raises it; [closePosition] is called only with the flattening flag
    down, and raises it; otherwise the flags stay; [createOrder] is not
    called. *)
Definition disciplined (t t' : Trader) (fx : list Effect) : Prop :=
  (if existsb Coordinator.isGetEquity fx
   then isEnteringPosition t = false /\ isEnteringPosition t' = true
   else isEnteringPosition t' = isEnteringPosition t)
  /\ (if existsb Coordinator.isClosePosition fx
      then isFlattening t = false /\ isFlattening t' = true
      else isFlattening t' = isFlattening t)
  /\ existsb Coordinator.isCreateOrder fx = false.

(** What is in flight holds its flag: the one slot per kind of call that
    the system state has is all that is ever needed. *)
Definition locked (s : Coordinator.System) : Prop :=
  (Coordinator.entryInFlight s <> None -> isEnteringPosition (Coordinator.trader s) = true)
  /\ (Coordinator.flattenInFlight s = true -> isFlattening (Coordinator.trader s) = true).

End Scenarios.

(** ** The shipped configuration and sample states *)

Module Sample.

(** [MNQ_DELTA_TREND_CONFIG] *)
Definition MNQ_DELTA_TREND_CONFIG : StrategyConfig := {|
  tradingStartTime := Some "09:30"%string;
  tradingEndTime := Some "16:00"%string;
  deltaSMALength := Some 20;
  deltaSpikeThreshold := Some 450%Q;
  deltaSurgeMultiplier := Some 1.8%Q;
  breakoutLookbackBars := Some 20;
  emaLength := Some 21;
  useEmaFilter := true;
  htfEMALength := Some 9;
  higherTimeframe := Some 15;
  htfUseForming := true;
  atrStopLossMultiplier := Some 0.75%Q;
  minAtrToTrade := Some 9%Q;
  minBarsBeforeExit := Some 0;
  atrCap := Some 16%Q;
  useAtrCap := false;
  tickExitGraceMs := Some 0;
  trailActivationATR := Some 0.125%Q;
  trailOffsetATR := Some 0.125%Q;
  deltaFadeRatio := Some 0.80%Q;
  contractQuantity := Some 1%Q;
  useIntraBarDetection := true;
  intraBarCheckIntervalMs := Some 100;
  intraBarMinAccumulationMs := Some 2500;
  intraBarConfirmationChecks := Some 3;
  intraBarConfirmationWindowMs := Some 300;
  sendWebhook := false
|}.

(** A long position entered at 100 on an ATR of 10 (stop 92.5), and the
    same after a tick at 102 has armed the trail at 100.75. *)
Definition longAt100 : Calculator :=
  Calc.setPosition (Fin 100) long (Some (Fin 10)) 1000
                   (newCalculator MNQ_DELTA_TREND_CONFIG).

Definition longAt100Armed : Calculator :=
  fst (Calc.onTickForProtectiveStops (Fin 102) 2000 longAt100).

Definition shortAt100 : Calculator :=
  Calc.setPosition (Fin 100) short (Some (Fin 10)) 1000
                   (newCalculator MNQ_DELTA_TREND_CONFIG).

(** Closed bars on 5 January 2026, 10:02 to 10:11 in New York. *)
Definition bar (ts : string) (o h l cl : Q) (d : Q) : BarData :=
  mkBar ts (Fin o) (Fin h) (Fin l) (Fin cl) (Some (Fin (Qabs d))) (Some (Fin d)).

Definition ts1002 : string := "2026-01-05T15:02:59.999Z".
Definition ts1005 : string := "2026-01-05T15:05:59.999Z".
Definition ts1008 : string := "2026-01-05T15:08:59.999Z".
Definition ts1011 : string := "2026-01-05T15:11:59.999Z".
(** 21:02 in New York, after the session. *)
Definition ts2102 : string := "2026-01-06T02:02:59.999Z".

(** The shipped configuration with the EMA filter off and a delta average
    over three bars. *)
Definition configSma3 : StrategyConfig := {|
  tradingStartTime := Some "09:30"%string;
  tradingEndTime := Some "16:00"%string;
  deltaSMALength := Some 3;
  deltaSpikeThreshold := Some 450%Q;
  deltaSurgeMultiplier := Some 1.8%Q;
  breakoutLookbackBars := Some 20;
  emaLength := Some 21;
  useEmaFilter := false;
  htfEMALength := Some 9;
  higherTimeframe := Some 15;
  htfUseForming := true;
  atrStopLossMultiplier := Some 0.75%Q;
  minAtrToTrade := Some 9%Q;
  minBarsBeforeExit := Some 0;
  atrCap := Some 16%Q;
  useAtrCap := false;
  tickExitGraceMs := Some 0;
  trailActivationATR := Some 0.125%Q;
  trailOffsetATR := Some 0.125%Q;
  deltaFadeRatio := Some 0.80%Q;
  contractQuantity := Some 1%Q;
  useIntraBarDetection := true;
  intraBarCheckIntervalMs := Some 100;
  intraBarMinAccumulationMs := Some 2500;
  intraBarConfirmationChecks := Some 3;
  intraBarConfirmationWindowMs := Some 300;
  sendWebhook := false
|}.

Definition warmed (cfg : StrategyConfig) (bars : list BarData) : Calculator :=
  Calc.completeWarmUp (set_bars3min bars (newCalculator cfg)).

Definition bullishAtr10 : MarketState := mkMarketState (Fin 10) bullish (Fin 0).
Definition gatesUp : Calc.Gates := Calc.mkGates true false true true.

(** Three stored bars whose deltas average 200; the last one is the bar
    under evaluation, with delta 500. *)
Definition bar500 : BarData := bar ts1008 101 103 100 102 500.

Definition afterSpike1000 : Calculator :=
  warmed configSma3 [bar ts1002 100 101 99 100 (-900); bar ts1005 100 102 100 101 1000; bar500].

Definition afterQuietBar : Calculator :=
  warmed configSma3 [bar ts1002 100 101 99 100 100; bar ts1005 100 102 100 101 0; bar500].

(** A long position (entry 100, stop 92.5) taken at 10:06, and a bar closing
    with its low at 90. *)
Definition longSince1006 : Calculator :=
  Calc.setPosition (Fin 100) long (Some (Fin 10)) 1767625560000
    (warmed MNQ_DELTA_TREND_CONFIG
       [bar ts1002 100 101 99 100 (-900); bar ts1005 100 102 100 101 1000]).

Definition barLow90 (ts : string) : BarData := bar ts 99 100 90 91 (-700).

(** Sixteen bars of range 2 closing in the middle, after a bar without
    prices. *)
Definition steadyBars : list BarData :=
  mkBar ts1002 NaN NaN NaN NaN None None
  :: replicate 16 (bar ts1005 101 102 100 101 0).

(** A session on one contract, started without history at 10:03 New York
    time, and three ticks whose cumulative volumes are 100, 140 and 90. *)
Definition mnq : string := "CON.F.US.MNQ.H26".
Definition at1003 : Z := 1767625380000.

Definition session : Coordinator.System :=
  Coordinator.initial MNQ_DELTA_TREND_CONFIG (newCalculator MNQ_DELTA_TREND_CONFIG) mnq "MNQ".

Definition quote (px cumVol : Q) : GatewayQuote := mkQuote mnq (Fin px) (Some (Fin cumVol)).

Definition threeTicks : list Coordinator.Event :=
  [Coordinator.Quote (quote 100 100) (at1003 + 1000);
   Coordinator.Quote (quote 101 140) (at1003 + 2000);
   Coordinator.Quote (quote 100 90) (at1003 + 3000)].

(** The session after a first tick at 100, and a tick at 102 in the next
    bucket. *)
Definition afterFirstTick : Trader :=
  Coordinator.trader
    (fst (Coordinator.step session (Coordinator.Quote (quote 100 100) (at1003 + 1000)))).

Definition nextBucketTick : GatewayQuote := quote 102 105.

(** A second tick in the bucket of the rollover tick: at 101, below the
    previous tick (102) and above the previous close (100). *)
Definition afterRollover : Trader :=
  fst (Trader.onQuote afterFirstTick nextBucketTick (at1003 + 180000)).

(** A session with history: thirty 3-minute bars from 09:30 New York time
    on 5 January 2026 and ten 15-minute bars before them, prices rising;
    live ticks from 11:00. *)
Definition open0930 : Z := 1767623400000.
Definition at1100 : Z := open0930 + 30 * 180000.

Definition historyBar (i : Z) : BarData :=
  let c := inject_Z (20000 + 10 * i) in
  bar (Host.toISOString (open0930 + i * 180000 + 179999)) (c - 5) (c + 6) (c - 6) c 100.

Definition higherBar (i : Z) : BarData :=
  let c := inject_Z (19500 + 50 * i) in
  bar (Host.toISOString (open0930 - 9000000 + i * 900000 + 899999))
      (c - 5) (c + 6) (c - 6) c 500.

Definition history : Calculator :=
  Calc.completeWarmUp
    (fold_left (fun c i => Calc.processWarmUpBar (higherBar i) Calc.TFHTF c) (seqZ 0 10)
       (fold_left (fun c i => Calc.processWarmUpBar (historyBar i) Calc.TF3min c) (seqZ 0 30)
          (newCalculator MNQ_DELTA_TREND_CONFIG))).

Definition live : Coordinator.System :=
  Coordinator.initial MNQ_DELTA_TREND_CONFIG history mnq "MNQ".

(** One tick in the 11:00 bucket; then, in the 11:03 bucket, a tick that
    closes the first bar and three ticks 2.6 to 2.8 seconds in, above the
    closed price and with 900 of volume: the forming bar qualifies and
    [getEquity] is called.  The equity arrives and [createOrder] is called. *)
Definition qualifyingTicks : list Coordinator.Event :=
  [Coordinator.Quote (quote 20300 100) (at1100 + 1000);
   Coordinator.Quote (quote 20310 700) (at1100 + 180000);
   Coordinator.Quote (quote 20311 800) (at1100 + 182600);
   Coordinator.Quote (quote 20312 900) (at1100 + 182700);
   Coordinator.Quote (quote 20313 1000) (at1100 + 182800);
   Coordinator.EquitySettled (Some (Fin 50000))].

Definition awaitingOrder : Coordinator.System :=
  fst (Coordinator.run live qualifyingTicks).

(** After the order: a tick through the stop, the flatten settles, and
    three more ticks on which the forming bar qualifies again, all in the
    11:03 bucket; a beat. *)
Definition sameBucketEvents : list Coordinator.Event :=
  [Coordinator.Quote (quote 20301 1100) (at1100 + 183100);
   Coordinator.FlattenSettled true;
   Coordinator.Quote (quote 20311 1800) (at1100 + 185600);
   Coordinator.Quote (quote 20312 1900) (at1100 + 185700);
   Coordinator.Quote (quote 20313 2000) (at1100 + 185800);
   Coordinator.Heartbeat (at1100 + 186000)].

End Sample.

(** ** Proof steps used throughout *)

(** Case analysis on every test and every match of the goal. *)
Ltac split_ifs :=
  repeat match goal with
         | |- context [if ?b then _ else _] => destruct b
         | |- context [match ?x with _ => _ end] => destruct x
         end.

(** The same with simplification in between, closing what is then trivial. *)
Ltac split_all :=
  repeat (simpl;
          match goal with
          | |- context [if ?b then _ else _] => destruct b
          | |- context [match ?x with _ => _ end] => destruct x
          end);
  try reflexivity.

From Stdlib Require Import Sorted DecimalString.

(** ** Vocabulary for the histories and the signals *)

(** Both histories are within the caps the calculator enforces. *)
Definition withinCaps (c : Calculator) : Prop :=
  (length (bars3min c) <= 2000)%nat /\ (length (bars15min c) <= 1000)%nat.

(** The bar carries a finite whole-number delta. *)
Definition wholeDelta (b : BarData) : Prop :=
  exists z : Z, delta b = Some (Fin (inject_Z z)).

Section SignalVocabulary.
Context `{Env}.

(** Every evaluation of a forming bar before the instant [t] holds. *)
Definition holdsUntil (c : Calculator) (t : Z) : Prop :=
  forall fb ms acc now,
    now < t -> signal (snd (Calc.evaluateFormingBar c fb ms acc now)) = hold.

End SignalVocabulary.

(** The stop of [p] is reached by the tick price [px]. *)
Definition stopHit (p : Position) (px : number) : bool :=
  match direction p with
  | long => (px <=? stopLoss p)%js
  | short => (px >=? stopLoss p)%js
  end.

(** The trailing level of [c] is reached by the tick price [px]. *)
Definition trailHit (c : Calculator) (p : Position) (px : number) : bool :=
  match direction p with
  | long => (px <=? trailingStopLevel c)%js
  | short => (px >=? trailingStopLevel c)%js
  end.

(** ** Further proof steps *)

(** Splitting a conjunction of implications whose cases close by
    computation, congruence or linear arithmetic. *)
Ltac settle :=
  cbn; repeat (split || intro); try reflexivity; try congruence; try lia.

(** ** Vocabulary for the bars the trader closes *)

(** The bars a run of trader code closes, in order. *)
Definition closedBars (fx : list Effect) : list BarData :=
  omap (fun e => match e with BarClosed b => Some b | _ => None end) fx.

(** A bar with finite prices whose open and close lie between its low and
    its high. *)
Definition wellFormedBar (b : BarData) : Prop :=
  exists o h l c : Q,
    open b = Fin o /\ high b = Fin h /\ low b = Fin l /\ close b = Fin c
    /\ (l <= o <= h)%Q /\ (l <= c <= h)%Q.

(** While a bucket is open, the open bar has finite prices, the open and
    the last price of the contract lie between its low and its high. *)
Definition envelope (t : Trader) : Prop :=
  barStartMs t <> None ->
  exists o h l p : Q,
    barOpenPx t = Some (Fin o) /\ barHighPx t = Some (Fin h) /\ barLowPx t = Some (Fin l)
    /\ lastPriceByContract t !! contractId t = Some (Fin p)
    /\ (l <= o <= h)%Q /\ (l <= p <= h)%Q.

(** The bucket start [b] is not before [a]; no bucket is before any. *)
Definition bucketNotBefore (a b : option Z) : Prop :=
  match a, b with
  | Some x, Some y => x <= y
  | None, _ => True
  | Some _, None => False
  end.

(** A bucket start on the 3-minute grid. *)
Definition onGrid (a : option Z) : Prop :=
  match a with Some x => x mod (3 * 60 * 1000) = 0 | None => True end.

(** The whole-bar delta held for the trader's contract is the in-bar
    volume, its negation, or zero. *)
Definition signedWhole (t : Trader) : Prop :=
  let v := volInBarByContract t !! contractId t ?? Fin 0 in
  let d := signedVolInBarByContract t !! contractId t ?? Fin 0 in
  d = v \/ d = JS.neg v \/ d = Fin 0.

(** A bar whose volume is a whole number not below zero and whose delta is
    that number, its negation, or zero. *)
Definition wholeVolumeBar (b : BarData) : Prop :=
  exists vz dz : Z,
    volume b = Some (Fin (inject_Z vz)) /\ delta b = Some (Fin (inject_Z dz))
    /\ 0 <= vz /\ (dz = vz \/ dz = - vz \/ dz = 0).

(** ** Vocabulary for the reconcile lock *)

(** The three flags that guard entry and exit. *)
Definition lockState (t : Trader) : bool * bool * bool :=
  (isEnteringPosition t, reconciling t, isFlattening t).

(** The reconcile lock is held exactly while an entry or a flatten is in
    progress, and the two are never in progress together. *)
Definition singleWriter (t : Trader) : Prop :=
  match isEnteringPosition t, isFlattening t with
  | true, true => False
  | false, false => reconciling t = false
  | _, _ => reconciling t = true
  end.

(** ** Vocabulary for well-formed histories *)

(** Both histories hold well-formed bars only. *)
Definition historiesWellFormed (c : Calculator) : Prop :=
  Forall wellFormedBar (bars3min c) /\ Forall wellFormedBar (bars15min c).

Section FeedVocabulary.
Context `{Env}.

(** The bar the call feeds to the calculator, if it feeds one, is well
    formed. *)
Definition feedsWellFormed (op : Lifetime.Op) : Prop :=
  match op with
  | Lifetime.NewBar b _ | Lifetime.WarmUpBar b _ => wellFormedBar b
  | _ => True
  end.

End FeedVocabulary.

(** ** Vocabulary for what an entry needs *)

Section EntryVocabulary.
Context `{Env}.
Local Open Scope Z_scope.

(** The history the bar-close gates read is long enough for each of them to
    open: the delta average, the breakout window, the higher-timeframe EMA
    and, when the filter is on, the EMA of the 3-minute closes. *)
Definition enoughHistory (c : Calculator) : Prop :=
  let n3 := Z.of_nat (length (bars3min c)) in
  let n15 := Z.of_nat (length (bars15min c)) in
  Z.max 1 (deltaSMALength (config c) ?? 20) <= n3
  /\ Z.max 1 (breakoutLookbackBars (config c) ?? 20) + 1 <= n3
  /\ 2 <= n15
  /\ Z.max 1 (htfEMALength (config c) ?? 9) <= n15
  /\ (useEmaFilter (config c) = true -> Z.max 1 (emaLength (config c) ?? 21) <= n3).

(** The ATR of the history is a number above the configured minimum, which
    takes fifteen bars with finite prices. *)
Definition atrAboveMinimum (c : Calculator) : Prop :=
  isFinite (Calc.calculateATR c) = true
  /\ (Calc.calculateATR c >? Fin (minAtrToTrade (config c) ?? 0%Q))%js = true
  /\ (15 <= length (List.filter Calc.validOHLC (bars3min c)))%nat.

End EntryVocabulary.

(** ** The broker client ([services/projectx-client.ts])

    [ApiService] and [SignalRService] are not among the sources: they are
    the [Broker] the client talks to, an arbitrary deterministic state
    machine.  A client method is a computation over the client's fields, the
    broker and the log of the requests made; it returns or throws an error
    with a message.  One client method runs at a time. *)

Module Client.

(** *** Data *)

(** What a JSON field holds where the client reads it without looking at
    its type: a finite number, an infinity (a literal too large for
    binary64, such as 1e999), or a value that is not a number, with its
    truthiness ([null], a missing field and the empty string are falsy). *)
Inductive Value :=
| VNumber (q : Q)
| VInfinity (negative : bool)
| VOther (isTruthy : bool).

(** [!!v] *)
Definition truthy (v : Value) : bool :=
  match v with
  | VNumber q => negb (Qeq_bool q 0)
  | VInfinity _ => true
  | VOther t => t
  end.

(** An account as the client reads it: [canTrade] holds when the field
    is the boolean [true]. *)
Record Account := mkAccount {
  accountId : Z;
  canTrade : bool;
  balance : Value
}.

(** A field of a position row: a number, or any other value (an absent
    field included) with what [Number] makes of it. *)
Inductive Field :=
| Num (n : number)
| Other (asNumber : number).

Record PositionRow := mkRow {
  rowContractId : string;
  netQuantity : Field;
  longQuantity : Field;
  shortQuantity : Field;
  quantity : Field
}.

Record OrderRequest := mkOrderRequest {
  reqContractId : string;
  reqType : number;
  reqSide : number;
  reqSize : number
}.

(** The payload [createOrder] sends; [payAccountId] is what
    [selectedAccountId] holds. *)
Record OrderPayload := mkPayload {
  payAccountId : option Z;
  payContractId : string;
  payType : Z;
  paySide : Z;
  paySize : number
}.

Record OrderResponse := mkOrderResponse {
  orderSuccess : bool;
  orderErrorMessage : string;
  orderId : Z
}.

Record PositionsResponse := mkPositionsResponse {
  positionsSuccess : bool;
  positionsErrorMessage : string;
  positions : list PositionRow
}.

Record Ack := mkAck {
  success : bool;
  errorMessage : string
}.

(** A promise once settled. *)
Inductive Settled (A : Type) :=
| Resolved (a : A)
| Rejected (message : string).
Arguments Resolved {A}.
Arguments Rejected {A}.

(** The requests the client makes, as the log records them. *)
Inductive Request :=
| Authenticate (user key : string)
| SearchAccounts (live : bool)
| PlaceOrder (p : OrderPayload)
| CancelOrder (account : option Z) (order : Z)
| SearchOpenPositions (account : option Z)
| ClosePosition (account : option Z) (contract : string)
| PartialClosePosition (account : option Z) (contract : string) (size : number)
| SignalRUpdateToken (token : string)
| SignalRInitialize (token : string) (account : Z).

(** [ApiService] and [SignalRService] over a broker state [S]. *)
Class Broker (S : Type) := {
  apiAuthenticate : string -> string -> S -> Settled unit * S;
  apiSearchAccounts : bool -> S -> Settled (list Account) * S;
  apiPlaceOrder : OrderPayload -> S -> Settled OrderResponse * S;
  apiCancelOrder : option Z -> Z -> S -> Settled Ack * S;
  apiSearchOpenPositions : option Z -> S -> Settled PositionsResponse * S;
  apiClosePosition : option Z -> string -> S -> Settled Ack * S;
  apiPartialClosePosition : option Z -> string -> number -> S -> Settled Ack * S;
  (** [getAuthToken()]; [None] is [null] *)
  apiGetAuthToken : S -> option string;
  signalRUpdateToken : string -> S -> S;
  signalRInitialize : string -> Z -> S -> Settled unit * S
}.

(** The fields of [ProjectXClient]. *)
Record Fields := mkFields {
  userName : string;
  apiKey : string;
  isInitialized : bool;
  selectedAccountId : option Z
}.

(** *** String helpers *)

(** [s.includes(needle)] *)
Fixpoint includes (needle s : string) : bool :=
  String.prefix needle s
  || match s with
     | EmptyString => false
     | String _ r => includes needle r
     end.

(** A number inside a template literal, for an integer. *)
Definition show (z : Z) : string := NilZero.string_of_int (Z.to_int z).

(** [!id] for [number | null]: [null] and [0] are falsy. *)
Definition falsyId (id : option Z) : bool :=
  match id with
  | None => true
  | Some z => (z =? 0)%Z
  end.

(** [Map.prototype.set], keeping the position of a key already present. *)
Fixpoint mapSet (k : Z) (v : Account) (m : list (Z * Account)) : list (Z * Account) :=
  match m with
  | [] => [(k, v)]
  | (k', v') :: r => if (k =? k')%Z then (k, v) :: r else (k', v') :: mapSet k v r
  end.

(** [isTradableAccount]; the account is present where it is called. *)
Definition isTradableAccount (a : Account) : bool := canTrade a.

(** [Number(x)] and [typeof x === 'number'] for a field of a row. *)
Definition toNumber (f : Field) : number :=
  match f with Num n => n | Other n => n end.

Definition isNumber (f : Field) : bool :=
  match f with Num _ => true | Other _ => false end.

(** The net size [getNetPositionSize] reads off a position row. *)
Definition netOf (pos : PositionRow) : number :=
  let net : option number :=
    match netQuantity pos with Num n => Some n | Other _ => None end in
  let net :=
    match net with
    | Some n => Some n
    | None =>
        if isNumber (longQuantity pos) || isNumber (shortQuantity pos)
        then Some (orZero (toNumber (longQuantity pos))
                   - orZero (toNumber (shortQuantity pos)))%js
        else None
    end in
  let net :=
    match net, quantity pos with
    | None, Num q => Some q
    | _, _ => net
    end in
  net ?? Fin 0.

(** How a client method ends. *)
Inductive Completion (A : Type) :=
| Returned (a : A)
| Threw (message : string).
Arguments Returned {A}.
Arguments Threw {A}.

Section WithBroker.
Context {S : Type} `{Broker S}.

(** *** Client computations *)

Record World := mkWorld {
  fields : Fields;
  broker : S;
  requests : list Request
}.

Definition M (A : Type) : Type := World -> Completion A * World.

Definition M_ret : MRet M := fun A a w => (Returned a, w).

Definition M_bind : MBind M := fun A B f m w =>
  match m w with
  | (Returned a, w') => f a w'
  | (Threw e, w') => (Threw e, w')
  end.

#[local] Existing Instance M_ret.
#[local] Existing Instance M_bind.

(** [throw new Error(message)] *)
Definition throw {A} (message : string) : M A := fun w => (Threw message, w).

(** [try { m } catch (err) { handler(err?.message ?? '') }] *)
Definition tryCatch {A} (m : M A) (handler : string -> M A) : M A := fun w =>
  match m w with
  | (Returned a, w') => (Returned a, w')
  | (Threw e, w') => handler e w'
  end.

Definition getFields : M Fields := fun w => (Returned (fields w), w).

Definition setFields (f : Fields) : M unit := fun w =>
  (Returned tt, mkWorld f (broker w) (requests w)).

(** One awaited request: it is logged, the broker answers and moves on. *)
Definition request {A} (r : Request) (call : S -> Settled A * S) : M A := fun w =>
  let '(answer, b) := call (broker w) in
  let w' := mkWorld (fields w) b (requests w ++ [r]) in
  match answer with
  | Resolved a => (Returned a, w')
  | Rejected e => (Threw e, w')
  end.

Definition authenticate : M unit :=
  f ← getFields;
  request (Authenticate (userName f) (apiKey f)) (apiAuthenticate (userName f) (apiKey f)).

Definition searchAccounts (live : bool) : M (list Account) :=
  request (SearchAccounts live) (apiSearchAccounts live).

Definition initialize : M unit :=
  f ← getFields;
  if isInitialized f then mret tt
  else
    authenticate;;
    accounts ← searchAccounts true;
    f ← getFields;
    let selected :=
      match accounts with
      | a :: _ => Some (accountId a)
      | [] => selectedAccountId f
      end in
    setFields (mkFields (userName f) (apiKey f) true selected).

(** The token has expired, by the error message. *)
Definition expired (message : string) : bool :=
  includes "401" message || includes "Unauthorized" message.

Definition withTokenRefresh {A} (apiCall : M A) : M A :=
  tryCatch apiCall (fun message =>
    if expired message then
      authenticate;;
      w ← (fun w => (Returned w, w));
      match apiGetAuthToken (broker w), selectedAccountId (fields w) with
      | Some newToken, Some account =>
          if negb (String.eqb newToken "") && negb (account =? 0)%Z then
            request (SignalRUpdateToken newToken)
                    (fun b => (Resolved tt, signalRUpdateToken newToken b));;
            tryCatch (request (SignalRInitialize newToken account)
                              (signalRInitialize newToken account))
                     (fun _ => mret tt)
          else mret tt
      | _, _ => mret tt
      end;;
      apiCall
    else throw message).

Definition fetchAllAccountsMerged : M (list Account) :=
  initialize;;
  live ← tryCatch (searchAccounts true) (fun _ => mret []);
  prac ← tryCatch (searchAccounts false) (fun _ => mret []);
  let mergeById := fold_left (fun m a => mapSet (accountId a) a m) (live ++ prac) [] in
  mret (snd <$> mergeById).

Definition ensureActiveAccount : M unit :=
  initialize;;
  f ← getFields;
  match selectedAccountId f with
  | None => throw "No account selected (selectedAccountId is null)"
  | Some selected =>
      all ← fetchAllAccountsMerged;
      match List.find (fun a => (accountId a =? selected)%Z) all with
      | None => throw ("Selected account unknown (id=" ++ show selected ++ ")")
      | Some acct =>
          if negb (isTradableAccount acct)
          then throw ("Selected account (id=" ++ show (accountId acct)
                      ++ ") is not tradable (canTrade=false)")
          else mret tt
      end
  end.

(** [if (!this.selectedAccountId) throw new Error('No account selected')] *)
Definition requireAccount : M unit :=
  f ← getFields;
  if falsyId (selectedAccountId f) then throw "No account selected" else mret tt.

(** A request that reads [this.selectedAccountId] when it is made. *)
Definition withAccount {A} (r : option Z -> Request) (call : option Z -> S -> Settled A * S)
    : M A :=
  f ← getFields;
  request (r (selectedAccountId f)) (call (selectedAccountId f)).

Definition getAccounts : M (list Account) :=
  initialize;;
  withTokenRefresh (searchAccounts true).

(** [accounts[0]?.balance || 0] *)
Definition firstBalance (accounts : list Account) : Value :=
  match accounts with
  | a :: _ => if truthy (balance a) then balance a else VNumber 0
  | [] => VNumber 0
  end.

Definition getBalance : M Value :=
  accounts ← getAccounts;
  mret (firstBalance accounts).

Definition getEquity : M Value :=
  accounts ← getAccounts;
  mret (firstBalance accounts).

Definition createOrder (orderRequest : OrderRequest) : M Z :=
  initialize;;
  requireAccount;;
  ensureActiveAccount;;
  let side := if (reqSide orderRequest =? Fin 0)%js then 0 else 1 in
  f ← getFields;
  let payload :=
    mkPayload (selectedAccountId f) (reqContractId orderRequest) 2 side
              (reqSize orderRequest) in
  response ← withTokenRefresh (request (PlaceOrder payload) (apiPlaceOrder payload));
  if negb (orderSuccess response) then throw (orderErrorMessage response)
  else mret (orderId response).

Definition cancelOrder (order : Z) : M unit :=
  initialize;;
  requireAccount;;
  response ← withTokenRefresh
               (withAccount (fun a => CancelOrder a order) (fun a => apiCancelOrder a order));
  if negb (success response) then throw (errorMessage response) else mret tt.

Definition searchOpenPositions : M PositionsResponse :=
  withTokenRefresh (withAccount SearchOpenPositions apiSearchOpenPositions).

Definition getPositions : M (list PositionRow) :=
  initialize;;
  requireAccount;;
  response ← searchOpenPositions;
  if negb (positionsSuccess response) then throw (positionsErrorMessage response)
  else mret (positions response).

Definition closePosition (contract : string) : M unit :=
  initialize;;
  requireAccount;;
  response ← withTokenRefresh
               (withAccount (fun a => ClosePosition a contract)
                            (fun a => apiClosePosition a contract));
  if negb (success response) then throw (errorMessage response) else mret tt.

Definition partialClosePosition (contract : string) (size : number) : M unit :=
  initialize;;
  requireAccount;;
  if negb (isFinite size) || (size <=? Fin 0)%js
  then throw "partialClosePosition: size must be > 0"
  else
    response ← withTokenRefresh
                 (withAccount (fun a => PartialClosePosition a contract (JS.floor size))
                              (fun a => apiPartialClosePosition a contract (JS.floor size)));
    if negb (success response) then throw (errorMessage response) else mret tt.

Definition getNetPositionSize (contract : string) : M number :=
  initialize;;
  requireAccount;;
  resp ← searchOpenPositions;
  if negb (positionsSuccess resp) then throw (positionsErrorMessage resp)
  else
    match List.find (fun p => String.eqb (rowContractId p) contract) (positions resp) with
    | None => mret (Fin 0)
    | Some pos => mret (netOf pos)
    end.

(** The result [{ closed, remaining }] *)
Record Closed := mkClosed {
  closed : number;
  remaining : number
}.

Definition closePositionByQtySafe (contract : string) (requestedSize : number) : M Closed :=
  initialize;;
  requireAccount;;
  if negb (isFinite requestedSize) || (requestedSize <=? Fin 0)%js
  then throw "requestedSize must be > 0"
  else
    net ← getNetPositionSize contract;
    let netAbs := JS.abs net in
    if (netAbs =? Fin 0)%js then mret (mkClosed (Fin 0) (Fin 0))
    else
      let size := JS.min (JS.floor requestedSize) netAbs in
      if (size =? Fin 0)%js then mret (mkClosed (Fin 0) netAbs)
      else
        response ← withTokenRefresh
                     (withAccount (fun a => PartialClosePosition a contract size)
                                  (fun a => apiPartialClosePosition a contract size));
        if negb (success response) then throw (errorMessage response)
        else mret (mkClosed size (netAbs - size)%js).

Definition closeAllQty (contract : string) : M unit :=
  net ← getNetPositionSize contract;
  let netAbs := JS.abs net in
  if (netAbs >? Fin 0)%js then closePositionByQtySafe contract netAbs;; mret tt
  else mret tt.

Definition connectWebSocket : M unit :=
  f ← getFields;
  (if negb (isInitialized f) then initialize else mret tt);;
  w ← (fun w => (Returned w, w));
  match apiGetAuthToken (broker w), selectedAccountId (fields w) with
  | Some authToken, Some account =>
      if negb (String.eqb authToken "") && negb (account =? 0)%Z
      then request (SignalRInitialize authToken account) (signalRInitialize authToken account)
      else throw "Not authenticated or account not selected"
  | _, _ => throw "Not authenticated or account not selected"
  end.

(** A fresh client, as the constructor leaves it. *)
Definition newClient (user key : string) (b : S) : World :=
  mkWorld (mkFields user key false None) b [].

End WithBroker.

Arguments World : clear implicits.
Arguments M : clear implicits.

End Client.

(** ** Vocabulary for the client's computations *)

Section ClientVocabulary.
Context {S : Type} `{Client.Broker S}.

(** Every request the computation [m] makes satisfies [P]: the log only
    grows, by requests that satisfy [P]. *)
Definition adds (P : Client.Request -> Prop) {A} (m : Client.M S A) : Prop :=
  forall w, exists new,
    Client.requests (snd (m w)) = Client.requests w ++ new /\ Forall P new.

(** The computation [m] leaves the client's fields as they are. *)
Definition keeps {A} (m : Client.M S A) : Prop :=
  forall w, Client.fields (snd (m w)) = Client.fields w.

(** The computation [m] is refused in [w] for want of an account: it throws
    "No account selected" and leaves [w] as it is. *)
Definition refused {A} (m : Client.M S A) (w : Client.World S) : Prop :=
  m w = (Client.Threw "No account selected", w).

(** The broker reports no account that may trade. *)
Definition nothingTradable : Prop :=
  forall live b accounts b',
    Client.apiSearchAccounts live b = (Client.Resolved accounts, b') ->
    Forall (fun a => Client.canTrade a = false) accounts.

(** The requests [m] makes from [w], in order. *)
Definition requestsOf {A} (m : Client.M S A) (w : Client.World S) : list Client.Request :=
  drop (length (Client.requests w)) (Client.requests (snd (m w))).

End ClientVocabulary.

(** The payload of an order placed for the request [req]: a market order
    (type 2) on side 0 when the request's side is 0 and on side 1
    otherwise, for the requested contract and size. *)
Definition marketOrderFor (req : Client.OrderRequest) (r : Client.Request) : Prop :=
  match r with
  | Client.PlaceOrder p =>
      Client.payType p = 2
      /\ Client.paySide p = (if (Client.reqSide req =? Fin 0)%js then 0 else 1)
      /\ Client.paySize p = Client.reqSize req
      /\ Client.payContractId p = Client.reqContractId req
  | _ => True
  end.

Definition notPlaceOrder (r : Client.Request) : Prop :=
  match r with Client.PlaceOrder _ => False | _ => True end.

(** A partial close, if [r] is one, is for [contract] and of [size]. *)
Definition partialCloseOf (contract : string) (size : number) (r : Client.Request) : Prop :=
  match r with
  | Client.PartialClosePosition _ c sz => c = contract /\ sz = size
  | _ => True
  end.

Definition notPartialClose (r : Client.Request) : Prop :=
  match r with Client.PartialClosePosition _ _ _ => False | _ => True end.

(** A request that neither places or cancels an order nor closes a
    position. *)
Definition notTrading (r : Client.Request) : Prop :=
  match r with
  | Client.PlaceOrder _ | Client.CancelOrder _ _
  | Client.ClosePosition _ _ | Client.PartialClosePosition _ _ _ => False
  | _ => True
  end.

(** ** A broker desk for running the client

    One live account list, one practice account list, the open positions,
    and a session token that may have expired: while it has, every request
    other than [authenticate] is rejected with a 401. *)

Module Desk.

Record State := mkState {
  liveAccounts : list Client.Account;
  practiceAccounts : list Client.Account;
  openPositions : list Client.PositionRow;
  tokenExpired : bool;
  token : option string;
  nextOrderId : Z
}.

Definition guarded {A} (s : State) (answer : A) : Client.Settled A * State :=
  if tokenExpired s then (Client.Rejected "Request failed with status code 401", s)
  else (Client.Resolved answer, s).

Definition desk : Client.Broker State :=
  Client.Build_Broker State
    (fun _ _ s =>
       (Client.Resolved tt,
        mkState (liveAccounts s) (practiceAccounts s) (openPositions s) false
                (Some "fresh-token"%string) (nextOrderId s)))
    (fun live s => guarded s (if live then liveAccounts s else practiceAccounts s))
    (fun _ s =>
       if tokenExpired s then guarded s (Client.mkOrderResponse false "" 0)
       else (Client.Resolved (Client.mkOrderResponse true "" (nextOrderId s)),
             mkState (liveAccounts s) (practiceAccounts s) (openPositions s) false
                     (token s) (nextOrderId s + 1)))
    (fun _ _ s => guarded s (Client.mkAck true ""))
    (fun _ s => guarded s (Client.mkPositionsResponse true "" (openPositions s)))
    (fun _ _ s => guarded s (Client.mkAck true ""))
    (fun _ _ _ s => guarded s (Client.mkAck true ""))
    token
    (fun _ s => s)
    (fun _ _ s => (Client.Resolved tt, s)).

(** An account that may trade with 50 000 of balance, a practice account
    that may not; a long position of 3 contracts. *)
Definition funded : Client.Account := Client.mkAccount 7 true (Client.VNumber 50000).
Definition practice : Client.Account := Client.mkAccount 8 false (Client.VNumber 1000).

Definition threeLong : Client.PositionRow :=
  Client.mkRow "CON.F.US.MNQ.H26" (Client.Other NaN) (Client.Num (Fin 3))
               (Client.Other NaN) (Client.Other NaN).

Definition trading : State :=
  mkState [funded] [practice] [threeLong] false (Some "token"%string) 100.

(** The same with the token expired, and with no live account. *)
Definition stale : State :=
  mkState [funded] [practice] [threeLong] true (Some "token"%string) 100.

Definition noLiveAccount : State :=
  mkState [] [practice] [] false (Some "token"%string) 100.

End Desk.

#[global] Existing Instance Desk.desk.

(** ** Proof steps for client computations *)

(** Unfolding the plumbing of a client computation. *)
Ltac client_unfold :=
  unfold Client.withTokenRefresh, Client.withAccount, Client.searchAccounts,
    Client.authenticate, Client.requireAccount, Client.tryCatch, Client.request,
    Client.getFields, Client.setFields, Client.throw, mbind, Client.M_bind, mret,
    Client.M_ret.

(** Case analysis on every answer of the broker and every test, innermost
    first. *)
Ltac client_cases :=
  repeat (cbn [fst snd Client.fields Client.broker Client.requests Client.isInitialized
               Client.selectedAccountId Client.userName Client.apiKey];
          match goal with
          | |- context [let (_, _) := ?x in _] =>
              let T := type of x in
              lazymatch T with
              | (Client.Settled _ * _)%type => destruct x as [[?|?] ?] eqn:?
              end
          | |- context [if ?b then _ else _] => destruct b eqn:?
          | |- context [match ?x with Some _ => _ | None => _ end] => destruct x eqn:?
          | |- context [match ?x with [] => _ | _ :: _ => _ end] => destruct x eqn:?
          end);
  cbn [fst snd Client.fields Client.broker Client.requests Client.isInitialized
       Client.selectedAccountId Client.userName Client.apiKey].

(** ** Further sample states *)

Module Cases.

(** A calculator whose 3-minute history is at its cap, and two more bars:
    one at warm-up, one at a bar close. *)
Definition atCap : Calculator :=
  Sample.warmed Sample.MNQ_DELTA_TREND_CONFIG
                (replicate 2000 (Sample.bar Sample.ts1002 101 102 100 101 0)).

Definition twoMoreBars : list Lifetime.Op :=
  [Lifetime.WarmUpBar (Sample.bar Sample.ts1005 101 102 100 101 0) Calc.TF3min;
   Lifetime.NewBar (Sample.bar Sample.ts1008 101 102 100 101 0) Sample.bullishAtr10].

(** Warm-up bars that carry no delta of their own: volumes 120.5 and 80,
    closes 100 and 101. *)
Definition barsWithoutDelta : list Lifetime.Op :=
  [Lifetime.WarmUpBar (mkBar Sample.ts1002 (Fin 100) (Fin 101) (Fin 99) (Fin 100)
                             (Some (Fin 120.5)) None) Calc.TF3min;
   Lifetime.WarmUpBar (mkBar Sample.ts1005 (Fin 100) (Fin 102) (Fin 100) (Fin 101)
                             (Some (Fin 80)) None) Calc.TF3min;
   Lifetime.CompleteWarmUp].

(** The live session once its first bar has closed: the market state holds
    the ATR, no entry was made in the open bucket. *)
Definition ready : Trader :=
  Coordinator.trader (fst (Coordinator.run Sample.live (firstn 2 Sample.qualifyingTicks))).

Definition buySignal : TradeSignal := mkSignal buy (LongEntry (Fin 900)) 0.9.

(** The live session with the order filled: long from 20313. *)
Definition holding : Trader :=
  Coordinator.trader
    (fst (Coordinator.step Sample.awaitingOrder
            (Coordinator.OrderSettled true (Sample.at1100 + 183000)))).

(** Clients of the desk: fresh, and initialised where no live account is
    reported. *)
Definition client : Client.World Desk.State := Client.newClient "user" "key" Desk.trading.

Definition withoutAccount : Client.World Desk.State :=
  snd (Client.initialize (Client.newClient "user" "key" Desk.noLiveAccount)).

(** The bar that closes the 11:00 bucket of the session with history: it
    closes at 20310 with a delta of 900.  A market state before its first
    bar close. *)
Definition entryBar : BarData :=
  Sample.bar (Host.toISOString (Sample.at1100 + 179999)) 20295 20312 20294 20310 900.

Definition firstClose : MarketState := mkMarketState (Fin 0) neutral (Fin 0).

End Cases.

(** ** The binary64 reading of the rounding-sensitive functions

    A JavaScript [number] is an IEEE 754 binary64 value, and so is a
    primitive float of Rocq: [+], [-], [*] and [/] round to nearest, ties
    to even, overflow to an infinity, and comparisons are false on [NaN].
    The properties stated over the rational model above rest on
    comparisons, [Math.max], [Math.min] and control flow, which rounding
    does not touch.  Where a result depends on how a sum, a product or a
    quotient is rounded, the function is embedded here a second time, over
    the floats, line by line from the same source: [calculateATR],
    [smaSignedDelta], [generateSignal] and [generateSignalForFormingBar].
    A decimal literal stands for the binary64 value nearest to it, as it
    does in the source. *)

From Stdlib Require Floats.

Set Warnings "-inexact-float".

Module F64.
Import Floats.
Local Open Scope float_scope.

(** *** Numbers *)

(** [Number.isFinite] *)
Definition isFinite (x : float) : bool := is_finite x.

(** [Math.max] of two numbers: [NaN] as soon as one is, and [+0] above
    [-0]. *)
Definition max (x y : float) : float :=
  if is_nan x || is_nan y then nan
  else if x <? y then y
  else if y <? x then x
  else if get_sign x then y else x.

(** [Math.max(...xs)]: [-Infinity] without arguments. *)
Definition maxList (xs : list float) : float := fold_left max xs neg_infinity.

(** [x >= y], [x > y] *)
Definition geb (x y : float) : bool := y <=? x.
Definition gtb (x y : float) : bool := y <? x.

(** [Number(x) || 0]: [NaN], [0] and [-0] give [0]. *)
Definition orZero (x : float) : float :=
  if is_nan x || is_zero x then 0 else x.

(** An integer as a number, rounded to nearest where it has more than 53
    significant bits. *)
Definition ofZ (z : Z) : float := SF2Prim (binary_normalize prec emax z 0 false).

(** *** Data: the fields the four functions read and write *)

Record BarData := mkBar {
  timestamp : string;
  open : float;
  high : float;
  low : float;
  close : float;
  volume : option float;
  delta : option float
}.

Record MarketState := mkMarketState {
  atr : float;
  higherTimeframeTrend : Trend;
  deltaCumulative : float
}.

Inductive Reason :=
| SameBarReentryBlocked
| AtrNotAbove (a threshold : float)
| DeltaSmaNotReady
| BarCloseFade (currAbs peakAbs : float)
| LtfEmaLongNotPassed
| LtfEmaShortNotPassed
| LongEntry (d : float)
| ShortEntry (d : float)
| NoSignal
| AtrGateFailed
| IntraFade (currAbs peakAbs : float)
| EmaFilter
| IntraLongEntry (d : float)
| IntraShortEntry (d : float)
| NoIntraSignal.

Record TradeSignal := mkSignal {
  signal : Signal;
  reason : Reason;
  confidence : float
}.

Record StrategyConfig := mkConfig {
  deltaSMALength : option Z;
  deltaSpikeThreshold : option float;
  deltaSurgeMultiplier : option float;
  useEmaFilter : bool;
  minAtrToTrade : option float;
  deltaFadeRatio : option float
}.

Record IntraDelta := mkIntraDelta {
  idDelta : float;
  idTimestamp : Z
}.

Record Calculator := mkCalculator {
  config : StrategyConfig;
  bars3min : list BarData;
  intraBarDeltaHistory : list IntraDelta;
  lastEntryBarTimestamp : option string
}.

Definition set_lastEntryBarTimestamp (v : option string) (c : Calculator) : Calculator :=
  mkCalculator (config c) (bars3min c) (intraBarDeltaHistory c) v.

(** *** ATR *)

Definition period : nat := 14.

Definition validOHLC (b : BarData) : bool :=
  isFinite (open b) && isFinite (high b) && isFinite (low b) && isFinite (close b).

(** The first loop of [calculateATR], run over the history from its end:
    keep valid bars until [n] of them are collected. *)
Fixpoint takeValid (n : nat) (newestFirst : list BarData) : list BarData :=
  match n, newestFirst with
  | O, _ => []
  | _, [] => []
  | S k, b :: r => if validOHLC b then b :: takeValid k r else takeValid n r
  end.

(** [Math.max(h - l, Math.abs(h - prevC), Math.abs(l - prevC))] *)
Definition trueRange (prev cur : BarData) : float :=
  maxList [high cur - low cur; abs (high cur - close prev); abs (low cur - close prev)].

(** [for (i = 1; i < validTail.length; i++) tr.push(...)] *)
Fixpoint trueRangesFrom (prev : BarData) (rest : list BarData) : list float :=
  match rest with
  | [] => []
  | b :: r => trueRange prev b :: trueRangesFrom b r
  end.

Definition trueRanges (bars : list BarData) : list float :=
  match bars with
  | [] => []
  | b :: r => trueRangesFrom b r
  end.

(** [(atr * (period - 1) + tr[i]) / period] *)
Definition wilder (a t : float) : float := (a * 13 + t) / 14.

Definition calculateATR (c : Calculator) : float :=
  if (length (bars3min c) <? period + 1)%nat then nan else
  let validTail := takeValid (period + 1) (rev (bars3min c)) in
  if (length validTail <? period + 1)%nat then nan else
  let validTail := rev validTail in
  let tr := trueRanges validTail in
  if (length tr <? period)%nat then nan else
  let seed := fold_left add (firstn period tr) 0 / 14 in
  fold_left wilder (skipn period tr) seed.

(** *** Signed-delta average *)

(** [bars[i].delta ?? (bars[i].close - (bars[i - 1]?.close ?? bars[i].open))];
    the loop of [smaSignedDelta] only reads indices inside the array. *)
Definition deltaAt (bars : list BarData) (i : Z) : float :=
  match at_ bars i with
  | Some b =>
      match delta b with
      | Some d => d
      | None =>
          close b - (match at_ bars (i - 1) with
                     | Some p => close p
                     | None => open b
                     end)
      end
  | None => nan
  end.

Definition smaSignedDelta (c : Calculator) (n endIndex : Z) : float :=
  if (endIndex <? 0)%Z then nan else
  let start := Z.max 0 (endIndex - n + 1) in
  if (endIndex - start + 1 <? n)%Z then nan else
  let sum :=
    fold_left (fun s i => s + orZero (deltaAt (bars3min c) i))
              (seqZ start (endIndex - start + 1)) 0 in
  sum / ofZ n.

(** *** Entry signals *)

Definition holdSignal (r : Reason) : TradeSignal := mkSignal hold r 0.

(** [peakAbs === 0 || currAbs >= peakAbs * (deltaFadeRatio ?? 0.7)] *)
Definition fadeOk (c : Calculator) (peakAbs currAbs : float) : bool :=
  (peakAbs =? 0) || geb currAbs (peakAbs * (deltaFadeRatio (config c) ?? 0.7)).

(** "Fade check for bar-close path": the hold it produces, if any. *)
Definition barCloseFade (c : Calculator) (d : float) : option Reason :=
  let nbars := Z.of_nat (length (bars3min c)) in
  if (2 <=? nbars)%Z then
    let prevDelta :=
      match at_ (bars3min c) (nbars - 2) with
      | Some pb => delta pb ?? 0
      | None => 0
      end in
    let peakAbs := maxList [abs prevDelta; abs d] in
    let currAbs := abs d in
    if fadeOk c peakAbs currAbs then None
    else Some (BarCloseFade currAbs peakAbs)
  else None.

Definition generateSignal (c : Calculator) (bar : BarData) (ms : MarketState)
    (gates : Calc.Gates) : Calculator * TradeSignal :=
  if Calc.sameTimestamp (lastEntryBarTimestamp c) (timestamp bar)
  then (c, holdSignal SameBarReentryBlocked) else
  let a := atr ms in
  let atrThreshold := minAtrToTrade (config c) ?? 0 in
  if negb (isFinite a && gtb a atrThreshold)
  then (c, holdSignal (AtrNotAbove a atrThreshold)) else
  let spike := deltaSpikeThreshold (config c) ?? 450 in
  let d := delta bar ?? 0 in
  let len := Z.max 1 (deltaSMALength (config c) ?? 20%Z) in
  let deltaSMA := smaSignedDelta c len (Z.of_nat (length (bars3min c)) - 1) in
  if negb (isFinite deltaSMA) then (c, holdSignal DeltaSmaNotReady) else
  match barCloseFade c d with
  | Some r => (c, holdSignal r)
  | None =>
      let surgeMult := deltaSurgeMultiplier (config c) ?? 1.8 in
      let longThreshold := abs deltaSMA * surgeMult in
      let shortThreshold := - abs deltaSMA * surgeMult in
      let passDeltaLong := gtb d spike && gtb d longThreshold in
      let passDeltaShort := (d <? - spike) && (d <? shortThreshold) in
      let htf := higherTimeframeTrend ms in
      if passDeltaLong && Calc.isTrend htf bullish && Calc.gBrokeUp gates then
        if useEmaFilter (config c) && negb (Calc.gPassLong gates)
        then (c, holdSignal LtfEmaLongNotPassed)
        else (set_lastEntryBarTimestamp (Some (timestamp bar)) c,
              mkSignal buy (LongEntry d) 0.9)
      else if passDeltaShort && Calc.isTrend htf bearish && Calc.gBrokeDown gates then
        if useEmaFilter (config c) && negb (Calc.gPassShort gates)
        then (c, holdSignal LtfEmaShortNotPassed)
        else (set_lastEntryBarTimestamp (Some (timestamp bar)) c,
              mkSignal sell (ShortEntry d) 0.9)
      else (c, holdSignal NoSignal)
  end.

Definition generateSignalForFormingBar (c : Calculator) (formingBar : BarData)
    (ms : MarketState) (gates : Calc.Gates) : TradeSignal :=
  let a := atr ms in
  let atrThreshold := minAtrToTrade (config c) ?? 0 in
  if negb (isFinite a && gtb a atrThreshold) then holdSignal AtrGateFailed else
  let spike := deltaSpikeThreshold (config c) ?? 450 in
  let d := delta formingBar ?? 0 in
  let len := Z.max 1 (deltaSMALength (config c) ?? 20%Z) in
  let deltaSMA := smaSignedDelta c len (Z.of_nat (length (bars3min c)) - 1) in
  if negb (isFinite deltaSMA) then holdSignal DeltaSmaNotReady else
  let surgeMult := deltaSurgeMultiplier (config c) ?? 1.8 in
  let longThreshold := abs deltaSMA * surgeMult in
  let shortThreshold := - abs deltaSMA * surgeMult in
  let peakAbs :=
    maxList (((fun e => abs (idDelta e)) <$> intraBarDeltaHistory c) ++ [abs d; 0]) in
  let currAbs := abs d in
  let ok := fadeOk c peakAbs currAbs in
  if negb ok then holdSignal (IntraFade currAbs peakAbs) else
  let passDeltaLong := gtb d spike && gtb d longThreshold && ok in
  let passDeltaShort := (d <? - spike) && (d <? shortThreshold) && ok in
  let htf := higherTimeframeTrend ms in
  if passDeltaLong && Calc.isTrend htf bullish && Calc.gBrokeUp gates then
    if useEmaFilter (config c) && negb (Calc.gPassLong gates)
    then holdSignal EmaFilter
    else mkSignal buy (IntraLongEntry d) 0.85
  else if passDeltaShort && Calc.isTrend htf bearish && Calc.gBrokeDown gates then
    if useEmaFilter (config c) && negb (Calc.gPassShort gates)
    then holdSignal EmaFilter
    else mkSignal sell (IntraShortEntry d) 0.85
  else holdSignal NoIntraSignal.

(** *** Vocabulary of the statements *)

(** A history whose valid bars number at least 15 and in which every two
    neighbouring valid bars have true range [r]. *)
Definition constantRange (r : float) (bars : list BarData) : Prop :=
  let valid := List.filter validOHLC bars in
  (15 <= length valid)%nat
  /\ Forall (fun ab => trueRange (fst ab) (snd ab) = r) (adjacentPairs valid).

(** What the seed of [calculateATR] makes of fourteen true ranges [r]: [r]
    added fourteen times to [0], left to right, and the sum divided by 14,
    each operation rounded. *)
Definition meanOfFourteen (r : float) : float :=
  fold_left add (repeat r 14) 0 / 14.

(** [peakAbs] of the closed-bar path, [pb] being the previous stored bar, and
    of the forming-bar path. *)
Definition closedBarPeak (bar pb : BarData) : float :=
  maxList [abs (delta pb ?? 0); abs (delta bar ?? 0)].

Definition formingBarPeak (c : Calculator) (bar : BarData) : float :=
  maxList (((fun e => abs (idDelta e)) <$> intraBarDeltaHistory c)
           ++ [abs (delta bar ?? 0); 0]).

(** The product [peakAbs * (deltaFadeRatio ?? 0.7)] as the fade check
    computes it. *)
Definition fadeThreshold (c : Calculator) (peakAbs : float) : float :=
  peakAbs * (deltaFadeRatio (config c) ?? 0.7).

(** *** The IEEE 754 datum of a number *)

(** [x] is not [NaN]; [x] is a zero or a finite number; [x] has the sign
    [s]; [x] is a zero, a positive number or [+Infinity]. *)
Definition isNumberSF (x : spec_float) : Prop := x <> S754_nan.

Definition finiteSF (x : spec_float) : Prop :=
  match x with
  | S754_zero _ | S754_finite _ _ _ => True
  | _ => False
  end.

Definition signedSF (s : bool) (x : spec_float) : Prop :=
  match x with
  | S754_nan => False
  | S754_zero s' | S754_infinity s' | S754_finite s' _ _ => s' = s
  end.

Definition notNegativeSF (x : spec_float) : Prop :=
  match x with
  | S754_nan => False
  | S754_zero _ => True
  | S754_infinity s | S754_finite s _ _ => s = false
  end.

(** A number that is not negative: [+Infinity] included, [NaN] excluded. *)
Definition notNegative (x : float) : Prop := is_nan x = false /\ (x <? 0) = false.

(** *** Sample histories *)

Module Histories.

(** Fifteen bars between 0 and 0.3 that open and close at 0.1: every true
    range is 0.3. *)
Definition barOfRange03 (i : Z) : BarData :=
  mkBar (Host.toISOString (Sample.open0930 + i * 180000 + 179999)) 0.1 0.3 0 0.1 None None.

Definition range03 : Calculator :=
  mkCalculator (mkConfig None None None false None None) (barOfRange03 <$> seqZ 0 15) [] None.

(** Fifteen bars between 100 and 102 that open and close at 101: every
    true range is 2. *)
Definition barOfRange2 (i : Z) : BarData :=
  mkBar (Host.toISOString (Sample.open0930 + i * 180000 + 179999)) 101 102 100 101 None None.

Definition range2 : Calculator :=
  mkCalculator (mkConfig None None None false None None) (barOfRange2 <$> seqZ 0 15) [] None.

(** A bar of delta [d].  A stored bar of delta 1500 followed by the bar
    that just closed, of delta [d]; a delta average over two bars, the
    spike threshold at its default and the fade ratio [ratio]. *)
Definition barOfDelta (ts : string) (d : float) : BarData :=
  mkBar ts 101 103 100 102 (Some 2000) (Some d).

Definition afterDelta1500 (ratio d : float) : Calculator :=
  mkCalculator (mkConfig (Some 2%Z) None None false None (Some ratio))
               [barOfDelta Sample.ts1005 1500; barOfDelta Sample.ts1008 d] [] None.

(** The same with the 1500 in the intra-bar history of the forming bar. *)
Definition intraPeak1500 (ratio : float) : Calculator :=
  mkCalculator (mkConfig (Some 2%Z) None None false None (Some ratio))
               [barOfDelta Sample.ts1002 100; barOfDelta Sample.ts1005 200]
               [mkIntraDelta 1500 Sample.at1003] None.

Definition bullishAtr10 : MarketState := mkMarketState 10 bullish 0.

(** Two stored bars of delta 1e308 each. *)
Definition hugeDeltas : Calculator :=
  mkCalculator (mkConfig (Some 2%Z) None None false None None)
               [barOfDelta Sample.ts1005 1e308; barOfDelta Sample.ts1008 1e308] [] None.

(** Fifteen bars between 0 and 1e308: every true range is 1e308, and two
    of them already add up to more than binary64 holds. *)
Definition barOfRange1e308 (i : Z) : BarData :=
  mkBar (Host.toISOString (Sample.open0930 + i * 180000 + 179999)) 0 1e308 0 0 None None.

Definition hugeRanges : Calculator :=
  mkCalculator (mkConfig None None None false None None) (barOfRange1e308 <$> seqZ 0 15) [] None.

End Histories.

End F64.

(** * Properties *)

(** ** Numbers *)

Section NumberFacts.
Local Open Scope Q_scope.

Lemma Qlt_bool_true (a b : Q) : JS.Qlt_bool a b = true <-> a < b.
Proof.
  unfold JS.Qlt_bool. rewrite negb_true_iff.
  split; intro E.
  - apply Qnot_le_lt. intro L. apply Qle_bool_iff in L. congruence.
  - destruct (Qle_bool b a) eqn:L; [|reflexivity].
    apply Qle_bool_iff in L. exfalso. apply (Qlt_not_le _ _ E L).
Qed.

Lemma Qlt_bool_false (a b : Q) : JS.Qlt_bool a b = false <-> b <= a.
Proof.
  unfold JS.Qlt_bool. rewrite negb_false_iff. apply Qle_bool_iff.
Qed.

Lemma Qle_bool_false (a b : Q) : Qle_bool a b = false <-> b < a.
Proof.
  rewrite <- Qlt_bool_true. unfold JS.Qlt_bool.
  destruct (Qle_bool a b); simpl; split; congruence.
Qed.

Lemma Qmax'_l (a b : Q) : a <= JS.Qmax' a b.
Proof.
  unfold JS.Qmax'. destruct (Qle_bool a b) eqn:E.
  - now apply Qle_bool_iff. - apply Qle_refl.
Qed.

Lemma Qmax'_r (a b : Q) : b <= JS.Qmax' a b.
Proof.
  unfold JS.Qmax'. destruct (Qle_bool a b) eqn:E.
  - apply Qle_refl. - apply Qle_bool_false in E. now apply Qlt_le_weak.
Qed.

Lemma Qmin'_l (a b : Q) : JS.Qmin' a b <= a.
Proof.
  unfold JS.Qmin'. destruct (Qle_bool a b) eqn:E.
  - apply Qle_refl. - apply Qle_bool_false in E. now apply Qlt_le_weak.
Qed.

Lemma Qmin'_r (a b : Q) : JS.Qmin' a b <= b.
Proof.
  unfold JS.Qmin'. destruct (Qle_bool a b) eqn:E.
  - now apply Qle_bool_iff. - apply Qle_refl.
Qed.

Lemma gtb_Fin (x : number) (b : Q) :
  (x >? Fin b)%js = true -> exists a, x = Fin a /\ b < a.
Proof.
  destruct x as [a|]; simpl; [|discriminate].
  intro E. exists a. split; [reflexivity|]. now apply Qlt_bool_true.
Qed.

Lemma ltb_Fin (x : number) (b : Q) :
  (x <? Fin b)%js = true -> exists a, x = Fin a /\ a < b.
Proof.
  destruct x as [a|]; simpl; [|discriminate].
  intro E. exists a. split; [reflexivity|]. now apply Qlt_bool_true.
Qed.

Lemma isFinite_Fin (x : number) : isFinite x = true -> exists a, x = Fin a.
Proof. destruct x; [eauto | discriminate]. Qed.

Lemma equiv_refl (x : number) : x ≃ x.
Proof. destruct x; simpl; [apply Qeq_refl | exact I]. Qed.

End NumberFacts.

(** ** The stop state machine *)

Section StopFacts.
Context `{Env}.

Lemma updateHigherTimeframeBars_stops bar c :
  stopState (Calc.updateHigherTimeframeBars bar c) = stopState c.
Proof. unfold Calc.updateHigherTimeframeBars. split_all. Qed.

Lemma generateSignal_stops c bar ms g :
  stopState (fst (Calc.generateSignal c bar ms g)) = stopState c.
Proof. unfold Calc.generateSignal. split_all. Qed.

Lemma processNewBar_stops c incoming ms :
  stopState (fst (fst (Calc.processNewBar c incoming ms))) = stopState c.
Proof.
  unfold Calc.processNewBar.
  destruct (negb (isWarmUpProcessed c)); [reflexivity|].
  set (bar := Calc.withDelta _ incoming).
  set (c1 := set_bars3min _ c).
  set (c2 := Calc.updateHigherTimeframeBars bar c1).
  assert (E : stopState c2 = stopState c)
    by (unfold c2; rewrite updateHigherTimeframeBars_stops; reflexivity).
  destruct (negb (Calc.isInTradingSession c2 (timestamp incoming))); [exact E|].
  destruct (Calc.checkExitConditions c2 bar); [exact E|].
  match goal with
  | |- context [Calc.generateSignal c2 bar ?m ?g] =>
      pose proof (generateSignal_stops c2 bar m g) as G;
      destruct (Calc.generateSignal c2 bar m g) as [c3 s]
  end.
  simpl in *. congruence.
Qed.

Lemma evaluateFormingBar_stops c b ms acc now :
  stopState (fst (fst (Calc.evaluateFormingBar c b ms acc now))) = stopState c.
Proof. unfold Calc.evaluateFormingBar. split_all. Qed.

Lemma processWarmUpBar_stops bar tf c :
  stopState (Calc.processWarmUpBar bar tf c) = stopState c.
Proof. unfold Calc.processWarmUpBar. destruct tf; reflexivity. Qed.

(** Every call other than a tick leaves the stop state alone. *)
Lemma apply_stops c op :
  (forall px now, op <> Lifetime.Tick px now) ->
  stopState (Lifetime.apply c op) = stopState c.
Proof.
  intro NT. destruct op; simpl.
  - exfalso. eapply NT. reflexivity.
  - apply processNewBar_stops.
  - apply evaluateFormingBar_stops.
  - reflexivity.
  - reflexivity.
  - reflexivity.
  - reflexivity.
  - apply processWarmUpBar_stops.
  - reflexivity.
Qed.

(** One tick: the position stays, an armed trail stays armed. *)
Lemma onTick_position px now c :
  currentPosition (fst (Calc.onTickForProtectiveStops px now c)) = currentPosition c.
Proof.
  unfold Calc.onTickForProtectiveStops.
  destruct (currentPosition c) as [p|] eqn:P; [|exact P].
  split_all; simpl; exact P.
Qed.

Lemma onTick_armed px now c :
  trailArmed c = true ->
  trailArmed (fst (Calc.onTickForProtectiveStops px now c)) = true.
Proof.
  intro A. unfold Calc.onTickForProtectiveStops.
  destruct (currentPosition c) as [p|]; [|exact A].
  repeat (simpl;
          match goal with
          | |- context [if ?b then _ else _] => destruct b eqn:?
          | |- context [match ?x with _ => _ end] => destruct x eqn:?
          end);
  simpl in *; congruence.
Qed.

End StopFacts.

Section TrailFacts.
Context `{Env}.
Local Open Scope Q_scope.

Lemma tighter_refl dir l : tighter dir l l.
Proof. destruct dir; apply Qle_refl. Qed.

Lemma tighter_trans dir a b c : tighter dir a b -> tighter dir b c -> tighter dir a c.
Proof. destruct dir; simpl; intros; eapply Qle_trans; eauto. Qed.

(** One tick on an armed trail moves the level towards the price or not
    at all. *)
Lemma onTick_ratchet px now c p l :
  currentPosition c = Some p ->
  trailArmed c = true ->
  trailingStopLevel c = Fin l ->
  exists l', trailingStopLevel (fst (Calc.onTickForProtectiveStops px now c)) = Fin l'
             /\ tighter (direction p) l l'.
Proof.
  intros P A L. unfold Calc.onTickForProtectiveStops. rewrite P.
  assert (Keep : exists l', trailingStopLevel c = Fin l' /\ tighter (direction p) l l')
    by (exists l; split; [exact L | apply tighter_refl]).
  destruct (negb (isFinite px)); [exact Keep|].
  destruct (direction p) eqn:D.
  - destruct (px <=? stopLoss p)%js; [exact Keep|].
    destruct (now <? noTrailBeforeMs c)%Z; [exact Keep|].
    destruct (negb (isFinite (atrSeedForTrail p)) || _); [exact Keep|].
    rewrite A. simpl. rewrite A, L.
    match goal with
    | |- context [(?cand >? Fin l)%js] => destruct (cand >? Fin l)%js eqn:G
    end.
    + apply gtb_Fin in G. destruct G as (a & Ea & La).
      assert (R : exists l', Fin a = Fin l' /\ l <= l')
        by (exists a; split; [reflexivity | now apply Qlt_le_weak]).
      rewrite Ea. simpl.
      match goal with |- context [if ?b then _ else _] => destruct b end; exact R.
    + rewrite L.
      match goal with |- context [if ?b then _ else _] => destruct b end;
        simpl; exists l; (split; [exact L | apply Qle_refl]).
  - destruct (px >=? stopLoss p)%js; [exact Keep|].
    destruct (now <? noTrailBeforeMs c)%Z; [exact Keep|].
    destruct (negb (isFinite (atrSeedForTrail p)) || _); [exact Keep|].
    rewrite A. simpl. rewrite A, L.
    match goal with
    | |- context [(?cand <? Fin l)%js] => destruct (cand <? Fin l)%js eqn:G
    end.
    + apply ltb_Fin in G. destruct G as (a & Ea & La).
      assert (R : exists l', Fin a = Fin l' /\ l' <= l)
        by (exists a; split; [reflexivity | now apply Qlt_le_weak]).
      rewrite Ea. simpl.
      match goal with |- context [if ?b then _ else _] => destruct b end; exact R.
    + rewrite L.
      match goal with |- context [if ?b then _ else _] => destruct b end;
        simpl; exists l; (split; [exact L | apply Qle_refl]).
Qed.

(** C2 — Once the trail is armed, the trailing stop level never retreats:
    through any later calls on the calculator that leave the position in
    place (ticks, bar closes, forming-bar evaluations, bookkeeping), the
    position is the same, the trail is still armed, and the level is at or
    above the earlier one for a long position, at or below it for a short
    one. *)
Theorem trailing_level_never_retreats (c : Calculator) (p : Position) (l : Q)
    (ops : list Lifetime.Op) :
  currentPosition c = Some p ->
  trailArmed c = true ->
  trailingStopLevel c = Fin l ->
  let c' := Lifetime.applyAll c ops in
  currentPosition c' = Some p
  /\ trailArmed c' = true
  /\ exists l', trailingStopLevel c' = Fin l' /\ tighter (direction p) l l'.
Proof.
  revert c l. induction ops as [|op ops IH]; intros c l P A L; simpl.
  - repeat split; try assumption. exists l. split; [exact L | apply tighter_refl].
  - assert (S : currentPosition (Lifetime.apply c op) = Some p
                /\ trailArmed (Lifetime.apply c op) = true
                /\ exists l1, trailingStopLevel (Lifetime.apply c op) = Fin l1
                              /\ tighter (direction p) l l1).
    { destruct op as [px now| | | | | | | |].
      1: { simpl. split; [rewrite onTick_position; exact P|].
           split; [apply onTick_armed; exact A|].
           eapply onTick_ratchet; eassumption. }
      all: match goal with
           | |- context [Lifetime.apply ?c0 ?o] =>
               assert (E : stopState (Lifetime.apply c0 o) = stopState c0)
                 by (apply apply_stops; intros; discriminate)
           end;
           pose proof (f_equal (fun x => fst (fst x)) E) as E1;
           pose proof (f_equal (fun x => snd (fst x)) E) as E2;
           pose proof (f_equal snd E) as E3;
           unfold stopState in E1, E2, E3; cbn [fst snd] in E1, E2, E3;
           rewrite E1, E2, E3; repeat split; try assumption;
           exists l; (split; [exact L | apply tighter_refl]). }
    destruct S as (P1 & A1 & l1 & L1 & T1).
    destruct (IH _ _ P1 A1 L1) as (P2 & A2 & l2 & L2 & T2).
    repeat split; try assumption.
    exists l2. split; [exact L2 | eapply tighter_trans; eassumption].
Qed.

End TrailFacts.

Section ClampFacts.
Context `{Env}.
Local Open Scope Q_scope.

(** One tick keeps the level on the protective side of the fixed stop. *)
Lemma onTick_clamped px now c p s l :
  currentPosition c = Some p ->
  stopLoss p = Fin s ->
  trailingStopLevel c = Fin l ->
  tighter (direction p) s l ->
  exists l', trailingStopLevel (fst (Calc.onTickForProtectiveStops px now c)) = Fin l'
             /\ tighter (direction p) s l'.
Proof.
  intros P S L T. unfold Calc.onTickForProtectiveStops. rewrite P, S.
  assert (Keep : exists l', trailingStopLevel c = Fin l' /\ tighter (direction p) s l')
    by (exists l; split; assumption).
  destruct px as [x|]; [|exact Keep].
  destruct (atrSeedForTrail p) as [sd|];
    [|destruct (direction p); simpl;
      repeat match goal with |- context [if ?b then _ else _] => destruct b end;
      exact Keep].
  destruct (direction p); simpl in *;
    repeat match goal with
           | |- context [if ?b then _ else _] => destruct b eqn:?; simpl
           end;
    try exact Keep;
    try (eexists; split; [reflexivity|]; first [apply Qmax'_l | apply Qmin'_l]);
    try (rewrite L in *; simpl in *; eexists; split; [reflexivity|];
         first [apply Qmax'_l | apply Qmin'_l | assumption]).
Qed.

(** C10 — For the whole lifetime of a position the trailing stop level is
    never looser than the fixed stop: from [setPosition] on, through every
    call on the calculator that leaves the position in place, the level is
    a number at or above the stop for a long position and at or below it
    for a short one (the stop being a number, not [NaN]). *)
Theorem trailing_level_never_looser_than_stop (c : Calculator) (entry : number)
    (dir : Direction) (atrForTrail : option number) (now : Z) (ops : list Lifetime.Op) :
  let c0 := Calc.setPosition entry dir atrForTrail now c in
  forall p, currentPosition c0 = Some p ->
  isFinite (stopLoss p) = true ->
  let c' := Lifetime.applyAll c0 ops in
  currentPosition c' = Some p
  /\ direction p = dir
  /\ exists s l, stopLoss p = Fin s /\ trailingStopLevel c' = Fin l /\ tighter dir s l.
Proof.
  intros c0 p P F.
  apply isFinite_Fin in F. destruct F as (s & S).
  assert (D : direction p = dir) by (simpl in P; injection P as <-; reflexivity).
  assert (L0 : trailingStopLevel c0 = Fin s)
    by (simpl in P; injection P as <-; simpl in *; exact S).
  assert (G : forall ops0 c1 l1,
             currentPosition c1 = Some p -> trailingStopLevel c1 = Fin l1 ->
             tighter (direction p) s l1 ->
             currentPosition (Lifetime.applyAll c1 ops0) = Some p
             /\ exists l, trailingStopLevel (Lifetime.applyAll c1 ops0) = Fin l
                          /\ tighter (direction p) s l).
  { intros ops1. induction ops1 as [|op ops1 IH]; intros c1 l1 P1 L1 T1; simpl.
    - split; [exact P1|]. exists l1. split; assumption.
    - destruct op as [px now1| | | | | | | |].
      1: { destruct (onTick_clamped px now1 c1 p s l1 P1 S L1 T1) as (l2 & L2 & T2).
           eapply IH; [|exact L2 | exact T2].
           simpl. rewrite onTick_position. exact P1. }
      all: match goal with
           | |- context [Lifetime.apply ?c0 ?o] =>
               assert (E : stopState (Lifetime.apply c0 o) = stopState c0)
                 by (apply apply_stops; intros; discriminate)
           end;
           pose proof (f_equal (fun x => fst (fst x)) E) as E1;
           pose proof (f_equal (fun x => snd (fst x)) E) as E2;
           unfold stopState in E1, E2; cbn [fst snd] in E1, E2;
           eapply IH; [rewrite E1; exact P1 | rewrite E2; exact L1 | exact T1]. }
  destruct (G ops c0 s P L0 (tighter_refl _ _)) as (P' & l & L' & T').
  split; [exact P'|]. split; [exact D|].
  exists s, l. rewrite <- D. repeat split; assumption.
Qed.

End ClampFacts.

(** The armed sample position, two more ticks and a bookkeeping call. *)
Lemma trailing_level_never_retreats_witness :
  exists p l,
    currentPosition Sample.longAt100Armed = Some p
    /\ trailingStopLevel Sample.longAt100Armed = Fin l
    /\ let c' := Lifetime.applyAll Sample.longAt100Armed
                   [Lifetime.Tick (Fin 104) 3000; Lifetime.ResetIntraBarTracking;
                    Lifetime.Tick (Fin 103) 4000] in
       currentPosition c' = Some p
       /\ trailArmed c' = true
       /\ exists l', trailingStopLevel c' = Fin l' /\ tighter (direction p) l l'.
Proof.
  eexists. eexists.
  split; [vm_compute; reflexivity|].
  split; [vm_compute; reflexivity|].
  apply (trailing_level_never_retreats Sample.longAt100Armed);
    vm_compute; reflexivity.
Defined.

Lemma trailing_level_never_looser_than_stop_witness :
  exists p,
    currentPosition Sample.shortAt100 = Some p
    /\ let c' := Lifetime.applyAll Sample.shortAt100
                   [Lifetime.Tick (Fin 98) 2000; Lifetime.Tick (Fin 99) 3000] in
       currentPosition c' = Some p
       /\ direction p = short
       /\ exists s l, stopLoss p = Fin s /\ trailingStopLevel c' = Fin l /\ tighter short s l.
Proof.
  eexists.
  split; [vm_compute; reflexivity|].
  apply (trailing_level_never_looser_than_stop (newCalculator Sample.MNQ_DELTA_TREND_CONFIG)
           (Fin 100) short (Some (Fin 10)) 1000); vm_compute; reflexivity.
Defined.

(** The stop scenario of the specification on the sample long position
    (entry 100, stop 92.5): a tick at 96 does nothing, a tick at 92 hits the
    stop. *)
Example stop_scenario :
  snd (Calc.onTickForProtectiveStops (Fin 96) 2000 Sample.longAt100) = Calc.none
  /\ snd (Calc.onTickForProtectiveStops (Fin 92) 3000
            (fst (Calc.onTickForProtectiveStops (Fin 96) 2000 Sample.longAt100)))
     = Calc.hitStop.
Proof. split; vm_compute; reflexivity. Qed.

(** ** The fade filter, in binary64 *)

Section FloatOrder.
Import Floats.
Local Open Scope float_scope.

(** Comparing the other way round gives the opposite answer. *)
Lemma SFcompare_antisym (x y : spec_float) :
  SFcompare y x = option_map CompOpp (SFcompare x y).
Proof.
  destruct x as [sx|sx| |sx mx ex], y as [sy|sy| |sy my ey]; cbn;
    try reflexivity;
    try (destruct sx; reflexivity); try (destruct sy; reflexivity);
    try (destruct sx, sy; reflexivity).
  assert (P : PosDef.Pos.compare_cont Eq my mx
              = CompOpp (PosDef.Pos.compare_cont Eq mx my))
    by (symmetry; exact (Pos.compare_cont_antisym mx my Eq)).
  destruct sx, sy; try reflexivity; f_equal;
    rewrite (Z.compare_antisym ex ey);
    destruct (ex ?= ey)%Z; cbn; try reflexivity;
    rewrite P; destruct (PosDef.Pos.compare_cont Eq mx my); reflexivity.
Qed.

(** [x === y] gives [x >= y]. *)
Lemma eqb_geb (x y : float) : (x =? y) = true -> F64.geb x y = true.
Proof.
  unfold F64.geb. rewrite eqb_spec, leb_spec. unfold SFeqb, SFleb.
  rewrite (SFcompare_antisym (Prim2SF x) (Prim2SF y)).
  destruct (SFcompare (Prim2SF x) (Prim2SF y)) as [[]|]; cbn; congruence.
Qed.

(** [x < y] excludes [x >= y]. *)
Lemma ltb_not_geb (x y : float) : (x <? y) = true -> F64.geb x y = false.
Proof.
  unfold F64.geb. rewrite ltb_spec, leb_spec. unfold SFltb, SFleb.
  rewrite (SFcompare_antisym (Prim2SF x) (Prim2SF y)).
  destruct (SFcompare (Prim2SF x) (Prim2SF y)) as [[]|]; cbn; congruence.
Qed.

End FloatOrder.

Section FadeFacts.
Import Floats.
Local Open Scope float_scope.

Lemma fadeOk_at_threshold c P cur :
  F64.geb cur (F64.fadeThreshold c P) = true -> F64.fadeOk c P cur = true.
Proof.
  intro G. unfold F64.fadeOk. fold (F64.fadeThreshold c P). rewrite G.
  apply orb_true_r.
Qed.

Lemma fadeOk_below_threshold c P cur :
  (P =? 0) = false ->
  (cur <? F64.fadeThreshold c P) = true ->
  F64.fadeOk c P cur = false.
Proof.
  intros NZ L. unfold F64.fadeOk. fold (F64.fadeThreshold c P).
  rewrite NZ, (ltb_not_geb _ _ L). reflexivity.
Qed.

Lemma at_Some_bound {A} (l : list A) (i : Z) (x : A) :
  at_ l i = Some x -> (0 <= i < Z.of_nat (length l))%Z.
Proof.
  unfold at_. destruct (i <? 0)%Z eqn:E; [discriminate|].
  intro L. apply Z.ltb_ge in E. apply lookup_lt_Some in L. lia.
Qed.

Lemma generateSignal_fade_pass c bar ms g pb :
  at_ (F64.bars3min c) (Z.of_nat (length (F64.bars3min c)) - 2) = Some pb ->
  F64.fadeOk c (F64.closedBarPeak bar pb) (abs (F64.delta bar ?? 0)) = true ->
  forall x y, F64.reason (snd (F64.generateSignal c bar ms g)) <> F64.BarCloseFade x y.
Proof.
  intros A Ok x y.
  assert (Fd : F64.barCloseFade c (F64.delta bar ?? 0) = None).
  { unfold F64.closedBarPeak in Ok. unfold F64.barCloseFade. cbv zeta.
    rewrite A, Ok. now destruct (2 <=? _)%Z. }
  unfold F64.generateSignal. cbv zeta. rewrite Fd.
  repeat match goal with
         | |- context [if ?b then _ else _] => destruct b; simpl
         end;
    discriminate.
Qed.

Lemma generateSignal_fade_hold c bar ms g pb :
  at_ (F64.bars3min c) (Z.of_nat (length (F64.bars3min c)) - 2) = Some pb ->
  F64.fadeOk c (F64.closedBarPeak bar pb) (abs (F64.delta bar ?? 0)) = false ->
  F64.signal (snd (F64.generateSignal c bar ms g)) = hold.
Proof.
  intros A Ok. unfold F64.closedBarPeak in Ok.
  pose proof (at_Some_bound _ _ _ A) as B.
  assert (N : (2 <=? Z.of_nat (length (F64.bars3min c)))%Z = true) by (apply Z.leb_le; lia).
  assert (Fd : F64.barCloseFade c (F64.delta bar ?? 0)
               = Some (F64.BarCloseFade (abs (F64.delta bar ?? 0))
                         (F64.closedBarPeak bar pb)))
    by (unfold F64.barCloseFade, F64.closedBarPeak; cbv zeta; rewrite A, Ok, N; reflexivity).
  unfold F64.generateSignal. cbv zeta. rewrite Fd.
  repeat match goal with
         | |- context [if ?b then _ else _] => destruct b; simpl
         end;
    reflexivity.
Qed.

Lemma generateSignalForFormingBar_fade_pass c bar ms g :
  F64.fadeOk c (F64.formingBarPeak c bar) (abs (F64.delta bar ?? 0)) = true ->
  forall x y, F64.reason (F64.generateSignalForFormingBar c bar ms g) <> F64.IntraFade x y.
Proof.
  intros Ok x y. unfold F64.formingBarPeak in Ok.
  unfold F64.generateSignalForFormingBar. cbv zeta. rewrite Ok.
  repeat match goal with
         | |- context [if ?b then _ else _] => destruct b; simpl
         end;
    discriminate.
Qed.

Lemma generateSignalForFormingBar_fade_hold c bar ms g :
  F64.fadeOk c (F64.formingBarPeak c bar) (abs (F64.delta bar ?? 0)) = false ->
  F64.signal (F64.generateSignalForFormingBar c bar ms g) = hold.
Proof.
  intros Ok. unfold F64.formingBarPeak in Ok.
  unfold F64.generateSignalForFormingBar. cbv zeta. rewrite Ok.
  repeat match goal with
         | |- context [if ?b then _ else _] => destruct b; simpl
         end;
    reflexivity.
Qed.

(** C8 (as amended) — Fade-filter boundary on both evaluation paths, in
    binary64.  With a nonzero peak magnitude [P] (closed bar: the larger of
    the previous and the current bar's delta magnitudes; forming bar: the
    largest magnitude in the intra-bar history, the current one included)
    and the fade ratio [R], let [T] be the product [P * R] as the check
    computes it, rounded to binary64.  A current magnitude equal to [T], or
    above it, passes the filter (the check is true, and the evaluation does
    not hold for fading), and every magnitude strictly below [T] makes the
    evaluation return hold. *)
Theorem fade_filter_boundary (c : F64.Calculator) (bar : F64.BarData)
    (ms : F64.MarketState) (g : Calc.Gates) (P cur : float) :
  let T := F64.fadeThreshold c P in
  (P =? 0) = false ->
  abs (F64.delta bar ?? 0) = cur ->
  ((cur =? T) = true -> F64.geb cur T = true)
  /\ (forall pb,
        at_ (F64.bars3min c) (Z.of_nat (length (F64.bars3min c)) - 2) = Some pb ->
        F64.closedBarPeak bar pb = P ->
        (F64.geb cur T = true ->
         F64.fadeOk c P cur = true
         /\ forall x y,
              F64.reason (snd (F64.generateSignal c bar ms g)) <> F64.BarCloseFade x y)
        /\ ((cur <? T) = true -> F64.signal (snd (F64.generateSignal c bar ms g)) = hold))
  /\ (F64.formingBarPeak c bar = P ->
      (F64.geb cur T = true ->
       F64.fadeOk c P cur = true
       /\ forall x y,
            F64.reason (F64.generateSignalForFormingBar c bar ms g) <> F64.IntraFade x y)
      /\ ((cur <? T) = true ->
          F64.signal (F64.generateSignalForFormingBar c bar ms g) = hold)).
Proof.
  intros T NZ Cu. split; [apply eqb_geb|]. split.
  - intros pb A Pk. split.
    + intro G. pose proof (fadeOk_at_threshold c P cur G) as Ok.
      split; [exact Ok|]. apply (generateSignal_fade_pass c bar ms g pb A).
      rewrite Pk, Cu. exact Ok.
    + intro L. apply (generateSignal_fade_hold c bar ms g pb A).
      rewrite Pk, Cu. now apply fadeOk_below_threshold.
  - intros Pk. split.
    + intro G. pose proof (fadeOk_at_threshold c P cur G) as Ok.
      split; [exact Ok|]. apply generateSignalForFormingBar_fade_pass.
      rewrite Pk, Cu. exact Ok.
    + intro L. apply generateSignalForFormingBar_fade_hold.
      rewrite Pk, Cu. now apply fadeOk_below_threshold.
Qed.

End FadeFacts.

Section FadeCases.
Import Floats.
Local Open Scope float_scope.

(** C8, as the specification states it, fails: the product is rounded.
    With a peak of 1500 and a ratio of 0.67 the exact product is 1005, and
    the check computes 1005.0000000000001: a magnitude of 1005 is held for
    fading on both paths. *)
Lemma fade_holds_the_exact_product :
  (1500 * 0.67 == 1005)%Q
  /\ F64.fadeThreshold (F64.Histories.afterDelta1500 0.67 1005) 1500
     = 1005.0000000000001
  /\ snd (F64.generateSignal (F64.Histories.afterDelta1500 0.67 1005)
            (F64.Histories.barOfDelta Sample.ts1008 1005)
            F64.Histories.bullishAtr10 Sample.gatesUp)
     = F64.holdSignal (F64.BarCloseFade 1005 1500)
  /\ F64.generateSignalForFormingBar (F64.Histories.intraPeak1500 0.67)
       (F64.Histories.barOfDelta Sample.ts1008 1005)
       F64.Histories.bullishAtr10 Sample.gatesUp
     = F64.holdSignal (F64.IntraFade 1005 1500).
Proof.
  split; [reflexivity|].
  split; [vm_compute; reflexivity|].
  split; vm_compute; reflexivity.
Qed.

(** The boundary on a peak of 1500 with ratio 0.8, where the product is
    computed as 1200: a bar of delta 1200 is let through, one of delta 1199
    is held; the same on the forming-bar path with an intra-bar history
    that peaked at 1500. *)
Lemma fade_filter_boundary_witness :
  (forall x y,
      F64.reason (snd (F64.generateSignal (F64.Histories.afterDelta1500 0.8 1200)
                         (F64.Histories.barOfDelta Sample.ts1008 1200)
                         F64.Histories.bullishAtr10 Sample.gatesUp))
      <> F64.BarCloseFade x y)
  /\ F64.signal (snd (F64.generateSignal (F64.Histories.afterDelta1500 0.8 1199)
                        (F64.Histories.barOfDelta Sample.ts1008 1199)
                        F64.Histories.bullishAtr10 Sample.gatesUp)) = hold
  /\ (forall x y,
         F64.reason (F64.generateSignalForFormingBar (F64.Histories.intraPeak1500 0.8)
                       (F64.Histories.barOfDelta Sample.ts1008 1200)
                       F64.Histories.bullishAtr10 Sample.gatesUp)
         <> F64.IntraFade x y)
  /\ F64.signal (F64.generateSignalForFormingBar (F64.Histories.intraPeak1500 0.8)
                   (F64.Histories.barOfDelta Sample.ts1008 1199)
                   F64.Histories.bullishAtr10 Sample.gatesUp) = hold.
Proof.
  assert (NZ : PrimFloat.eqb 1500 0 = false) by reflexivity.
  split; [|split; [|split]].
  - pose proof (fade_filter_boundary (F64.Histories.afterDelta1500 0.8 1200)
                  (F64.Histories.barOfDelta Sample.ts1008 1200)
                  F64.Histories.bullishAtr10 Sample.gatesUp 1500 1200 NZ eq_refl)
      as (_ & C & _).
    apply (C (F64.Histories.barOfDelta Sample.ts1005 1500) eq_refl eq_refl).
    reflexivity.
  - pose proof (fade_filter_boundary (F64.Histories.afterDelta1500 0.8 1199)
                  (F64.Histories.barOfDelta Sample.ts1008 1199)
                  F64.Histories.bullishAtr10 Sample.gatesUp 1500 1199 NZ eq_refl)
      as (_ & C & _).
    apply (C (F64.Histories.barOfDelta Sample.ts1005 1500) eq_refl eq_refl).
    reflexivity.
  - pose proof (fade_filter_boundary (F64.Histories.intraPeak1500 0.8)
                  (F64.Histories.barOfDelta Sample.ts1008 1200)
                  F64.Histories.bullishAtr10 Sample.gatesUp 1500 1200 NZ eq_refl)
      as (_ & _ & F).
    apply (F eq_refl). reflexivity.
  - pose proof (fade_filter_boundary (F64.Histories.intraPeak1500 0.8)
                  (F64.Histories.barOfDelta Sample.ts1008 1199)
                  F64.Histories.bullishAtr10 Sample.gatesUp 1500 1199 NZ eq_refl)
      as (_ & _ & F).
    apply (F eq_refl). reflexivity.
Defined.

End FadeCases.

Section ScenarioFacts.
Context `{Env}.
Local Open Scope Q_scope.

Lemma generateSignal_same_timestamp c bar ms g :
  lastEntryBarTimestamp c = Some (timestamp bar) ->
  snd (Calc.generateSignal c bar ms g) = Calc.holdSignal SameBarReentryBlocked.
Proof.
  intro E. unfold Calc.generateSignal. rewrite E. simpl.
  rewrite String.eqb_refl. reflexivity.
Qed.


End ScenarioFacts.



Section ExitFacts.
Context `{Env}.

Lemma updateHigherTimeframeBars_frame bar c :
  config (Calc.updateHigherTimeframeBars bar c) = config c
  /\ bars3min (Calc.updateHigherTimeframeBars bar c) = bars3min c
  /\ lastEntryBarTimestamp (Calc.updateHigherTimeframeBars bar c) = lastEntryBarTimestamp c.
Proof.
  unfold Calc.updateHigherTimeframeBars.
  repeat match goal with
         | |- context [if ?b then _ else _] => destruct b
         | |- context [match ?x with _ => _ end] => destruct x
         end; simpl; auto.
Qed.

Lemma generateSignal_bars3min c bar ms g :
  bars3min (fst (Calc.generateSignal c bar ms g)) = bars3min c.
Proof.
  unfold Calc.generateSignal.
  repeat match goal with
         | |- context [if ?b then _ else _] => destruct b
         | |- context [match ?x with _ => _ end] => destruct x
         end; reflexivity.
Qed.

Lemma isInTradingSession_config c c' ts :
  config c' = config c -> Calc.isInTradingSession c' ts = Calc.isInTradingSession c ts.
Proof. intro E. unfold Calc.isInTradingSession. rewrite E. reflexivity. Qed.

(** Inside the session the stop exit comes before the entry gates. *)
Lemma stop_exit_in_session (c : Calculator) (incoming : BarData) (ms : MarketState)
    (p : Position) :
  stopExitDue c incoming ms p ->
  Calc.isInTradingSession c (timestamp incoming) = true ->
  snd (Calc.processNewBar c incoming ms) = exitSignalFor p
  /\ lastEntryBarTimestamp (fst (fst (Calc.processNewBar c incoming ms)))
     = lastEntryBarTimestamp c.
Proof.
  intros (W & P & Mb & X) S. revert Mb.
  unfold Calc.processNewBar. rewrite W. cbn [negb].
  set (bar := Calc.withDelta _ incoming).
  set (c1 := set_bars3min _ c).
  set (c2 := Calc.updateHigherTimeframeBars bar c1).
  destruct (updateHigherTimeframeBars_frame bar c1) as (Ec & Eb & El).
  fold c2 in Ec, Eb, El.
  assert (P2 : currentPosition c2 = Some p).
  { pose proof (updateHigherTimeframeBars_stops bar c1) as E.
    apply (f_equal (fun x => fst (fst x))) in E. exact (eq_trans E P). }
  rewrite (isInTradingSession_config c c2) by exact Ec.
  rewrite S. cbn [negb].
  assert (B : forall c', bars3min c' = bars3min c2 ->
                         Calc.barsSinceEntry c' (entryTime p)
                         = Calc.barsSinceEntry c2 (entryTime p))
    by (intros c' E; unfold Calc.barsSinceEntry; rewrite E; reflexivity).
  assert (X2 : Z.max 0 (minBarsBeforeExit (config c) ?? 0)
               <= Calc.barsSinceEntry c2 (entryTime p) ->
               Calc.checkExitConditions c2 bar = Some (exitSignalFor p)).
  { intro L. unfold Calc.checkExitConditions. rewrite P2, Ec.
    destruct (Calc.barsSinceEntry c2 (entryTime p) <? _)%Z eqn:C;
      [apply Z.ltb_lt in C; simpl in *; lia|].
    unfold stopCrossed, exitSignalFor in *.
    destruct (direction p); simpl in X |- *; rewrite X; reflexivity. }
  destruct (Calc.checkExitConditions c2 bar) as [e|] eqn:CE.
  - cbn [fst snd]. intro Mb. pose proof (X2 Mb) as E. injection E as ->.
    split; [reflexivity|]. exact El.
  - match goal with
    | |- context [Calc.generateSignal c2 bar ?m ?gg] =>
        pose proof (generateSignal_bars3min c2 bar m gg) as G;
        destruct (Calc.generateSignal c2 bar m gg) as [c3 s]
    end.
    cbn [fst snd] in *. intro Mb. rewrite (B c3 G) in Mb.
    discriminate (X2 Mb).
Qed.

(** Outside the session [processNewBar] stops at the session gate. *)
Lemma processNewBar_out_of_session (c : Calculator) (incoming : BarData)
    (ms : MarketState) :
  isWarmUpProcessed c = true ->
  Calc.isInTradingSession c (timestamp incoming) = false ->
  snd (Calc.processNewBar c incoming ms) = Calc.holdSignal OutOfSession
  /\ lastEntryBarTimestamp (fst (fst (Calc.processNewBar c incoming ms)))
     = lastEntryBarTimestamp c.
Proof.
  intros W S. unfold Calc.processNewBar. rewrite W. cbn [negb].
  set (bar := Calc.withDelta _ incoming).
  set (c1 := set_bars3min _ c).
  set (c2 := Calc.updateHigherTimeframeBars bar c1).
  destruct (updateHigherTimeframeBars_frame bar c1) as (Ec & Eb & El).
  fold c2 in Ec, Eb, El.
  rewrite (isInTradingSession_config c c2) by exact Ec.
  rewrite S. cbn [negb fst snd]. split; [reflexivity | exact El].
Qed.

(** C5 (as amended) — At a bar close after warm-up.  Inside the trading
    session: if a position exists, the minimum number of bars since entry
    has elapsed and the closed bar's low (long) or high (short) crosses the
    fixed stop, [processNewBar] returns the exit signal (sell for long, buy
    for short) at confidence 1.0, whatever the market state and the stored
    bars would make of the entry gates, and without recording an entry.
    Outside the session [processNewBar] returns hold, "Out of session",
    whatever the position, the stop and the bar: the session gate comes
    before the stop is looked at. *)
Theorem stop_exit_at_bar_close (c : Calculator) (incoming : BarData) (ms : MarketState) :
  isWarmUpProcessed c = true ->
  let r := Calc.processNewBar c incoming ms in
  (Calc.isInTradingSession c (timestamp incoming) = true ->
   forall p, stopExitDue c incoming ms p ->
     snd r = exitSignalFor p
     /\ lastEntryBarTimestamp (fst (fst r)) = lastEntryBarTimestamp c)
  /\ (Calc.isInTradingSession c (timestamp incoming) = false ->
      snd r = Calc.holdSignal OutOfSession
      /\ lastEntryBarTimestamp (fst (fst r)) = lastEntryBarTimestamp c).
Proof.
  intros W r. split.
  - intros S p D. exact (stop_exit_in_session c incoming ms p D S).
  - intro S. exact (processNewBar_out_of_session c incoming ms W S).
Qed.

End ExitFacts.

(** C5, as the specification states it, fails: the session gate comes first.  A long
    position with stop 92.5 and a bar closing at 21:02 New York time with
    its low at 90: the stop exit is due, and [processNewBar] returns hold. *)
Lemma stop_exit_out_of_session :
  exists p,
    stopExitDue Sample.longSince1006 (Sample.barLow90 Sample.ts2102) Sample.bullishAtr10 p
    /\ snd (Calc.processNewBar Sample.longSince1006 (Sample.barLow90 Sample.ts2102)
              Sample.bullishAtr10)
       = Calc.holdSignal OutOfSession
    /\ Calc.holdSignal OutOfSession <> exitSignalFor p.
Proof.
  eexists. split; [|split].
  - repeat split; vm_compute; try reflexivity. discriminate.
  - vm_compute. reflexivity.
  - discriminate.
Qed.

Lemma stop_exit_at_bar_close_witness :
  exists p,
    currentPosition Sample.longSince1006 = Some p
    /\ snd (Calc.processNewBar Sample.longSince1006 (Sample.barLow90 Sample.ts1008)
              Sample.bullishAtr10) = exitSignalFor p
    /\ snd (Calc.processNewBar Sample.longSince1006 (Sample.barLow90 Sample.ts2102)
              Sample.bullishAtr10) = Calc.holdSignal OutOfSession.
Proof.
  assert (W : isWarmUpProcessed Sample.longSince1006 = true) by reflexivity.
  eexists. split; [reflexivity|]. split.
  - apply (proj1 (stop_exit_at_bar_close Sample.longSince1006
                    (Sample.barLow90 Sample.ts1008) Sample.bullishAtr10 W)).
    + vm_compute. reflexivity.
    + repeat split; vm_compute; try reflexivity. discriminate.
  - apply (proj2 (stop_exit_at_bar_close Sample.longSince1006
                    (Sample.barLow90 Sample.ts2102) Sample.bullishAtr10 W)).
    vm_compute. reflexivity.
Defined.

(** ** ATR *)

Section AtrFacts.
Local Open Scope Q_scope.

Lemma takeValid_firstn n l :
  Calc.takeValid n l = firstn n (List.filter Calc.validOHLC l).
Proof.
  revert n. induction l as [|b r IH]; intro n.
  - destruct n; reflexivity.
  - destruct n as [|k]; [reflexivity|].
    simpl. destruct (Calc.validOHLC b).
    + simpl. now rewrite IH.
    + apply IH.
Qed.

Lemma trueRangesFrom_pairs a r :
  Calc.trueRangesFrom a r
  = map (fun ab => Calc.trueRange (fst ab) (snd ab)) (adjacentPairs (a :: r)).
Proof.
  revert a. induction r as [|b r IH]; intro a; [reflexivity|].
  simpl. f_equal. apply IH.
Qed.

Lemma trueRanges_pairs l :
  Calc.trueRanges l = map (fun ab => Calc.trueRange (fst ab) (snd ab)) (adjacentPairs l).
Proof. destruct l; [reflexivity | apply trueRangesFrom_pairs]. Qed.

Lemma adjacentPairs_drop {A} k (l : list A) :
  adjacentPairs (drop k l) = drop k (adjacentPairs l).
Proof.
  revert l. induction k as [|k IH]; intro l; [now rewrite !drop_0|].
  destruct l as [|a [|b r]]; [reflexivity | destruct k; reflexivity |].
  change (drop (S k) (a :: b :: r)) with (drop k (b :: r)).
  change (adjacentPairs (a :: b :: r)) with ((a, b) :: adjacentPairs (b :: r)).
  change (drop (S k) ((a, b) :: adjacentPairs (b :: r)))
    with (drop k (adjacentPairs (b :: r))).
  apply IH.
Qed.

Lemma adjacentPairs_length {A} (l : list A) :
  length (adjacentPairs l) = (length l - 1)%nat.
Proof.
  induction l as [|a [|b r] IH]; [reflexivity | reflexivity |].
  change (adjacentPairs (a :: b :: r)) with ((a, b) :: adjacentPairs (b :: r)).
  simpl length in *. lia.
Qed.

(** The valid tail never holds more than 15 bars, so there are exactly 14
    true ranges and the smoothing loop has nothing left to run over: the
    result is their plain average. *)
Lemma calculateATR_is_seed (c : Calculator) :
  let valid := List.filter Calc.validOHLC (bars3min c) in
  (15 <= length valid)%nat ->
  let tr := Calc.trueRanges (drop (length valid - 15) valid) in
  length tr = 14%nat
  /\ Calc.calculateATR c = (fold_left JS.add tr (Fin 0) / Fin 14)%js.
Proof.
  intros valid L tr.
  assert (Lt : length (drop (length valid - 15) valid) = 15%nat)
    by (rewrite length_drop; lia).
  assert (Ltr : length tr = 14%nat)
    by (unfold tr; rewrite trueRanges_pairs, length_map, adjacentPairs_length; lia).
  split; [exact Ltr|].
  unfold Calc.calculateATR, Calc.period.
  assert (Lb : (length valid <= length (bars3min c))%nat) by apply List.filter_length_le.
  destruct (length (bars3min c) <? 14 + 1)%nat eqn:E1;
    [apply Nat.ltb_lt in E1; lia|].
  rewrite takeValid_firstn, List.filter_rev. fold valid.
  rewrite firstn_rev, rev_involutive.
  change (14 + 1)%nat with 15%nat.
  rewrite length_rev, Lt. simpl Nat.ltb. cbv iota.
  fold tr. rewrite Ltr. simpl Nat.ltb. cbv iota.
  rewrite firstn_all2 by lia. rewrite skipn_all2 by lia.
  reflexivity.
Qed.

End AtrFacts.

(** *** In binary64 *)

Section AtrFacts64.
Import Floats.
Local Open Scope float_scope.

Lemma takeValid64_firstn n l :
  F64.takeValid n l = firstn n (List.filter F64.validOHLC l).
Proof.
  revert n. induction l as [|b r IH]; intro n.
  - destruct n; reflexivity.
  - destruct n as [|k]; [reflexivity|].
    simpl. destruct (F64.validOHLC b).
    + simpl. now rewrite IH.
    + apply IH.
Qed.

Lemma trueRangesFrom64_pairs a r :
  F64.trueRangesFrom a r
  = map (fun ab => F64.trueRange (fst ab) (snd ab)) (adjacentPairs (a :: r)).
Proof.
  revert a. induction r as [|b r IH]; intro a; [reflexivity|].
  simpl. f_equal. apply IH.
Qed.

Lemma trueRanges64_pairs l :
  F64.trueRanges l = map (fun ab => F64.trueRange (fst ab) (snd ab)) (adjacentPairs l).
Proof. destruct l; [reflexivity | apply trueRangesFrom64_pairs]. Qed.

(** A list whose elements all are [x]. *)
Lemma Forall_eq_repeat {A} (x : A) (l : list A) :
  Forall (fun y => y = x) l -> l = repeat x (length l).
Proof. induction 1 as [|y r -> _ IH]; [reflexivity|]. simpl. now rewrite <- IH. Qed.

(** The valid tail never holds more than 15 bars, so there are exactly 14
    true ranges and the smoothing loop has nothing left to run over: the
    result is their sum from the left, divided by 14. *)
Lemma calculateATR64_is_seed (c : F64.Calculator) :
  let valid := List.filter F64.validOHLC (F64.bars3min c) in
  (15 <= length valid)%nat ->
  let tr := F64.trueRanges (drop (length valid - 15) valid) in
  length tr = 14%nat
  /\ F64.calculateATR c = fold_left add tr 0 / 14.
Proof.
  intros valid L tr.
  assert (Lt : length (drop (length valid - 15) valid) = 15%nat)
    by (rewrite length_drop; lia).
  assert (Ltr : length tr = 14%nat)
    by (unfold tr; rewrite trueRanges64_pairs, length_map, adjacentPairs_length; lia).
  split; [exact Ltr|].
  unfold F64.calculateATR, F64.period.
  assert (Lb : (length valid <= length (F64.bars3min c))%nat) by apply List.filter_length_le.
  destruct (length (F64.bars3min c) <? 14 + 1)%nat eqn:E1;
    [apply Nat.ltb_lt in E1; lia|].
  rewrite takeValid64_firstn, List.filter_rev. fold valid.
  rewrite firstn_rev, rev_involutive.
  change (14 + 1)%nat with 15%nat.
  rewrite length_rev, Lt. simpl Nat.ltb. cbv iota.
  fold tr. rewrite Ltr. simpl Nat.ltb. cbv iota.
  rewrite firstn_all2 by lia. rewrite skipn_all2 by lia.
  reflexivity.
Qed.

(** C7 (as amended) — On a history with at least 15 valid bars in which
    every pair of neighbouring valid bars has the same true range [r],
    [calculateATR] returns the mean of fourteen [r] as binary64 computes it:
    [r] added fourteen times to 0, from the left, and the sum divided by
    14, every operation rounded to nearest.  The Wilder recurrence is never
    applied, the valid tail holding exactly 15 bars. *)
Theorem atr_of_constant_range (c : F64.Calculator) (r : float) :
  F64.constantRange r (F64.bars3min c) ->
  F64.calculateATR c = F64.meanOfFourteen r
  /\ skipn F64.period
       (F64.trueRanges
          (drop (length (List.filter F64.validOHLC (F64.bars3min c)) - 15)
                (List.filter F64.validOHLC (F64.bars3min c)))) = [].
Proof.
  intros (L & Adj).
  destruct (calculateATR64_is_seed c L) as (Ltr & E).
  set (tr := F64.trueRanges _) in *.
  split; [|apply skipn_all2; unfold F64.period; lia].
  assert (Ftr : Forall (fun t => t = r) tr).
  { unfold tr. rewrite trueRanges64_pairs, adjacentPairs_drop.
    apply Forall_map. apply Forall_drop. exact Adj. }
  rewrite E, (Forall_eq_repeat r tr Ftr), Ltr. reflexivity.
Qed.

(** C7, as the specification states it, fails: the sum is rounded.  Fifteen
    valid bars whose true ranges all are 0.3: fourteen of them add up to
    4.1999999999999993, and [calculateATR] returns 0.29999999999999993. *)
Lemma atr_of_constant_range_is_rounded :
  F64.constantRange 0.3 (F64.bars3min F64.Histories.range03)
  /\ F64.calculateATR F64.Histories.range03 = 0.29999999999999993
  /\ F64.calculateATR F64.Histories.range03 <> 0.3.
Proof.
  assert (E : F64.calculateATR F64.Histories.range03 = 0.29999999999999993)
    by (vm_compute; reflexivity).
  split; [|split; [exact E|]].
  - split; [vm_compute; lia | vm_compute; repeat constructor].
  - rewrite E. intro N.
    assert (D : (0.29999999999999993 =? 0.3) = false) by reflexivity.
    rewrite N in D. discriminate D.
Qed.

(** Where every operation is exact, the mean is the range itself: fifteen
    valid bars whose true ranges all are 2. *)
Lemma atr_of_constant_range_witness :
  F64.constantRange 2 (F64.bars3min F64.Histories.range2)
  /\ F64.calculateATR F64.Histories.range2 = F64.meanOfFourteen 2
  /\ F64.meanOfFourteen 2 = 2.
Proof.
  assert (R : F64.constantRange 2 (F64.bars3min F64.Histories.range2))
    by (split; [vm_compute; lia | vm_compute; repeat constructor]).
  split; [exact R|]. split; [|vm_compute; reflexivity].
  exact (proj1 (atr_of_constant_range F64.Histories.range2 2 R)).
Defined.

End AtrFacts64.

(** ** Binary64: what rounding keeps

    The operations of a float are specified by functions on its IEEE 754
    datum.  Rounding a magnitude gives a zero, a finite number or an
    infinity of the sign asked for, so differences of finite numbers are
    numbers, and absolute values, their maxima, sums and quotients by 14 are
    numbers that are not negative. *)

Section Rounding64.
Import Floats.
Local Open Scope Z_scope.
Variables prec emax : Z.

Lemma shr_1_nonneg mrs : 0 <= shr_m mrs -> 0 <= shr_m (shr_1 mrs).
Proof.
  destruct mrs as [m r s]. cbn. destruct m as [|[p|p|]|[p|p|]]; cbn; lia.
Qed.

Lemma iter_pos_nonneg (n : positive) mrs :
  0 <= shr_m mrs -> 0 <= shr_m (iter_pos shr_1 n mrs).
Proof.
  revert mrs. induction n as [n IH|n IH|]; intros mrs P; cbn.
  - apply IH, IH, shr_1_nonneg, P.
  - apply IH, IH, P.
  - apply shr_1_nonneg, P.
Qed.

Lemma shr_fexp_nonneg m e l : 0 <= m -> 0 <= shr_m (fst (shr_fexp prec emax m e l)).
Proof.
  intro P. unfold shr_fexp, shr.
  assert (Q : 0 <= shr_m (shr_record_of_loc m l)) by (destruct l as [|[]]; exact P).
  destruct (fexp prec emax (Zdigits2 m + e) - e); cbn [fst]; try exact Q.
  apply iter_pos_nonneg, Q.
Qed.

Lemma round_nearest_even_nonneg m l : 0 <= m -> 0 <= round_nearest_even m l.
Proof.
  intro P. unfold round_nearest_even.
  destruct l as [|[]]; try destruct (Z.even m); lia.
Qed.

(** Rounding a magnitude gives a zero, a finite number or an infinity
    of the sign it was called with, never [NaN]. *)
Lemma binary_round_aux_signed sx mx ex lx :
  0 <= mx -> F64.signedSF sx (binary_round_aux prec emax sx mx ex lx).
Proof.
  intro P. unfold binary_round_aux.
  pose proof (shr_fexp_nonneg mx ex lx P) as P1.
  destruct (shr_fexp prec emax mx ex lx) as [mrs1 e1]. cbn [fst] in P1.
  pose proof (shr_fexp_nonneg _ e1 loc_Exact
                (round_nearest_even_nonneg _ (loc_of_shr_record mrs1) P1)) as P2.
  destruct (shr_fexp prec emax _ e1 loc_Exact) as [mrs2 e2]. cbn [fst] in P2.
  destruct (shr_m mrs2) as [|p|p]; [reflexivity | | lia].
  destruct (e2 <=? emax - prec); reflexivity.
Qed.

Lemma binary_round_signed sx mx ex : F64.signedSF sx (binary_round prec emax sx mx ex).
Proof.
  unfold binary_round. destruct (shl_align _ _ _) as [mz ez].
  apply binary_round_aux_signed. lia.
Qed.

Lemma binary_normalize_number m e sz : F64.isNumberSF (binary_normalize prec emax m e sz).
Proof.
  unfold F64.isNumberSF, binary_normalize. destruct m as [|p|p]; [discriminate| |]; intro E.
  - pose proof (binary_round_signed false p e) as S. rewrite E in S. exact S.
  - pose proof (binary_round_signed true p e) as S. rewrite E in S. exact S.
Qed.

Lemma binary_normalize_notNegative m e :
  0 <= m -> F64.notNegativeSF (binary_normalize prec emax m e false).
Proof.
  intro P. unfold binary_normalize. destruct m as [|p|p]; [exact I | | lia].
  pose proof (binary_round_signed false p e) as S.
  destruct (binary_round prec emax false p e); cbn in S |- *; auto.
Qed.

(** *** The operations *)

Lemma SFsub_finite x y :
  F64.finiteSF x -> F64.finiteSF y -> F64.isNumberSF (SFsub prec emax x y).
Proof.
  destruct x as [sx|sx| |sx mx ex], y as [sy|sy| |sy my ey]; cbn [F64.finiteSF];
    try contradiction; intros _ _; cbn [SFsub].
  - destruct sx, sy; discriminate.
  - discriminate.
  - discriminate.
  - apply binary_normalize_number.
Qed.

Lemma SFabs_notNegative x : F64.isNumberSF x -> F64.notNegativeSF (SFabs x).
Proof. destruct x; cbn; auto. Qed.

Lemma SFadd_notNegative x y :
  F64.notNegativeSF x -> F64.notNegativeSF y -> F64.notNegativeSF (SFadd prec emax x y).
Proof.
  destruct x as [sx|sx| |sx mx ex], y as [sy|sy| |sy my ey]; cbn; try contradiction;
    intros Px Py; subst; try exact I; try reflexivity.
  - destruct sx, sy; exact I.
  - apply binary_normalize_notNegative. cbn. lia.
Qed.

Lemma SFdiv_notNegative x m e :
  F64.notNegativeSF x -> F64.notNegativeSF (SFdiv prec emax x (S754_finite false m e)).
Proof.
  destruct x as [sx|sx| |sx mx ex]; cbn; try contradiction; intros Px; subst;
    try exact I; try reflexivity.
  unfold SFdiv_core_binary.
  set (m' := match _ with Z0 => _ | Zpos _ => _ | Zneg _ => _ end).
  assert (P : 0 <= m').
  { unfold m'. destruct (ex - e - _); try lia. apply Z.shiftl_nonneg. lia. }
  pose proof (Z_div_mod m' (Zpos m) ltac:(lia)) as D.
  destruct (Z.div_eucl m' (Zpos m)) as [q r]. destruct D as (D1 & D2).
  assert (Q : 0 <= q) by nia.
  pose proof (binary_round_aux_signed false q
                (Z.min (fexp prec emax (Zdigits2 (Zpos mx) + ex - (Zdigits2 (Zpos m) + e)))
                       (ex - e))
                (new_location (Zpos m) r) Q) as S.
  destruct (binary_round_aux _ _ _ _ _ _); cbn in S |- *; auto.
Qed.

End Rounding64.

Section Float64Facts.
Import Floats.
Local Open Scope float_scope.

Lemma SFcompare_refl x : F64.isNumberSF x -> SFcompare x x = Some Eq.
Proof.
  destruct x as [s|s| |s m e]; cbn; intro N; try reflexivity; [destruct s; reflexivity| now elim N |].
  rewrite Z.compare_refl, Pos.compare_cont_refl. destruct s; reflexivity.
Qed.

Lemma is_nan_number x : is_nan x = false <-> F64.isNumberSF (Prim2SF x).
Proof.
  unfold is_nan. rewrite eqb_spec. unfold SFeqb. split.
  - intros E N. rewrite N in E. discriminate E.
  - intro N. now rewrite (SFcompare_refl _ N).
Qed.

Lemma isFinite_finite x : F64.isFinite x = true -> F64.finiteSF (Prim2SF x).
Proof.
  unfold F64.isFinite, is_finite, is_nan, is_infinity.
  rewrite !eqb_spec, abs_spec. change (Prim2SF infinity) with (S754_infinity false).
  destruct (Prim2SF x) as [s|[]| |s m e]; cbn; intro E; try exact I; discriminate E.
Qed.

Lemma notNegativeSF_number x : F64.notNegativeSF x -> F64.isNumberSF x.
Proof. destruct x; cbn; intros P N; try discriminate N. exact P. Qed.

Lemma notNegative_of_datum x : F64.notNegativeSF (Prim2SF x) -> F64.notNegative x.
Proof.
  intro P. split; [apply is_nan_number, notNegativeSF_number, P|].
  rewrite ltb_spec. change (Prim2SF 0) with (S754_zero false).
  destruct (Prim2SF x) as [s|s| |s m e]; cbn in P |- *; subst; try reflexivity;
    try contradiction.
Qed.

Lemma sub_number x y :
  F64.isFinite x = true -> F64.isFinite y = true -> F64.isNumberSF (Prim2SF (x - y)).
Proof.
  intros Fx Fy. rewrite sub_spec.
  apply SFsub_finite; now apply isFinite_finite.
Qed.

Lemma abs_notNegative x :
  F64.isNumberSF (Prim2SF x) -> F64.notNegativeSF (Prim2SF (abs x)).
Proof. rewrite abs_spec. apply SFabs_notNegative. Qed.

Lemma add_notNegative x y :
  F64.notNegativeSF (Prim2SF x) -> F64.notNegativeSF (Prim2SF y) ->
  F64.notNegativeSF (Prim2SF (x + y)).
Proof. rewrite add_spec. apply SFadd_notNegative. Qed.

Lemma div14_notNegative x :
  F64.notNegativeSF (Prim2SF x) -> F64.notNegativeSF (Prim2SF (x / 14)).
Proof.
  rewrite div_spec.
  change (Prim2SF 14) with (S754_finite false 7881299347898368 (-49)).
  apply SFdiv_notNegative.
Qed.

(** Above a number that is not negative, and beside one, only such
    numbers are found. *)
Lemma SFltb_notNegative x y :
  F64.notNegativeSF y -> SFltb y x = true -> F64.notNegativeSF x.
Proof.
  unfold SFltb.
  destruct x as [sx|sx| |sx mx ex], y as [sy|sy| |sy my ey]; cbn; intros P E; subst;
    try exact I; try contradiction; try discriminate E;
    destruct sx; try reflexivity; try discriminate E.
Qed.

Lemma SFltb_neither x y :
  F64.isNumberSF x -> F64.notNegativeSF y ->
  SFltb x y = false -> SFltb y x = false -> F64.notNegativeSF x.
Proof.
  unfold SFltb, F64.isNumberSF.
  destruct x as [sx|sx| |sx mx ex], y as [sy|sy| |sy my ey]; cbn; intros N P E1 E2; subst;
    try exact I; try contradiction; try (now elim N);
    destruct sx; try reflexivity; try discriminate E1; try discriminate E2.
Qed.

Lemma max_number x y :
  F64.isNumberSF (Prim2SF x) -> F64.isNumberSF (Prim2SF y) ->
  F64.isNumberSF (Prim2SF (F64.max x y)).
Proof.
  intros Nx Ny. unfold F64.max.
  rewrite (proj2 (is_nan_number x) Nx), (proj2 (is_nan_number y) Ny). cbn [orb].
  destruct (x <? y); [exact Ny|]. destruct (y <? x); [exact Nx|].
  destruct (get_sign x); assumption.
Qed.

Lemma max_notNegative x y :
  F64.isNumberSF (Prim2SF x) -> F64.notNegativeSF (Prim2SF y) ->
  F64.notNegativeSF (Prim2SF (F64.max x y)).
Proof.
  intros Nx Py. pose proof (notNegativeSF_number _ Py) as Ny. unfold F64.max.
  rewrite (proj2 (is_nan_number x) Nx), (proj2 (is_nan_number y) Ny). cbn [orb].
  destruct (x <? y) eqn:L1; [exact Py|].
  destruct (y <? x) eqn:L2.
  - rewrite ltb_spec in L2. exact (SFltb_notNegative _ _ Py L2).
  - destruct (get_sign x); [exact Py|].
    rewrite ltb_spec in L1, L2. exact (SFltb_neither _ _ Nx Py L1 L2).
Qed.

Lemma trueRange_notNegative prev cur :
  F64.validOHLC prev = true -> F64.validOHLC cur = true ->
  F64.notNegativeSF (Prim2SF (F64.trueRange prev cur)).
Proof.
  unfold F64.validOHLC. intros Vp Vc.
  apply andb_prop in Vp. destruct Vp as (_ & Fpc).
  apply andb_prop in Vc. destruct Vc as (Vc & _).
  apply andb_prop in Vc. destruct Vc as (Vc & Fl).
  apply andb_prop in Vc. destruct Vc as (_ & Fh).
  unfold F64.trueRange, F64.maxList. cbn [fold_left].
  apply max_notNegative; [|apply abs_notNegative, sub_number; assumption].
  apply max_number; [|apply notNegativeSF_number, abs_notNegative, sub_number; assumption].
  apply max_number; [discriminate | apply sub_number; assumption].
Qed.

Lemma sum_notNegative (l : list float) (a : float) :
  Forall (fun t => F64.notNegativeSF (Prim2SF t)) l ->
  F64.notNegativeSF (Prim2SF a) ->
  F64.notNegativeSF (Prim2SF (fold_left add l a)).
Proof.
  intro F. revert a. induction F as [|t r Pt _ IH]; intros a Pa; [exact Pa|].
  cbn [fold_left]. apply IH. now apply add_notNegative.
Qed.

End Float64Facts.

(** ** The bar aggregator *)

Section AggregatorFrames.
Context `{Env}.

(** Entry handling does not touch the aggregator. *)
Lemma handleSignal_aggregator t s bar :
  aggregator (fst (Trader.handleSignal t s bar)) = aggregator t
  /\ identity (fst (Trader.handleSignal t s bar)) = identity t.
Proof. unfold Trader.handleSignal. split_ifs; split; reflexivity. Qed.

Lemma checkIntraBarSignal_aggregator t px now :
  aggregator (fst (Trader.checkIntraBarSignal t px now)) = aggregator t
  /\ identity (fst (Trader.checkIntraBarSignal t px now)) = identity t.
Proof.
  unfold Trader.checkIntraBarSignal.
  destruct (barStartMs t) as [start|]; [|split; reflexivity].
  destruct (Calc.evaluateFormingBar _ _ _ _ _) as [[calc ms] s].
  destruct (negb (Calc.isHold (signal s))); [|split; reflexivity].
  match goal with
  | |- context [Trader.handleSignal ?u ?x ?b] =>
      destruct (handleSignal_aggregator u x b) as [A I]
  end.
  rewrite A, I. split; reflexivity.
Qed.

Lemma intraBarCheck_aggregator t px now :
  aggregator (fst (Trader.intraBarCheck t px now)) = aggregator t
  /\ identity (fst (Trader.intraBarCheck t px now)) = identity t.
Proof.
  unfold Trader.intraBarCheck.
  destruct (_ && _ && _); [|split; reflexivity].
  destruct (_ <=? _)%Z; [|split; reflexivity].
  destruct (checkIntraBarSignal_aggregator (set_lastIntraBarCheckMs now t) px now) as [A I].
  rewrite A, I. split; reflexivity.
Qed.

Lemma protectiveExits_aggregator t px now t' fx :
  Trader.protectiveExits t px now = Some (t', fx) ->
  aggregator t' = aggregator t /\ identity t' = identity t.
Proof.
  unfold Trader.protectiveExits.
  destruct (_ && _).
  - destruct (reconciling t); [discriminate|].
    destruct (Calc.onTickForProtectiveStops px now (calculator t)) as [calc hit].
    destruct hit; intro E; injection E as <- <-; split; reflexivity.
  - intro E; injection E as <- <-; split; reflexivity.
Qed.

Lemma handleSignal_afterEquity_aggregator t p bal :
  aggregator (fst (Trader.handleSignal_afterEquity t p bal)) = aggregator t
  /\ identity (fst (Trader.handleSignal_afterEquity t p bal)) = identity t.
Proof. unfold Trader.handleSignal_afterEquity. destruct bal; split; reflexivity. Qed.

Lemma handleSignal_afterOrder_aggregator t p qty ok now :
  aggregator (fst (Trader.handleSignal_afterOrder t p qty ok now)) = aggregator t
  /\ identity (fst (Trader.handleSignal_afterOrder t p qty ok now)) = identity t.
Proof. unfold Trader.handleSignal_afterOrder. destruct ok; split; reflexivity. Qed.

Lemma flattenSettled_aggregator t ok :
  aggregator (fst (Trader.flattenSettled t ok)) = aggregator t
  /\ identity (fst (Trader.flattenSettled t ok)) = identity t.
Proof. unfold Trader.flattenSettled. destruct ok; split; reflexivity. Qed.

Lemma closeBarAndProcess_cases t :
  (Trader.closeBarAndProcess t = (t, []))
  \/ exists start o h l cq t' fx,
       barStartMs t = Some start /\ barOpenPx t = Some o /\ barHighPx t = Some h
       /\ barLowPx t = Some l /\ lastPriceByContract t !! contractId t = Some (Fin cq)
       /\ Trader.closeBarAndProcess t = (t', BarClosed (closedBarOf t start o h l (Fin cq)) :: fx)
       /\ aggregator t' = afterClose t (Fin cq)
       /\ identity t' = identity t.
Proof.
  unfold Trader.closeBarAndProcess.
  destruct (barStartMs t) as [start|] eqn:Es; [|left; reflexivity].
  destruct (barOpenPx t) as [o|] eqn:Eo; [|left; reflexivity].
  destruct (barHighPx t) as [h|] eqn:Eh; [|left; reflexivity].
  destruct (barLowPx t) as [l|] eqn:El; [|left; reflexivity].
  destruct (lastPriceByContract t !! contractId t) as [[cq|]|] eqn:Ep;
    [|left; reflexivity|left; reflexivity].
  right. exists start, o, h, l, cq.
  destruct (Calc.processNewBar _ _ _) as [[calc2 ms] s].
  match goal with
  | |- context [if ?b then _ else _] => destruct b
  end.
  - match goal with
    | |- context [Trader.handleSignal ?u ?x ?b] =>
        destruct (handleSignal_aggregator u x b) as [A I];
        destruct (Trader.handleSignal u x b) as [t3 fx]
    end.
    eexists. exists fx. repeat (split; [reflexivity|]).
    cbn [fst] in A, I. split.
    + unfold aggregator, afterClose in *. simpl in *.
      injection A as A1 A2 A3 A4 A5 A6 A7 A8 A9 A10 A11 A12 A13.
      f_equal; congruence.
    + unfold identity in *. simpl in *. exact I.
  - eexists. exists []. repeat (split; [reflexivity|]).
    split; unfold aggregator, afterClose, identity; simpl; rewrite ?Es; reflexivity.
Qed.

End AggregatorFrames.

Section DeltaFacts.
Context `{Env}.
Local Open Scope Q_scope.

Lemma bucketing_identity t cid px now :
  identity (fst (Trader.bucketing t cid px now)) = identity t.
Proof.
  unfold Trader.bucketing.
  destruct (barStartMs t); [|reflexivity].
  destruct (_ <? _)%Z; [|reflexivity].
  destruct (closeBarAndProcess_cases t) as [E | (? & ? & ? & ? & ? & t' & fx & _ & _ & _ & _ & _ & E & _ & I)];
    rewrite E; [reflexivity|].
  unfold identity in *. simpl in *. exact I.
Qed.

Lemma accumulate_identity t cid px cum now :
  identity (Trader.accumulate t cid px cum now) = identity t.
Proof.
  unfold Trader.accumulate.
  destruct (lastCumVolByContract t !! cid) as [pc|]; [|reflexivity].
  destruct (cum >=? pc)%js; reflexivity.
Qed.

(** The state [onQuote] leaves is, for the aggregator, the one its second
    part leaves. *)
Lemma onQuote_aggregator t q now :
  accepted t q ->
  let t4 := Trader.accumulate (fst (Trader.bucketing t (contractId t) (lastPrice q) now))
              (contractId t) (lastPrice q) (quoteVolume q ?? Fin 0) now in
  aggregator (fst (Trader.onQuote t q now)) = aggregator t4
  /\ identity (fst (Trader.onQuote t q now)) = identity t.
Proof.
  intros (R & C & F) t4. unfold Trader.onQuote.
  rewrite R, C, String.eqb_refl, F. cbn [negb].
  assert (I4 : identity t4 = identity t)
    by (unfold t4; rewrite accumulate_identity; apply bucketing_identity).
  subst t4.
  destruct (Trader.bucketing t (contractId t) (lastPrice q) now) as [t1 fx1].
  cbn [fst] in *.
  destruct (Trader.protectiveExits _ _ _) as [[t5 fx2]|] eqn:P.
  - apply protectiveExits_aggregator in P. destruct P as [A5 I5].
    destruct (intraBarCheck_aggregator t5 (lastPrice q) now) as [A6 I6].
    destruct (Trader.intraBarCheck t5 (lastPrice q) now) as [t6 fx3].
    cbn [fst] in *. split; congruence.
  - split; [reflexivity | exact I4].
Qed.

Lemma accumulate_wholeBarDelta t cid px cum now :
  let t4 := Trader.accumulate t cid px cum now in
  signedVolInBarByContract t4 !! cid
  = Some (match prevClosedBarClose t4 with
          | Some pc => Trader.signedBy px pc (volInBarByContract t4 !! cid ?? Fin 0)
          | None => Fin 0
          end).
Proof.
  unfold Trader.accumulate.
  destruct (lastCumVolByContract t !! cid) as [pc|];
    [destruct (cum >=? pc)%js|]; simpl; rewrite lookup_insert_eq; reflexivity.
Qed.

(** C3 — After every processed tick, the whole-bar signed delta stored for
    the forming bucket is the in-bar volume total with the sign of the tick
    price against the previous closed bar's close: the total itself above
    it, its negation below it, zero on it; and zero while no bar has closed.
    The previous tick's price plays no part. *)
Theorem whole_bar_delta_follows_previous_close (t : Trader) (q : GatewayQuote)
    (now : Z) (x : Q) :
  accepted t q ->
  lastPrice q = Fin x ->
  let t' := fst (Trader.onQuote t q now) in
  let total := volInBarByContract t' !! contractId t' ?? Fin 0 in
  let stored := signedVolInBarByContract t' !! contractId t' in
  stored = Some (wholeBarDelta t' (Fin x))
  /\ (prevClosedBarClose t' = None -> stored = Some (Fin 0))
  /\ (forall pc, prevClosedBarClose t' = Some (Fin pc) ->
        (pc < x -> stored = Some total)
        /\ (x < pc -> stored = Some (JS.neg total))
        /\ (x == pc -> stored = Some (Fin 0))).
Proof.
  intros Acc Px t' total stored.
  destruct (onQuote_aggregator t q now Acc) as [A I]. fold t' in A, I.
  assert (Ec : contractId t' = contractId t)
    by exact (f_equal (fun i => snd (fst (fst i))) I).
  pose proof (accumulate_wholeBarDelta
                (fst (Trader.bucketing t (contractId t) (lastPrice q) now))
                (contractId t) (lastPrice q) (quoteVolume q ?? Fin 0) now) as W.
  cbv zeta in W.
  set (t4 := Trader.accumulate _ _ _ _ _) in *.
  assert (S : stored = Some (wholeBarDelta t' (Fin x))).
  { unfold stored, wholeBarDelta, total. rewrite Ec.
    change (signedVolInBarByContract t') with (aSignedVolInBar (aggregator t')).
    change (prevClosedBarClose t') with (aPrevClosedBarClose (aggregator t')).
    change (volInBarByContract t') with (aVolInBar (aggregator t')).
    rewrite A. cbn [aSignedVolInBar aPrevClosedBarClose aVolInBar aggregator].
    rewrite W, Px. reflexivity. }
  split; [exact S|]. unfold wholeBarDelta in S. fold total in S.
  split.
  - intro N. rewrite N in S. exact S.
  - intros pc N. rewrite N in S. unfold Trader.signedBy in S. simpl in S.
    repeat split; intro L; rewrite S.
    + apply Qlt_bool_true in L. now rewrite L.
    + assert (L1 : JS.Qlt_bool pc x = false) by (apply Qlt_bool_false; now apply Qlt_le_weak).
      apply Qlt_bool_true in L. now rewrite L1, L.
    + assert (L1 : JS.Qlt_bool pc x = false) by (apply Qlt_bool_false; rewrite L; apply Qle_refl).
      assert (L2 : JS.Qlt_bool x pc = false) by (apply Qlt_bool_false; rewrite L; apply Qle_refl).
      now rewrite L1, L2.
Qed.

End DeltaFacts.

(** The price fell from 102 to 101 within the bucket and stays above the
    previous close of 100: the stored delta is the whole in-bar volume. *)
Lemma whole_bar_delta_follows_previous_close_witness :
  let t' := fst (Trader.onQuote Sample.afterRollover (Sample.quote 101 110)
                   (Sample.at1003 + 181000)) in
  lastPriceByContract Sample.afterRollover !! Sample.mnq = Some (Fin 102)
  /\ prevClosedBarClose t' = Some (Fin 100)
  /\ volInBarByContract t' !! contractId t' = Some (Fin 10)
  /\ signedVolInBarByContract t' !! contractId t'
     = Some (volInBarByContract t' !! contractId t' ?? Fin 0).
Proof.
  intro t'.
  split; [vm_compute; reflexivity|].
  assert (P : prevClosedBarClose t' = Some (Fin 100)) by (vm_compute; reflexivity).
  split; [exact P|].
  split; [vm_compute; reflexivity|].
  assert (Acc : accepted Sample.afterRollover (Sample.quote 101 110))
    by (repeat split; reflexivity).
  destruct (whole_bar_delta_follows_previous_close Sample.afterRollover
              (Sample.quote 101 110) (Sample.at1003 + 181000) 101%Q Acc eq_refl)
    as (_ & _ & Hpc).
  destruct (Hpc 100%Q P) as (Above & _).
  apply Above. reflexivity.
Defined.

Section VolumeFacts.
Context `{Env}.
Local Open Scope Q_scope.

Lemma tickVolume_rule pc c :
  (pc <= c -> Trader.tickVolume (Some (Fin pc)) (Fin c) = Fin (c - pc))
  /\ (c < pc -> Trader.tickVolume (Some (Fin pc)) (Fin c) = Fin c).
Proof.
  unfold Trader.tickVolume. simpl. split; intro L.
  - apply Qle_bool_iff in L. now rewrite L.
  - apply Qle_bool_false in L. now rewrite L.
Qed.

Lemma tickVolume_nonneg prev c :
  0 <= c -> exists v, Trader.tickVolume prev (Fin c) = Fin v /\ 0 <= v.
Proof.
  intro L. unfold Trader.tickVolume.
  destruct prev as [[pc|]|]; simpl; try (exists c; split; [reflexivity | exact L]).
  destruct (Qle_bool pc c) eqn:E; [|exists c; split; [reflexivity | exact L]].
  apply Qle_bool_iff in E. exists (c - pc). split; [reflexivity|]. lra.
Qed.

Lemma nonNegative_insert (m : gmap string number) (c : string) (v : Q) :
  (forall k, nonNegative (m !! k)) -> 0 <= v ->
  forall k, nonNegative (<[c := Fin v]> m !! k).
Proof.
  intros M V k. destruct (decide (c = k)) as [->|N].
  - rewrite lookup_insert_eq. exact V.
  - rewrite lookup_insert_ne by exact N. apply M.
Qed.

(** The in-bar total after a tick is the total before it plus the tick's
    volume, a volume that is not a number counting as zero. *)
Lemma accumulate_volume t cid px cum now :
  volInBarByContract (Trader.accumulate t cid px cum now) !! cid
  = Some ((volInBarByContract t !! cid ?? Fin 0)
          + (let dVol := Trader.tickVolume (lastCumVolByContract t !! cid) cum in
             if isFinite dVol then dVol else Fin 0))%js.
Proof.
  unfold Trader.accumulate.
  destruct (lastCumVolByContract t !! cid) as [pc|];
    [destruct (cum >=? pc)%js|]; simpl; rewrite lookup_insert_eq; reflexivity.
Qed.

Lemma accumulate_nonNegative t cid px cum now :
  match cum with Fin v => 0 <= v | NaN => True end ->
  volumesNonNegative t -> volumesNonNegative (Trader.accumulate t cid px cum now).
Proof.
  intros C V.
  assert (G : forall m : gmap string number,
             (forall k, nonNegative (m !! k)) ->
             forall k, nonNegative
                         (<[cid := ((m !! cid ?? Fin 0)
                                    + (let dVol := Trader.tickVolume
                                                     (lastCumVolByContract t !! cid) cum in
                                       if isFinite dVol then dVol else Fin 0))%js]> m !! k)).
  { intros m M.
    assert (D : exists d, (let dVol := Trader.tickVolume (lastCumVolByContract t !! cid) cum in
                           if isFinite dVol then dVol else Fin 0) = Fin d /\ 0 <= d).
    { destruct cum as [v|].
      - destruct (tickVolume_nonneg (lastCumVolByContract t !! cid) v C) as (d & E & L).
        exists d. cbv zeta. rewrite E. split; [reflexivity | exact L].
      - exists 0. split; [|apply Qle_refl]. cbv zeta. unfold Trader.tickVolume.
        destruct (lastCumVolByContract t !! cid) as [[?|]|]; reflexivity. }
    destruct D as (d & -> & Ld).
    pose proof (M cid) as Mc.
    destruct (m !! cid) as [[v|]|] eqn:E; [| contradiction Mc |]; simpl in *.
    - apply nonNegative_insert; [exact M | lra].
    - apply nonNegative_insert; [exact M | lra]. }
  unfold volumesNonNegative, Trader.accumulate.
  destruct (lastCumVolByContract t !! cid) as [pc|] eqn:E;
    [destruct (cum >=? pc)%js|]; simpl; apply G; exact V.
Qed.

Lemma closeBarAndProcess_nonNegative t :
  volumesNonNegative t -> volumesNonNegative (fst (Trader.closeBarAndProcess t)).
Proof.
  intro V.
  destruct (closeBarAndProcess_cases t)
    as [E | (? & ? & ? & ? & cq & t' & fx & _ & _ & _ & _ & _ & E & A & _)];
    rewrite E; [exact V|].
  unfold volumesNonNegative. cbn [fst].
  change (volInBarByContract t') with (aVolInBar (aggregator t')).
  rewrite A. simpl. apply nonNegative_insert; [exact V | apply Qle_refl].
Qed.

Lemma rollOver_nonNegative b px now cid t :
  volumesNonNegative t -> volumesNonNegative (Trader.rollOver b px now cid t).
Proof. intro V. unfold volumesNonNegative. simpl. apply nonNegative_insert; [exact V | apply Qle_refl]. Qed.

Lemma bucketing_nonNegative t cid px now :
  volumesNonNegative t -> volumesNonNegative (fst (Trader.bucketing t cid px now)).
Proof.
  intro V. unfold Trader.bucketing.
  destruct (barStartMs t).
  - destruct (_ <? _)%Z; [|exact V].
    pose proof (closeBarAndProcess_nonNegative t V) as C.
    destruct (Trader.closeBarAndProcess t) as [tc fx]. cbn [fst] in *.
    now apply rollOver_nonNegative.
  - unfold volumesNonNegative. simpl.
    apply nonNegative_insert; [exact V | apply Qle_refl].
Qed.

Lemma onQuote_rejected t q now :
  ~ accepted t q -> Trader.onQuote t q now = (t, []).
Proof.
  intro N. unfold Trader.onQuote.
  destruct (running t) eqn:R; [|reflexivity]. cbn [negb].
  destruct (String.eqb (quoteContractId q) (contractId t)) eqn:C; [|reflexivity].
  cbn [negb].
  destruct (isFinite (lastPrice q)) eqn:F; [|reflexivity].
  exfalso. apply N. apply String.eqb_eq in C. repeat split; assumption.
Qed.

Lemma accepted_dec t q : accepted t q \/ ~ accepted t q.
Proof.
  unfold accepted.
  destruct (running t); [|right; intros (? & _); discriminate].
  destruct (String.eqb (quoteContractId q) (contractId t)) eqn:C.
  - apply String.eqb_eq in C.
    destruct (isFinite (lastPrice q)); [left; auto | right; intros (_ & _ & ?); discriminate].
  - apply String.eqb_neq in C. right. intros (_ & ? & _). contradiction.
Qed.

Lemma onQuote_nonNegative t q now :
  volumeIsCounter q ->
  volumesNonNegative t -> volumesNonNegative (fst (Trader.onQuote t q now)).
Proof.
  intros C V. destruct (accepted_dec t q) as [Acc | N];
    [|rewrite onQuote_rejected by exact N; exact V].
  destruct (onQuote_aggregator t q now Acc) as [A _]. cbv zeta in A.
  unfold volumesNonNegative.
  change (volInBarByContract (Trader.onQuote t q now).1)
    with (aVolInBar (aggregator (Trader.onQuote t q now).1)).
  rewrite A. cbn [aVolInBar aggregator].
  apply accumulate_nonNegative; [|now apply bucketing_nonNegative].
  unfold volumeIsCounter in C. destruct (quoteVolume q) as [[v|]|]; simpl; auto.
  apply Qle_refl.
Qed.

Lemma maybeCloseBarByClock_nonNegative t now :
  volumesNonNegative t -> volumesNonNegative (fst (Trader.maybeCloseBarByClock t now)).
Proof.
  intro V. unfold Trader.maybeCloseBarByClock.
  destruct (negb (running t)); [exact V|].
  destruct (barStartMs t); [|exact V].
  destruct (_ <? _)%Z; [|exact V].
  destruct (lastPriceByContract t !! contractId t) as [[lq|]|]; try exact V.
  pose proof (closeBarAndProcess_nonNegative t V) as C.
  destruct (Trader.closeBarAndProcess t) as [tc fx]. cbn [fst] in *.
  now apply rollOver_nonNegative.
Qed.

Lemma step_nonNegative s e :
  match e with Coordinator.Quote q _ => volumeIsCounter q | _ => True end ->
  volumesNonNegative (Coordinator.trader s) ->
  volumesNonNegative (Coordinator.trader (fst (Coordinator.step s e))).
Proof.
  intros C V. destruct e as [q now | now | bal | ok now | ok]; simpl.
  - now apply onQuote_nonNegative.
  - now apply maybeCloseBarByClock_nonNegative.
  - destruct (Coordinator.entryInFlight s) as [[p|p qty]|]; try exact V.
    simpl. unfold volumesNonNegative.
    destruct (handleSignal_afterEquity_aggregator (Coordinator.trader s) p bal) as [A _].
    change (volInBarByContract ?u) with (aVolInBar (aggregator u)).
    rewrite A. exact V.
  - destruct (Coordinator.entryInFlight s) as [[p|p qty]|]; try exact V.
    simpl. unfold volumesNonNegative.
    destruct (handleSignal_afterOrder_aggregator (Coordinator.trader s) p qty ok now) as [A _].
    change (volInBarByContract ?u) with (aVolInBar (aggregator u)).
    rewrite A. exact V.
  - destruct (Coordinator.flattenInFlight s); [|exact V].
    simpl. unfold volumesNonNegative.
    destruct (flattenSettled_aggregator (Coordinator.trader s) ok) as [A _].
    change (volInBarByContract ?u) with (aVolInBar (aggregator u)).
    rewrite A. exact V.
Qed.

Lemma run_cons s e r :
  Coordinator.run s (e :: r)
  = (fst (Coordinator.run (fst (Coordinator.step s e)) r),
     snd (Coordinator.step s e) ++ snd (Coordinator.run (fst (Coordinator.step s e)) r)).
Proof.
  simpl. destruct (Coordinator.step s e) as [s1 fx1]. cbn [fst snd].
  destruct (Coordinator.run s1 r) as [s2 fx2]. reflexivity.
Qed.

Lemma run_nonNegative evs s :
  quotesAreCounters evs ->
  volumesNonNegative (Coordinator.trader s) ->
  volumesNonNegative (Coordinator.trader (fst (Coordinator.run s evs))).
Proof.
  revert s. induction evs as [|e r IH]; intros s Q V; [exact V|].
  rewrite run_cons. cbn [fst].
  inversion Q as [|? ? Qe Qr]; subst.
  apply IH; [exact Qr|]. now apply step_nonNegative.
Qed.

(** C4 — Per-tick volume accounting.  The tick volume is [cum - prevCum]
    when the cumulative counter did not decrease and [cum] when it did (a
    counter reset); it is never negative for a counter that is not; each
    tick adds it to the in-bar total; so through every run the in-bar total
    is a number not below zero.  The cumulative volumes 100, 140, 90 give the
    tick volumes 100, 40, 90 (in-bar totals 100, 140, 230). *)
Theorem tick_volume_accounting :
  (forall pc c,
      ((pc <= c)%Q -> Trader.tickVolume (Some (Fin pc)) (Fin c) = Fin (c - pc))
      /\ ((c < pc)%Q -> Trader.tickVolume (Some (Fin pc)) (Fin c) = Fin c))
  /\ (forall prev c, (0 <= c)%Q ->
        exists v, Trader.tickVolume prev (Fin c) = Fin v /\ (0 <= v)%Q)
  /\ (forall t cid px cum now,
        volInBarByContract (Trader.accumulate t cid px cum now) !! cid
        = Some ((volInBarByContract t !! cid ?? Fin 0)
                + (let dVol := Trader.tickVolume (lastCumVolByContract t !! cid) cum in
                   if isFinite dVol then dVol else Fin 0))%js)
  /\ (forall s evs,
        quotesAreCounters evs ->
        volumesNonNegative (Coordinator.trader s) ->
        volumesNonNegative (Coordinator.trader (fst (Coordinator.run s evs))))
  /\ Forall2 JS.equiv (@tickVolumesAlong Host.env Sample.session Sample.threeTicks)
             [Fin 100; Fin 40; Fin 90]
  /\ Forall2 (fun x y => x = Some y)
             (@volumesAlong Host.env Sample.mnq Sample.session Sample.threeTicks)
             [Fin 100; Fin 140; Fin 230].
Proof.
  split; [apply tickVolume_rule|].
  split; [apply tickVolume_nonneg|].
  split; [apply accumulate_volume|].
  split; [intros s evs; apply run_nonNegative|].
  split; vm_compute; repeat constructor.
Qed.

End VolumeFacts.

(** The three ticks of the scenario leave a total that is not negative. *)
Lemma tick_volume_accounting_witness :
  quotesAreCounters Sample.threeTicks
  /\ volumesNonNegative
       (Coordinator.trader (fst (Coordinator.run Sample.session Sample.threeTicks))).
Proof.
  assert (Q : quotesAreCounters Sample.threeTicks)
    by (repeat constructor; vm_compute; discriminate).
  split; [exact Q|].
  destruct (@tick_volume_accounting Host.env) as (_ & _ & _ & R & _).
  apply R; [exact Q|].
  intro k. vm_compute. exact I.
Defined.

Section RolloverFacts.
Context `{Env}.

(** What entry handling lets the outside see. *)
Lemma handleSignal_effects t s bar :
  snd (Trader.handleSignal t s bar) = []
  \/ exists p, snd (Trader.handleSignal t s bar) = [GetEquityCalled p].
Proof.
  unfold Trader.handleSignal.
  repeat match goal with
         | |- context [if ?b then _ else _] => destruct b
         | |- context [match ?x with _ => _ end] => destruct x
         end; simpl; eauto.
Qed.

Lemma checkIntraBarSignal_effects t px now :
  snd (Trader.checkIntraBarSignal t px now) = []
  \/ exists p, snd (Trader.checkIntraBarSignal t px now) = [GetEquityCalled p].
Proof.
  unfold Trader.checkIntraBarSignal.
  destruct (barStartMs t); [|left; reflexivity].
  destruct (Calc.evaluateFormingBar _ _ _ _ _) as [[calc ms] s].
  destruct (negb _); [apply handleSignal_effects | left; reflexivity].
Qed.

Lemma intraBarCheck_effects t px now :
  snd (Trader.intraBarCheck t px now) = []
  \/ exists p, snd (Trader.intraBarCheck t px now) = [GetEquityCalled p].
Proof.
  unfold Trader.intraBarCheck.
  destruct (_ && _ && _); [|left; reflexivity].
  destruct (_ <=? _)%Z; [apply checkIntraBarSignal_effects | left; reflexivity].
Qed.

Lemma protectiveExits_effects t px now t' fx :
  Trader.protectiveExits t px now = Some (t', fx) ->
  fx = [] \/ fx = [ClosePositionCalled (contractId t)].
Proof.
  unfold Trader.protectiveExits.
  destruct (_ && _).
  - destruct (reconciling t); [discriminate|].
    destruct (Calc.onTickForProtectiveStops _ _ _) as [calc hit].
    destruct hit; intro E; injection E as <- <-; auto.
  - intro E; injection E as <- <-; auto.
Qed.

(** The effects of a tick start with a closed bar only when the bucket
    rolled over and [closeBarAndProcess] closed it. *)
Lemma onQuote_closed t q now b rest :
  snd (Trader.onQuote t q now) = BarClosed b :: rest ->
  accepted t q
  /\ exists start tc fx,
       barStartMs t = Some start
       /\ Trader.closeBarAndProcess t = (tc, BarClosed b :: fx)
       /\ fst (Trader.bucketing t (contractId t) (lastPrice q) now)
          = Trader.rollOver (now / Trader.barStepMs * Trader.barStepMs) (lastPrice q) now
                            (contractId t) tc.
Proof.
  intro E. destruct (accepted_dec t q) as [Acc | N];
    [|rewrite onQuote_rejected in E by exact N; discriminate E].
  split; [exact Acc|]. destruct Acc as (R & C & F).
  revert E. unfold Trader.onQuote. rewrite R, C, String.eqb_refl, F. cbn [negb].
  assert (Tail : forall t4 (fxs : list Effect),
             (let (t1, fx1) := (t4, fxs) in
              match Trader.protectiveExits
                      (Trader.accumulate t1 (contractId t) (lastPrice q)
                                         (quoteVolume q ?? Fin 0) now)
                      (lastPrice q) now with
              | Some (t5, fx2) =>
                  let '(t6, fx3) := Trader.intraBarCheck t5 (lastPrice q) now in
                  (t6, fx1 ++ fx2 ++ fx3)
              | None =>
                  (Trader.accumulate t1 (contractId t) (lastPrice q)
                                     (quoteVolume q ?? Fin 0) now, fx1)
              end).2 = BarClosed b :: rest ->
             exists fx, fxs = BarClosed b :: fx).
  { intros t4 fxs. cbv beta iota.
    destruct (Trader.protectiveExits _ _ _) as [[t5 fx2]|] eqn:P.
    - apply protectiveExits_effects in P.
      pose proof (intraBarCheck_effects t5 (lastPrice q) now) as I.
      destruct (Trader.intraBarCheck t5 (lastPrice q) now) as [t6 fx3]. cbn [snd] in *.
      destruct fxs as [|e fxs]; simpl.
      + destruct P as [-> | ->], I as [-> | (p & ->)]; simpl; discriminate.
      + intro E. injection E as -> _. eauto.
    - cbn [snd]. intros ->. eauto. }
  unfold Trader.bucketing.
  destruct (barStartMs t) as [start|] eqn:Es.
  - destruct (_ <? _)%Z.
    + destruct (Trader.closeBarAndProcess t) as [tc fx] eqn:Ec.
      intro E. apply Tail in E. destruct E as (fx' & ->).
      exists start, tc, fx'. repeat split; reflexivity.
    + intro E. apply Tail in E. destruct E as (fx' & E). discriminate E.
  - intro E. apply Tail in E. destruct E as (fx' & E). discriminate E.
Qed.

Lemma accumulate_frame t cid px cum now :
  let t4 := Trader.accumulate t cid px cum now in
  prevClosedBarClose t4 = prevClosedBarClose t
  /\ barOpenPx t4 = barOpenPx t
  /\ liveBarOpen t4 = liveBarOpen t.
Proof.
  unfold Trader.accumulate.
  destruct (lastCumVolByContract t !! cid) as [pc|];
    [destruct (cum >=? pc)%js|]; simpl; auto.
Qed.

(** C6 (as amended) — On every bucket rollover, once the closed bar is
    out: on the heartbeat path the volume and signed-delta accumulators are
    zero and the new bucket opens at the close of the bar just closed; on
    the tick path the accumulators were zeroed and hold the volume of the
    tick that triggered the rollover (signed against the close of the bar
    just closed), and the new bucket opens at that tick's price. *)
Theorem rollover_resets_and_reopens :
  (forall t now, opensAtClosedPrice (Trader.maybeCloseBarByClock t now))
  /\ (forall t q now, opensAtTickPrice t q (Trader.onQuote t q now)).
Proof.
  split.
  - intros t now b rest. unfold Trader.maybeCloseBarByClock.
    destruct (negb (running t)); [discriminate|].
    destruct (barStartMs t) as [start|]; [|discriminate].
    destruct (_ <? _)%Z; [|discriminate].
    destruct (lastPriceByContract t !! contractId t) as [[lq|]|] eqn:Ep; try discriminate.
    destruct (closeBarAndProcess_cases t)
      as [E | (st & o & h & l & cq & t' & fx & _ & _ & _ & _ & Ep' & E & A & I)];
      rewrite E; [discriminate|].
    cbn [fst snd]. intro Eb. injection Eb as <- _.
    rewrite Ep in Ep'. injection Ep' as <-.
    assert (Ec : contractId t' = contractId t)
      by exact (f_equal (fun i => snd (fst (fst i))) I).
    cbv zeta. simpl. rewrite Ec, !lookup_insert_eq. auto.
  - intros t q now b rest E.
    destruct (onQuote_closed t q now b rest E) as (Acc & start & tc & fx & Es & Ec & Eb).
    destruct (onQuote_aggregator t q now Acc) as [A I]. cbv zeta in A.
    rewrite Eb in A.
    destruct (closeBarAndProcess_cases t)
      as [E0 | (st & o & h & l & cq & t' & fx' & _ & _ & _ & _ & Ep & E1 & A1 & I1)];
      [rewrite E0 in Ec; discriminate Ec|].
    rewrite E1 in Ec. injection Ec as <- <- _.
    set (r := Trader.onQuote t q now) in *.
    set (cid := contractId t) in *.
    set (t1 := Trader.rollOver _ (lastPrice q) now cid t') in *.
    assert (Ecid : contractId (fst r) = cid)
      by exact (f_equal (fun i => snd (fst (fst i))) I).
    assert (Lc : lastCumVolByContract t1 = lastCumVolByContract t)
      by exact (f_equal aLastCumVol A1).
    assert (Pc : prevClosedBarClose t1 = Some (Fin cq))
      by exact (f_equal aPrevClosedBarClose A1).
    assert (V1 : volInBarByContract t1 !! cid = Some (Fin 0))
      by (unfold t1; simpl; apply lookup_insert_eq).
    destruct (accumulate_frame t1 cid (lastPrice q) (quoteVolume q ?? Fin 0) now)
      as (F1 & F2 & F3).
    pose proof (accumulate_volume t1 cid (lastPrice q) (quoteVolume q ?? Fin 0) now) as V.
    pose proof (accumulate_wholeBarDelta t1 cid (lastPrice q) (quoteVolume q ?? Fin 0) now) as W.
    cbv zeta in V, W, F1, F2, F3.
    set (t4 := Trader.accumulate t1 cid (lastPrice q) (quoteVolume q ?? Fin 0) now) in *.
    rewrite V1, Lc in V. cbn [nullish] in V.
    destruct Acc as (_ & Cq & _).
    cbv zeta. rewrite Ecid.
    change (volInBarByContract r.1) with (aVolInBar (aggregator r.1)).
    change (signedVolInBarByContract r.1) with (aSignedVolInBar (aggregator r.1)).
    change (prevClosedBarClose r.1) with (aPrevClosedBarClose (aggregator r.1)).
    change (barOpenPx r.1) with (fst (fst (aBar (aggregator r.1)))).
    change (liveBarOpen r.1) with (fst (fst (aLiveBar (aggregator r.1)))).
    rewrite A. cbn [aVolInBar aSignedVolInBar aPrevClosedBarClose aBar aLiveBar aggregator fst].
    unfold tickVolumeOf. rewrite Cq. fold cid.
    rewrite W, V, F1, F2, F3, Pc. cbn [nullish].
    repeat split; reflexivity.
Qed.

End RolloverFacts.

(** C6, as the specification states it, fails on the tick path: the bar
    closes at 100, the tick that rolls the bucket over is at 102, and the new
    bucket opens at 102, not at 100. *)
Lemma tick_rollover_opens_at_tick_price :
  let r := Trader.onQuote Sample.afterFirstTick Sample.nextBucketTick
             (Sample.at1003 + 180000) in
  (exists b rest,
      snd r = BarClosed b :: rest
      /\ close b = Fin 100
      /\ barOpenPx (fst r) = Some (Fin 102)
      /\ liveBarOpen (fst r) = Some (Fin 102))
  /\ ~ opensAtClosedPrice r.
Proof.
  intro r. split.
  - eexists. eexists. repeat split; vm_compute; reflexivity.
  - intro C. destruct (C _ _ eq_refl) as (_ & _ & O & _).
    vm_compute in O. discriminate O.
Qed.

(** A beat and a tick in the bucket after the first tick at 100: the beat
    reopens at 100, the tick (at 102) at 102. *)
Lemma rollover_resets_and_reopens_witness :
  (exists b rest,
      snd (Trader.maybeCloseBarByClock Sample.afterFirstTick (Sample.at1003 + 180000))
      = BarClosed b :: rest
      /\ close b = Fin 100
      /\ barOpenPx (fst (Trader.maybeCloseBarByClock Sample.afterFirstTick
                           (Sample.at1003 + 180000))) = Some (close b))
  /\ (exists b rest,
         snd (Trader.onQuote Sample.afterFirstTick Sample.nextBucketTick
                (Sample.at1003 + 180000)) = BarClosed b :: rest
         /\ close b = Fin 100
         /\ barOpenPx (fst (Trader.onQuote Sample.afterFirstTick Sample.nextBucketTick
                              (Sample.at1003 + 180000)))
            = Some (lastPrice Sample.nextBucketTick)).
Proof.
  destruct (@rollover_resets_and_reopens Host.env) as [Hb Tk].
  split.
  - eexists. eexists.
    assert (E : snd (Trader.maybeCloseBarByClock Sample.afterFirstTick
                       (Sample.at1003 + 180000)) = BarClosed _ :: _)
      by (vm_compute; reflexivity).
    split; [exact E|]. split; [reflexivity|].
    apply (Hb _ _ _ _ E).
  - eexists. eexists.
    assert (E : snd (Trader.onQuote Sample.afterFirstTick Sample.nextBucketTick
                       (Sample.at1003 + 180000)) = BarClosed _ :: _)
      by (vm_compute; reflexivity).
    split; [exact E|]. split; [reflexivity|].
    apply (Tk _ _ _ _ _ E).
Defined.

(** ** The execution coordinator *)

Section EntryFacts.
Context `{Env}.

Lemma sameBarId_refl a : Trader.sameBarId a a = true.
Proof. destruct a; simpl; [apply Z.eqb_refl | reflexivity]. Qed.

(** With the marker on the current bucket, [handleSignal] returns at its
    fourth guard at the latest. *)
Lemma handleSignal_blocked t s bar :
  enteredBarStartMs t = barStartMs t ->
  Trader.handleSignal t s bar = (t, []).
Proof.
  intro E. unfold Trader.handleSignal.
  destruct (signal s); try reflexivity;
    destruct (Calc.hasPosition (calculator t)); try reflexivity;
    destruct (isEnteringPosition t || reconciling t); try reflexivity;
    rewrite E, sameBarId_refl; reflexivity.
Qed.

Lemma checkIntraBarSignal_blocked t px now :
  enteredBarStartMs t = barStartMs t ->
  snd (Trader.checkIntraBarSignal t px now) = []
  /\ enteredBarStartMs (fst (Trader.checkIntraBarSignal t px now)) = enteredBarStartMs t.
Proof.
  intro E. unfold Trader.checkIntraBarSignal.
  destruct (barStartMs t) as [start|] eqn:Es; [|split; reflexivity].
  destruct (Calc.evaluateFormingBar _ _ _ _ _) as [[calc ms] s].
  destruct (negb _); [|split; reflexivity].
  rewrite handleSignal_blocked by (simpl; congruence).
  split; reflexivity.
Qed.

Lemma intraBarCheck_blocked t px now :
  enteredBarStartMs t = barStartMs t ->
  snd (Trader.intraBarCheck t px now) = []
  /\ enteredBarStartMs (fst (Trader.intraBarCheck t px now)) = enteredBarStartMs t.
Proof.
  intro E. unfold Trader.intraBarCheck.
  destruct (_ && _ && _); [|split; reflexivity].
  destruct (_ <=? _)%Z; [|split; reflexivity].
  apply (checkIntraBarSignal_blocked (set_lastIntraBarCheckMs now t) px now). exact E.
Qed.

Lemma protectiveExits_marker t px now t' fx :
  Trader.protectiveExits t px now = Some (t', fx) ->
  enteredBarStartMs t' = enteredBarStartMs t /\ barStartMs t' = barStartMs t
  /\ noEntryCall fx.
Proof.
  unfold Trader.protectiveExits.
  destruct (_ && _).
  - destruct (reconciling t); [discriminate|].
    destruct (Calc.onTickForProtectiveStops _ _ _) as [calc hit].
    destruct hit; intro E; injection E as <- <-; repeat split; repeat constructor.
  - intro E; injection E as <- <-; repeat split; constructor.
Qed.

Lemma accumulate_marker t cid px cum now :
  enteredBarStartMs (Trader.accumulate t cid px cum now) = enteredBarStartMs t
  /\ barStartMs (Trader.accumulate t cid px cum now) = barStartMs t.
Proof.
  unfold Trader.accumulate.
  destruct (lastCumVolByContract t !! cid) as [pc|];
    [destruct (cum >=? pc)%js|]; simpl; auto.
Qed.

(** The first part of [onQuote] keeps the bucket start only when the tick
    falls in the open bucket; it then closes nothing and leaves the marker. *)
Lemma bucketing_same_bucket t cid px now :
  barStartMs (fst (Trader.bucketing t cid px now)) = barStartMs t ->
  snd (Trader.bucketing t cid px now) = []
  /\ enteredBarStartMs (fst (Trader.bucketing t cid px now)) = enteredBarStartMs t.
Proof.
  unfold Trader.bucketing.
  destruct (barStartMs t) as [start|] eqn:Es; [|simpl; discriminate].
  destruct (start <? _)%Z eqn:L; [|split; reflexivity].
  destruct (Trader.closeBarAndProcess t) as [tc fx]. simpl.
  intro E. injection E as E. rewrite E in L. rewrite Z.ltb_irrefl in L. discriminate L.
Qed.

Lemma onQuote_blocked t q now :
  enteredBarStartMs t = barStartMs t ->
  barStartMs (fst (Trader.onQuote t q now)) = barStartMs t ->
  noEntryCall (snd (Trader.onQuote t q now))
  /\ enteredBarStartMs (fst (Trader.onQuote t q now)) = enteredBarStartMs t.
Proof.
  intros E B. destruct (accepted_dec t q) as [Acc | N];
    [|rewrite onQuote_rejected by exact N; split; [constructor | reflexivity]].
  destruct (onQuote_aggregator t q now Acc) as [A _]. cbv zeta in A.
  apply (f_equal aBarStartMs) in A. cbn [aBarStartMs aggregator] in A.
  rewrite B in A. symmetry in A.
  destruct (accumulate_marker (fst (Trader.bucketing t (contractId t) (lastPrice q) now))
              (contractId t) (lastPrice q) (quoteVolume q ?? Fin 0) now) as [M1 M2].
  rewrite M2 in A.
  destruct (bucketing_same_bucket t (contractId t) (lastPrice q) now A) as [F1 E1].
  destruct Acc as (R & C & F).
  unfold Trader.onQuote. rewrite R, C, String.eqb_refl, F. cbn [negb].
  destruct (Trader.bucketing t (contractId t) (lastPrice q) now) as [t1 fx1].
  cbn [fst snd] in *. subst fx1.
  set (t4 := Trader.accumulate t1 (contractId t) (lastPrice q) (quoteVolume q ?? Fin 0) now)
    in *.
  destruct (Trader.protectiveExits t4 (lastPrice q) now) as [[t5 fx2]|] eqn:P.
  - apply protectiveExits_marker in P. destruct P as (P1 & P2 & P3).
    destruct (intraBarCheck_blocked t5 (lastPrice q) now) as [I1 I2]; [congruence|].
    destruct (Trader.intraBarCheck t5 (lastPrice q) now) as [t6 fx3].
    cbn [fst snd] in *. subst fx3. rewrite app_nil_r. simpl.
    split; [exact P3 | congruence].
  - cbn [fst snd]. split; [constructor | congruence].
Qed.

Lemma maybeCloseBarByClock_same_bucket t now :
  barStartMs (fst (Trader.maybeCloseBarByClock t now)) = barStartMs t ->
  Trader.maybeCloseBarByClock t now = (t, []).
Proof.
  unfold Trader.maybeCloseBarByClock.
  destruct (negb (running t)); [reflexivity|].
  destruct (barStartMs t) as [start|] eqn:Es; [|reflexivity].
  destruct (start <? _)%Z eqn:L; [|reflexivity].
  destruct (lastPriceByContract t !! contractId t) as [[lq|]|]; try reflexivity.
  destruct (Trader.closeBarAndProcess t) as [tc fx]. simpl.
  intro E. injection E as E. rewrite E in L. rewrite Z.ltb_irrefl in L. discriminate L.
Qed.

Lemma entryAfter_none fx cur :
  noEntryCall fx -> Coordinator.entryAfter fx cur = cur.
Proof.
  unfold Coordinator.entryAfter. intro N. revert cur.
  induction N as [|e r [C G] _ IH]; intro cur; [reflexivity|].
  simpl. destruct e; simpl in *; try discriminate; apply IH.
Qed.

(** One event in an unchanged bucket leaves an entry recorded and calls
    neither [getEquity] nor [createOrder]. *)
Lemma step_blocked s e :
  entryRecorded s ->
  barStartMs (Coordinator.trader (fst (Coordinator.step s e)))
  = barStartMs (Coordinator.trader s) ->
  entryRecorded (fst (Coordinator.step s e)) /\ noEntryCall (snd (Coordinator.step s e)).
Proof.
  intros (F & E) B. unfold entryRecorded.
  destruct e as [q now | now | bal | ok now | ok]; simpl in *.
  - destruct (onQuote_blocked (Coordinator.trader s) q now E B) as [N M].
    rewrite entryAfter_none by exact N. repeat split; [exact F | congruence | exact N].
  - rewrite (maybeCloseBarByClock_same_bucket _ _ B). simpl.
    repeat split; [exact F | exact E | constructor].
  - rewrite F. simpl. repeat split; [exact F | exact E | constructor].
  - rewrite F. simpl. repeat split; [exact F | exact E | constructor].
  - destruct (Coordinator.flattenInFlight s);
      [|simpl; repeat split; [exact F | exact E | constructor]].
    unfold Trader.flattenSettled.
    destruct ok; simpl; repeat split; try assumption;
      try destruct (sendWebhook (traderConfig (Coordinator.trader s)));
      repeat constructor.
Qed.

Lemma run_blocked evs s :
  entryRecorded s -> sameBucket s evs ->
  entryRecorded (fst (Coordinator.run s evs)) /\ noEntryCall (snd (Coordinator.run s evs))
  /\ barStartMs (Coordinator.trader (fst (Coordinator.run s evs)))
     = barStartMs (Coordinator.trader s).
Proof.
  revert s. induction evs as [|e r IH]; intros s R S.
  - simpl. repeat split; [apply R | apply R | constructor].
  - rewrite run_cons. cbn [fst snd].
    unfold sameBucket in S. simpl in S. inversion S as [|? ? B Sr]; subst.
    destruct (step_blocked s e R B) as [R1 N1].
    destruct (IH (fst (Coordinator.step s e)) R1) as (R2 & N2 & B2).
    { unfold sameBucket. rewrite B. exact Sr. }
    repeat split; [apply R2 | apply R2 | | congruence].
    unfold noEntryCall in *. apply Forall_app. split; assumption.
Qed.

(** When [handleSignal] goes on to call [getEquity], it has put the
    current bucket start into the marker and into the attempt. *)
Lemma handleSignal_records t s bar t' p :
  Trader.handleSignal t s bar = (t', [GetEquityCalled p]) ->
  enteredBarStartMs t' = barStartMs t' /\ peBarId p = barStartMs t'.
Proof.
  unfold Trader.handleSignal.
  destruct (signal s); try discriminate;
    destruct (Calc.hasPosition (calculator t)); try discriminate;
    destruct (isEnteringPosition t || reconciling t); try discriminate;
    destruct (Trader.sameBarId _ _); try discriminate;
    destruct (_ || _); try discriminate;
    intro E; injection E as <- <-; split; reflexivity.
Qed.

(** While the bucket start is unchanged and no entry attempt fails, the
    marker stays on the bucket: through quotes, beats, the arrival of the
    equity, the success of the order and the settlement of a flatten. *)
Lemma marker_kept_in_bucket s e :
  enteredBarStartMs (Coordinator.trader s) = barStartMs (Coordinator.trader s) ->
  barStartMs (Coordinator.trader (fst (Coordinator.step s e)))
  = barStartMs (Coordinator.trader s) ->
  match e with
  | Coordinator.EquitySettled None | Coordinator.OrderSettled false _ => False
  | _ => True
  end ->
  enteredBarStartMs (Coordinator.trader (fst (Coordinator.step s e)))
  = barStartMs (Coordinator.trader (fst (Coordinator.step s e))).
Proof.
  intros E B Ok. rewrite B.
  destruct e as [q now | now | bal | ok now | ok]; unfold Coordinator.step in *.
  - cbn [fst Coordinator.absorb Coordinator.trader] in *.
    destruct (onQuote_blocked (Coordinator.trader s) q now E B) as [_ M]. congruence.
  - cbn [fst Coordinator.absorb Coordinator.trader] in *.
    rewrite (maybeCloseBarByClock_same_bucket _ _ B). exact E.
  - destruct (Coordinator.entryInFlight s) as [[p|p qty]|]; try exact E.
    destruct bal; [exact E | contradiction].
  - destruct (Coordinator.entryInFlight s) as [[p|p qty]|]; try exact E.
    destruct ok; [exact E | contradiction].
  - destruct (Coordinator.flattenInFlight s); [|exact E].
    destruct ok; exact E.
Qed.

(** C1 — At most one entry is honored per bucket.  An entry attempt was
    recorded for the current bucket (the marker holds the bucket start) and
    awaits its order; the order succeeds.  Then through every run of
    quotes, beats and settlements during which the bucket start is
    unchanged, [createOrder] is not called ([getEquity] neither), and at its
    end [handleSignal] returns on any signal without a change and without
    a call. *)
Theorem one_entry_per_bucket (s : Coordinator.System) (p : PendingEntry) (qty : number)
    (now : Z) (evs : list Coordinator.Event) :
  Coordinator.entryInFlight s = Some (Coordinator.AwaitingOrder p qty) ->
  enteredBarStartMs (Coordinator.trader s) = barStartMs (Coordinator.trader s) ->
  let s1 := fst (Coordinator.step s (Coordinator.OrderSettled true now)) in
  sameBucket s1 evs ->
  let s2 := fst (Coordinator.run s1 evs) in
  noEntryCall (snd (Coordinator.run s1 evs))
  /\ forall sig bar,
       Trader.handleSignal (Coordinator.trader s2) sig bar = (Coordinator.trader s2, []).
Proof.
  intros F E s1 S s2.
  assert (R1 : entryRecorded s1).
  { unfold s1, entryRecorded. simpl. rewrite F. simpl.
    destruct (sendWebhook _); simpl; split; (reflexivity || exact E). }
  destruct (run_blocked evs s1 R1 S) as (R2 & N & _).
  split; [exact N|].
  intros sig bar. apply handleSignal_blocked. apply R2.
Qed.

End EntryFacts.

(** The sample session: the entry recorded in the 11:03 bucket is filled,
    stopped out and flattened; the forming bar then qualifies again (the
    calculator notes a signal at 11:03:05.800) and no order follows. *)
Lemma one_entry_per_bucket_witness :
  exists p qty,
    Coordinator.entryInFlight Sample.awaitingOrder = Some (Coordinator.AwaitingOrder p qty)
    /\ let s1 := fst (Coordinator.step Sample.awaitingOrder
                        (Coordinator.OrderSettled true (Sample.at1100 + 183000))) in
       let r := Coordinator.run s1 Sample.sameBucketEvents in
       noEntryCall (snd r)
       /\ snd r = [ClosePositionCalled Sample.mnq]
       /\ Calc.hasPosition (calculator (Coordinator.trader (fst r))) = false
       /\ lastIntraBarSignalTime (calculator (Coordinator.trader (fst r)))
          = Sample.at1100 + 185800.
Proof.
  assert (F : exists p qty,
             Coordinator.entryInFlight Sample.awaitingOrder
             = Some (Coordinator.AwaitingOrder p qty))
    by (eexists; eexists; vm_compute; reflexivity).
  destruct F as (p & qty & F).
  exists p, qty. split; [exact F|].
  intros s1 r.
  assert (E : enteredBarStartMs (Coordinator.trader Sample.awaitingOrder)
              = barStartMs (Coordinator.trader Sample.awaitingOrder))
    by (vm_compute; reflexivity).
  assert (S : sameBucket s1 Sample.sameBucketEvents)
    by (unfold sameBucket; vm_compute; repeat constructor).
  split;
    [exact (proj1 (one_entry_per_bucket Sample.awaitingOrder p qty
                     (Sample.at1100 + 183000) Sample.sameBucketEvents F E S))|].
  repeat split; vm_compute; reflexivity.
Defined.

Section FlightFacts.
Context `{Env}.

Lemma disciplined_refl t : disciplined t t [].
Proof. repeat split. Qed.

Lemma disciplined_trans t t1 t2 fx1 fx2 :
  disciplined t t1 fx1 -> disciplined t1 t2 fx2 -> disciplined t t2 (fx1 ++ fx2).
Proof.
  unfold disciplined. rewrite !existsb_app.
  intros (E1 & F1 & C1) (E2 & F2 & C2). rewrite C1, C2.
  destruct (existsb Coordinator.isGetEquity fx1), (existsb Coordinator.isGetEquity fx2),
    (existsb Coordinator.isClosePosition fx1), (existsb Coordinator.isClosePosition fx2);
    simpl; intuition congruence.
Qed.

Lemma disciplined_silent t t' :
  isEnteringPosition t' = isEnteringPosition t ->
  isFlattening t' = isFlattening t ->
  disciplined t t' [].
Proof. intros; repeat split; assumption. Qed.

Lemma handleSignal_disciplined t s bar :
  disciplined t (fst (Trader.handleSignal t s bar)) (snd (Trader.handleSignal t s bar)).
Proof.
  unfold Trader.handleSignal.
  destruct (signal s); try apply disciplined_refl;
    destruct (Calc.hasPosition (calculator t)); try apply disciplined_refl;
    destruct (isEnteringPosition t) eqn:L; simpl; try apply disciplined_refl;
    destruct (reconciling t); try apply disciplined_refl;
    destruct (Trader.sameBarId _ _); try apply disciplined_refl;
    destruct (_ || _); try apply disciplined_refl;
    repeat split; simpl; auto.
Qed.

Lemma checkIntraBarSignal_disciplined t px now :
  disciplined t (fst (Trader.checkIntraBarSignal t px now))
              (snd (Trader.checkIntraBarSignal t px now)).
Proof.
  unfold Trader.checkIntraBarSignal.
  destruct (barStartMs t); [|apply disciplined_refl].
  destruct (Calc.evaluateFormingBar _ _ _ _ _) as [[calc ms] s].
  destruct (negb _); [|apply disciplined_silent; reflexivity].
  match goal with
  | |- context [Trader.handleSignal ?u ?x ?b] =>
      pose proof (handleSignal_disciplined u x b) as D
  end.
  exact D.
Qed.

Lemma intraBarCheck_disciplined t px now :
  disciplined t (fst (Trader.intraBarCheck t px now)) (snd (Trader.intraBarCheck t px now)).
Proof.
  unfold Trader.intraBarCheck.
  destruct (_ && _ && _); [|apply disciplined_refl].
  destruct (_ <=? _)%Z; [|apply disciplined_refl].
  apply (checkIntraBarSignal_disciplined (set_lastIntraBarCheckMs now t)).
Qed.

Lemma protectiveExits_disciplined t px now t' fx :
  Trader.protectiveExits t px now = Some (t', fx) -> disciplined t t' fx.
Proof.
  unfold Trader.protectiveExits.
  destruct (Calc.hasPosition (calculator t)); simpl.
  - destruct (isFlattening t) eqn:F; simpl.
    + intro E; injection E as <- <-. apply disciplined_refl.
    + destruct (reconciling t); [discriminate|].
      destruct (Calc.onTickForProtectiveStops _ _ _) as [calc hit].
      destruct hit; intro E; injection E as <- <-; repeat split; simpl; auto.
  - intro E; injection E as <- <-. apply disciplined_refl.
Qed.

Lemma closeBarAndProcess_disciplined t :
  disciplined t (fst (Trader.closeBarAndProcess t)) (snd (Trader.closeBarAndProcess t)).
Proof.
  unfold Trader.closeBarAndProcess.
  destruct (barStartMs t); [|apply disciplined_refl].
  destruct (barOpenPx t); [|apply disciplined_refl].
  destruct (barHighPx t); [|apply disciplined_refl].
  destruct (barLowPx t); [|apply disciplined_refl].
  destruct (lastPriceByContract t !! contractId t) as [[cq|]|]; try apply disciplined_refl.
  destruct (Calc.processNewBar _ _ _) as [[calc2 ms] s].
  match goal with
  | |- context [if ?b then _ else _] => destruct b
  end; [|repeat split].
  match goal with
  | |- context [Trader.handleSignal ?u ?x ?b] =>
      pose proof (handleSignal_disciplined u x b) as D;
      destruct (Trader.handleSignal u x b) as [t3 fx]
  end.
  exact D.
Qed.

Lemma bucketing_disciplined t cid px now :
  disciplined t (fst (Trader.bucketing t cid px now)) (snd (Trader.bucketing t cid px now)).
Proof.
  unfold Trader.bucketing.
  destruct (barStartMs t); [|apply disciplined_silent; reflexivity].
  destruct (_ <? _)%Z; [|apply disciplined_silent; reflexivity].
  pose proof (closeBarAndProcess_disciplined t) as D.
  destruct (Trader.closeBarAndProcess t) as [tc fx]. exact D.
Qed.

Lemma accumulate_disciplined t cid px cum now :
  disciplined t (Trader.accumulate t cid px cum now) [].
Proof.
  unfold Trader.accumulate.
  destruct (lastCumVolByContract t !! cid) as [pc|];
    [destruct (cum >=? pc)%js|]; apply disciplined_silent; reflexivity.
Qed.

Lemma onQuote_disciplined t q now :
  disciplined t (fst (Trader.onQuote t q now)) (snd (Trader.onQuote t q now)).
Proof.
  unfold Trader.onQuote.
  destruct (negb (running t)); [apply disciplined_refl|].
  destruct (negb (String.eqb _ _)); [apply disciplined_refl|].
  destruct (negb (isFinite _)); [apply disciplined_refl|].
  pose proof (bucketing_disciplined t (quoteContractId q) (lastPrice q) now) as D1.
  destruct (Trader.bucketing t (quoteContractId q) (lastPrice q) now) as [t1 fx1].
  cbn [fst snd] in D1.
  pose proof (accumulate_disciplined t1 (quoteContractId q) (lastPrice q)
                (quoteVolume q ?? Fin 0) now) as D2.
  pose proof (disciplined_trans _ _ _ _ _ D1 D2) as D12. rewrite app_nil_r in D12.
  destruct (Trader.protectiveExits _ _ _) as [[t5 fx2]|] eqn:P; [|exact D12].
  apply protectiveExits_disciplined in P.
  pose proof (intraBarCheck_disciplined t5 (lastPrice q) now) as D4.
  destruct (Trader.intraBarCheck t5 (lastPrice q) now) as [t6 fx3].
  cbn [fst snd] in *.
  eapply disciplined_trans; [exact D12|].
  eapply disciplined_trans; eassumption.
Qed.

Lemma maybeCloseBarByClock_disciplined t now :
  disciplined t (fst (Trader.maybeCloseBarByClock t now))
              (snd (Trader.maybeCloseBarByClock t now)).
Proof.
  unfold Trader.maybeCloseBarByClock.
  destruct (negb (running t)); [apply disciplined_refl|].
  destruct (barStartMs t); [|apply disciplined_refl].
  destruct (_ <? _)%Z; [|apply disciplined_refl].
  destruct (lastPriceByContract t !! contractId t) as [[lq|]|]; try apply disciplined_refl.
  pose proof (closeBarAndProcess_disciplined t) as D.
  destruct (Trader.closeBarAndProcess t) as [tc fx]. exact D.
Qed.

Lemma entryAfter_quiet fx cur :
  existsb Coordinator.isGetEquity fx = false ->
  existsb Coordinator.isCreateOrder fx = false ->
  Coordinator.entryAfter fx cur = cur.
Proof.
  intros G C. apply entryAfter_none. unfold noEntryCall.
  apply Forall_forall. intros e In.
  split.
  - destruct (Coordinator.isCreateOrder e) eqn:X; [|reflexivity].
    assert (existsb Coordinator.isCreateOrder fx = true)
      by (apply existsb_exists; exists e; split; [now apply list_elem_of_In | exact X]).
    congruence.
  - destruct (Coordinator.isGetEquity e) eqn:X; [|reflexivity].
    assert (existsb Coordinator.isGetEquity fx = true)
      by (apply existsb_exists; exists e; split; [now apply list_elem_of_In | exact X]).
    congruence.
Qed.

(** Trader code run by a quote or a beat keeps what is in flight locked,
    and starts nothing of a kind that is in flight. *)
Lemma absorb_locked s r :
  locked s ->
  disciplined (Coordinator.trader s) (fst r) (snd r) ->
  locked (fst (Coordinator.absorb s r (Coordinator.entryInFlight s)))
  /\ (Coordinator.entryInFlight s <> None -> existsb Coordinator.isGetEquity (snd r) = false)
  /\ (Coordinator.flattenInFlight s = true
      -> existsb Coordinator.isClosePosition (snd r) = false).
Proof.
  intros (LE & LF) (DE & DF & DC).
  assert (NE : Coordinator.entryInFlight s <> None
               -> existsb Coordinator.isGetEquity (snd r) = false).
  { intro N. destruct (existsb Coordinator.isGetEquity (snd r)); [|reflexivity].
    destruct DE as [DE _]. rewrite (LE N) in DE. discriminate DE. }
  assert (NF : Coordinator.flattenInFlight s = true
               -> existsb Coordinator.isClosePosition (snd r) = false).
  { intro N. destruct (existsb Coordinator.isClosePosition (snd r)); [|reflexivity].
    destruct DF as [DF _]. rewrite (LF N) in DF. discriminate DF. }
  split; [|split; assumption].
  unfold locked, Coordinator.absorb. cbn [fst Coordinator.trader Coordinator.entryInFlight
                                          Coordinator.flattenInFlight].
  split.
  - destruct (existsb Coordinator.isGetEquity (snd r)) eqn:G.
    + intros _. apply DE.
    + rewrite entryAfter_quiet by assumption. intro N. rewrite DE. now apply LE.
  - destruct (existsb Coordinator.isClosePosition (snd r)) eqn:C.
    + intros _. apply DF.
    + simpl. intro N. rewrite DF. now apply LF.
Qed.

Lemma step_locked s e : locked s -> locked (fst (Coordinator.step s e)).
Proof.
  intro L. destruct e as [q now | now | bal | ok now | ok]; unfold Coordinator.step.
  - exact (proj1 (absorb_locked s (Trader.onQuote (Coordinator.trader s) q now) L
                    (onQuote_disciplined _ _ _))).
  - exact (proj1 (absorb_locked s (Trader.maybeCloseBarByClock (Coordinator.trader s) now) L
                    (maybeCloseBarByClock_disciplined _ _))).
  - destruct (Coordinator.entryInFlight s) as [[p|p qty]|] eqn:F; try exact L.
    destruct L as (LE & LF). rewrite F in LE.
    unfold Trader.handleSignal_afterEquity, Coordinator.absorb.
    destruct bal as [b|]; unfold locked; cbn; split; auto; try discriminate;
      try (intros _; apply LE; discriminate).
  - destruct (Coordinator.entryInFlight s) as [[p|p qty]|] eqn:F; try exact L.
    destruct L as (LE & LF).
    unfold Trader.handleSignal_afterOrder, Coordinator.absorb.
    destruct ok; unfold locked; cbn;
      try destruct (sendWebhook (traderConfig (Coordinator.trader s)));
      cbn; split; auto; try discriminate; intro N; contradiction.
  - destruct (Coordinator.flattenInFlight s) eqn:F; [|exact L].
    destruct L as (LE & LF).
    unfold Trader.flattenSettled.
    destruct ok; unfold locked; cbn; split; auto; discriminate.
Qed.

(** From the start of a session on, whatever is in flight holds its flag;
    so a quote or a beat never calls [getEquity] while an entry is in flight
    nor [closePosition] while a flatten is. *)
Lemma in_flight_is_exclusive cfg calc cid sym evs :
  let s := fst (Coordinator.run (Coordinator.initial cfg calc cid sym) evs) in
  locked s
  /\ forall q now,
       (Coordinator.entryInFlight s <> None
        -> existsb Coordinator.isGetEquity
             (snd (Trader.onQuote (Coordinator.trader s) q now)) = false)
       /\ (Coordinator.flattenInFlight s = true
           -> existsb Coordinator.isClosePosition
                (snd (Trader.onQuote (Coordinator.trader s) q now)) = false).
Proof.
  intro s.
  assert (L : locked s).
  { assert (G : forall evs0 s0, locked s0 -> locked (fst (Coordinator.run s0 evs0))).
    { induction evs0 as [|e r IH]; intros s0 L0; [exact L0|].
      rewrite run_cons. cbn [fst]. apply IH. now apply step_locked. }
    unfold s. apply G.
    split; simpl; [intro N; exfalso; apply N; reflexivity | discriminate]. }
  split; [exact L|]. intros q now.
  destruct (absorb_locked s (Trader.onQuote (Coordinator.trader s) q now) L
              (onQuote_disciplined _ _ _)) as (_ & A & B).
  split; assumption.
Qed.

End FlightFacts.

(** ** More on the ATR *)

Section AtrRange.
Local Open Scope Q_scope.

Lemma adjacentPairs_Forall {A} (P : A -> Prop) (l : list A) :
  Forall P l -> Forall (fun ab => P (fst ab) /\ P (snd ab)) (adjacentPairs l).
Proof.
  induction l as [|a [|b r] IH]; intro F; [constructor | constructor |].
  change (adjacentPairs (a :: b :: r)) with ((a, b) :: adjacentPairs (b :: r)).
  inversion F as [|? ? Pa F']; subst. inversion F' as [|? ? Pb _]; subst.
  constructor; [now split | now apply IH].
Qed.

Lemma calculateATR_short (c : Calculator) :
  (length (List.filter Calc.validOHLC (bars3min c)) < 15)%nat ->
  Calc.calculateATR c = NaN.
Proof.
  intro L. unfold Calc.calculateATR, Calc.period.
  destruct (length (bars3min c) <? 14 + 1)%nat; [reflexivity|].
  rewrite takeValid_firstn, List.filter_rev, length_firstn, length_rev.
  destruct (Nat.min (14 + 1) (length (List.filter Calc.validOHLC (bars3min c))) <? 14 + 1)%nat
    eqn:E; [reflexivity|].
  apply Nat.ltb_ge in E. lia.
Qed.

Lemma calculateATR64_short (c : F64.Calculator) :
  (length (List.filter F64.validOHLC (F64.bars3min c)) < 15)%nat ->
  F64.calculateATR c = PrimFloat.nan.
Proof.
  intro L. unfold F64.calculateATR, F64.period.
  destruct (length (F64.bars3min c) <? 14 + 1)%nat; [reflexivity|].
  rewrite takeValid64_firstn, List.filter_rev, length_firstn, length_rev.
  destruct (Nat.min (14 + 1) (length (List.filter F64.validOHLC (F64.bars3min c)))
            <? 14 + 1)%nat eqn:E; [reflexivity|].
  apply Nat.ltb_ge in E. lia.
Qed.

Lemma filter_valid64_Forall l :
  Forall (fun b => F64.validOHLC b = true) (List.filter F64.validOHLC l).
Proof.
  apply List.Forall_forall. intros b Hb. now apply List.filter_In in Hb.
Qed.

Lemma trueRanges64_notNegative l :
  Forall (fun b => F64.validOHLC b = true) l ->
  Forall (fun t => F64.notNegativeSF (FloatOps.Prim2SF t)) (F64.trueRanges l).
Proof.
  intro F. rewrite trueRanges64_pairs. apply Forall_map.
  eapply Forall_impl; [exact (adjacentPairs_Forall _ _ F)|].
  intros [a b] [Pa Pb]. now apply trueRange_notNegative.
Qed.

(** X1 — In binary64, [calculateATR] is [NaN] exactly when the history
    holds fewer than 15 bars whose open, high, low and close are all
    finite.  With 15 or more it is a number that is not negative.  The
    number need not be finite: fifteen bars with true ranges of 1e308 give
    [Infinity]. *)
Theorem atr_is_a_number_iff_fifteen_valid_bars (c : F64.Calculator) :
  let valid := List.filter F64.validOHLC (F64.bars3min c) in
  (PrimFloat.is_nan (F64.calculateATR c) = true <-> (length valid < 15)%nat)
  /\ ((15 <= length valid)%nat -> F64.notNegative (F64.calculateATR c))
  /\ F64.calculateATR F64.Histories.hugeRanges = PrimFloat.infinity.
Proof.
  intro valid.
  assert (N : (15 <= length valid)%nat -> F64.notNegative (F64.calculateATR c)).
  { intro L. destruct (calculateATR64_is_seed c L) as (_ & ->).
    apply notNegative_of_datum, div14_notNegative, sum_notNegative; [|exact Logic.I].
    apply trueRanges64_notNegative, Forall_drop, filter_valid64_Forall. }
  split; [|split; [exact N | vm_compute; reflexivity]].
  destruct (le_lt_dec 15 (length valid)) as [L|L].
  - destruct (N L) as (E & _). rewrite E. split; [discriminate | lia].
  - rewrite (calculateATR64_short c L). split; [intros _; exact L | reflexivity].
Qed.


End AtrRange.


(** ** The stored histories *)

Section HistoryFacts.
Context `{Env}.

Lemma pushCapped_length {A} cap (l : list A) x :
  (length l <= cap)%nat -> (length (pushCapped cap l x) <= cap)%nat.
Proof.
  intro L. unfold pushCapped.
  destruct (cap <? length (l ++ [x]))%nat eqn:E.
  - rewrite length_tl, length_app. simpl. lia.
  - apply Nat.ltb_ge in E. exact E.
Qed.

Lemma pushCapped_Forall {A} (P : A -> Prop) cap (l : list A) x :
  Forall P l -> P x -> Forall P (pushCapped cap l x).
Proof.
  intros F Px. unfold pushCapped.
  assert (F' : Forall P (l ++ [x])) by (apply Forall_app; split; [exact F | now constructor]).
  destruct (cap <? length (l ++ [x]))%nat; [|exact F'].
  destruct (l ++ [x]); [constructor | now inversion F'].
Qed.

Lemma normalizedDelta_whole prevClose bar :
  exists z : Z, Calc.normalizedDelta prevClose bar = Fin (inject_Z z).
Proof.
  unfold Calc.normalizedDelta, Calc.isFiniteOpt.
  assert (T : forall x, isFinite x = true -> exists z : Z, JS.trunc x = Fin (inject_Z z)).
  { intros [a|] F; [|discriminate]. eexists. reflexivity. }
  assert (V : isFinite (if match volume bar with Some v => isFinite v | None => false end
                        then volume bar ?? Fin 0 else Fin 0) = true).
  { destruct (volume bar) as [[v|]|]; reflexivity. }
  set (vol := if match volume bar with Some v => isFinite v | None => false end
              then volume bar ?? Fin 0 else Fin 0) in *.
  assert (S : isFinite
                (if isFinite prevClose && isFinite (close bar)
                 then (if (close bar >? prevClose)%js then vol
                       else if (close bar <? prevClose)%js then JS.neg vol else Fin 0)
                 else Fin 0) = true).
  { destruct vol; [|discriminate]. split_ifs; reflexivity. }
  destruct (delta bar) as [d|]; [destruct (isFinite d) eqn:D|]; auto.
Qed.

Lemma withDelta_whole prevClose bar :
  wholeDelta (Calc.withDelta (Calc.normalizedDelta prevClose bar) bar).
Proof.
  destruct (normalizedDelta_whole prevClose bar) as (z & E).
  exists z. simpl. now rewrite E.
Qed.

Lemma updateHigherTimeframeBars_length bar c :
  (length (bars15min c) <= 1000)%nat ->
  (length (bars15min (Calc.updateHigherTimeframeBars bar c)) <= 1000)%nat.
Proof.
  intro L. unfold Calc.updateHigherTimeframeBars, lastOf.
  destruct (last (bars15min c)) as [b|] eqn:E.
  - match goal with |- context [if ?a then _ else _] => destruct a end; simpl.
    + now apply pushCapped_length.
    + rewrite length_app. simpl.
      destruct (bars15min c) as [|x r]; [discriminate|].
      rewrite removelast_firstn_len, length_firstn. simpl in *. lia.
  - simpl. now apply pushCapped_length.
Qed.

Lemma generateSignal_histories c bar ms g :
  bars3min (fst (Calc.generateSignal c bar ms g)) = bars3min c
  /\ bars15min (fst (Calc.generateSignal c bar ms g)) = bars15min c.
Proof. unfold Calc.generateSignal. split_all; split; reflexivity. Qed.

Lemma evaluateFormingBar_histories c b ms acc now :
  bars3min (fst (fst (Calc.evaluateFormingBar c b ms acc now))) = bars3min c
  /\ bars15min (fst (fst (Calc.evaluateFormingBar c b ms acc now))) = bars15min c.
Proof. unfold Calc.evaluateFormingBar. split_all; split; reflexivity. Qed.

Lemma onTick_histories px now c :
  bars3min (fst (Calc.onTickForProtectiveStops px now c)) = bars3min c
  /\ bars15min (fst (Calc.onTickForProtectiveStops px now c)) = bars15min c.
Proof. unfold Calc.onTickForProtectiveStops. split_all; split; reflexivity. Qed.

(** What one bar close does to the histories. *)
Lemma processNewBar_histories c incoming ms :
  let c' := fst (fst (Calc.processNewBar c incoming ms)) in
  (bars3min c' = bars3min c /\ bars15min c' = bars15min c)
  \/ exists b,
       wholeDelta b
       /\ bars3min c' = pushCapped 2000 (bars3min c) b
       /\ bars15min c'
          = bars15min (Calc.updateHigherTimeframeBars b
                         (set_bars3min (pushCapped 2000 (bars3min c) b) c)).
Proof.
  unfold Calc.processNewBar.
  destruct (negb (isWarmUpProcessed c)); [left; split; reflexivity|].
  right.
  set (bar := Calc.withDelta _ incoming).
  set (c1 := set_bars3min _ c).
  set (c2 := Calc.updateHigherTimeframeBars bar c1).
  assert (E : bars3min c2 = pushCapped 2000 (bars3min c) bar)
    by (unfold c2; rewrite (proj1 (proj2 (updateHigherTimeframeBars_frame bar c1)));
        reflexivity).
  exists bar. split; [apply withDelta_whole|].
  destruct (negb (Calc.isInTradingSession c2 (timestamp incoming))); [now split|].
  destruct (Calc.checkExitConditions c2 bar); [now split|].
  match goal with
  | |- context [Calc.generateSignal c2 bar ?m ?g] =>
      pose proof (generateSignal_histories c2 bar m g) as (G1 & G2);
      destruct (Calc.generateSignal c2 bar m g) as [c3 s]
  end.
  simpl in *. rewrite G1, G2. split; [exact E | reflexivity].
Qed.

Lemma apply_withinCaps c op : withinCaps c -> withinCaps (Lifetime.apply c op).
Proof.
  intros (L3 & L15). unfold withinCaps.
  destruct op as [px now|incoming ms|formingBar ms accumulationTimeMs nowMs|d ts| | |a|bar tf|];
    simpl.
  - destruct (onTick_histories px now c) as (-> & ->). now split.
  - destruct (processNewBar_histories c incoming ms) as [(-> & ->)|(b & _ & -> & ->)];
      [now split|].
    split; [now apply pushCapped_length | now apply updateHigherTimeframeBars_length].
  - destruct (evaluateFormingBar_histories c formingBar ms accumulationTimeMs nowMs)
      as (-> & ->). now split.
  - now split.
  - now split.
  - now split.
  - now split.
  - unfold Calc.processWarmUpBar. destruct tf; simpl;
      (split; [try assumption | try assumption]); now apply pushCapped_length.
  - now split.
Qed.

Lemma apply_wholeDelta c op :
  Forall wholeDelta (bars3min c) -> Forall wholeDelta (bars3min (Lifetime.apply c op)).
Proof.
  intro F.
  destruct op as [px now|incoming ms|formingBar ms accumulationTimeMs nowMs|d ts| | |a|bar tf|];
    simpl.
  - now rewrite (proj1 (onTick_histories px now c)).
  - destruct (processNewBar_histories c incoming ms) as [(-> & _)|(b & W & -> & _)];
      [exact F | now apply pushCapped_Forall].
  - now rewrite (proj1 (evaluateFormingBar_histories c formingBar ms accumulationTimeMs nowMs)).
  - exact F.
  - exact F.
  - exact F.
  - exact F.
  - unfold Calc.processWarmUpBar. destruct tf; simpl; [|exact F].
    apply pushCapped_Forall; [exact F | apply withDelta_whole].
  - exact F.
Qed.

(** X3 — The calculator never lets its histories outgrow their caps: if the
    3-minute history holds at most 2000 bars and the higher-timeframe
    history at most 1000, they still do after any sequence of calls. *)
Theorem histories_stay_within_caps (c : Calculator) (ops : list Lifetime.Op) :
  withinCaps c -> withinCaps (Lifetime.applyAll c ops).
Proof.
  unfold Lifetime.applyAll. revert c.
  induction ops as [|op r IH]; intros c W; [exact W|].
  simpl. apply IH. now apply apply_withinCaps.
Qed.

(** X4 — Every bar the calculator stores in the 3-minute history, at
    warm-up or at a bar close, carries a finite whole-number delta, so the
    delta average reads a stored delta at every index and the
    close-difference fallback of [smaSignedDelta] is never taken. *)
Theorem stored_bars_carry_whole_delta (c : Calculator) (ops : list Lifetime.Op) :
  Forall wholeDelta (bars3min c) ->
  let c' := Lifetime.applyAll c ops in
  Forall wholeDelta (bars3min c')
  /\ forall i b, at_ (bars3min c') i = Some b ->
       exists z : Z, delta b = Some (Fin (inject_Z z))
                     /\ Calc.deltaAt (bars3min c') i = Fin (inject_Z z).
Proof.
  intros F c'.
  assert (F' : Forall wholeDelta (bars3min c')).
  { unfold c', Lifetime.applyAll. clear c'. revert c F.
    induction ops as [|op r IH]; intros c F; [exact F|].
    simpl. apply IH. now apply apply_wholeDelta. }
  split; [exact F'|].
  intros i b E. unfold Calc.deltaAt. rewrite E.
  assert (W : wholeDelta b).
  { unfold at_ in E. destruct (i <? 0)%Z; [discriminate|].
    rewrite Forall_lookup in F'. exact (F' _ _ E). }
  destruct W as (z & D). exists z. now rewrite D.
Qed.

End HistoryFacts.

Lemma histories_stay_within_caps_witness :
  withinCaps Cases.atCap
  /\ withinCaps (Lifetime.applyAll Cases.atCap Cases.twoMoreBars).
Proof.
  assert (W : withinCaps Cases.atCap)
    by (split; apply Nat.leb_le; vm_compute; reflexivity).
  split; [exact W | exact (histories_stay_within_caps _ _ W)].
Defined.

Lemma stored_bars_carry_whole_delta_witness :
  Forall wholeDelta (bars3min (newCalculator Sample.MNQ_DELTA_TREND_CONFIG))
  /\ Forall wholeDelta
       (bars3min (Lifetime.applyAll (newCalculator Sample.MNQ_DELTA_TREND_CONFIG)
                    Cases.barsWithoutDelta)).
Proof.
  assert (W : Forall wholeDelta (bars3min (newCalculator Sample.MNQ_DELTA_TREND_CONFIG)))
    by constructor.
  split; [exact W|].
  exact (proj1 (stored_bars_carry_whole_delta _ Cases.barsWithoutDelta W)).
Defined.

(** ** The delta average and the entry gates *)

Section SignalFacts.
Context `{Env}.
Local Open Scope Z_scope.

Lemma smaSignedDelta_short (c : Calculator) (n : Z) :
  Z.of_nat (length (bars3min c)) < n ->
  Calc.smaSignedDelta c n (Z.of_nat (length (bars3min c)) - 1) = NaN.
Proof.
  intro N. unfold Calc.smaSignedDelta.
  set (len := Z.of_nat (length (bars3min c))) in *.
  assert (L : 0 <= len) by (unfold len; lia).
  destruct (len - 1 <? 0) eqn:E0; [reflexivity|].
  apply Z.ltb_ge in E0.
  destruct (len - 1 - Z.max 0 (len - 1 - n + 1) + 1 <? n) eqn:E1; [reflexivity|].
  apply Z.ltb_ge in E1. lia.
Qed.

Lemma smaSignedDelta_needs (c : Calculator) (n : Z) :
  isFinite (Calc.smaSignedDelta c n (Z.of_nat (length (bars3min c)) - 1)) = true ->
  n <= Z.of_nat (length (bars3min c)).
Proof.
  intro F. destruct (Z_le_gt_dec n (Z.of_nat (length (bars3min c)))) as [L|L]; [exact L|].
  rewrite (smaSignedDelta_short c n) in F by lia. discriminate F.
Qed.

Lemma smaSignedDelta64_short (c : F64.Calculator) (n : Z) :
  Z.of_nat (length (F64.bars3min c)) < n ->
  F64.smaSignedDelta c n (Z.of_nat (length (F64.bars3min c)) - 1) = PrimFloat.nan.
Proof.
  intro N. unfold F64.smaSignedDelta.
  set (len := Z.of_nat (length (F64.bars3min c))) in *.
  assert (L : 0 <= len) by (unfold len; lia).
  destruct (len - 1 <? 0) eqn:E0; [reflexivity|].
  apply Z.ltb_ge in E0.
  destruct (len - 1 - Z.max 0 (len - 1 - n + 1) + 1 <? n) eqn:E1; [reflexivity|].
  apply Z.ltb_ge in E1. lia.
Qed.

(** X5 — In binary64, the signed-delta average over [n] bars, taken at the
    last stored bar as both signal generators take it, is [NaN] while the
    history holds fewer than [n] bars, and the generators then answer
    "Delta SMA not ready"; a finite average tells that [n] bars are there.
    With [n] bars there the average need not be finite: two stored deltas
    of 1e308 add up to [Infinity]. *)
Theorem delta_average_needs_enough_bars (c : F64.Calculator) (n : Z) :
  let len := Z.of_nat (length (F64.bars3min c)) in
  (len < n -> F64.smaSignedDelta c n (len - 1) = PrimFloat.nan)
  /\ (F64.isFinite (F64.smaSignedDelta c n (len - 1)) = true -> n <= len)
  /\ F64.smaSignedDelta F64.Histories.hugeDeltas 2 1 = PrimFloat.infinity.
Proof.
  intro len. split; [apply smaSignedDelta64_short|]. split; [|vm_compute; reflexivity].
  intro F. destruct (Z_le_gt_dec n len) as [L|L]; [exact L|].
  unfold len in *. rewrite (smaSignedDelta64_short c n) in F by lia. discriminate F.
Qed.

(** X6 — A bar-close entry is gated.  [generateSignal] answers buy only
    with a finite ATR above the minimum, a bar delta above the spike
    threshold, a bullish higher timeframe, the up-breakout gate open and,
    when the EMA filter is on, the long EMA gate open; sell is the mirror
    image.  An entry records the bar's timestamp and changes nothing else; a
    hold changes nothing; exit is never answered. *)
Theorem bar_close_entry_is_gated (c : Calculator) (bar : BarData) (ms : MarketState)
    (g : Calc.Gates) :
  let r := Calc.generateSignal c bar ms g in
  let d := delta bar ?? Fin 0 in
  let spike := Fin (deltaSpikeThreshold (config c) ?? 450%Q) in
  let gated :=
    isFinite (atr ms) = true
    /\ (atr ms >? Fin (minAtrToTrade (config c) ?? 0%Q))%js = true
    /\ Calc.sameTimestamp (lastEntryBarTimestamp c) (timestamp bar) = false
    /\ fst r = set_lastEntryBarTimestamp (Some (timestamp bar)) c in
  (signal (snd r) = buy ->
     gated /\ (d >? spike)%js = true /\ higherTimeframeTrend ms = bullish
     /\ Calc.gBrokeUp g = true
     /\ (useEmaFilter (config c) = true -> Calc.gPassLong g = true))
  /\ (signal (snd r) = sell ->
        gated /\ (d <? JS.neg spike)%js = true /\ higherTimeframeTrend ms = bearish
        /\ Calc.gBrokeDown g = true
        /\ (useEmaFilter (config c) = true -> Calc.gPassShort g = true))
  /\ (signal (snd r) = hold -> fst r = c)
  /\ signal (snd r) <> exit.
Proof.
  unfold Calc.generateSignal. cbv zeta.
  destruct (Calc.sameTimestamp (lastEntryBarTimestamp c) (timestamp bar)) eqn:T;
    [cbn; repeat split; discriminate|].
  destruct (isFinite (atr ms)) eqn:F;
    [|cbn; repeat split; discriminate].
  destruct (atr ms >? Fin (minAtrToTrade (config c) ?? 0%Q))%js eqn:A;
    [|cbn; repeat split; discriminate].
  cbn [andb negb].
  destruct (negb (isFinite (Calc.smaSignedDelta c _ _)));
    [cbn; repeat split; discriminate|].
  destruct (Calc.barCloseFade c (delta bar ?? Fin 0));
    [cbn; repeat split; discriminate|].
  destruct (delta bar ?? Fin 0 >? Fin (deltaSpikeThreshold (config c) ?? 450%Q))%js eqn:S1;
  destruct (delta bar ?? Fin 0 <? JS.neg (Fin (deltaSpikeThreshold (config c) ?? 450%Q)))%js
    eqn:S2;
  destruct (higherTimeframeTrend ms) eqn:TR;
  destruct (Calc.gBrokeUp g) eqn:BU; destruct (Calc.gBrokeDown g) eqn:BD;
  destruct (useEmaFilter (config c)) eqn:UE;
  destruct (Calc.gPassLong g) eqn:PL; destruct (Calc.gPassShort g) eqn:PS;
  cbn [andb negb Calc.isTrend]; rewrite ?andb_true_r, ?andb_false_r;
  repeat match goal with
         | |- context [if ?b then _ else _] => destruct b
         end;
  cbn; repeat split; try discriminate; try reflexivity; try congruence.
Qed.

Lemma evaluateFormingBar_cooldown c fb ms acc now :
  now - lastIntraBarSignalTime c < 2000 ->
  signal (snd (Calc.evaluateFormingBar c fb ms acc now)) = hold.
Proof.
  intro LT. unfold Calc.evaluateFormingBar.
  repeat match goal with
         | |- context [if ?b then (_, _, Calc.holdSignal ?r) else _] =>
             lazymatch r with
             | Cooldown => fail
             | _ => destruct b; [reflexivity|]
             end
         end.
  destruct (now - lastIntraBarSignalTime c <? 2000) eqn:CD;
    [reflexivity | apply Z.ltb_ge in CD; lia].
Qed.

(** X7 — An intra-bar signal is gated and rate-limited.
    [evaluateFormingBar] answers other than hold only after warm-up, with
    no position open, inside the session, with the bar accumulated for the
    minimum time and at least 2000 ms after the previous intra-bar signal;
    it then records the time of the signal and changes nothing else.  A hold
    leaves the calculator as it was.  After a signal at [now], every
    evaluation less than 2000 ms later holds. *)
Theorem forming_bar_signal_is_gated (c : Calculator) (fb : BarData) (ms : MarketState)
    (acc now : Z) :
  let r := Calc.evaluateFormingBar c fb ms acc now in
  let c' := fst (fst r) in
  (signal (snd r) <> hold ->
     isWarmUpProcessed c = true
     /\ Calc.hasPosition c = false
     /\ Calc.isInTradingSession c (timestamp fb) = true
     /\ intraBarMinAccumulationMs (config c) ?? 3000 <= acc
     /\ 2000 <= now - lastIntraBarSignalTime c
     /\ c' = set_lastIntraBarSignalTime now c
     /\ holdsUntil c' (now + 2000))
  /\ (signal (snd r) = hold -> c' = c).
Proof.
  unfold Calc.evaluateFormingBar.
  destruct (isWarmUpProcessed c) eqn:W; [|cbn; split; [intro N; now elim N | reflexivity]].
  destruct (Calc.hasPosition c) eqn:P; [cbn; split; [intro N; now elim N | reflexivity]|].
  destruct (Calc.isInTradingSession c (timestamp fb)) eqn:S;
    [|cbn; split; [intro N; now elim N | reflexivity]].
  cbn [negb].
  destruct (acc <? intraBarMinAccumulationMs (config c) ?? 3000) eqn:A;
    [cbn; split; [intro N; now elim N | reflexivity]|].
  match goal with
  | |- context [if ?b then (c, ms, Calc.holdSignal (NeedConfirms _)) else _] =>
      destruct b; [cbn; split; [intro N; now elim N | reflexivity]|]
  end.
  destruct (now - lastIntraBarSignalTime c <? 2000) eqn:CD;
    [cbn; split; [intro N; now elim N | reflexivity]|].
  match goal with
  | |- context [if ?b then (c, ms, Calc.holdSignal EmaNotReady) else _] =>
      destruct b; [cbn; split; [intro N; now elim N | reflexivity]|]
  end.
  match goal with
  | |- context [Calc.generateSignalForFormingBar c fb ?m ?g] =>
      generalize (Calc.generateSignalForFormingBar c fb m g)
  end.
  intro s. cbn [fst snd].
  apply Z.ltb_ge in A. apply Z.ltb_ge in CD.
  destruct (signal s) eqn:Sg; cbn [Calc.isHold negb]; split;
    try discriminate;
    try (intros _; reflexivity);
    try (intro N; now elim N).
  all: intros _; repeat split; try assumption; try reflexivity.
  all: intros fb' ms' acc' now' LT; apply evaluateFormingBar_cooldown;
    cbn [lastIntraBarSignalTime set_lastIntraBarSignalTime]; lia.
Qed.

End SignalFacts.


(** ** Order of the protective exits, the entry stop, the position size *)

Section ProtectiveFacts.
Context `{Env}.
Local Open Scope Z_scope.

(** X8 — On a tick the hard stop comes first: a price at or through the
    stop answers [hitStop] and leaves the calculator untouched, whatever
    the state of the trail.  Without a position the answer is [none].
    Before [noTrailBeforeMs] the trail neither arms nor moves nor fires.  And
    [hitTrail] is answered only with the stop not reached, the grace period
    over, a positive trail seed, the trail armed and the price at or through
    the trailing level. *)
Theorem hard_stop_comes_first (c : Calculator) (px : number) (now : Z) :
  let r := Calc.onTickForProtectiveStops px now c in
  (forall p, currentPosition c = Some p -> stopHit p px = true -> r = (c, Calc.hitStop))
  /\ (currentPosition c = None -> r = (c, Calc.none))
  /\ (now < noTrailBeforeMs c -> fst r = c /\ snd r <> Calc.hitTrail)
  /\ (snd r = Calc.hitTrail ->
        exists p a,
          currentPosition c = Some p
          /\ stopHit p px = false
          /\ noTrailBeforeMs c <= now
          /\ atrSeedForTrail p = Fin a /\ (0 < a)%Q
          /\ trailArmed (fst r) = true
          /\ trailHit (fst r) p px = true).
Proof.
  cbv zeta. unfold Calc.onTickForProtectiveStops.
  destruct (currentPosition c) as [p|] eqn:P; [|settle].
  destruct (isFinite px) eqn:F; cbn [negb].
  2: { assert (S : stopHit p px = false)
         by (destruct px; [discriminate|]; unfold stopHit;
             destruct (direction p), (stopLoss p); reflexivity).
       settle. }
  change (match direction p with
          | long => (px <=? stopLoss p)%js
          | short => (px >=? stopLoss p)%js
          end) with (stopHit p px).
  destruct (stopHit p px) eqn:S; [settle|].
  destruct (now <? noTrailBeforeMs c) eqn:G; [settle|].
  apply Z.ltb_ge in G.
  destruct (atrSeedForTrail p) as [a|] eqn:A; cbn [isFinite negb orb]; [|settle].
  destruct (Fin a <=? Fin 0)%js eqn:Z0; [settle|].
  assert (Pa : (0 < a)%Q).
  { unfold JS.leb, JS.cmp2 in Z0. apply Qle_bool_false in Z0. exact Z0. }
  split; [intros p0 E X; congruence|].
  split; [discriminate|].
  split; [lia|].
  intro R. exists p, a.
  split; [reflexivity|]. split; [exact S|]. split; [exact G|].
  split; [first [reflexivity | exact A]|]. split; [exact Pa|].
  revert R. unfold trailHit.
  destruct (direction p);
    repeat (cbn [fst snd trailArmed trailingStopLevel set_trailArmed set_trailingStopLevel];
            match goal with
            | |- context [if ?b then _ else _] => destruct b eqn:?
            end);
    cbn [fst snd trailArmed trailingStopLevel set_trailArmed set_trailingStopLevel];
    intro R; try discriminate R; split; try reflexivity; try assumption.
Qed.

Lemma Qmin'_cases (a b : Q) : JS.Qmin' a b = a \/ JS.Qmin' a b = b.
Proof. unfold JS.Qmin'. destruct (Qle_bool a b); auto. Qed.

Lemma Qmax'_cases (a b : Q) : JS.Qmax' a b = a \/ JS.Qmax' a b = b.
Proof. unfold JS.Qmax'. destruct (Qle_bool a b); auto. Qed.


Lemma calculatePositionSize_bounds (c : Calculator) (px : number) (a bal : Q) :
  let m := (atrStopLossMultiplier (config c) ?? 0.75)%Q in
  let cq := (contractQuantity (config c) ?? 1)%Q in
  exists q,
    Calc.calculatePositionSize c px (Fin a) (Fin bal) = Fin q
    /\ (a * m <= 0 -> q = 1)%Q
    /\ (1 <= cq -> 1 <= q <= cq)%Q.
Proof.
  intros m cq. unfold Calc.calculatePositionSize. fold m. fold cq.
  cbn [JS.mul JS.lift2 isFinite negb orb].
  unfold JS.leb, JS.cmp2.
  destruct (Qle_bool (a * m) 0) eqn:R.
  - apply Qle_bool_iff in R. exists 1%Q.
    split; [reflexivity|]. split; [reflexivity|].
    intro C1. split; [apply Qle_refl | exact C1].
  - apply Qle_bool_false in R.
    unfold JS.div.
    destruct (Qeq_bool (a * m) 0) eqn:Z0;
      [apply Qeq_bool_iff in Z0; rewrite Z0 in R; exfalso; revert R; apply Qlt_irrefl|].
    cbn [JS.floor JS.lift1 JS.max JS.min JS.lift2].
    set (fl := inject_Z (Qfloor (bal * 0.01 / (a * m)))).
    exists (JS.Qmin' (JS.Qmax' 1 fl) cq).
    split; [reflexivity|].
    split; [intro N; exfalso; apply (Qlt_irrefl 0); eapply Qlt_le_trans; eassumption|].
    intro C1. split; [|apply Qmin'_r].
    destruct (Qmin'_cases (JS.Qmax' 1 fl) cq) as [-> | ->]; [apply Qmax'_l | exact C1].
Qed.

(** X10 — For a finite ATR and a finite balance [calculatePositionSize]
    gives a number.  It is 1 when the risk per contract is not positive.
    With a contract cap of at least 1 it lies between 1 and the cap. *)
Theorem position_size_is_bounded (c : Calculator) (px : number) (a bal : Q) :
  let m := (atrStopLossMultiplier (config c) ?? 0.75)%Q in
  let cq := (contractQuantity (config c) ?? 1)%Q in
  exists q,
    Calc.calculatePositionSize c px (Fin a) (Fin bal) = Fin q
    /\ (a * m <= 0 -> q = 1)%Q
    /\ (1 <= cq -> 1 <= q <= cq)%Q.
Proof. exact (calculatePositionSize_bounds c px a bal). Qed.

End ProtectiveFacts.


(** ** The bars the trader closes *)

Section BarFacts.
Context `{Env}.
Local Open Scope Z_scope.

Lemma closedBars_app fx1 fx2 : closedBars (fx1 ++ fx2) = closedBars fx1 ++ closedBars fx2.
Proof. apply omap_app. Qed.

Lemma closedBars_cons b fx : closedBars (BarClosed b :: fx) = b :: closedBars fx.
Proof. reflexivity. Qed.

Lemma handleSignal_closes_nothing t s bar : closedBars (snd (Trader.handleSignal t s bar)) = [].
Proof. destruct (handleSignal_effects t s bar) as [-> | (p & ->)]; reflexivity. Qed.

Lemma intraBarCheck_closes_nothing t px now :
  closedBars (snd (Trader.intraBarCheck t px now)) = [].
Proof. destruct (intraBarCheck_effects t px now) as [-> | (p & ->)]; reflexivity. Qed.

Lemma protectiveExits_closes_nothing t px now t' fx :
  Trader.protectiveExits t px now = Some (t', fx) -> closedBars fx = [].
Proof. intro P. destruct (protectiveExits_effects _ _ _ _ _ P) as [-> | ->]; reflexivity. Qed.

(** [closeBarAndProcess] closes at most one bar, the open one. *)
Lemma closeBarAndProcess_bars t :
  (Trader.closeBarAndProcess t = (t, []))
  \/ exists start o h l cq,
       barStartMs t = Some start /\ barOpenPx t = Some o /\ barHighPx t = Some h
       /\ barLowPx t = Some l /\ lastPriceByContract t !! contractId t = Some (Fin cq)
       /\ closedBars (snd (Trader.closeBarAndProcess t))
          = [closedBarOf t start o h l (Fin cq)]
       /\ aggregator (fst (Trader.closeBarAndProcess t)) = afterClose t (Fin cq)
       /\ identity (fst (Trader.closeBarAndProcess t)) = identity t.
Proof.
  destruct (closeBarAndProcess_cases t)
    as [E | (start & o & h & l & cq & t' & fx & Es & Eo & Eh & El & Ep & E & A & I)];
    [now left|].
  right. exists start, o, h, l, cq.
  rewrite E. cbn [fst snd]. repeat split; try assumption.
  revert E. unfold Trader.closeBarAndProcess. rewrite Es, Eo, Eh, El, Ep.
  destruct (Calc.processNewBar _ _ _) as [[calc2 ms] s].
  match goal with
  | |- context [if ?b then Trader.handleSignal ?t2 ?s0 ?cb else _] =>
      pose proof (handleSignal_closes_nothing t2 s0 cb) as HS;
      destruct b; [destruct (Trader.handleSignal t2 s0 cb) as [t3 fx3]|]
  end; intro E; injection E as _ <-; cbn [snd] in *.
  - rewrite closedBars_cons, HS. reflexivity.
  - reflexivity.
Qed.


Lemma onQuote_bars t q now :
  accepted t q ->
  closedBars (snd (Trader.onQuote t q now))
  = closedBars (snd (Trader.bucketing t (contractId t) (lastPrice q) now)).
Proof.
  intros (R & C & F). unfold Trader.onQuote.
  rewrite R, C, String.eqb_refl, F. cbn [negb].
  destruct (Trader.bucketing t (contractId t) (lastPrice q) now) as [t1 fx1].
  cbn [snd].
  destruct (Trader.protectiveExits _ _ _) as [[t5 fx2]|] eqn:P; [|reflexivity].
  apply protectiveExits_closes_nothing in P.
  pose proof (intraBarCheck_closes_nothing t5 (lastPrice q) now) as I.
  destruct (Trader.intraBarCheck t5 (lastPrice q) now) as [t6 fx3].
  cbn [snd] in *. rewrite !closedBars_app, P, I, !app_nil_r. reflexivity.
Qed.

(** The three ways the bucket bookkeeping of a tick can go. *)
Lemma bucketing_cases t cid px now :
  let b := now / Trader.barStepMs * Trader.barStepMs in
  (barStartMs t = None
   /\ Trader.bucketing t cid px now
      = (Trader.zeroAccumulators cid (Trader.openBucket b px now t), []))
  \/ (exists start,
        barStartMs t = Some start /\ start < b
        /\ Trader.bucketing t cid px now
           = (Trader.rollOver b px now cid (fst (Trader.closeBarAndProcess t)),
              snd (Trader.closeBarAndProcess t)))
  \/ (exists start,
        barStartMs t = Some start /\ b <= start
        /\ Trader.bucketing t cid px now
           = (t |> set_barHighPx (Some (JS.max (barHighPx t ?? Fin 0) px))
                |> set_barLowPx (Some (JS.min (barLowPx t ?? Fin 0) px))
                |> set_liveBarHigh (Some (JS.max (liveBarHigh t ?? Fin 0) px))
                |> set_liveBarLow (Some (JS.min (liveBarLow t ?? Fin 0) px)),
              [])).
Proof.
  intro b. unfold Trader.bucketing. fold b.
  destruct (barStartMs t) as [start|]; [|left; split; reflexivity].
  right. destruct (start <? b) eqn:E.
  - apply Z.ltb_lt in E. left. exists start.
    destruct (Trader.closeBarAndProcess t) as [tc fx].
    split; [reflexivity|]. split; [exact E | reflexivity].
  - apply Z.ltb_ge in E. right. exists start.
    split; [reflexivity|]. split; [exact E | reflexivity].
Qed.

(** What one event does to the aggregator and which bars it closes. *)
Lemma step_cases s e :
  let t := Coordinator.trader s in
  let r := Coordinator.step s e in
  let t' := Coordinator.trader (fst r) in
  identity t' = identity t
  /\ ((aggregator t' = aggregator t /\ closedBars (snd r) = [])
      \/ (exists q now,
            e = Coordinator.Quote q now /\ accepted t q
            /\ aggregator t'
               = aggregator
                   (Trader.accumulate
                      (fst (Trader.bucketing t (contractId t) (lastPrice q) now))
                      (contractId t) (lastPrice q) (quoteVolume q ?? Fin 0) now)
            /\ closedBars (snd r)
               = closedBars (snd (Trader.bucketing t (contractId t) (lastPrice q) now)))
      \/ (exists now start lq,
            e = Coordinator.Heartbeat now
            /\ barStartMs t = Some start
            /\ start < now / Trader.barStepMs * Trader.barStepMs
            /\ lastPriceByContract t !! contractId t = Some (Fin lq)
            /\ aggregator t'
               = aggregator
                   (Trader.rollOver (now / Trader.barStepMs * Trader.barStepMs) (Fin lq) now
                      (contractId t) (fst (Trader.closeBarAndProcess t)))
            /\ closedBars (snd r) = closedBars (snd (Trader.closeBarAndProcess t)))).
Proof.
  intros t r t'. subst r t'. destruct e as [q now|now|bal|ok now|ok];
    unfold Coordinator.step.
  - unfold Coordinator.absorb. cbn [fst snd Coordinator.trader].
    destruct (accepted_dec t q) as [A|N].
    + destruct (onQuote_aggregator t q now A) as (Ag & I).
      split; [exact I|]. right. left. exists q, now.
      repeat split; try apply A; [exact Ag | now apply onQuote_bars].
    + fold t. rewrite (onQuote_rejected t q now N). cbn [fst snd].
      split; [reflexivity|]. left. split; reflexivity.
  - unfold Coordinator.absorb. cbn [fst snd Coordinator.trader]. fold t.
    unfold Trader.maybeCloseBarByClock.
    destruct (negb (running t)); [split; [reflexivity | left; split; reflexivity]|].
    destruct (barStartMs t) as [start|] eqn:Es;
      [|split; [reflexivity | left; split; reflexivity]].
    destruct (start <? _) eqn:E; [|split; [reflexivity | left; split; reflexivity]].
    apply Z.ltb_lt in E.
    destruct (lastPriceByContract t !! contractId t) as [[lq|]|] eqn:Ep;
      try (split; [reflexivity | left; split; reflexivity]).
    assert (I : identity (fst (Trader.closeBarAndProcess t)) = identity t).
    { destruct (closeBarAndProcess_bars t) as [-> | (? & ? & ? & ? & ? & _ & _ & _ & _ & _ & _ & _ & I)];
        [reflexivity | exact I]. }
    destruct (Trader.closeBarAndProcess t) as [tc fx]. cbn [fst snd] in *.
    split; [exact I|].
    right. right. exists now, start, lq. repeat split; assumption || reflexivity.
  - destruct (Coordinator.entryInFlight s) as [[p|p qty]|];
      try (split; [reflexivity | left; split; reflexivity]).
    unfold Coordinator.absorb. cbn [fst snd Coordinator.trader]. fold t.
    destruct (handleSignal_afterEquity_aggregator t p bal) as (A & I).
    split; [exact I|]. left. split; [exact A|].
    unfold Trader.handleSignal_afterEquity. destruct bal; reflexivity.
  - destruct (Coordinator.entryInFlight s) as [[p|p qty]|];
      try (split; [reflexivity | left; split; reflexivity]).
    unfold Coordinator.absorb. cbn [fst snd Coordinator.trader]. fold t.
    destruct (handleSignal_afterOrder_aggregator t p qty ok now) as (A & I).
    split; [exact I|]. left. split; [exact A|].
    unfold Trader.handleSignal_afterOrder.
    destruct ok; [destruct (sendWebhook (traderConfig t))|]; reflexivity.
  - destruct (Coordinator.flattenInFlight s);
      [|split; [reflexivity | left; split; reflexivity]].
    cbn [fst snd Coordinator.trader]. fold t.
    destruct (flattenSettled_aggregator t ok) as (A & I).
    split; [exact I|]. left. split; [exact A|].
    unfold Trader.flattenSettled.
    destruct ok; [destruct (sendWebhook (traderConfig t))|]; reflexivity.
Qed.


Lemma envelope_ext t t' :
  aggregator t' = aggregator t -> identity t' = identity t -> envelope t -> envelope t'.
Proof.
  intros A I E.
  assert (A1 := f_equal aBar A). assert (A2 := f_equal aBarStartMs A).
  assert (A3 := f_equal aLastPrice A).
  assert (I1 : contractId t' = contractId t) by exact (f_equal (fun i => snd (fst (fst i))) I).
  cbn in A1, A2, A3. injection A1 as Eo Eh El.
  unfold envelope. rewrite A2, Eo, Eh, El, A3, I1. exact E.
Qed.

Lemma accumulate_bar t cid px cum now :
  let t4 := Trader.accumulate t cid px cum now in
  barOpenPx t4 = barOpenPx t /\ barHighPx t4 = barHighPx t /\ barLowPx t4 = barLowPx t
  /\ barStartMs t4 = barStartMs t /\ contractId t4 = contractId t
  /\ lastPriceByContract t4 !! cid = Some px.
Proof.
  unfold Trader.accumulate.
  destruct (lastCumVolByContract t !! cid) as [pc|];
    [destruct (cum >=? pc)%js|]; cbn; rewrite lookup_insert_eq; auto 10.
Qed.

Lemma closeBarAndProcess_contractId t :
  contractId (fst (Trader.closeBarAndProcess t)) = contractId t.
Proof.
  destruct (closeBarAndProcess_bars t)
    as [-> | (? & ? & ? & ? & ? & _ & _ & _ & _ & _ & _ & _ & I)]; [reflexivity|].
  exact (f_equal (fun i => snd (fst (fst i))) I).
Qed.

Lemma tick_envelope t x cum now :
  envelope t ->
  envelope (Trader.accumulate (fst (Trader.bucketing t (contractId t) (Fin x) now))
              (contractId t) (Fin x) cum now).
Proof.
  intro E.
  set (t1 := fst (Trader.bucketing t (contractId t) (Fin x) now)).
  destruct (accumulate_bar t1 (contractId t) (Fin x) cum now) as (Ao & Ah & Al & As & Ac & Ap).
  assert (C1 : contractId t1 = contractId t)
    by exact (f_equal (fun i => snd (fst (fst i)))
                (bucketing_identity t (contractId t) (Fin x) now)).
  unfold envelope. rewrite Ao, Ah, Al, As, Ac, C1, Ap. clear Ao Ah Al As Ac Ap C1.
  subst t1.
  destruct (bucketing_cases t (contractId t) (Fin x) now)
    as [(N & ->) | [(start & S & L & ->) | (start & S & L & ->)]]; cbn [fst].
  - intros _. exists x, x, x, x. cbn.
    repeat split; try reflexivity; apply Qle_refl.
  - intros _. exists x, x, x, x. cbn.
    repeat split; try reflexivity; apply Qle_refl.
  - cbn. intros _.
    destruct E as (o & h & l & p & Eo & Eh & El & Ep & (Lo & Ho) & (Lp & Hp));
      [rewrite S; discriminate|].
    rewrite Eo, Eh, El. cbn.
    exists o, (JS.Qmax' h x), (JS.Qmin' l x), x.
    repeat split; try reflexivity.
    + eapply Qle_trans; [apply Qmin'_l | exact Lo].
    + eapply Qle_trans; [exact Ho | apply Qmax'_l].
    + apply Qmin'_r.
    + apply Qmax'_r.
Qed.

Lemma closeBarAndProcess_wellFormed t :
  envelope t -> Forall wellFormedBar (closedBars (snd (Trader.closeBarAndProcess t))).
Proof.
  intro E.
  destruct (closeBarAndProcess_bars t)
    as [-> | (start & o & h & l & cq & Es & Eo & Eh & El & Ep & -> & _)]; [constructor|].
  destruct E as (o' & h' & l' & p' & Eo' & Eh' & El' & Ep' & Lo & Lp);
    [rewrite Es; discriminate|].
  constructor; [|constructor].
  exists o', h', l', p'. cbn. repeat split; try congruence; try apply Lo; try apply Lp.
Qed.

Lemma step_envelope s e :
  envelope (Coordinator.trader s) ->
  envelope (Coordinator.trader (fst (Coordinator.step s e)))
  /\ Forall wellFormedBar (closedBars (snd (Coordinator.step s e))).
Proof.
  intro E.
  destruct (step_cases s e)
    as (I & [(A & ->) | [(q & now & -> & Acc & A & ->)
                        | (now & start & lq & -> & Es & L & Ep & A & ->)]]).
  - split; [now apply (envelope_ext _ _ A I) | constructor].
  - destruct Acc as (_ & _ & F).
    destruct (lastPrice q) as [x|] eqn:Px; [|discriminate].
    split.
    + refine (envelope_ext _ _ A _ (tick_envelope _ x _ now E)).
      rewrite I. symmetry. rewrite accumulate_identity. apply bucketing_identity.
    + destruct (bucketing_cases (Coordinator.trader s) (contractId (Coordinator.trader s))
                  (Fin x) now)
        as [(N & ->) | [(st & S & Lt & ->) | (st & S & Lt & ->)]]; cbn [snd];
        [constructor | now apply closeBarAndProcess_wellFormed | constructor].
  - split; [|now apply closeBarAndProcess_wellFormed].
    remember (Coordinator.trader (fst (Coordinator.step s (Coordinator.Heartbeat now))))
      as t' eqn:Et. clear Et.
    assert (Ic : contractId t' = contractId (Coordinator.trader s))
      by exact (f_equal (fun i => snd (fst (fst i))) I).
    assert (A1 := f_equal aBar A). assert (A2 := f_equal aBarStartMs A).
    assert (A3 := f_equal aLastPrice A).
    cbn in A1, A2, A3. injection A1 as Eo Eh El.
    assert (Lp : lastPriceByContract (fst (Trader.closeBarAndProcess (Coordinator.trader s)))
                 = lastPriceByContract (Coordinator.trader s)).
    { destruct (closeBarAndProcess_bars (Coordinator.trader s))
        as [-> | (? & ? & ? & ? & ? & _ & _ & _ & _ & _ & _ & Ac & _)]; [reflexivity|].
      exact (f_equal aLastPrice Ac). }
    unfold envelope. rewrite Eo, Eh, El, A3, Ic, Lp, Ep. intros _.
    exists lq, lq, lq, lq. repeat split; try reflexivity; apply Qle_refl.
Qed.

(** X12 — Every bar the trader closes, from the start of a session on, is
    well formed: its open, high, low and close are finite numbers, and the
    open and the close lie between the low and the high. *)
Theorem closed_bars_are_well_formed (cfg : StrategyConfig) (calc : Calculator)
    (cid sym : string) (evs : list Coordinator.Event) :
  Forall wellFormedBar
    (closedBars (snd (Coordinator.run (Coordinator.initial cfg calc cid sym) evs))).
Proof.
  assert (G : forall evs0 s0, envelope (Coordinator.trader s0) ->
                Forall wellFormedBar (closedBars (snd (Coordinator.run s0 evs0)))).
  { induction evs0 as [|e r IH]; intros s0 E0; [constructor|].
    rewrite run_cons. cbn [snd]. rewrite closedBars_app.
    destruct (step_envelope s0 e E0) as (E1 & W).
    apply Forall_app. split; [exact W | now apply IH]. }
  apply G. intro N. exfalso. apply N. reflexivity.
Qed.


(** *** Buckets *)

Lemma bucketNotBefore_trans a b c :
  bucketNotBefore a b -> bucketNotBefore b c -> bucketNotBefore a c.
Proof. destruct a, b, c; simpl; try tauto; lia. Qed.

Lemma bucket_onGrid now : onGrid (Some (now / Trader.barStepMs * Trader.barStepMs)).
Proof. unfold onGrid, Trader.barStepMs. apply Z_mod_mult. Qed.

Lemma closeBarAndProcess_stamp t start :
  barStartMs t = Some start ->
  closedBars (snd (Trader.closeBarAndProcess t)) = []
  \/ exists bar,
       closedBars (snd (Trader.closeBarAndProcess t)) = [bar]
       /\ timestamp bar = toISOString (start + Trader.barStepMs - 1).
Proof.
  intro S.
  destruct (closeBarAndProcess_bars t)
    as [-> | (st & o & h & l & cq & Es & _ & _ & _ & _ & -> & _)]; [now left|].
  right. eexists. split; [reflexivity|]. cbn. congruence.
Qed.

Lemma step_bucket s e :
  let bs := barStartMs (Coordinator.trader s) in
  let bs' := barStartMs (Coordinator.trader (fst (Coordinator.step s e))) in
  let bars := closedBars (snd (Coordinator.step s e)) in
  (onGrid bs -> onGrid bs')
  /\ bucketNotBefore bs bs'
  /\ (bars = []
      \/ exists b b' bar,
           bs = Some b /\ bs' = Some b' /\ b < b' /\ bars = [bar]
           /\ timestamp bar = toISOString (b + Trader.barStepMs - 1)).
Proof.
  intros bs bs' bars. subst bs bs' bars.
  destruct (step_cases s e)
    as (I & [(A & ->) | [(q & now & -> & Acc & A & ->)
                        | (now & start & lq & -> & Es & L & Ep & A & ->)]]).
  - rewrite (f_equal aBarStartMs A : barStartMs _ = barStartMs _).
    split; [auto|]. split; [|now left].
    destruct (barStartMs (Coordinator.trader s)); simpl; [lia | exact Logic.I].
  - rewrite (f_equal aBarStartMs A : barStartMs _ = barStartMs _).
    rewrite (proj1 (proj2 (proj2 (proj2 (accumulate_bar _ _ _ _ _))))).
    destruct (bucketing_cases (Coordinator.trader s) (contractId (Coordinator.trader s))
                (lastPrice q) now)
      as [(N & ->) | [(st & S & Lt & ->) | (st & S & Lt & ->)]]; cbn [fst snd].
    + rewrite N. cbn. split; [intros _; apply bucket_onGrid|]. split; [exact Logic.I | now left].
    + rewrite S. cbn [barStartMs Trader.rollOver Trader.openBucket Trader.zeroAccumulators
                     set_barStartMs set_barOpenPx set_barHighPx set_barLowPx set_liveBarOpen
                     set_liveBarHigh set_liveBarLow set_liveBarStartMs set_lastIntraBarCheckMs
                     set_enteredBarStartMs set_calculator set_volInBarByContract
                     set_signedVolInBarByContract].
      split; [intros _; apply bucket_onGrid|]. split; [simpl; lia|].
      destruct (closeBarAndProcess_stamp _ _ S) as [-> | (bar & -> & T)]; [now left|].
      right. exists st, (now / Trader.barStepMs * Trader.barStepMs), bar.
      repeat split; assumption || reflexivity.
    + cbn. rewrite S. split; [auto|]. split; [simpl; lia | now left].
  - rewrite (f_equal aBarStartMs A : barStartMs _ = barStartMs _).
    rewrite Es. cbn [aggregator aBarStartMs barStartMs Trader.rollOver Trader.openBucket
                     Trader.zeroAccumulators
                     set_barStartMs set_barOpenPx set_barHighPx set_barLowPx set_liveBarOpen
                     set_liveBarHigh set_liveBarLow set_liveBarStartMs set_lastIntraBarCheckMs
                     set_enteredBarStartMs set_calculator set_volInBarByContract
                     set_signedVolInBarByContract].
    split; [intros _; apply bucket_onGrid|]. split; [simpl; lia|].
    destruct (closeBarAndProcess_stamp _ _ Es) as [-> | (bar & -> & T)]; [now left|].
    right. exists start, (now / Trader.barStepMs * Trader.barStepMs), bar.
    repeat split; assumption || reflexivity.
Qed.

Lemma run_buckets evs s :
  onGrid (barStartMs (Coordinator.trader s)) ->
  exists starts : list Z,
    timestamp <$> closedBars (snd (Coordinator.run s evs))
    = (fun st => toISOString (st + Trader.barStepMs - 1)) <$> starts
    /\ Forall (fun st => st mod Trader.barStepMs = 0) starts
    /\ StronglySorted Z.lt starts
    /\ Forall (fun st => bucketNotBefore (barStartMs (Coordinator.trader s)) (Some st)) starts.
Proof.
  revert s. induction evs as [|e r IH]; intros s G.
  - exists []. repeat split; constructor.
  - rewrite run_cons. cbn [snd]. rewrite closedBars_app, fmap_app.
    destruct (step_bucket s e) as (G1 & NB & C).
    destruct (IH _ (G1 G)) as (starts & T & Gr & So & Lo).
    destruct C as [-> | (b & b' & bar & Eb & Eb' & Lt & -> & Tb)].
    + exists starts. repeat split; try assumption.
      eapply Forall_impl; [exact Lo|].
      intros st X. eapply bucketNotBefore_trans; eassumption.
    + exists (b :: starts). rewrite Eb in *. rewrite Eb' in *.
      assert (Lb : Forall (fun st => b < st) starts).
      { eapply Forall_impl; [exact Lo|]. simpl. intros st X. lia. }
      repeat split.
      * cbn. rewrite Tb, T. reflexivity.
      * constructor; [exact G | exact Gr].
      * constructor; [exact So | exact Lb].
      * constructor; [simpl; lia|].
        eapply Forall_impl; [exact Lb|]. simpl. intros st X. lia.
Qed.

(** X11 — From the start of a session on, every bucket is closed at most
    once and in time order: the bars closed carry as timestamps the last
    millisecond of buckets whose starts lie on the 3-minute grid and
    increase strictly. *)
Theorem buckets_close_once_in_order (cfg : StrategyConfig) (calc : Calculator)
    (cid sym : string) (evs : list Coordinator.Event) :
  exists starts : list Z,
    timestamp <$> closedBars (snd (Coordinator.run (Coordinator.initial cfg calc cid sym) evs))
    = (fun st => toISOString (st + Trader.barStepMs - 1)) <$> starts
    /\ Forall (fun st => st mod Trader.barStepMs = 0) starts
    /\ StronglySorted Z.lt starts.
Proof.
  destruct (run_buckets evs (Coordinator.initial cfg calc cid sym) Logic.I)
    as (starts & T & G & S & _).
  exists starts. auto.
Qed.

End BarFacts.

(** ** Volume and delta of the bars the trader closes *)

Section BarVolumeFacts.
Context `{Env}.
Local Open Scope Z_scope.

Lemma signedWhole_ext t t' :
  aggregator t' = aggregator t -> identity t' = identity t -> signedWhole t -> signedWhole t'.
Proof.
  intros A I S.
  assert (A1 := f_equal aVolInBar A). assert (A2 := f_equal aSignedVolInBar A).
  assert (I1 : contractId t' = contractId t) by exact (f_equal (fun i => snd (fst (fst i))) I).
  cbn in A1, A2. unfold signedWhole. rewrite A1, A2, I1. exact S.
Qed.

Lemma signedBy_cases px ref v :
  Trader.signedBy px ref v = v \/ Trader.signedBy px ref v = JS.neg v
  \/ Trader.signedBy px ref v = Fin 0.
Proof. unfold Trader.signedBy. destruct (px >? ref)%js, (px <? ref)%js; auto. Qed.

Lemma step_signedWhole s e :
  signedWhole (Coordinator.trader s) ->
  signedWhole (Coordinator.trader (fst (Coordinator.step s e))).
Proof.
  intro S.
  destruct (step_cases s e)
    as (I & [(A & _) | [(q & now & -> & Acc & A & _)
                       | (now & start & lq & -> & Es & L & Ep & A & _)]]).
  - exact (signedWhole_ext _ _ A I S).
  - remember (Coordinator.trader (fst (Coordinator.step s (Coordinator.Quote q now))))
      as t' eqn:Et. clear Et.
    assert (I1 : contractId t' = contractId (Coordinator.trader s))
      by exact (f_equal (fun i => snd (fst (fst i))) I).
    assert (A1 := f_equal aVolInBar A). assert (A2 := f_equal aSignedVolInBar A).
    cbn [aggregator aVolInBar aSignedVolInBar] in A1, A2.
    unfold signedWhole. rewrite A1, A2, I1.
    rewrite accumulate_wholeBarDelta. cbn [nullish].
    destruct (prevClosedBarClose _); [apply signedBy_cases | auto].
  - remember (Coordinator.trader (fst (Coordinator.step s (Coordinator.Heartbeat now))))
      as t' eqn:Et. clear Et.
    assert (I1 : contractId t' = contractId (Coordinator.trader s))
      by exact (f_equal (fun i => snd (fst (fst i))) I).
    assert (A2 := f_equal aSignedVolInBar A).
    cbn in A2.
    unfold signedWhole. rewrite A2, I1, lookup_insert_eq. auto.
Qed.

Lemma Qfloor_nonneg (v : Q) : (0 <= v)%Q -> 0 <= Qfloor v.
Proof. intro P. change 0 with (Qfloor 0). now apply Qfloor_resp_le. Qed.

Lemma trunc_of_negated (v : Q) :
  (0 <= v)%Q ->
  (if Qle_bool 0 (- v) then Qfloor (- v) else Qceiling (- v)) = - Qfloor v.
Proof.
  intro P. destruct (Qle_bool 0 (- v)) eqn:E.
  - apply Qle_bool_iff in E.
    assert (Z0 : (v == 0)%Q) by lra.
    rewrite (Qfloor_comp _ _ Z0).
    assert (Z1 : (- v == 0)%Q) by lra.
    rewrite (Qfloor_comp _ _ Z1). reflexivity.
  - unfold Qceiling. rewrite (Qfloor_comp _ _ (Qopp_opp v)). reflexivity.
Qed.

Lemma closeBarAndProcess_whole t :
  volumesNonNegative t -> signedWhole t ->
  Forall wholeVolumeBar (closedBars (snd (Trader.closeBarAndProcess t))).
Proof.
  intros V S.
  destruct (closeBarAndProcess_bars t)
    as [-> | (start & o & h & l & cq & _ & _ & _ & _ & _ & -> & _)]; [constructor|].
  constructor; [|constructor].
  unfold wholeVolumeBar, closedBarOf. cbn [volume delta].
  specialize (V (contractId t)). unfold signedWhole in S. cbv zeta in S.
  assert (X : exists v, volInBarByContract t !! contractId t ?? Fin 0 = Fin v /\ (0 <= v)%Q).
  { destruct (volInBarByContract t !! contractId t) as [[v|]|]; simpl in V |- *;
      [exists v; now split | contradiction | exists 0%Q; split; [reflexivity | apply Qle_refl]]. }
  destruct X as (v & Ev & Pv). rewrite Ev in S |- *.
  pose proof (Qfloor_nonneg v Pv) as Fv.
  assert (M : JS.max (Fin 0) (JS.floor (Fin v)) = Fin (inject_Z (Qfloor v))).
  { cbn [JS.floor JS.max JS.lift1 JS.lift2]. unfold JS.Qmax'.
    destruct (Qle_bool 0 (inject_Z (Qfloor v))) eqn:E; [reflexivity|].
    apply Qle_bool_false in E. exfalso. revert E. apply Qle_not_lt.
    change (inject_Z 0 <= inject_Z (Qfloor v))%Q. rewrite <- Zle_Qle. exact Fv. }
  rewrite M.
  destruct S as [-> | [-> | ->]]; cbn [JS.trunc JS.neg JS.lift1]; unfold JS.Qtrunc.
  - exists (Qfloor v), (Qfloor v).
    replace (Qle_bool 0 v) with true by (symmetry; now apply Qle_bool_iff).
    repeat split; auto.
  - exists (Qfloor v), (- Qfloor v). rewrite (trunc_of_negated v Pv).
    repeat split; auto.
  - exists (Qfloor v), 0. cbn. repeat split; auto.
Qed.

Lemma step_wholeVolume s e :
  volumesNonNegative (Coordinator.trader s) -> signedWhole (Coordinator.trader s) ->
  Forall wholeVolumeBar (closedBars (snd (Coordinator.step s e))).
Proof.
  intros V S.
  destruct (step_cases s e)
    as (I & [(A & ->) | [(q & now & -> & Acc & A & ->)
                        | (now & start & lq & -> & Es & L & Ep & A & ->)]]).
  - constructor.
  - destruct (bucketing_cases (Coordinator.trader s) (contractId (Coordinator.trader s))
                (lastPrice q) now)
      as [(N & ->) | [(st & S' & Lt & ->) | (st & S' & Lt & ->)]]; cbn [snd];
      [constructor | now apply closeBarAndProcess_whole | constructor].
  - now apply closeBarAndProcess_whole.
Qed.

(** X13 — While the quotes carry cumulative volumes that are not negative,
    every bar the trader closes, from the start of a session on, has a
    whole-number volume not below zero, and its delta is that volume, its
    negation, or zero: the whole bar is signed by its last price against the
    previous close. *)
Theorem closed_bar_delta_is_signed_volume (cfg : StrategyConfig) (calc : Calculator)
    (cid sym : string) (evs : list Coordinator.Event) :
  quotesAreCounters evs ->
  Forall wholeVolumeBar
    (closedBars (snd (Coordinator.run (Coordinator.initial cfg calc cid sym) evs))).
Proof.
  assert (G : forall evs0 s0,
             quotesAreCounters evs0 ->
             volumesNonNegative (Coordinator.trader s0) -> signedWhole (Coordinator.trader s0) ->
             Forall wholeVolumeBar (closedBars (snd (Coordinator.run s0 evs0)))).
  { induction evs0 as [|e r IH]; intros s0 Q V S; [constructor|].
    rewrite run_cons. cbn [snd]. rewrite closedBars_app.
    inversion Q as [|? ? Qe Qr]; subst.
    apply Forall_app. split; [now apply step_wholeVolume|].
    apply IH; [exact Qr | now apply step_nonNegative | now apply step_signedWhole]. }
  intro Q. apply G; [exact Q | |].
  - intro k. cbn. rewrite lookup_empty. exact Logic.I.
  - unfold signedWhole. cbn. rewrite !lookup_empty. auto.
Qed.

End BarVolumeFacts.

Lemma closed_bar_delta_is_signed_volume_witness :
  quotesAreCounters Sample.qualifyingTicks
  /\ Forall wholeVolumeBar
       (closedBars (snd (Coordinator.run Sample.live Sample.qualifyingTicks))).
Proof.
  assert (Q : quotesAreCounters Sample.qualifyingTicks)
    by (repeat constructor; vm_compute; discriminate).
  split; [exact Q|].
  exact (closed_bar_delta_is_signed_volume _ _ _ _ _ Q).
Defined.

(** ** What reaches the broker *)

Section OrderFacts.
Context `{Env}.
Local Open Scope Z_scope.

Lemma handleSignal_position t s bar :
  currentPosition (calculator (fst (Trader.handleSignal t s bar)))
  = currentPosition (calculator t).
Proof. unfold Trader.handleSignal. split_all. Qed.

Lemma handleSignal_with_position t s bar :
  Calc.hasPosition (calculator t) = true -> Trader.handleSignal t s bar = (t, []).
Proof. intro P. unfold Trader.handleSignal. rewrite P. destruct (signal s); reflexivity. Qed.

(** X14 — Closing a bar never sends an exit and never places an order:
    [closeBarAndProcess] calls neither [closePosition] nor [createOrder],
    and the position the calculator holds is the same after it as before,
    also when the closed bar reached the stop and [processNewBar] answered
    with the stop exit.  It calls [getEquity] for an entry at most, and not
    even that while a position is open, while intra-bar detection is on, or
    while the reconcile lock is held. *)
Theorem bar_close_never_exits (t : Trader) :
  let r := Trader.closeBarAndProcess t in
  existsb Coordinator.isClosePosition (snd r) = false
  /\ existsb Coordinator.isCreateOrder (snd r) = false
  /\ currentPosition (calculator (fst r)) = currentPosition (calculator t)
  /\ (Calc.hasPosition (calculator t) = true
      \/ useIntraBarDetection (traderConfig t) = true
      \/ reconciling t = true
      -> existsb Coordinator.isGetEquity (snd r) = false).
Proof.
  cbv zeta. unfold Trader.closeBarAndProcess.
  destruct (barStartMs t) as [start|]; [|settle].
  destruct (barOpenPx t) as [o|]; [|settle].
  destruct (barHighPx t) as [h|]; [|settle].
  destruct (barLowPx t) as [l|]; [|settle].
  destruct (lastPriceByContract t !! contractId t) as [[cq|]|]; [|settle|settle].
  cbv zeta.
  match goal with
  | |- context [Calc.processNewBar ?c1 ?cb ?m] =>
      pose proof (processNewBar_stops c1 cb m) as St;
      destruct (Calc.processNewBar c1 cb m) as [[calc2 ms] s];
      assert (P2 : currentPosition calc2 = currentPosition (calculator t))
        by (apply (f_equal (fun x => fst (fst x))) in St; cbn [fst stopState] in St;
            rewrite St; cbn; destruct (_ && _); reflexivity);
      clear St
  end.
  cbn [traderConfig reconciling set_calculator set_marketState set_prevClosedBarClose
       set_volInBarByContract set_signedVolInBarByContract].
  destruct (useIntraBarDetection (traderConfig t)) eqn:U; cbn [negb andb].
  { cbn. rewrite P2. auto. }
  destruct (reconciling t) eqn:R; cbn [negb].
  { cbn. rewrite P2. auto. }
  match goal with
  | |- context [Trader.handleSignal ?t2 s ?cb] =>
      pose proof (handleSignal_effects t2 s cb) as E;
      pose proof (handleSignal_position t2 s cb) as Pp;
      pose proof (handleSignal_with_position t2 s cb) as Wp;
      destruct (Trader.handleSignal t2 s cb) as [t3 fx]
  end.
  cbn [fst snd calculator set_calculator set_marketState set_barOpenPx set_barHighPx
       set_barLowPx] in *.
  rewrite P2 in Pp.
  destruct E as [-> | (p & ->)]; cbn; repeat split; try assumption.
  - intros [X | [X | X]]; try discriminate X.
    assert (Y : Calc.hasPosition calc2 = true)
      by (unfold Calc.hasPosition in *; rewrite P2; exact X).
    specialize (Wp Y). discriminate Wp.
Qed.

(** X15 — From the start of a session on, at most one call of each kind
    is in flight: no event makes the trader call [getEquity] while an entry
    attempt is in flight, nor [closePosition] while a flatten is; and
    [createOrder] is called only when the equity of the attempt in flight
    arrives. *)
Theorem one_call_in_flight_per_kind (cfg : StrategyConfig) (calc : Calculator)
    (cid sym : string) (evs : list Coordinator.Event) (e : Coordinator.Event) :
  let s := fst (Coordinator.run (Coordinator.initial cfg calc cid sym) evs) in
  let fx := snd (Coordinator.step s e) in
  (Coordinator.entryInFlight s <> None -> existsb Coordinator.isGetEquity fx = false)
  /\ (Coordinator.flattenInFlight s = true -> existsb Coordinator.isClosePosition fx = false)
  /\ (existsb Coordinator.isCreateOrder fx = true ->
        exists p bal,
          e = Coordinator.EquitySettled (Some bal)
          /\ Coordinator.entryInFlight s = Some (Coordinator.AwaitingEquity p)).
Proof.
  intros s fx.
  assert (L : locked s).
  { assert (G : forall evs0 s0, locked s0 -> locked (fst (Coordinator.run s0 evs0))).
    { induction evs0 as [|e0 r IH]; intros s0 L0; [exact L0|].
      rewrite run_cons. cbn [fst]. apply IH. now apply step_locked. }
    unfold s. apply G.
    split; simpl; [intro N; exfalso; apply N; reflexivity | discriminate]. }
  subst fx. generalize dependent s. intros s L.
  destruct e as [q now|now|bal|ok now|ok]; unfold Coordinator.step.
  - destruct (absorb_locked s (Trader.onQuote (Coordinator.trader s) q now) L
                (onQuote_disciplined _ _ _)) as (_ & A & B).
    pose proof (onQuote_disciplined (Coordinator.trader s) q now) as (_ & _ & C).
    unfold Coordinator.absorb. cbn [snd].
    repeat split; try assumption. rewrite C. discriminate.
  - destruct (absorb_locked s (Trader.maybeCloseBarByClock (Coordinator.trader s) now) L
                (maybeCloseBarByClock_disciplined _ _)) as (_ & A & B).
    pose proof (maybeCloseBarByClock_disciplined (Coordinator.trader s) now) as (_ & _ & C).
    unfold Coordinator.absorb. cbn [snd].
    repeat split; try assumption. rewrite C. discriminate.
  - destruct (Coordinator.entryInFlight s) as [[p|p qty]|] eqn:F;
      try (cbn; repeat split; discriminate).
    unfold Coordinator.absorb, Trader.handleSignal_afterEquity. cbn [snd].
    destruct bal as [b|]; cbn; repeat split; try discriminate.
    intros _. exists p, b. split; reflexivity.
  - destruct (Coordinator.entryInFlight s) as [[p|p qty]|] eqn:F;
      try (cbn; repeat split; discriminate).
    unfold Coordinator.absorb, Trader.handleSignal_afterOrder. cbn [snd].
    destruct ok; [destruct (sendWebhook _)|]; cbn; repeat split; discriminate.
  - destruct (Coordinator.flattenInFlight s) eqn:F;
      [|cbn; repeat split; discriminate].
    unfold Trader.flattenSettled. cbn [snd].
    destruct ok; [destruct (sendWebhook _)|]; cbn; repeat split; discriminate.
Qed.


Lemma protectiveExits_fires t px now :
  Calc.hasPosition (calculator t) = true -> isFlattening t = false -> reconciling t = false ->
  snd (Calc.onTickForProtectiveStops px now (calculator t)) <> Calc.none ->
  Trader.protectiveExits t px now
  = Some (set_calculator (fst (Calc.onTickForProtectiveStops px now (calculator t))) t
            |> set_reconciling true |> set_isFlattening true,
          [ClosePositionCalled (contractId t)]).
Proof.
  intros P F R N. unfold Trader.protectiveExits. rewrite P, F, R. cbn [negb andb].
  destruct (Calc.onTickForProtectiveStops px now (calculator t)) as [calc hit].
  cbn [fst snd] in *. destruct hit; [now elim N | reflexivity | reflexivity].
Qed.

(** X16 — A flatten that fails is tried again.  When a tick reaches the
    stop or the trail of an open position, [closePosition] is called and
    both locks are taken; until the call settles, ticks evaluate no stop.
    If the call fails, the position is kept and both locks are released, so
    the next tick that reaches the stop or the trail calls [closePosition]
    again.  If it succeeds, the position and the cooldowns are cleared and
    the locks released. *)
Theorem failed_flatten_is_retried (t : Trader) (px : number) (now : Z) :
  Calc.hasPosition (calculator t) = true ->
  isFlattening t = false ->
  reconciling t = false ->
  snd (Calc.onTickForProtectiveStops px now (calculator t)) <> Calc.none ->
  exists t1,
    Trader.protectiveExits t px now = Some (t1, [ClosePositionCalled (contractId t)])
    /\ isFlattening t1 = true /\ reconciling t1 = true
    /\ (forall px' now', Trader.protectiveExits t1 px' now' = Some (t1, []))
    /\ (let r := Trader.flattenSettled t1 false in
        snd r = []
        /\ currentPosition (calculator (fst r)) = currentPosition (calculator t)
        /\ isFlattening (fst r) = false /\ reconciling (fst r) = false
        /\ forall px' now',
             snd (Calc.onTickForProtectiveStops px' now' (calculator (fst r))) <> Calc.none ->
             exists t3,
               Trader.protectiveExits (fst r) px' now'
               = Some (t3, [ClosePositionCalled (contractId t)]))
    /\ (let r := Trader.flattenSettled t1 true in
        Calc.hasPosition (calculator (fst r)) = false
        /\ isFlattening (fst r) = false /\ reconciling (fst r) = false
        /\ lastEntryBarTimestamp (calculator (fst r)) = None
        /\ lastIntraBarSignalTime (calculator (fst r)) = 0).
Proof.
  intros P F R N.
  eexists. split; [apply protectiveExits_fires; assumption|].
  set (calc1 := fst (Calc.onTickForProtectiveStops px now (calculator t))).
  assert (P1 : currentPosition calc1 = currentPosition (calculator t))
    by apply onTick_position.
  split; [reflexivity|]. split; [reflexivity|].
  split.
  { intros px' now'. unfold Trader.protectiveExits. cbn. now rewrite andb_false_r. }
  split.
  - cbn. split; [reflexivity|]. split; [exact P1|]. split; [reflexivity|].
    split; [reflexivity|].
    intros px' now' N'. eexists.
    match goal with |- Trader.protectiveExits ?t2 _ _ = _ =>
      rewrite (protectiveExits_fires t2 px' now')
    end; try reflexivity; try exact N'.
    cbn. unfold Calc.hasPosition in *. now rewrite P1.
  - cbn. repeat split; reflexivity.
Qed.

Lemma handleSignal_started t s bar t1 p :
  Trader.handleSignal t s bar = (t1, [GetEquityCalled p]) ->
  (signal s = buy \/ signal s = sell)
  /\ Calc.hasPosition (calculator t) = false
  /\ isEnteringPosition t = false /\ reconciling t = false
  /\ Trader.sameBarId (enteredBarStartMs t) (barStartMs t) = false
  /\ isFinite (atr (marketState t)) = true
  /\ (atr (marketState t) <? JS.max (Fin 0) (Fin (minAtrToTrade (traderConfig t) ?? 0%Q)))%js
     = false
  /\ p = mkPending (barStartMs t) (signal s) bar (atr (marketState t))
                   (match signal s with buy => long | _ => short end)
  /\ t1 = (t |> set_enteredBarStartMs (barStartMs t)
             |> set_isEnteringPosition true
             |> set_reconciling true
             |> set_calculator (Calc.captureAtrAtSignal (atr (marketState t)) (calculator t))).
Proof.
  unfold Trader.handleSignal.
  destruct (signal s) eqn:Sg; try discriminate;
    (destruct (Calc.hasPosition (calculator t)); [discriminate|]);
    (destruct (isEnteringPosition t); [discriminate|]);
    (destruct (reconciling t); [discriminate|]); cbn [orb];
    (destruct (Trader.sameBarId _ _); [discriminate|]);
    (destruct (isFinite (atr (marketState t))); [|discriminate]); cbn [negb orb];
    (destruct (_ <? _)%js; [discriminate|]);
    intro E; injection E as <- <-; repeat split; auto.
Qed.

(** X17 — An entry attempt that fails does not use up the bucket.  If
    [handleSignal] started an attempt while a bucket was open, and the
    equity request or the order then fails in that bucket, the failure
    handler clears the entry marker and releases both locks: the same
    signal presented again starts the same attempt again. *)
Theorem failed_entry_may_retry (t : Trader) (s : TradeSignal) (bar : BarData)
    (t1 : Trader) (p : PendingEntry) :
  barStartMs t <> None ->
  Trader.handleSignal t s bar = (t1, [GetEquityCalled p]) ->
  let failed := Trader.entryFailed t1 p in
  Trader.handleSignal_afterEquity t1 p None = (failed, [])
  /\ (forall qty now, Trader.handleSignal_afterOrder t1 p qty false now = (failed, []))
  /\ enteredBarStartMs failed = None
  /\ isEnteringPosition failed = false /\ reconciling failed = false
  /\ Trader.handleSignal failed s bar = (t1, [GetEquityCalled p]).
Proof.
  intros B E failed.
  destruct (handleSignal_started _ _ _ _ _ E) as (Sg & P & En & R & Sb & F & A & -> & ->).
  split; [reflexivity|]. split; [reflexivity|].
  assert (M : enteredBarStartMs failed = None).
  { unfold failed, Trader.entryFailed. cbn. now rewrite sameBarId_refl. }
  split; [exact M|]. split; [reflexivity|]. split; [reflexivity|].
  unfold Trader.handleSignal. rewrite M.
  change (Calc.hasPosition (calculator failed)) with (Calc.hasPosition (calculator t)).
  rewrite P.
  change (isEnteringPosition failed) with false.
  change (reconciling failed) with false.
  change (barStartMs failed) with (barStartMs t).
  change (marketState failed) with (marketState t).
  change (traderConfig failed) with (traderConfig t).
  cbn [orb].
  assert (Sn : Trader.sameBarId None (barStartMs t) = false)
    by (destruct (barStartMs t); [reflexivity | now elim B]).
  rewrite Sn, F, A. cbn [negb orb].
  destruct Sg as [Sg | Sg]; rewrite Sg; unfold failed, Trader.entryFailed; cbn;
    rewrite sameBarId_refl; reflexivity.
Qed.

(** X18 — The order that follows an entry signal.  An attempt is started
    only for a buy or a sell, with a finite ATR that is neither negative nor
    below the configured minimum; and whatever finite equity arrives, the
    order is placed for a finite quantity of at least 1 (and, with a
    contract cap of at least 1, of at most the cap), on side 0 for a buy and
    side 1 for a sell. *)
Theorem order_quantity_is_at_least_one (t : Trader) (s : TradeSignal) (bar : BarData)
    (t1 : Trader) (p : PendingEntry) :
  Trader.handleSignal t s bar = (t1, [GetEquityCalled p]) ->
  (signal s = buy \/ signal s = sell)
  /\ (exists a, peAtrSnapshot p = Fin a /\ (0 <= a)%Q
                /\ (minAtrToTrade (traderConfig t) ?? 0 <= a)%Q)
  /\ forall (t2 : Trader) (bal : Q),
       exists q,
         Trader.handleSignal_afterEquity t2 p (Some (Fin bal))
         = (t2, [CreateOrderCalled p (match signal s with buy => 0 | _ => 1 end) (Fin q)])
         /\ (1 <= q)%Q
         /\ (1 <= contractQuantity (config (calculator t2)) ?? 1 ->
             q <= contractQuantity (config (calculator t2)) ?? 1)%Q.
Proof.
  intro E.
  destruct (handleSignal_started _ _ _ _ _ E) as (Sg & P & En & R & Sb & F & A & -> & ->).
  split; [exact Sg|].
  destruct (atr (marketState t)) as [a|] eqn:Ea; [|discriminate].
  assert (Am : (JS.Qmax' 0 (minAtrToTrade (traderConfig t) ?? 0) <= a)%Q).
  { cbn in A. unfold JS.ltb, JS.cmp2 in A. now apply Qlt_bool_false in A. }
  split.
  { exists a. split; [reflexivity|]. split.
    - eapply Qle_trans; [apply Qmax'_l | exact Am].
    - eapply Qle_trans; [apply Qmax'_r | exact Am]. }
  intros t2 bal. unfold Trader.handleSignal_afterEquity. cbn [peBar peAtrSnapshot peSignal].
  destruct (calculatePositionSize_bounds (calculator t2) (close bar) a bal)
    as (q & -> & _ & C).
  exists (JS.Qmax' 1 q). cbn [JS.max JS.lift2].
  split; [destruct Sg as [-> | ->]; reflexivity|].
  split; [apply Qmax'_l|].
  intro C1. destruct (C C1) as (_ & C2).
  destruct (Qmax'_cases 1 q) as [-> | ->]; assumption.
Qed.

End OrderFacts.

Lemma failed_flatten_is_retried_witness :
  exists t1,
    Trader.protectiveExits Cases.holding (Fin 20301) (Sample.at1100 + 183100)
    = Some (t1, [ClosePositionCalled Sample.mnq])
    /\ isFlattening (fst (Trader.flattenSettled t1 false)) = false
    /\ currentPosition (calculator (fst (Trader.flattenSettled t1 false)))
       = currentPosition (calculator Cases.holding).
Proof.
  assert (P : Calc.hasPosition (calculator Cases.holding) = true)
    by (vm_compute; reflexivity).
  assert (F : isFlattening Cases.holding = false) by (vm_compute; reflexivity).
  assert (R : reconciling Cases.holding = false) by (vm_compute; reflexivity).
  assert (N : snd (Calc.onTickForProtectiveStops (Fin 20301) (Sample.at1100 + 183100)
                     (calculator Cases.holding)) <> Calc.none)
    by (vm_compute; discriminate).
  destruct (failed_flatten_is_retried Cases.holding (Fin 20301) (Sample.at1100 + 183100)
              P F R N)
    as (t1 & E & _ & _ & _ & (_ & Pp & Fl & _) & _).
  exists t1. split; [|split; assumption].
  rewrite E. reflexivity.
Defined.

Lemma failed_entry_may_retry_witness :
  barStartMs Cases.ready <> None
  /\ let r := Trader.handleSignal Cases.ready Cases.buySignal (Sample.historyBar 0) in
     exists p,
       snd r = [GetEquityCalled p]
       /\ Trader.handleSignal (Trader.entryFailed (fst r) p) Cases.buySignal
                              (Sample.historyBar 0)
          = r.
Proof.
  assert (B : barStartMs Cases.ready <> None) by (vm_compute; discriminate).
  split; [exact B|].
  assert (E : exists t1 p,
             Trader.handleSignal Cases.ready Cases.buySignal (Sample.historyBar 0)
             = (t1, [GetEquityCalled p]))
    by (eexists; eexists; vm_compute; reflexivity).
  destruct E as (t1 & p & E).
  cbv zeta. rewrite E. cbn [fst snd]. exists p. split; [reflexivity|].
  exact (proj2 (proj2 (proj2 (proj2 (proj2
           (failed_entry_may_retry Cases.ready Cases.buySignal (Sample.historyBar 0)
              t1 p B E)))))).
Defined.

Lemma order_quantity_is_at_least_one_witness :
  exists p q,
    snd (Trader.handleSignal Cases.ready Cases.buySignal (Sample.historyBar 0))
    = [GetEquityCalled p]
    /\ Trader.handleSignal_afterEquity Cases.ready p (Some (Fin 50000))
       = (Cases.ready, [CreateOrderCalled p 0 (Fin q)])
    /\ (1 <= q)%Q.
Proof.
  assert (E : exists t1 p,
             Trader.handleSignal Cases.ready Cases.buySignal (Sample.historyBar 0)
             = (t1, [GetEquityCalled p]))
    by (eexists; eexists; vm_compute; reflexivity).
  destruct E as (t1 & p & E).
  destruct (order_quantity_is_at_least_one _ _ _ _ _ E) as (_ & _ & Q).
  destruct (Q Cases.ready 50000%Q) as (q & Eq & L & _).
  exists p, q. rewrite E. cbn [snd]. repeat split; assumption.
Defined.

(** ** The broker client *)

Section ClientFacts.
Context {S : Type} `{Client.Broker S}.
#[local] Existing Instance Client.M_ret.
#[local] Existing Instance Client.M_bind.

(** *** Running a computation *)

Lemma bind_eq {A B} (m : Client.M S A) (f : A -> Client.M S B) (w : Client.World S) :
  (m ≫= f) w
  = match m w with
    | (Client.Returned a, w') => f a w'
    | (Client.Threw e, w') => (Client.Threw e, w')
    end.
Proof. reflexivity. Qed.

Lemma bind_returned {A B} (m : Client.M S A) (f : A -> Client.M S B) (w w1 : Client.World S) a :
  m w = (Client.Returned a, w1) -> (m ≫= f) w = f a w1.
Proof. intro E. rewrite bind_eq, E. reflexivity. Qed.

Lemma bind_threw {A B} (m : Client.M S A) (f : A -> Client.M S B) (w w1 : Client.World S) e :
  m w = (Client.Threw e, w1) -> (m ≫= f) w = (Client.Threw e, w1).
Proof. intro E. rewrite bind_eq, E. reflexivity. Qed.

Lemma bind_inv {A B} (m : Client.M S A) (f : A -> Client.M S B) (w w' : Client.World S) b :
  (m ≫= f) w = (Client.Returned b, w') ->
  exists a w1, m w = (Client.Returned a, w1) /\ f a w1 = (Client.Returned b, w').
Proof.
  rewrite bind_eq. destruct (m w) as [[a|e] w1]; [eauto | discriminate].
Qed.

(** *** What a computation adds to the log *)

Lemma adds_weaken (P Q : Client.Request -> Prop) {A} (m : Client.M S A) :
  (forall r, P r -> Q r) -> adds P m -> adds Q m.
Proof.
  intros PQ Hm w. destruct (Hm w) as (new & E & F).
  exists new. split; [exact E | eapply Forall_impl; eauto].
Qed.

Lemma adds_ret P {A} (a : A) : adds P (mret a : Client.M S A).
Proof. intro w. exists []. split; [symmetry; apply app_nil_r | constructor]. Qed.

Lemma adds_throw P {A} e : adds P (Client.throw e : Client.M S A).
Proof. intro w. exists []. split; [symmetry; apply app_nil_r | constructor]. Qed.

Lemma adds_getFields P : adds P (Client.getFields : Client.M S _).
Proof. intro w. exists []. split; [symmetry; apply app_nil_r | constructor]. Qed.

Lemma adds_setFields P f : adds P (Client.setFields f : Client.M S _).
Proof. intro w. exists []. split; [symmetry; apply app_nil_r | constructor]. Qed.

Lemma adds_world P : adds P ((fun w => (Client.Returned w, w)) : Client.M S (Client.World S)).
Proof. intro w. exists []. split; [symmetry; apply app_nil_r | constructor]. Qed.

Lemma adds_request (P : Client.Request -> Prop) {A} r (call : S -> Client.Settled A * S) :
  P r -> adds P (Client.request r call).
Proof.
  intros Pr w. exists [r]. unfold Client.request.
  destruct (call (Client.broker w)) as [[a|e] b]; (split; [reflexivity | now constructor]).
Qed.

Lemma adds_bind P {A B} (m : Client.M S A) (f : A -> Client.M S B) :
  adds P m -> (forall a, adds P (f a)) -> adds P (m ≫= f).
Proof.
  intros Hm Hf w. rewrite bind_eq.
  destruct (Hm w) as (n1 & E1 & F1).
  destruct (m w) as [[a|e] w1]; cbn [snd] in *.
  - destruct (Hf a w1) as (n2 & E2 & F2).
    exists (n1 ++ n2). rewrite E2, E1, app_assoc. split; [reflexivity|].
    apply Forall_app. now split.
  - exists n1. now split.
Qed.

Lemma adds_tryCatch P {A} (m : Client.M S A) (h : string -> Client.M S A) :
  adds P m -> (forall e, adds P (h e)) -> adds P (Client.tryCatch m h).
Proof.
  intros Hm Hh w. unfold Client.tryCatch.
  destruct (Hm w) as (n1 & E1 & F1).
  destruct (m w) as [[a|e] w1]; cbn [snd] in *.
  - exists n1. now split.
  - destruct (Hh e w1) as (n2 & E2 & F2).
    exists (n1 ++ n2). rewrite E2, E1, app_assoc. split; [reflexivity|].
    apply Forall_app. now split.
Qed.

Lemma adds_if P {A} (b : bool) (m1 m2 : Client.M S A) :
  adds P m1 -> adds P m2 -> adds P (if b then m1 else m2).
Proof. destruct b; auto. Qed.

Lemma requestsOf_adds P {A} (m : Client.M S A) w :
  adds P m -> Forall P (requestsOf m w).
Proof.
  intro Hm. destruct (Hm w) as (new & E & F).
  unfold requestsOf. rewrite E, drop_app_length. exact F.
Qed.

(** *** What a computation does to the fields *)

Lemma keeps_ret {A} (a : A) : keeps (mret a : Client.M S A).
Proof. intro w. reflexivity. Qed.

Lemma keeps_throw {A} e : keeps (Client.throw e : Client.M S A).
Proof. intro w. reflexivity. Qed.

Lemma keeps_getFields : keeps (Client.getFields : Client.M S _).
Proof. intro w. reflexivity. Qed.

Lemma keeps_world : keeps ((fun w => (Client.Returned w, w)) : Client.M S (Client.World S)).
Proof. intro w. reflexivity. Qed.

Lemma keeps_request {A} r (call : S -> Client.Settled A * S) : keeps (Client.request r call).
Proof.
  intro w. unfold Client.request.
  destruct (call (Client.broker w)) as [[a|e] b]; reflexivity.
Qed.

Lemma keeps_bind {A B} (m : Client.M S A) (f : A -> Client.M S B) :
  keeps m -> (forall a, keeps (f a)) -> keeps (m ≫= f).
Proof.
  intros Hm Hf w. rewrite bind_eq. specialize (Hm w).
  destruct (m w) as [[a|e] w1]; cbn [snd] in *; [|exact Hm].
  rewrite (Hf a w1). exact Hm.
Qed.

Lemma keeps_tryCatch {A} (m : Client.M S A) (h : string -> Client.M S A) :
  keeps m -> (forall e, keeps (h e)) -> keeps (Client.tryCatch m h).
Proof.
  intros Hm Hh w. unfold Client.tryCatch. specialize (Hm w).
  destruct (m w) as [[a|e] w1]; cbn [snd] in *; [exact Hm|].
  rewrite (Hh e w1). exact Hm.
Qed.

Lemma keeps_authenticate : keeps Client.authenticate.
Proof.
  unfold Client.authenticate. apply keeps_bind; [apply keeps_getFields|].
  intro f. apply keeps_request.
Qed.

Lemma keeps_withAccount {A} r (call : option Z -> S -> Client.Settled A * S) :
  keeps (Client.withAccount r call).
Proof.
  unfold Client.withAccount. apply keeps_bind; [apply keeps_getFields|].
  intro f. apply keeps_request.
Qed.

Lemma keeps_withTokenRefresh {A} (apiCall : Client.M S A) :
  keeps apiCall -> keeps (Client.withTokenRefresh apiCall).
Proof.
  intro K. unfold Client.withTokenRefresh.
  apply keeps_tryCatch; [exact K|]. intro e.
  destruct (Client.expired e); [|apply keeps_throw].
  apply keeps_bind; [apply keeps_authenticate|]. intros ?.
  apply keeps_bind; [apply keeps_world|]. intro w.
  apply keeps_bind; [|intros ?; exact K].
  destruct (Client.apiGetAuthToken (Client.broker w)) as [tok|]; [|apply keeps_ret].
  destruct (Client.selectedAccountId (Client.fields w)) as [acc|]; [|apply keeps_ret].
  destruct (_ && _); [|apply keeps_ret].
  apply keeps_bind; [apply keeps_request|]. intros ?.
  apply keeps_tryCatch; [apply keeps_request | intros ?; apply keeps_ret].
Qed.

(** X19 — [withTokenRefresh] does what its comment promises.  A call
    that returns is passed through; an error whose message mentions neither
    401 nor Unauthorized is thrown on as it is, with nothing else done.
    When the wrapped call leaves the client's fields alone, so does the
    wrapper, re-authentication included: [isInitialized] and
    [selectedAccountId] are never touched.  And a single request is made at
    most twice: once, or once before and once after one [authenticate]
    (with the SignalR token update and re-initialisation in between when a
    token and an account are there), or once and then not again when that
    [authenticate] fails. *)
Theorem token_refresh_retries_once {A} (apiCall : Client.M S A) :
  (forall w a w', apiCall w = (Client.Returned a, w') ->
                  Client.withTokenRefresh apiCall w = (Client.Returned a, w'))
  /\ (forall w e w', apiCall w = (Client.Threw e, w') -> Client.expired e = false ->
                     Client.withTokenRefresh apiCall w = (Client.Threw e, w'))
  /\ (keeps apiCall -> keeps (Client.withTokenRefresh apiCall))
  /\ (forall r (call : S -> Client.Settled A * S) w,
        let made := requestsOf (Client.withTokenRefresh (Client.request r call)) w in
        let auth := Client.Authenticate (Client.userName (Client.fields w))
                                        (Client.apiKey (Client.fields w)) in
        made = [r]
        \/ made = [r; auth]
        \/ made = [r; auth; r]
        \/ exists token account,
             made = [r; auth; Client.SignalRUpdateToken token;
                     Client.SignalRInitialize token account; r]).
Proof.
  split; [|split; [|split]].
  - intros w a w' E. unfold Client.withTokenRefresh, Client.tryCatch. now rewrite E.
  - intros w e w' E X. unfold Client.withTokenRefresh, Client.tryCatch. now rewrite E, X.
  - apply keeps_withTokenRefresh.
  - intros r call w made auth. subst made auth.
    unfold requestsOf, Client.withTokenRefresh, Client.authenticate, Client.tryCatch,
      Client.request, Client.getFields, Client.throw, mbind, Client.M_bind, mret,
      Client.M_ret.
    repeat (cbn [fst snd Client.fields Client.broker Client.requests];
            match goal with
            | |- context [let (_, _) := ?x in _] =>
                let T := type of x in
                lazymatch T with
                | (Client.Settled _ * _)%type => destruct x as [[?|?] ?] eqn:?
                end
            | |- context [if ?b then _ else _] => destruct b eqn:?
            | |- context [match ?x with Some _ => _ | None => _ end] => destruct x eqn:?
            end);
      cbn [fst snd Client.fields Client.broker Client.requests];
      rewrite <- ?app_assoc, drop_app_length; cbn [app]; eauto 10.
Qed.


Lemma initialize_done (w : Client.World S) :
  Client.isInitialized (Client.fields w) = true ->
  Client.initialize w = (Client.Returned tt, w).
Proof. intro I. unfold Client.initialize. client_unfold. now rewrite I. Qed.

Lemma requireAccount_falsy (w : Client.World S) :
  Client.falsyId (Client.selectedAccountId (Client.fields w)) = true ->
  Client.requireAccount w = (Client.Threw "No account selected", w).
Proof. intro F. client_unfold. now rewrite F. Qed.

(** X20 — [initialize] runs once.  On an initialised client it makes no
    request and changes nothing.  When it returns, the client is
    initialised, so that running it again is that no-op; the selected
    account is the first live account, or what it was when there is none.
    When it throws, the fields are as before: the client is still not
    initialised and the next call authenticates again.  On a client not yet
    initialised the requests are [authenticate], then, if that succeeded,
    one search for live accounts. *)
Theorem initialize_runs_once (w : Client.World S) :
  (Client.isInitialized (Client.fields w) = true ->
     Client.initialize w = (Client.Returned tt, w))
  /\ (forall w', Client.initialize w = (Client.Returned tt, w') ->
        Client.isInitialized (Client.fields w') = true
        /\ Client.initialize w' = (Client.Returned tt, w'))
  /\ (forall e w', Client.initialize w = (Client.Threw e, w') ->
        Client.fields w' = Client.fields w)
  /\ (Client.isInitialized (Client.fields w) = false ->
        let auth := Client.Authenticate (Client.userName (Client.fields w))
                                        (Client.apiKey (Client.fields w)) in
        (exists e w', Client.initialize w = (Client.Threw e, w')
                      /\ requestsOf Client.initialize w = [auth])
        \/ (exists e w', Client.initialize w = (Client.Threw e, w')
                         /\ requestsOf Client.initialize w = [auth; Client.SearchAccounts true])
        \/ (exists w' accounts,
              Client.initialize w = (Client.Returned tt, w')
              /\ requestsOf Client.initialize w = [auth; Client.SearchAccounts true]
              /\ fst (Client.apiSearchAccounts true
                        (snd (Client.apiAuthenticate (Client.userName (Client.fields w))
                                (Client.apiKey (Client.fields w)) (Client.broker w))))
                 = Client.Resolved accounts
              /\ Client.selectedAccountId (Client.fields w')
                 = match accounts with
                   | a :: _ => Some (Client.accountId a)
                   | [] => Client.selectedAccountId (Client.fields w)
                   end)).
Proof.
  pose proof initialize_done as D.
  split; [apply D|]. split; [|split].
  - intros w' E.
    assert (I : Client.isInitialized (Client.fields w') = true).
    { revert E. unfold Client.initialize. client_unfold. client_cases;
        intro E; inversion E; subst; try reflexivity; assumption. }
    split; [exact I | now apply D].
  - intros e w'. unfold Client.initialize. client_unfold. client_cases;
      intro E; inversion E; subst; reflexivity.
  - intros I auth. subst auth. unfold requestsOf, Client.initialize. client_unfold.
    rewrite I. client_cases.
    + right. right. eexists. exists []. cbn.
      rewrite <- ?app_assoc, drop_app_length. repeat split; reflexivity.
    + right. right. eexists. eexists (_ :: _). cbn.
      rewrite <- ?app_assoc, drop_app_length.
      split; [reflexivity|]. split; [reflexivity|]. split; reflexivity.
    + right. left. do 2 eexists. rewrite <- ?app_assoc, drop_app_length.
      split; reflexivity.
    + left. do 2 eexists. rewrite <- ?app_assoc, drop_app_length.
      split; reflexivity.
Qed.


(** X21 — Trading needs a selected account.  On an initialised client
    whose selected account is [null] (no live account was found) or has the
    id 0, which the guard [!this.selectedAccountId] takes for none, every
    trading method throws "No account selected" at once: no request reaches
    the broker and nothing changes. *)
Theorem trading_needs_a_selected_account (w : Client.World S) :
  Client.isInitialized (Client.fields w) = true ->
  Client.falsyId (Client.selectedAccountId (Client.fields w)) = true ->
  (forall req, refused (Client.createOrder req) w)
  /\ (forall order, refused (Client.cancelOrder order) w)
  /\ refused Client.getPositions w
  /\ (forall contract, refused (Client.closePosition contract) w)
  /\ (forall contract size, refused (Client.partialClosePosition contract size) w)
  /\ (forall contract, refused (Client.getNetPositionSize contract) w)
  /\ (forall contract size, refused (Client.closePositionByQtySafe contract size) w)
  /\ (forall contract, refused (Client.closeAllQty contract) w).
Proof.
  intros I F. unfold refused.
  pose proof (initialize_done w I) as D.
  pose proof (requireAccount_falsy w F) as R.
  assert (G : forall contract,
             Client.getNetPositionSize contract w = (Client.Threw "No account selected", w)).
  { intro contract. unfold Client.getNetPositionSize.
    rewrite (bind_returned _ _ _ _ _ D). now rewrite (bind_threw _ _ _ _ _ R). }
  repeat split; intros;
    try (unfold Client.createOrder, Client.cancelOrder, Client.getPositions,
           Client.closePosition, Client.partialClosePosition, Client.closePositionByQtySafe;
         rewrite (bind_returned _ _ _ _ _ D); now rewrite (bind_threw _ _ _ _ _ R)).
  - apply G.
  - unfold Client.closeAllQty. now rewrite (bind_threw _ _ _ _ _ (G contract)).
Qed.



(** *** Orders *)

Lemma adds_authenticate P :
  (forall u k, P (Client.Authenticate u k)) -> adds (S := S) P Client.authenticate.
Proof.
  intro Pa. unfold Client.authenticate.
  apply adds_bind; [apply adds_getFields|]. intro f. now apply adds_request.
Qed.

Lemma adds_initialize P :
  (forall u k, P (Client.Authenticate u k)) -> (forall l, P (Client.SearchAccounts l)) ->
  adds (S := S) P Client.initialize.
Proof.
  intros Pa Ps. unfold Client.initialize.
  apply adds_bind; [apply adds_getFields|]. intro f.
  apply adds_if; [apply adds_ret|].
  apply adds_bind; [now apply adds_authenticate|]. intros ?.
  apply adds_bind; [now apply adds_request|]. intro accounts.
  apply adds_bind; [apply adds_getFields|]. intro f'. apply adds_setFields.
Qed.

Lemma adds_requireAccount P : adds (S := S) P Client.requireAccount.
Proof.
  unfold Client.requireAccount.
  apply adds_bind; [apply adds_getFields|]. intro f.
  apply adds_if; [apply adds_throw | apply adds_ret].
Qed.

Lemma adds_fetchAllAccountsMerged P :
  (forall u k, P (Client.Authenticate u k)) -> (forall l, P (Client.SearchAccounts l)) ->
  adds (S := S) P Client.fetchAllAccountsMerged.
Proof.
  intros Pa Ps. unfold Client.fetchAllAccountsMerged.
  apply adds_bind; [now apply adds_initialize|]. intros ?.
  apply adds_bind.
  { apply adds_tryCatch; [now apply adds_request | intro; apply adds_ret]. }
  intro live. apply adds_bind.
  { apply adds_tryCatch; [now apply adds_request | intro; apply adds_ret]. }
  intro prac. apply adds_ret.
Qed.

Lemma adds_ensureActiveAccount P :
  (forall u k, P (Client.Authenticate u k)) -> (forall l, P (Client.SearchAccounts l)) ->
  adds (S := S) P Client.ensureActiveAccount.
Proof.
  intros Pa Ps. unfold Client.ensureActiveAccount.
  apply adds_bind; [now apply adds_initialize|]. intros ?.
  apply adds_bind; [apply adds_getFields|]. intro f.
  destruct (Client.selectedAccountId f); [|apply adds_throw].
  apply adds_bind; [now apply adds_fetchAllAccountsMerged|]. intro all.
  destruct (List.find _ all); [|apply adds_throw].
  apply adds_if; [apply adds_throw | apply adds_ret].
Qed.

Lemma adds_withTokenRefresh P {A} (apiCall : Client.M S A) :
  (forall u k, P (Client.Authenticate u k)) ->
  (forall t, P (Client.SignalRUpdateToken t)) ->
  (forall t a, P (Client.SignalRInitialize t a)) ->
  adds P apiCall -> adds P (Client.withTokenRefresh apiCall).
Proof.
  intros Pa Pu Pi Hc. unfold Client.withTokenRefresh.
  apply adds_tryCatch; [exact Hc|]. intro e.
  apply adds_if; [|apply adds_throw].
  apply adds_bind; [now apply adds_authenticate|]. intros ?.
  apply adds_bind; [apply adds_world|]. intro w.
  apply adds_bind; [|intros ?; exact Hc].
  destruct (Client.apiGetAuthToken (Client.broker w)) as [tok|]; [|apply adds_ret].
  destruct (Client.selectedAccountId (Client.fields w)) as [acc|]; [|apply adds_ret].
  apply adds_if; [|apply adds_ret].
  apply adds_bind; [now apply adds_request|]. intros ?.
  apply adds_tryCatch; [now apply adds_request | intro; apply adds_ret].
Qed.

Lemma adds_createOrder req : adds (S := S) (marketOrderFor req) (Client.createOrder req).
Proof.
  unfold Client.createOrder.
  apply adds_bind; [apply adds_initialize; intros; exact Logic.I|]. intros ?.
  apply adds_bind; [apply adds_requireAccount|]. intros ?.
  apply adds_bind; [apply adds_ensureActiveAccount; intros; exact Logic.I|]. intros ?.
  apply adds_bind; [apply adds_getFields|]. intro f.
  apply adds_bind.
  - apply adds_withTokenRefresh; try (intros; exact Logic.I).
    apply adds_request. cbn. auto.
  - intro response. apply adds_if; [apply adds_throw | apply adds_ret].
Qed.

Lemma mapSet_Forall (P : Client.Account -> Prop) k v m :
  P v -> Forall (fun kv => P (snd kv)) m -> Forall (fun kv => P (snd kv)) (Client.mapSet k v m).
Proof.
  intros Pv. induction 1 as [|[k' v'] r Px F IH]; cbn.
  - constructor; [exact Pv | constructor].
  - destruct (k =? k')%Z; constructor; auto.
Qed.

Lemma mergeById_Forall (P : Client.Account -> Prop) l m :
  Forall P l -> Forall (fun kv => P (snd kv)) m ->
  Forall (fun kv => P (snd kv))
         (fold_left (fun m a => Client.mapSet (Client.accountId a) a m) l m).
Proof.
  intro Fl. revert m. induction Fl as [|a r Pa _ IH]; intros m Fm; [exact Fm|].
  cbn. apply IH. now apply mapSet_Forall.
Qed.

Lemma searchAccounts_or_none live (w w' : Client.World S) accounts :
  nothingTradable ->
  Client.tryCatch (Client.searchAccounts live) (fun _ => mret []) w
  = (Client.Returned accounts, w') ->
  Forall (fun a => Client.canTrade a = false) accounts.
Proof.
  intros N. client_unfold.
  destruct (Client.apiSearchAccounts live (Client.broker w)) as [[l|e] b] eqn:E.
  - intro X. injection X as <- _. exact (N _ _ _ _ E).
  - intro X. injection X as <- _. constructor.
Qed.

Lemma ensureActiveAccount_throws (w : Client.World S) :
  nothingTradable ->
  exists e w', Client.ensureActiveAccount w = (Client.Threw e, w').
Proof.
  intro N. destruct (Client.ensureActiveAccount w) as [[[]|e] w'] eqn:E; [|eauto].
  exfalso. revert E. unfold Client.ensureActiveAccount.
  intro E. apply bind_inv in E. destruct E as ([] & w1 & _ & E).
  apply bind_inv in E. destruct E as (f & w2 & _ & E).
  destruct (Client.selectedAccountId f) as [sel|]; [|discriminate E].
  apply bind_inv in E. destruct E as (all & w3 & Ef & E).
  assert (Fa : Forall (fun a => Client.canTrade a = false) all).
  { unfold Client.fetchAllAccountsMerged in Ef.
    apply bind_inv in Ef. destruct Ef as ([] & v1 & _ & Ef).
    apply bind_inv in Ef. destruct Ef as (live & v2 & El & Ef).
    apply bind_inv in Ef. destruct Ef as (prac & v3 & Ep & Ef).
    injection Ef as <- _.
    apply searchAccounts_or_none in El; [|exact N].
    apply searchAccounts_or_none in Ep; [|exact N].
    apply Forall_fmap.
    apply (mergeById_Forall (fun a => Client.canTrade a = false)); [|constructor].
    apply Forall_app. now split. }
  destruct (List.find _ all) as [acct|] eqn:Fi; [|discriminate E].
  apply List.find_some in Fi. destruct Fi as (In_ & _).
  rewrite Forall_forall in Fa. apply list_elem_of_In in In_.
  unfold Client.isTradableAccount in E. rewrite (Fa _ In_) in E. discriminate E.
Qed.

(** X23 — What [createOrder] sends.  Whatever the request asks for, every
    order it places is a market order (type 2) for the requested contract
    and size, on side 0 when the requested side is 0 and on side 1
    otherwise; limit, stop and trail prices never reach the broker.  And
    when the broker reports no account that may trade, [createOrder] throws
    and places no order at all. *)
Theorem orders_are_market_orders (req : Client.OrderRequest) (w : Client.World S) :
  Forall (marketOrderFor req) (requestsOf (Client.createOrder req) w)
  /\ (nothingTradable ->
      (exists e w', Client.createOrder req w = (Client.Threw e, w'))
      /\ Forall notPlaceOrder (requestsOf (Client.createOrder req) w)).
Proof.
  split; [apply requestsOf_adds, adds_createOrder|].
  intro N.
  assert (A1 : adds (S := S) notPlaceOrder Client.initialize)
    by (apply adds_initialize; intros; exact Logic.I).
  assert (A2 : adds (S := S) notPlaceOrder Client.requireAccount) by apply adds_requireAccount.
  assert (A3 : adds (S := S) notPlaceOrder Client.ensureActiveAccount)
    by (apply adds_ensureActiveAccount; intros; exact Logic.I).
  unfold requestsOf, Client.createOrder.
  rewrite bind_eq. destruct (A1 w) as (n1 & E1 & F1).
  destruct (Client.initialize w) as [[[]|e1] w1]; cbn [snd] in E1.
  2: { split; [eauto|]. cbn [snd]. now rewrite E1, drop_app_length. }
  rewrite bind_eq. destruct (A2 w1) as (n2 & E2 & F2).
  destruct (Client.requireAccount w1) as [[[]|e2] w2]; cbn [snd] in E2.
  2: { split; [eauto|]. cbn [snd]. rewrite E2, E1, <- app_assoc, drop_app_length.
       apply Forall_app. now split. }
  rewrite bind_eq. destruct (A3 w2) as (n3 & E3 & F3).
  destruct (ensureActiveAccount_throws w2 N) as (e3 & w3 & X).
  rewrite X in *. cbn [snd] in *.
  split; [eauto|]. rewrite E3, E2, E1, <- !app_assoc, drop_app_length.
  repeat (apply Forall_app; split); assumption.
Qed.


(** *** Closing by quantity *)

Lemma adds_run P {A} (m : Client.M S A) (w w1 : Client.World S) c :
  adds P m -> m w = (c, w1) ->
  exists new, Client.requests w1 = Client.requests w ++ new /\ Forall P new.
Proof. intros Hm E. destruct (Hm w) as (new & X & F). rewrite E in X. eauto. Qed.

Lemma adds_withAccount P {A} r (call : option Z -> S -> Client.Settled A * S) :
  (forall a, P (r a)) -> adds P (Client.withAccount r call).
Proof.
  intro Pr. unfold Client.withAccount.
  apply adds_bind; [apply adds_getFields|]. intro f. now apply adds_request.
Qed.

Lemma adds_getNetPositionSize contract :
  adds (S := S) notPartialClose (Client.getNetPositionSize contract).
Proof.
  unfold Client.getNetPositionSize.
  apply adds_bind; [apply adds_initialize; intros; exact Logic.I|]. intros ?.
  apply adds_bind; [apply adds_requireAccount|]. intros ?.
  apply adds_bind.
  - apply adds_withTokenRefresh; try (intros; exact Logic.I).
    apply adds_withAccount. intros; exact Logic.I.
  - intro resp. apply adds_if; [apply adds_throw|].
    destruct (List.find _ _); apply adds_ret.
Qed.

(** *** The equity *)

Lemma adds_getAccounts P :
  (forall u k, P (Client.Authenticate u k)) -> (forall l, P (Client.SearchAccounts l)) ->
  (forall t, P (Client.SignalRUpdateToken t)) ->
  (forall t a, P (Client.SignalRInitialize t a)) ->
  adds (S := S) P Client.getAccounts.
Proof.
  intros Pa Ps Pu Pi. unfold Client.getAccounts.
  apply adds_bind; [now apply adds_initialize|]. intros ?.
  apply adds_withTokenRefresh; try assumption.
  unfold Client.searchAccounts. now apply adds_request.
Qed.

(** X22 — Reading the equity trades nothing.  [getBalance] and
    [getEquity] are one computation.  Every request it makes is an
    authentication, an account search or a SignalR update: no order is
    placed or cancelled and no position is closed.  What it returns is 0 or
    a truthy value: never [null], [NaN] or an empty string, and nothing
    restricts it to finite numbers. *)
Theorem equity_is_read_without_trading (w : Client.World S) :
  Client.getBalance w = Client.getEquity w
  /\ Forall notTrading (requestsOf Client.getEquity w)
  /\ forall v w', Client.getEquity w = (Client.Returned v, w') ->
       v = Client.VNumber 0 \/ Client.truthy v = true.
Proof.
  split; [reflexivity|]. split.
  - apply requestsOf_adds. unfold Client.getEquity.
    apply adds_bind; [|intro; apply adds_ret].
    apply adds_getAccounts; intros; exact Logic.I.
  - intros v w' E. unfold Client.getEquity in E.
    apply bind_inv in E. destruct E as (accounts & w1 & _ & E).
    injection E as <- _.
    unfold Client.firstBalance. destruct accounts as [|a r]; [now left|].
    destruct (Client.truthy (Client.balance a)) eqn:T; [now right | now left].
Qed.

Lemma floor_of_positive (r : Q) : (0 < r)%Q -> (0 <= inject_Z (Qfloor r) <= r)%Q.
Proof.
  intro P. split; [|apply Qfloor_le].
  change (inject_Z 0 <= inject_Z (Qfloor r))%Q. rewrite <- Zle_Qle.
  change 0%Z with (Qfloor 0). apply Qfloor_resp_le. now apply Qlt_le_weak.
Qed.

(** X24 — [closePositionByQtySafe] never closes more than is held or more
    than was asked for.  When it returns, the requested size was a positive
    number; every partial close it sent was for the given contract and for
    exactly the size it reports as closed; a closed size that is a number is
    at least 0 and at most the requested size, and a remaining size that is
    a number is at least 0.  Nothing is promised of a size reported as
    [NaN], which is what a position row with a net size of [NaN] gives.  A
    report of nothing closed means that no partial close was sent. *)
Theorem partial_close_is_bounded (contract : string) (requested : number)
    (w w' : Client.World S) (res : Client.Closed) :
  Client.closePositionByQtySafe contract requested w = (Client.Returned res, w') ->
  let made := requestsOf (Client.closePositionByQtySafe contract requested) w in
  (exists r, requested = Fin r /\ (0 < r)%Q
             /\ (forall c, Client.closed res = Fin c -> (0 <= c <= r)%Q)
             /\ (forall m, Client.remaining res = Fin m -> (0 <= m)%Q))
  /\ Forall (partialCloseOf contract (Client.closed res)) made
  /\ (Client.closed res = Fin 0 -> Forall notPartialClose made).
Proof.
  intros E made. subst made. unfold requestsOf. rewrite E. cbn [snd].
  revert E. unfold Client.closePositionByQtySafe. intro E.
  apply bind_inv in E. destruct E as ([] & w1 & E1 & E).
  apply bind_inv in E. destruct E as ([] & w2 & E2 & E).
  destruct (adds_run notPartialClose _ _ _ _
              (adds_initialize _ (fun _ _ => Logic.I) (fun _ => Logic.I)) E1)
    as (n1 & R1 & F1).
  destruct (adds_run notPartialClose _ _ _ _ (adds_requireAccount _) E2) as (n2 & R2 & F2).
  destruct requested as [r|]; [|discriminate E].
  cbn [isFinite negb orb] in E.
  destruct (Fin r <=? Fin 0)%js eqn:Pr; [discriminate E|].
  assert (P : (0 < r)%Q) by (unfold JS.leb, JS.cmp2 in Pr; now apply Qle_bool_false in Pr).
  destruct (floor_of_positive r P) as (Fl0 & Flr).
  apply bind_inv in E. destruct E as (net & w3 & E3 & E).
  destruct (adds_run notPartialClose _ _ _ _ (adds_getNetPositionSize contract) E3)
    as (n3 & R3 & F3).
  assert (Pre : Forall notPartialClose (n1 ++ n2 ++ n3))
    by (repeat (apply Forall_app; split); assumption).
  assert (Weak : forall sz l, Forall notPartialClose l -> Forall (partialCloseOf contract sz) l).
  { intros sz l Fl. eapply Forall_impl; [exact Fl|].
    intros [] X; try exact Logic.I. contradiction X. }
  destruct (JS.abs net =? Fin 0)%js eqn:Z0.
  { injection E as <- <-. cbn [Client.closed Client.remaining].
    rewrite R3, R2, R1, <- !app_assoc, drop_app_length.
    split; [|split; [now apply Weak | intros _; exact Pre]].
    exists r. split; [reflexivity|]. split; [exact P|]. split.
    - intros c Hc. injection Hc as <-. split; [apply Qle_refl | now apply Qlt_le_weak].
    - intros m Hm. injection Hm as <-. apply Qle_refl. }
  destruct (JS.min (JS.floor (Fin r)) (JS.abs net) =? Fin 0)%js eqn:Z1.
  { injection E as <- <-. cbn [Client.closed Client.remaining].
    rewrite R3, R2, R1, <- !app_assoc, drop_app_length.
    split; [|split; [now apply Weak | intros _; exact Pre]].
    exists r. split; [reflexivity|]. split; [exact P|]. split.
    - intros c Hc. injection Hc as <-. split; [apply Qle_refl | now apply Qlt_le_weak].
    - intros m Hm. destruct net as [n|]; [|discriminate Hm]. cbn in Hm.
      injection Hm as <-. apply Qabs_nonneg. }
  apply bind_inv in E. destruct E as (response & w4 & E4 & E).
  set (size := JS.min (JS.floor (Fin r)) (JS.abs net)) in *.
  assert (A4 : adds (S := S) (partialCloseOf contract size)
                 (Client.withTokenRefresh
                    (Client.withAccount
                       (fun a => Client.PartialClosePosition a contract size)
                       (fun a => Client.apiPartialClosePosition a contract size)))).
  { apply adds_withTokenRefresh; try (intros; exact Logic.I).
    apply adds_withAccount. intro a. cbn. auto. }
  destruct (adds_run _ _ _ _ _ A4 E4) as (n4 & R4 & F4).
  destruct (negb (Client.success response)); [discriminate E|].
  injection E as <- <-. cbn [Client.closed Client.remaining].
  rewrite R4, R3, R2, R1, <- !app_assoc, drop_app_length.
  split; [|split].
  - exists r. split; [reflexivity|]. split; [exact P|]. split.
    + intros c Hc. unfold size in Hc.
      destruct net as [n|]; [|discriminate Hc]. cbn in Hc. injection Hc as <-.
      pose proof (Qabs_nonneg n) as An.
      pose proof (Qmin'_l (inject_Z (Qfloor r)) (Qabs n)) as M1.
      destruct (Qmin'_cases (inject_Z (Qfloor r)) (Qabs n)) as [X|X]; rewrite X in *; lra.
    + intros m Hm. unfold size in Hm.
      destruct net as [n|]; [|discriminate Hm]. cbn in Hm. injection Hm as <-.
      pose proof (Qmin'_r (inject_Z (Qfloor r)) (Qabs n)) as M2. lra.
  - rewrite !app_assoc. apply Forall_app. split; [|exact F4].
    rewrite <- !app_assoc. now apply Weak.
  - intro C0. rewrite C0 in Z1. discriminate Z1.
Qed.

End ClientFacts.

Lemma trading_needs_a_selected_account_witness :
  Client.selectedAccountId (Client.fields Cases.withoutAccount) = None
  /\ refused (Client.closePosition Sample.mnq) Cases.withoutAccount
  /\ refused (Client.createOrder (Client.mkOrderRequest Sample.mnq (Fin 2) (Fin 0) (Fin 1)))
             Cases.withoutAccount.
Proof.
  assert (I : Client.isInitialized (Client.fields Cases.withoutAccount) = true)
    by (vm_compute; reflexivity).
  assert (F : Client.falsyId (Client.selectedAccountId (Client.fields Cases.withoutAccount))
              = true) by (vm_compute; reflexivity).
  pose proof (trading_needs_a_selected_account Cases.withoutAccount I F)
    as (C & _ & _ & P & _).
  split; [vm_compute; reflexivity|]. split; [apply P | apply C].
Defined.


Lemma partial_close_is_bounded_witness :
  exists res w',
    Client.closePositionByQtySafe Sample.mnq (Fin 5.5) Cases.client
    = (Client.Returned res, w')
    /\ Client.closed res = Fin 3
    /\ Forall (partialCloseOf Sample.mnq (Fin 3))
              (requestsOf (Client.closePositionByQtySafe Sample.mnq (Fin 5.5)) Cases.client).
Proof.
  assert (E : Client.closePositionByQtySafe Sample.mnq (Fin 5.5) Cases.client
              = (Client.Returned (Client.mkClosed (Fin 3) (Fin 0)),
                 snd (Client.closePositionByQtySafe Sample.mnq (Fin 5.5) Cases.client)))
    by (vm_compute; reflexivity).
  exists (Client.mkClosed (Fin 3) (Fin 0)),
         (snd (Client.closePositionByQtySafe Sample.mnq (Fin 5.5) Cases.client)).
  split; [exact E|]. split; [reflexivity|].
  exact (proj1 (proj2 (partial_close_is_bounded _ _ _ _ _ E))).
Defined.

(** ** The reconcile lock *)

Section LockFacts.
Context `{Env}.

Lemma singleWriter_ext t t' : lockState t' = lockState t -> singleWriter t -> singleWriter t'.
Proof.
  unfold lockState, singleWriter. intro E. injection E as -> -> ->. auto.
Qed.

Lemma handleSignal_lock t s bar :
  fst (Trader.handleSignal t s bar) = t
  \/ (isEnteringPosition t = false /\ reconciling t = false
      /\ lockState (fst (Trader.handleSignal t s bar)) = (true, true, isFlattening t)).
Proof.
  unfold Trader.handleSignal.
  destruct (signal s); try (left; reflexivity);
    (destruct (Calc.hasPosition (calculator t)); [left; reflexivity|]);
    (destruct (isEnteringPosition t) eqn:E; [left; reflexivity|]);
    (destruct (reconciling t) eqn:R; [left; reflexivity|]); cbn [orb];
    (destruct (Trader.sameBarId _ _); [left; reflexivity|]);
    (destruct (negb _ || _); [left; reflexivity|]);
    right; repeat split; reflexivity.
Qed.

Lemma handleSignal_singleWriter t s bar :
  singleWriter t -> singleWriter (fst (Trader.handleSignal t s bar)).
Proof.
  intro W. destruct (handleSignal_lock t s bar) as [-> | (E & R & L)]; [exact W|].
  revert W. unfold singleWriter, lockState in *. injection L as -> -> ->.
  rewrite E, R. destruct (isFlattening t); [discriminate | reflexivity].
Qed.

Lemma checkIntraBarSignal_singleWriter t px now :
  singleWriter t -> singleWriter (fst (Trader.checkIntraBarSignal t px now)).
Proof.
  intro W. unfold Trader.checkIntraBarSignal.
  destruct (barStartMs t); [|exact W].
  destruct (Calc.evaluateFormingBar _ _ _ _ _) as [[calc ms] s].
  destruct (negb _); [apply handleSignal_singleWriter|]; exact W.
Qed.

Lemma intraBarCheck_singleWriter t px now :
  singleWriter t -> singleWriter (fst (Trader.intraBarCheck t px now)).
Proof.
  intro W. unfold Trader.intraBarCheck.
  destruct (_ && _ && _); [|exact W].
  destruct (_ <=? _)%Z; [apply checkIntraBarSignal_singleWriter|]; exact W.
Qed.

Lemma protectiveExits_singleWriter t px now t' fx :
  Trader.protectiveExits t px now = Some (t', fx) -> singleWriter t -> singleWriter t'.
Proof.
  unfold Trader.protectiveExits, singleWriter.
  destruct (Calc.hasPosition (calculator t)); cbn [andb].
  - destruct (isFlattening t) eqn:F; cbn [negb].
    + intro E. injection E as <- <-. now rewrite F.
    + destruct (reconciling t) eqn:R; [discriminate|].
      destruct (Calc.onTickForProtectiveStops _ _ _) as [calc hit].
      destruct hit; intro E; injection E as <- <-; cbn; rewrite ?F, ?R;
        destruct (isEnteringPosition t); auto; discriminate.
  - intro E. injection E as <- <-. auto.
Qed.

Lemma closeBarAndProcess_singleWriter t :
  singleWriter t -> singleWriter (fst (Trader.closeBarAndProcess t)).
Proof.
  intro W. unfold Trader.closeBarAndProcess.
  destruct (barStartMs t); [|exact W]. destruct (barOpenPx t); [|exact W].
  destruct (barHighPx t); [|exact W]. destruct (barLowPx t); [|exact W].
  destruct (lastPriceByContract t !! contractId t) as [[cq|]|]; try exact W.
  cbv zeta. destruct (Calc.processNewBar _ _ _) as [[calc2 ms] s].
  match goal with
  | |- context [if ?b then Trader.handleSignal ?t2 ?s0 ?cb else _] =>
      pose proof (handleSignal_singleWriter t2 s0 cb W) as HS;
      destruct b; [destruct (Trader.handleSignal t2 s0 cb) as [t3 fx3]|]
  end; cbn [fst] in *; [exact HS | exact W].
Qed.

Lemma bucketing_singleWriter t cid px now :
  singleWriter t -> singleWriter (fst (Trader.bucketing t cid px now)).
Proof.
  intro W. unfold Trader.bucketing.
  destruct (barStartMs t); [|exact W].
  destruct (_ <? _)%Z; [|exact W].
  pose proof (closeBarAndProcess_singleWriter t W) as C.
  destruct (Trader.closeBarAndProcess t) as [tc fx]. exact C.
Qed.

Lemma accumulate_singleWriter t cid px cum now :
  singleWriter t -> singleWriter (Trader.accumulate t cid px cum now).
Proof.
  apply singleWriter_ext. unfold Trader.accumulate.
  destruct (lastCumVolByContract t !! cid) as [pc|]; [destruct (cum >=? pc)%js|]; reflexivity.
Qed.

Lemma onQuote_singleWriter t q now :
  singleWriter t -> singleWriter (fst (Trader.onQuote t q now)).
Proof.
  intro W. unfold Trader.onQuote.
  destruct (negb (running t)); [exact W|].
  destruct (negb (String.eqb _ _)); [exact W|].
  destruct (negb (isFinite (lastPrice q))); [exact W|].
  pose proof (bucketing_singleWriter t (quoteContractId q) (lastPrice q) now W) as B.
  destruct (Trader.bucketing t (quoteContractId q) (lastPrice q) now) as [t1 fx1].
  cbn [fst] in B.
  pose proof (accumulate_singleWriter t1 (quoteContractId q) (lastPrice q)
                (quoteVolume q ?? Fin 0) now B) as A.
  destruct (Trader.protectiveExits _ _ _) as [[t5 fx2]|] eqn:P; [|exact A].
  pose proof (protectiveExits_singleWriter _ _ _ _ _ P A) as X.
  pose proof (intraBarCheck_singleWriter t5 (lastPrice q) now X) as I.
  destruct (Trader.intraBarCheck t5 (lastPrice q) now) as [t6 fx3]. exact I.
Qed.

Lemma maybeCloseBarByClock_singleWriter t now :
  singleWriter t -> singleWriter (fst (Trader.maybeCloseBarByClock t now)).
Proof.
  intro W. unfold Trader.maybeCloseBarByClock.
  destruct (negb (running t)); [exact W|].
  destruct (barStartMs t); [|exact W].
  destruct (_ <? _)%Z; [|exact W].
  destruct (lastPriceByContract t !! contractId t) as [[lq|]|]; try exact W.
  pose proof (closeBarAndProcess_singleWriter t W) as C.
  destruct (Trader.closeBarAndProcess t) as [tc fx]. exact C.
Qed.

Lemma step_singleWriter s e :
  locked s -> singleWriter (Coordinator.trader s) ->
  singleWriter (Coordinator.trader (fst (Coordinator.step s e))).
Proof.
  intros (LE & LF) W.
  destruct e as [q now|now|bal|ok now|ok]; unfold Coordinator.step.
  - apply onQuote_singleWriter, W.
  - apply maybeCloseBarByClock_singleWriter, W.
  - destruct (Coordinator.entryInFlight s) as [[p|p qty]|] eqn:F; try exact W.
    assert (E : isEnteringPosition (Coordinator.trader s) = true) by (apply LE; discriminate).
    unfold Trader.handleSignal_afterEquity. destruct bal; [exact W|].
    revert W. unfold singleWriter, Trader.entryFailed. cbn. rewrite E.
    destruct (isFlattening (Coordinator.trader s)); [contradiction | reflexivity].
  - destruct (Coordinator.entryInFlight s) as [[p|p qty]|] eqn:F; try exact W.
    assert (E : isEnteringPosition (Coordinator.trader s) = true) by (apply LE; discriminate).
    unfold Trader.handleSignal_afterOrder.
    revert W. unfold singleWriter, Trader.entryFailed.
    destruct ok; cbn; rewrite E;
      (destruct (isFlattening (Coordinator.trader s)); [contradiction | reflexivity]).
  - destruct (Coordinator.flattenInFlight s) eqn:F; [|exact W].
    assert (E : isFlattening (Coordinator.trader s) = true) by (apply LF; reflexivity).
    unfold Trader.flattenSettled.
    revert W. unfold singleWriter.
    destruct ok; cbn; rewrite E;
      (destruct (isEnteringPosition (Coordinator.trader s)); [contradiction | reflexivity]).
Qed.

(** X25 — The reconcile lock has a single writer.  From the start of a
    session on, after every event, the lock is held exactly while an entry
    attempt or a flatten is in progress, and an entry attempt and a flatten
    are never in progress together. *)
Theorem reconcile_lock_has_single_writer (cfg : StrategyConfig) (calc : Calculator)
    (cid sym : string) (evs : list Coordinator.Event) :
  let t := Coordinator.trader (fst (Coordinator.run (Coordinator.initial cfg calc cid sym) evs)) in
  singleWriter t
  /\ (reconciling t = true <-> isEnteringPosition t = true \/ isFlattening t = true)
  /\ ~ (isEnteringPosition t = true /\ isFlattening t = true).
Proof.
  intro t.
  assert (W : singleWriter t).
  { assert (G : forall evs0 s0,
               locked s0 -> singleWriter (Coordinator.trader s0) ->
               singleWriter (Coordinator.trader (fst (Coordinator.run s0 evs0)))).
    { induction evs0 as [|e r IH]; intros s0 L0 W0; [exact W0|].
      rewrite run_cons. cbn [fst].
      apply IH; [now apply step_locked | now apply step_singleWriter]. }
    unfold t. apply G.
    - split; simpl; [intro N; exfalso; apply N; reflexivity | discriminate].
    - reflexivity. }
  split; [exact W|]. revert W. unfold singleWriter.
  destruct (isEnteringPosition t), (isFlattening t), (reconciling t);
    intro W; try contradiction; try discriminate; split; try tauto;
    try (split; [intros _; auto | auto]); try (intros [? ?]; discriminate).
Qed.

End LockFacts.

(** ** Well-formed histories, and the history an entry needs *)

Section HistoryNeeds.
Context `{Env}.
Local Open Scope Z_scope.

Lemma withDelta_wellFormed d b : wellFormedBar b -> wellFormedBar (Calc.withDelta d b).
Proof. intros (o & h & l & c & W). exists o, h, l, c. exact W. Qed.

Lemma merged_wellFormed last_ bar vol dl :
  wellFormedBar last_ -> wellFormedBar bar ->
  wellFormedBar (mkBar (timestamp last_) (open last_)
                       (JS.max (high last_) (high bar)) (JS.min (low last_) (low bar))
                       (close bar) vol dl).
Proof.
  intros (o & h & l & c & Eo & Eh & El & Ec & (Lo & Ho) & _)
         (o' & h' & l' & c' & Eo' & Eh' & El' & Ec' & _ & (Lc & Hc)).
  exists o, (JS.Qmax' h h'), (JS.Qmin' l l'), c'.
  cbn [open high low close]. rewrite Eo, Eh, El, Eh', El', Ec'. cbn.
  repeat split; try reflexivity.
  - eapply Qle_trans; [apply Qmin'_l | exact Lo].
  - eapply Qle_trans; [exact Ho | apply Qmax'_l].
  - eapply Qle_trans; [apply Qmin'_r | exact Lc].
  - eapply Qle_trans; [exact Hc | apply Qmax'_r].
Qed.

Lemma last_Forall {A} (P : A -> Prop) (l : list A) x :
  Forall P l -> last l = Some x -> P x.
Proof.
  intros F E. rewrite last_lookup in E. rewrite Forall_lookup in F. exact (F _ _ E).
Qed.

Lemma updateHigherTimeframeBars_wellFormed bar c :
  wellFormedBar bar -> Forall wellFormedBar (bars15min c) ->
  Forall wellFormedBar (bars15min (Calc.updateHigherTimeframeBars bar c)).
Proof.
  intros Wb F. unfold Calc.updateHigherTimeframeBars, lastOf.
  destruct (last (bars15min c)) as [b|] eqn:E.
  - match goal with |- context [if ?a then _ else _] => destruct a end; cbn.
    + now apply pushCapped_Forall.
    + apply Forall_app. split.
      * rewrite removelast_firstn_len. now apply Forall_take.
      * constructor; [|constructor]. apply merged_wellFormed; [|exact Wb].
        exact (last_Forall _ _ _ F E).
  - cbn. now apply pushCapped_Forall.
Qed.

Lemma generateSignal_config c bar ms g :
  config (fst (Calc.generateSignal c bar ms g)) = config c.
Proof. unfold Calc.generateSignal. split_all. Qed.

(** What a bar close after warm-up stores. *)
Lemma processNewBar_stored c incoming ms :
  isWarmUpProcessed c = true ->
  let prev := match lastOf (bars3min c) with Some b => close b | None => NaN end in
  let bar := Calc.withDelta (Calc.normalizedDelta prev incoming) incoming in
  let c2 := Calc.updateHigherTimeframeBars bar
              (set_bars3min (pushCapped 2000 (bars3min c) bar) c) in
  let c' := fst (fst (Calc.processNewBar c incoming ms)) in
  bars3min c' = pushCapped 2000 (bars3min c) bar
  /\ bars15min c' = bars15min c2
  /\ config c' = config c.
Proof.
  intros W prev bar c2 c'. subst c'. unfold Calc.processNewBar. rewrite W. cbn [negb].
  fold prev. fold bar. fold c2.
  destruct (updateHigherTimeframeBars_frame bar
              (set_bars3min (pushCapped 2000 (bars3min c) bar) c)) as (Ec & Eb & _).
  fold c2 in Ec, Eb. cbn in Ec, Eb.
  destruct (negb (Calc.isInTradingSession c2 (timestamp incoming))); [auto|].
  destruct (Calc.checkExitConditions c2 bar); [auto|].
  match goal with
  | |- context [Calc.generateSignal c2 bar ?m ?g] =>
      pose proof (generateSignal_histories c2 bar m g) as (G1 & G2);
      pose proof (generateSignal_config c2 bar m g) as G3;
      destruct (Calc.generateSignal c2 bar m g) as [c3 s]
  end.
  cbn [fst] in *. rewrite G1, G2, G3. auto.
Qed.

Lemma apply_historiesWellFormed c op :
  feedsWellFormed op -> historiesWellFormed c -> historiesWellFormed (Lifetime.apply c op).
Proof.
  intros Fe (F3 & F15). unfold historiesWellFormed.
  destruct op as [px now|incoming ms|fb ms acc now|d ts| | |a|bar tf|]; cbn in Fe |- *.
  - destruct (onTick_histories px now c) as (-> & ->). now split.
  - destruct (isWarmUpProcessed c) eqn:W.
    + destruct (processNewBar_stored c incoming ms W) as (-> & -> & _).
      assert (Wb : wellFormedBar
                     (Calc.withDelta
                        (Calc.normalizedDelta
                           match lastOf (bars3min c) with
                           | Some b => close b
                           | None => NaN
                           end incoming) incoming)) by now apply withDelta_wellFormed.
      split; [now apply pushCapped_Forall|].
      apply updateHigherTimeframeBars_wellFormed; [exact Wb | exact F15].
    + unfold Calc.processNewBar. rewrite W. now split.
  - destruct (evaluateFormingBar_histories c fb ms acc now) as (-> & ->). now split.
  - now split.
  - now split.
  - now split.
  - now split.
  - unfold Calc.processWarmUpBar.
    destruct tf; cbn; (split; [|]); try assumption;
      apply pushCapped_Forall; try assumption; now apply withDelta_wellFormed.
  - now split.
Qed.

(** X26 — Well-formed bars make well-formed histories.  If both histories
    hold only bars with finite prices whose open and close lie between low
    and high, and every bar fed at warm-up or at a bar close is such a bar,
    then both histories still hold only such bars after any sequence of
    calls: merging a bar into the forming higher-timeframe bar keeps its
    open, widens its range and moves its close. *)
Theorem well_formed_bars_make_well_formed_histories (c : Calculator)
    (ops : list Lifetime.Op) :
  historiesWellFormed c -> Forall feedsWellFormed ops ->
  historiesWellFormed (Lifetime.applyAll c ops).
Proof.
  intros W F. unfold Lifetime.applyAll. revert c W.
  induction F as [|op r Fo _ IH]; intros c W; [exact W|].
  cbn. apply IH. now apply apply_historiesWellFormed.
Qed.

End HistoryNeeds.

Lemma well_formed_bars_make_well_formed_histories_witness :
  historiesWellFormed (newCalculator Sample.MNQ_DELTA_TREND_CONFIG)
  /\ Forall feedsWellFormed Cases.barsWithoutDelta
  /\ historiesWellFormed
       (Lifetime.applyAll (newCalculator Sample.MNQ_DELTA_TREND_CONFIG)
                          Cases.barsWithoutDelta).
Proof.
  assert (W : historiesWellFormed (newCalculator Sample.MNQ_DELTA_TREND_CONFIG))
    by (split; constructor).
  assert (F : Forall feedsWellFormed Cases.barsWithoutDelta).
  { unfold Cases.barsWithoutDelta.
    constructor; [|constructor; [|constructor; [exact I | constructor]]].
    - exists 100%Q, 101%Q, 99%Q, 100%Q.
      repeat split; try reflexivity; cbv; discriminate.
    - exists 100%Q, 102%Q, 100%Q, 101%Q.
      repeat split; try reflexivity; cbv; discriminate. }
  split; [exact W|]. split; [exact F|].
  exact (well_formed_bars_make_well_formed_histories _ _ W F).
Defined.

(** ** What a bar-close entry needs *)

Section EntryNeeds.
Context `{Env}.
Local Open Scope Z_scope.

Lemma slice_length {A} (l : list A) s e : (length (slice l s e) <= length l)%nat.
Proof. unfold slice. rewrite length_firstn, length_skipn. lia. Qed.

Lemma determineTrend_needs c :
  Calc.determineTrend c <> neutral ->
  2 <= Z.of_nat (length (bars15min c))
  /\ Z.max 1 (htfEMALength (config c) ?? 9) <= Z.of_nat (length (bars15min c)).
Proof.
  unfold Calc.determineTrend. cbv zeta.
  destruct (Z.of_nat (length (bars15min c)) <? 2) eqn:E2; [congruence|].
  destruct ((if htfUseForming (config c) then _ else _) <? 0); [congruence|].
  match goal with
  | |- context [Z.of_nat (length (close <$> slice ?l ?s ?e)) <? ?L] =>
      destruct (Z.of_nat (length (close <$> slice l s e)) <? L) eqn:EL;
        [congruence|]; pose proof (slice_length l s e) as SL
  end.
  rewrite length_fmap in EL. intros _. lia.
Qed.

Lemma checkBreakoutCloseTol_needs c :
  Calc.brokeUpCloseTol (Calc.checkBreakoutCloseTol c) = true
  \/ Calc.brokeDownCloseTol (Calc.checkBreakoutCloseTol c) = true ->
  Z.max 1 (breakoutLookbackBars (config c) ?? 20) + 1 <= Z.of_nat (length (bars3min c)).
Proof.
  unfold Calc.checkBreakoutCloseTol. cbv zeta.
  destruct (Z.of_nat (length (bars3min c)) <? _) eqn:E; [cbn; intros [?|?]; discriminate|].
  intros _. lia.
Qed.

Lemma checkLtfEmaFilter_needs c :
  useEmaFilter (config c) = true ->
  Calc.passLong (Calc.checkLtfEmaFilter c) = true
  \/ Calc.passShort (Calc.checkLtfEmaFilter c) = true ->
  Z.max 1 (emaLength (config c) ?? 21) <= Z.of_nat (length (bars3min c)).
Proof.
  intro U. unfold Calc.checkLtfEmaFilter. rewrite U. cbn [negb]. cbv zeta.
  rewrite length_fmap.
  destruct (Z.of_nat (length (bars3min c)) <? _) eqn:E; [cbn; intros [?|?]; discriminate|].
  intros _. lia.
Qed.

(** The gates an answer other than hold has passed. *)
Lemma generateSignal_entry c bar ms g :
  signal (snd (Calc.generateSignal c bar ms g)) <> hold ->
  isFinite (atr ms) = true
  /\ (atr ms >? Fin (minAtrToTrade (config c) ?? 0%Q))%js = true
  /\ isFinite (Calc.smaSignedDelta c (Z.max 1 (deltaSMALength (config c) ?? 20))
                 (Z.of_nat (length (bars3min c)) - 1)) = true
  /\ higherTimeframeTrend ms <> neutral
  /\ (Calc.gBrokeUp g = true \/ Calc.gBrokeDown g = true)
  /\ (useEmaFilter (config c) = true ->
      Calc.gPassLong g = true \/ Calc.gPassShort g = true).
Proof.
  unfold Calc.generateSignal. cbv zeta.
  destruct (Calc.sameTimestamp _ _); [cbn; congruence|].
  destruct (isFinite (atr ms)) eqn:F; [|cbn; congruence].
  destruct (atr ms >? Fin (minAtrToTrade (config c) ?? 0%Q))%js eqn:A; [|cbn; congruence].
  cbn [andb negb].
  destruct (isFinite (Calc.smaSignedDelta c _ _)) eqn:S; [|cbn; congruence].
  cbn [negb].
  destruct (Calc.barCloseFade c _); [cbn; congruence|].
  destruct (higherTimeframeTrend ms) eqn:TR;
  destruct (Calc.gBrokeUp g) eqn:BU; destruct (Calc.gBrokeDown g) eqn:BD;
  destruct (useEmaFilter (config c)) eqn:UE;
  destruct (Calc.gPassLong g) eqn:PL; destruct (Calc.gPassShort g) eqn:PS;
  cbn [Calc.isTrend andb negb];
  rewrite ?andb_true_r, ?andb_false_r;
  repeat match goal with
         | |- context [if ?b then _ else _] => destruct b
         end;
  cbn; intro N; try (now elim N);
  repeat split; try reflexivity; try discriminate; auto.
Qed.

(** X27 — A bar-close entry needs history.  With no position open,
    [processNewBar] answers buy or sell only after warm-up, inside the
    trading session, and when the histories it leaves behind are long enough
    for every gate: the delta average, the breakout window, the
    higher-timeframe EMA and, with the filter on, the EMA of the closes.  If
    the configured ATR minimum is not negative, the history also holds
    fifteen bars with finite prices and its ATR is above the minimum. *)
Theorem bar_close_entry_needs_history (c : Calculator) (incoming : BarData)
    (ms : MarketState) :
  currentPosition c = None ->
  let r := Calc.processNewBar c incoming ms in
  let c' := fst (fst r) in
  signal (snd r) <> hold ->
  isWarmUpProcessed c = true
  /\ Calc.isInTradingSession c (timestamp incoming) = true
  /\ enoughHistory c'
  /\ ((0 <= minAtrToTrade (config c) ?? 0)%Q -> atrAboveMinimum c').
Proof.
  intros P r c'. subst c' r. unfold Calc.processNewBar.
  destruct (isWarmUpProcessed c) eqn:W; [|cbn; congruence].
  cbn [negb]. cbv zeta.
  set (bar := Calc.withDelta _ incoming).
  set (c1 := set_bars3min _ c).
  set (c2 := Calc.updateHigherTimeframeBars bar c1).
  destruct (updateHigherTimeframeBars_frame bar c1) as (Ec & Eb & El).
  fold c2 in Ec, Eb, El.
  assert (Ec' : config c2 = config c) by (rewrite Ec; reflexivity).
  rewrite (isInTradingSession_config c c2 _ Ec').
  destruct (Calc.isInTradingSession c (timestamp incoming)) eqn:IS; [|cbn; congruence].
  cbn [negb].
  assert (X : Calc.checkExitConditions c2 bar = None).
  { unfold Calc.checkExitConditions.
    replace (currentPosition c2) with (currentPosition c); [now rewrite P|].
    unfold c2, Calc.updateHigherTimeframeBars. split_all. }
  rewrite X.
  match goal with
  | |- context [Calc.generateSignal c2 bar ?m ?g] =>
      pose proof (generateSignal_histories c2 bar m g) as (G1 & G2);
      pose proof (generateSignal_config c2 bar m g) as G3;
      pose proof (generateSignal_entry c2 bar m g) as GE;
      destruct (Calc.generateSignal c2 bar m g) as [c3 s]
  end.
  cbn [fst snd] in *. intro N.
  destruct (GE N) as (F & A & S & T & B & E). clear GE.
  split; [reflexivity|]. split; [reflexivity|].
  apply smaSignedDelta_needs in S.
  apply determineTrend_needs in T.
  apply checkBreakoutCloseTol_needs in B.
  split.
  - unfold enoughHistory. cbv zeta. rewrite G1, G2, G3.
    repeat split; try tauto.
    intro U. apply checkLtfEmaFilter_needs; [exact U | exact (E U)].
  - intro M. unfold atrAboveMinimum.
    replace (Calc.calculateATR c3) with (Calc.calculateATR c2)
      by (unfold Calc.calculateATR; rewrite G1; reflexivity).
    rewrite G1, G3.
    destruct (Calc.calculateATR c2) as [a|] eqn:CA.
    + cbn [isFinite] in A. repeat split; [exact A|].
      destruct (le_lt_dec 15 (length (List.filter Calc.validOHLC (bars3min c2)))) as [L|L];
        [exact L|].
      rewrite (calculateATR_short c2 L) in CA. discriminate.
    + exfalso. cbn [isFinite] in A. cbn in A.
      apply Qlt_bool_true in A. rewrite Ec' in A.
      apply (Qlt_not_le _ _ A M).
Qed.

End EntryNeeds.

Lemma bar_close_entry_needs_history_witness :
  currentPosition Sample.history = None
  /\ signal (snd (Calc.processNewBar Sample.history Cases.entryBar Cases.firstClose)) <> hold
  /\ isWarmUpProcessed Sample.history = true
  /\ Calc.isInTradingSession Sample.history (timestamp Cases.entryBar) = true
  /\ enoughHistory
       (fst (fst (Calc.processNewBar Sample.history Cases.entryBar Cases.firstClose)))
  /\ ((0 <= minAtrToTrade (config Sample.history) ?? 0)%Q ->
      atrAboveMinimum
        (fst (fst (Calc.processNewBar Sample.history Cases.entryBar Cases.firstClose)))).
Proof.
  assert (P : currentPosition Sample.history = None) by (vm_compute; reflexivity).
  assert (N : signal (snd (Calc.processNewBar Sample.history Cases.entryBar
                             Cases.firstClose)) <> hold)
    by (vm_compute; discriminate).
  split; [exact P|]. split; [exact N|].
  exact (bar_close_entry_needs_history Sample.history Cases.entryBar Cases.firstClose P N).
Defined.
